(* ===== verification/_CoqProject ===== *)
-Q . S2P
Prelude.v
GoStrings.v
GoStrconv.v
Rounding.v
GoFmt.v
GoTime.v
GoJson.v
Model.v
Schemas.v
Gap.v
Encode.v
Metrics.v
Tracing.v
Sink.v
Pipeline.v
Delivery.v
Venue.v
Binance.v
Coinbase.v
Kraken.v
Evm.v
Runner.v
Cancel.v
Dial.v
Registry.v
Config.v
Settings.v
Logger.v
Ingestd.v
Lifecycle.v
Observability.v
System.v
Shutdown.v
GoRand.v
Topicbench.v
Quotegen.v
TreeMap.v
OrderBook.v
BookFunction.v
Aggregates.v
Divergence.v
Signing.v
RateLimiter.v
RateDouble.v
Authenticator.v
Broadcaster.v
Fanout.v
Codec.v
StreamConfig.v
Lakehouse.v
Quotes.v
Serving.v
EndToEnd.v
EventTime.v
Jobs.v
Transport.v
Served.v
GrpcServer.v
