(* ===== verification/Prelude.v ===== *)
(** * Tapeline: a verification development

    Tapeline ingests market data. The Go program [ingestd] (src/ingest) reads the
    WebSocket feeds of three exchanges and the logs of an EVM chain, turns every
    venue's messages into one event type, checks that no message of a stream is
    missing, frames each event as Avro with the id of a registered schema, and
    publishes it to Kafka. The stream tier (src/stream, Scala on Flink) keeps order
    books of the deltas and derives quotes; the serving tier (src/serving, Java)
    hands them to clients that sign their requests. Two Go commands (src/tools)
    generate load and measure topic layouts. This development models the Go programs
    as a whole, the operators of the stream tier with their codec, and the serving
    tier, and proves what they promise, each on its own and from the exchange's deltas
    to the quote a client is answered with. This file is the root: this header
    documents the whole, the rest of the file is the prelude every other file uses.

    ** Data flow and files

    A [venue.Runner] (one goroutine per source) dials, subscribes, and sends what
    its [Decoder] makes of each frame to one channel; [pipeline.Run] receives from
    it, asks the [gap.Detector], frames, batches and publishes. The files, bottom up:

    - Prelude.v: Go errors, results with panics ([res]), machine integers, time,
      tactics and lemmas.
    - GoStrings.v, GoStrconv.v, GoFmt.v, GoTime.v, GoJson.v: the functions of Go's
      standard library the program calls, written after their documentation and
      sources: byte strings, number parsing and IEEE doubles, the formatting of
      numbers and durations, RFC 3339 times and durations, JSON text and its
      decoding into structs.
    - Rounding.v: the doubles as rational numbers, and what an operation on them rounds.
    - Model.v: internal/model/model.go, the event types. [event_wf] says that the
      pointer of the kind is set and agrees with the event.
    - Schemas.v: schemas/embed.go and the .avsc files.
    - Gap.v: internal/gap/detector.go. [Observe], [Reset], [ResetVenue].
    - Encode.v: internal/encode/avro.go. [NewEncoder], [Encode], [SplitHeader].
    - Metrics.v, Tracing.v: internal/metrics, internal/tracing. Metrics are values a
      component returns; trace context is a map of headers.
    - Sink.v: internal/sink/kafka.go. The class [Producer] is the interface the
      pipeline uses; [AtomicProducer] and [QuietProducer] are what it may assume,
      with instances for the memory producer and, for the second, Kafka's;
      [WriterLog] is what the tools assume of a Kafka writer.
    - Pipeline.v: internal/pipeline/pipeline.go. [Run] is [loop] over [input]s (an
      event, a tick, the closed channel, the cancelled context), [on_event] the
      case of an event, [flush] the closure of that name; the local variables are
      the record [state].
    - Delivery.v: the pipeline over a producer that may write part of a publish that
      fails, or a part twice, or after it gave up ([KeyedLog], kept by [KafkaProducer]
      over a [KafkaBroker]).
    - Venue.v: the parsing helpers and [Backoff] of internal/venue/venue.go, and the
      class [Decoder] with its laws [LawfulDecoder].
    - Binance.v, Coinbase.v, Kraken.v, Evm.v: the four decoders, each an instance.
      [Decode] is a function of the adapter's state, the frame and the clock.
    - Runner.v: [Runner.Run] and [session] of venue.go, against the class [Decoder],
      as functions of a script of the environment's answers; [life] is the grammar of a
      connection. Cancel.v: where a cancelled context stops them, and what a runner still
      does when it is cancelled while frames keep coming ([halted]). Dial.v:
      [GorillaDialer], whose answer is the first of a session's script.
    - Registry.v: internal/schema/registry.go. Config.v: internal/config/config.go.
      Settings.v: the environment of a configuration ([env_of]). Logger.v: the log level of cmd/ingestd/main.go.
    - Ingestd.v: cmd/ingestd/main.go and [RegisterSchemas]: [startup] composes the
      components as [run] does, and [sys_step] is the running system, in which the
      runners and the pipeline interleave over the channel and share the detector.
    - Lifecycle.v: [run] and [main] of cmd/ingestd/main.go with their deferred calls:
      what is acquired, started, logged and released on each path, and the exit code.
    - System.v: the whole program. A [world] holds what is left of every runner's
      trace and the system of Ingestd.v; [world_step] lets any runner or the
      pipeline move, [world_exec] is the same as a function of the schedule.
    - Shutdown.v: [proc_step], the program of System.v with the signal, the last
      publish of the pipeline, the wait for the runners and the exit.
    - Observability.v: every metric call of a run against the declared collectors.
    - GoRand.v, Topicbench.v, Quotegen.v: the commands src/tools/topicbench and
      src/tools/quotegen, over math/rand and the Kafka writer.
    - TreeMap.v: Scala's sorted map as an ordered list, for the class [TotalCompare]
      of total orders, with doubles and their reverse as instances. OrderBook.v:
      book/OrderBook.scala and the events it uses; [apply] is one delta. BookFunction.v:
      functions/BookFunction.scala, the keyed operator, as a function of the sequence
      of Flink's calls ([op_run]). Aggregates.v: stats/Aggregates.scala and the bars of
      functions/TradeWindow.scala ([bars]). Divergence.v: stats/RollingStats.scala,
      divergence/Divergence.scala and functions/DivergenceFunction.scala ([div_run]).
    - Signing.v, RateLimiter.v, RateDouble.v, Authenticator.v: package security and
      grpc/AuthInterceptor.java of the serving tier: the canonical string and its
      signature, the token bucket with its Lua script, and [authenticate] and
      [interceptCall] over the cache of keys, the nonces and the buckets.
      Broadcaster.v: quotes/QuoteBroadcaster.java, whose subscriptions are threads of
      atomic actions over shared sets; [brun] runs any schedule of them. Fanout.v: its
      publishers beside them, each walking a set with an iterator ([prun]).
    - Codec.v: serde/Codec.scala, functions/Mappers.scala and the schemas of the stream
      tier's topics; [payload_record] is the record of a Go payload. StreamConfig.v:
      config/StreamConfig.scala and TapelineJob.scala. Lakehouse.v: the rows of
      lakehouse/Lakehouse.scala and jobs/BackfillJob.scala. Quotes.v: package
      avro, QuoteSnapshot.java and QuoteCache.java of the serving tier over Redis
      hashes with deadlines. Serving.v: QuoteConsumer.java, MarketDataService.java,
      WindowQueryService.java and MarketDataController.java; the consumer and the
      listener of a stream are functions ([handle], [accept]) and threads of atomic
      actions under any schedule ([crun], [lrun]). EndToEnd.v: the book job
      ([book_job]) between the Go tier's deltas and the serving tier's cache.
    - EventTime.v: elements and watermarks, the window operator the jobs rely on (the
      class [EventTimeWindows] with [LawfulWindows], kept by [pane_operator]) and what
      bounds a watermark ([bounded_by]). Jobs.v: TradesJob, LakehouseJob, BackfillJob,
      DivergenceJob and MonolithicJob as functions of what their sources yield.
      Transport.v: pipeline/Connectors.scala, pipeline/FlinkEnv.scala and
      tracing/Tracing.java: sources, sinks, records, headers and partitions. Served.v: the
      book job, the partitioned topic, the consumer threads and the cache as one.
      GrpcServer.v: grpc/GrpcServerRunner.java.

    ** What the theorems show

    - Continuity (Gap): the detector, under any interleaving of its operations, is
      on every stream an automaton over mathematical integers
      ([detector_refines_streams]); its counts of missing messages are exact
      ([gap_accounting]); nothing is accepted twice
      ([accepted_strictly_increasing]).
    - Delivery (Pipeline): with a producer that fails at will, what was
      acknowledged and what is retained is an ordered selection of the framed
      messages with exactly [Dropped] missing ([pipeline_delivery]), none missing
      while they fit the bound ([pipeline_no_loss]); on a broker that keeps parts of
      failed writes, repeats messages and writes late, every message but the dropped ones
      is in its log ([pipeline_at_least_once], in Delivery.v); the batch is bounded, every
      event is counted once, the metrics agree with the statistics, and framing a
      well-formed event does not panic.
    - Wire format (Encode, Schemas): frames are read back, malformed ones are
      classified, and the embedded schemas fit the Go structs and evolve.
    - Decoders (Binance, Coinbase, Kraken, Evm): events are well formed and
      faithful to the frame, sequences are what the detector needs
      ([depth_gaps_exact], [evm_block_sequences], [coinbase_frame_sequence]), and
      symbols survive the venue's spelling.
    - Connections (Venue, Runner): every connection is subscribed, announced, read with a
      deadline before each read and closed, in that order, and what is sent between two
      reads are the events of that frame ([runner_connection_life]); the waits are the doubled
      base up to the cap, whatever [math.Pow] overflows to.
    - The whole program (System): in every execution what the pipeline received is a
      prefix of what the runners sent, each runner's events are those of its frames,
      and what the producer acknowledged is an ordered selection of them
      ([system_delivery]); from every reachable state a schedule completes all work
      ([system_drains]). After a signal, however many frames still come, it exits
      within a number of steps that depends on the frame or dial of the moment only
      ([shutdown_terminates]), with every received event published or counted and
      the events still in the channel lost ([shutdown_delivery]); a runner that is
      stopped closes its connection ([cancelled_run_is_run]). No metric call panics ([metrics_never_panic]).
    - Startup (Registry, Config, Ingestd, Logger): a registered id is cached,
      a registration carries the schema byte for byte, [Load] reads every configuration
      back from its environment ([load_reads_back]) and returns only what passes
      [Validate] ([Load_ok]), a started program frames every event of every kind
      ([startup_ready]), no interleaving gets stuck ([system_progress]), and every
      path through [run], a panic included, releases what it acquired, in reverse order
      ([run_cleans_up]).
    - Tools (Topicbench, Quotegen): the benchmark writes the same records to both
      layouts and its two consumers end with what they asked for
      ([same_records_both_layouts], [read_amplification]), and the results file it
      writes reads back as its figures ([results_read_back]); the generator delivers
      its messages in order ([generator_delivery]), its records are numbered, framed
      and fit their schemas ([generated_records], [generator_structs_fit]).
    - Order books (OrderBook, BookFunction): a book lists exactly the prices whose
      latest update is positive, best first ([full_book_exact]); trimming and
      checkpoints keep its top while few levels are removed ([trimmed_book_exact]);
      the operator is one such book per key and quotes only what that book shows,
      never crossed and never twice in a row ([operator_refines_books]), and a key
      always has a timer pending ([operator_never_mute]).
    - Bars and alerts (Aggregates, Divergence): a bar is exact ([aggregate_exact]), the
      order of arrival changes nothing but the order of the sums unless one event time
      has two prices ([replay_same_bars], [merge_of_parts]), so a backfill from the
      lakehouse gives the bars of the live job ([backfill_same_bars]). Event time included:
      the live job emits exactly the bars of its closed windows unless a trade is later than
      its bound ([live_bars_exact]), a backfill of up to a day is complete in every scan
      order ([day_backfill_complete]), and both agree in all but the rounding of volume
      and VWAP, which are sums of the same terms in two orders ([kappa_loop]); the divergence
      operator is a function of the history ([detector_is_history]).
    - Jobs (StreamConfig): what is validated ([validated_exact]) and that it lets the
      book operator run ([validated_accepts_deltas]); jobs do not fence each other
      ([jobs_do_not_fence], [sinks_do_not_fence]), and the job split gives the alerts of
      the job fused ([split_is_fused]).
    - The gRPC server (GrpcServer): one server listens while the runner is running and
      none otherwise ([one_server]), and a stop ends it ([stop_ends_server]).
    - Authentication (Signing, RateLimiter, RateDouble, Authenticator): a signature is bound to
      its request ([signature_binds_request]); admission is bounded by capacity plus
      refill, whatever the clocks, in doubles up to their rounding ([admission_bounded])
      and exactly in rationals ([exact_admission_bounded]), where a denied
      caller is told the truth ([retry_after_honest]); only a genuine signature starts a call or has
      an effect ([interceptor_gates_effects]), is used once but for the edges of its
      window ([request_used_once]), and a revoked key is out after thirty seconds
      ([revocation_takes_effect]).
    - Fan-out (Broadcaster, Fanout): under every interleaving the sets hold open
      subscriptions only and nothing is leaked ([membership_interleavings]); a publisher
      calls only subscriptions of its symbol, each at most once, and every one that is in
      the set while it walks it ([publish_interleavings]); a subscription
      that is not interrupted is reached ([atomic_subscribe_reaches]).
    - Across the tiers (Codec, EndToEnd): the stream tier reads the events the Go tier
      writes ([go_events_decode]), the headers too ([carrier_read_back]), and every quote
      [latest] answers with is the top of a book of those of them that pass the filter,
      which are all if no snapshot or delta is without levels
      ([served_quote_is_top_of_book]).
    - Quotes and streams (Quotes, Serving): the reader takes apart exactly the frames of
      the Go tier ([reader_agrees_with_SplitHeader]); the cache is a function of the
      history of its puts ([cache_is_history]); a client never reads back an older quote
      than one that was broadcast ([read_your_writes]), nor one the book job wrote earlier,
      whatever the partitions and threads ([api_read_your_writes]); a stream keeps to its rate under
      every interleaving ([stream_rate]) and opens with what the cache has
      ([stream_opens]); every branch of the handlers is covered ([handle_outcome],
      [getQuote_answers], [queryWindows_answers]).
    - Behaviour worth knowing is proved too: a partial overlap loses ids
      ([partial_overlap_lost]), the backoff never starts over
      ([backoff_never_resets]), a reconnect races with the channel
      ([reconnect_race]), a replay after a gap is published twice, the connection
      gauge stays up between sessions ([connection_up_while_down]), an interrupted
      generator abandons messages it reports as sent, a trimmed book forgets levels
      for good ([trim_forgets_best]), a clock that goes backwards mints tokens
      ([backward_clock_mints]), a request is replayed in the last second of its
      window ([edge_of_window_replay]), key ids with a colon share nonces
      ([nonce_key_collision]), a listener is called after its close has returned
      ([called_after_close]), a snapshot without levels is passed over
      ([dropped_snapshot_served]), a venue listed twice shares one reset hook
      ([repeated_venue_shares_hook]), a tie in event time changes the close of a bar
      ([tie_changes_close]), a lagging venue raises false alerts
      ([lagging_venue_alerts]), a subscription can be lost ([lost_subscription]), a
      silent venue is served as long as another one quotes ([silent_venue_served]), the
      second symbol of a stream starves ([second_symbol_starved]), a huge rate is no
      limit ([huge_rate_unthrottled]), two threads send at once ([concurrent_sends]),
      settings that stop a job pass ([unchecked_settings]), a backfill cuts windows
      ([cut_window_differs]) and, over more than a day, drops trades
      ([long_backfill_drops]), late trades are in a replay only ([late_trade_differs]), a
      future date closes everybody's windows ([future_trade_closes_windows]), a trade
      published twice counts twice ([republished_trade_counted_twice]), a quote carries no
      trace ([stream_records_untraced]), checkpoints may outlive transactions
      ([interval_outlives_transaction]).

    ** Conventions, bounds and fuel

    An int64 is a [Z] with its wrap-around written out ([wrap64]); a float64 is the
    Standard Library's [spec_float] with its rounding. Errors keep the constant part
    of their text, and their wrapped cause, on which [errors.Is] decides. Statistics
    are counters in [Z]; a run would need 2^63 events to wrap them.

    Fuel appears where Go loops over a text or a counter, and a lemma shows that
    what the definitions pass is enough, so that no input is refused for want of
    it: [json_parse_fuel] (two units per byte), [trim_front_fuel],
    [fields_chars_fuel] and [duration_sum_fuel] (one per byte), [pow_loop_fuel] (63
    for an int64 exponent), [json_chars_parse] (a marshalled text is read back).
    [read_type] has 8 units for schemas five deep. The runner and the pipeline have
    no fuel: they are structural over what the environment answers, and
    [runner_attempts] bounds the sessions.

    ** Parameters and what is not modelled

    Code outside the repository is a class, and theorems hold for every instance:
    [AvroLib] and [GeneratorAvro] (hamba/avro), [KafkaLib] (kafka-go), [WebsocketLib]
    (gorilla/websocket), [Otel] and [OtelSDK] (OpenTelemetry), [RegistryServer] (the
    registry behind HTTP). So are two parts of the standard library: [UnicodeMap]
    (the case tables beyond ASCII) and [MathRand] (math/rand, with its ranges as
    [LawfulRand]). Laws are asked where a theorem names them: marshalling a value
    does not panic, a producer's or a writer's log holds what it acknowledged. A Go
    map that is iterated is the list of its entries in an order that is an argument.
    Of the serving tier, [Crypto] is HMAC-SHA256 and SHA-256 (of which [CryptoLaws]
    asks the length of a digest), the table of keys is an argument, and the script of
    the rate limiter is a function over any arithmetic ([Arith]): doubles as Lua has
    them, and rationals. [JsonCodec] is Jackson, which reads back
    what it writes ([LawfulJson]); [HashOrder] is the order in which Redis lists a hash;
    the OLAP store and the Avro decoder of the serving tier are arguments.

    Flink is what its documentation says of it: it calls the operators with the state
    of a key, puts an element into the window of its timestamp, drops what is late, fires a
    window once, and restores the state it saved. Watermarks are part of a job's input, and
    the theorems ask of them only what bounded out-of-orderness promises; generators of such
    watermarks and an operator of such windows are given, so the hypotheses can hold.
    Confluent's serializer, the partitioner and the propagator of trace context are
    arguments ([LawfulPropagator]).

    Not modelled: Flink's transactions, checkpoints and the parallel instances of an
    operator, whose outcome the above is; the SQL that creates Iceberg's catalog and table;
    Spring's wiring; the attributes of spans; deployment, dashboards, chaos tests and
    scripts. Of the Go files what is left is imports, the one-line methods of the
    [websocket.Conn] wrapper, an option of the registry client and the version string. *)

From Stdlib Require Ascii String.
From Stdlib Require Export ZArith Lia Sorted.
From stdpp Require Export base gmap strings list numbers.

Abbreviation ascii := Ascii.ascii.
Export (notations) Stdlib.Strings.Ascii.
Export (notations) Stdlib.Strings.String.

(** ** Go errors

    An [error] value is a sentinel (a package-level [errors.New], compared by
    identity), a plain message, or a message that wraps a cause with [%w].
    A value carries the constant part of its text. *)
Inductive error :=
  | ESentinel (name : string)
  | EMsg (msg : string)
  | EWrap (ctx : string) (cause : error).

(** [errors.Is(err, target)] for a sentinel target: the chain of wrapped causes
    is walked and compared by identity. *)
Fixpoint errors_is (e : error) (sentinel : string) : bool :=
  match e with
  | ESentinel n => String.eqb n sentinel
  | EMsg _ => false
  | EWrap _ c => errors_is c sentinel
  end.

(** [context.Canceled] and [context.DeadlineExceeded]. *)
Definition Canceled : string := "context.Canceled".
Definition DeadlineExceeded : string := "context.DeadlineExceeded".

(** ** Results of Go functions

    [(T, error)] is [Ok] or [Err]; a run-time panic (an index out of range, a
    nil dereference) is a value of its own, so that its absence is provable. *)
Inductive res (A : Type) :=
  | Ok (a : A)
  | Err (e : error)
  | Panic.
Arguments Ok {A} a.
Arguments Err {A} e.
Arguments Panic {A}.

#[export] Instance res_ret : MRet res := fun A a => Ok a.
#[export] Instance res_bind : MBind res := fun A B f m =>
  match m with Ok a => f a | Err e => Err e | Panic => Panic end.
#[export] Instance res_fmap : FMap res := fun A B f m =>
  match m with Ok a => Ok (f a) | Err e => Err e | Panic => Panic end.

(** [if err != nil { return nil, fmt.Errorf("ctx: %w", err) }] *)
Definition wrap_err {A} (ctx : string) (m : res A) : res A :=
  match m with Err e => Err (EWrap ctx e) | r => r end.

(** A value or the given error. *)
Definition of_option {A} (e : error) (o : option A) : res A :=
  match o with Some a => Ok a | None => Err e end.

Definition is_ok {A} (m : res A) : bool :=
  match m with Ok _ => true | _ => false end.

Definition is_panic {A} (m : res A) : bool :=
  match m with Panic => true | _ => false end.

(** [l[i]]: out of range panics. *)
Definition index {A} (l : list A) (i : nat) : res A :=
  match l !! i with Some a => Ok a | None => Panic end.

(** A loop that appends one result per element and returns at the first
    failing one. *)
Fixpoint map_res {A B} (f : A -> res B) (l : list A) : res (list B) :=
  match l with
  | [] => Ok []
  | a :: l' => b ← f a; bs ← map_res f l'; Ok (b :: bs)
  end.

(** ** Machine integers *)

Local Open Scope Z_scope.

Definition two63 : Z := 9223372036854775808.
Definition two64 : Z := 18446744073709551616.
Definition two31 : Z := 2147483648.
Definition two32 : Z := 4294967296.

(** The value of an int64 (int32) expression whose exact value is [z]. *)
Definition wrap64 (z : Z) : Z := (z + two63) mod two64 - two63.
Definition wrap32 (z : Z) : Z := (z + two31) mod two32 - two31.
(** Conversion to uint32. *)
Definition uwrap32 (z : Z) : Z := z mod two32.

Definition int64 (z : Z) : Prop := - two63 <= z < two63.
Definition int64b (z : Z) : bool := (- two63 <=? z) && (z <? two63).

Definition MaxInt64 : Z := two63 - 1.

(** ** Time

    A [time.Time] (or a [time.Duration]) is its number of nanoseconds, since
    the Unix epoch for a time. *)
Definition time := Z.
Definition duration := Z.
Definition millisecond : duration := 1000000.
Definition second : duration := 1000000000.

(** [t.UnixMicro()]: whole microseconds, rounded towards minus infinity. *)
Definition UnixMicro (t : time) : Z := wrap64 (t / 1000).

(** ** Tactics *)

(** Splits the boolean comparisons of [Z] and the [decide]s of the goal and the
    context into their two cases, with the arithmetic fact of each. *)
Ltac split_cmp :=
  repeat match goal with
  | |- context [Z.eqb ?a ?b] => destruct (Z.eqb_spec a b)
  | |- context [Z.ltb ?a ?b] => destruct (Z.ltb_spec a b)
  | |- context [Z.leb ?a ?b] => destruct (Z.leb_spec a b)
  | H : context [Z.eqb ?a ?b] |- _ => destruct (Z.eqb_spec a b)
  | H : context [Z.ltb ?a ?b] |- _ => destruct (Z.ltb_spec a b)
  | H : context [Z.leb ?a ?b] |- _ => destruct (Z.leb_spec a b)
  end.

(** Case analysis on the first [match] or [if] of the goal or of a hypothesis. *)
Ltac split_match :=
  match goal with
  | |- context [match ?x with _ => _ end] => destruct x eqn:?
  | H : context [match ?x with _ => _ end] |- _ => destruct x eqn:?
  end.

(** Inverts a successful monadic computation of [res]. *)
Ltac inv_res :=
  repeat match goal with
  | H : Ok _ = Ok _ |- _ => injection H as H
  | H : Err _ = Err _ |- _ => injection H as H
  | H : Ok _ = Err _ |- _ => discriminate H
  | H : Err _ = Ok _ |- _ => discriminate H
  | H : Panic = Ok _ |- _ => discriminate H
  | H : Ok _ = Panic |- _ => discriminate H
  | H : Err _ = Panic |- _ => discriminate H
  | H : (?m ≫= _) = Ok _ |- _ =>
      let E := fresh "E" in destruct m eqn:E; cbn [mbind res_bind] in H
  end.

Create HintDb tapeline.
Create Rewrite HintDb tapeline_rw.

(** ** Lemmas on machine integers *)

Lemma wrap64_id z : int64 z -> wrap64 z = z.
Proof.
  unfold int64, wrap64, two63, two64. intros.
  rewrite Z.mod_small; lia.
Qed.

Lemma wrap64_range z : int64 (wrap64 z).
Proof.
  unfold int64, wrap64, two63, two64.
  pose proof (Z.mod_pos_bound (z + 9223372036854775808) 18446744073709551616). lia.
Qed.

Lemma wrap64_succ z : - two63 <= z < MaxInt64 -> wrap64 (z + 1) = z + 1.
Proof. unfold MaxInt64. intros. apply wrap64_id. unfold int64. lia. Qed.

Lemma wrap32_id z : - two31 <= z < two31 -> wrap32 z = z.
Proof. unfold wrap32, two31, two32. intros. rewrite Z.mod_small; lia. Qed.

Lemma int64b_spec z : int64b z = true <-> int64 z.
Proof. unfold int64b, int64. lia. Qed.

#[export] Hint Resolve wrap64_range : tapeline.

(** Unfolds the constants of the machine-integer bounds and calls [lia]. *)
Ltac int_lia := unfold int64, MaxInt64, two63, two64, two31, two32 in *; lia.

(** ** Lemmas on results *)

Lemma bind_Ok {A B} (m : res A) (f : A -> res B) b :
  m ≫= f = Ok b -> exists a, m = Ok a /\ f a = Ok b.
Proof. destruct m; cbn; intros H; try discriminate. eauto. Qed.

Lemma wrap_err_Ok {A} ctx (m : res A) a : wrap_err ctx m = Ok a -> m = Ok a.
Proof. by destruct m. Qed.

Lemma map_res_Ok {A B} (f : A -> res B) l bs :
  map_res f l = Ok bs <-> Forall2 (fun a b => f a = Ok b) l bs.
Proof.
  revert bs. induction l as [|a l IH]; intros bs; cbn.
  - split; [intros [= <-]; constructor | by inversion 1].
  - split.
    + intros (b & Hb & H)%bind_Ok. apply bind_Ok in H as (bs' & Hbs & [= <-]).
      constructor; [done|]. by apply IH.
    + inversion 1 as [|? b ? bs' Hb Hbs]; subst. rewrite Hb; cbn.
      apply IH in Hbs. by rewrite Hbs.
Qed.

Lemma map_res_ret {A B} (f : A -> B) (l : list A) :
  map_res (fun a => Ok (f a)) l = Ok (map f l).
Proof. induction l as [|a l IH]; cbn; [done|]. by rewrite IH. Qed.

Lemma map_res_app {A B} (f : A -> res B) l l' :
  map_res f (l ++ l') = (bs ← map_res f l; bs' ← map_res f l'; Ok (bs ++ bs')).
Proof.
  induction l as [|a l IH]; cbn; [by destruct (map_res f l')|].
  destruct (f a); cbn; [|done..]. rewrite IH.
  destruct (map_res f l); cbn; [|done..]. by destruct (map_res f l').
Qed.

Lemma map_res_no_panic {A B} (f : A -> res B) l :
  (forall a, a ∈ l -> f a <> Panic) -> map_res f l <> Panic.
Proof.
  induction l as [|a l IH]; intros H; cbn; [done|].
  assert (Ha : f a <> Panic) by (apply H; left).
  destruct (f a); cbn; [|done..].
  assert (Hl : map_res f l <> Panic) by (apply IH; intros; apply H; by right).
  by destruct (map_res f l).
Qed.

Lemma errors_is_wrap c e s : errors_is (EWrap c e) s = errors_is e s.
Proof. reflexivity. Qed.

(** ** Lemmas on lists *)

Lemma last_default_cons {A} (a d : A) l : List.last (a :: l) d = List.last l a.
Proof.
  revert a d. induction l as [|b l IH]; intros a d; [done|].
  change (List.last (b :: l) d = List.last (b :: l) a). by rewrite !IH.
Qed.

Lemma sum_with_insert {A} (f : A -> nat) (l : list A) i x y :
  l !! i = Some x -> (sum_list_with f (<[i := y]> l) + f x = sum_list_with f l + f y)%nat.
Proof.
  revert i. induction l as [|z l IH]; intros [|i] Hi; [done..| |].
  - injection Hi as ->. cbn. lia.
  - specialize (IH _ Hi). change (<[S i := y]> (z :: l)) with (z :: <[i := y]> l). cbn [sum_list_with]. lia.
Qed.
