(* ===== verification/GoStrings.v ===== *)
(** * Go strings and the functions of package [strings] the program calls

    A Go string (and a [[]byte] that holds text) is the list of its bytes, a
    Rocq [string]. White space is Unicode white space in UTF-8, as in
    [strings.TrimSpace] and [strings.Fields]. [strings.ToUpper] and
    [strings.ToLower] are exact on ASCII strings; on a string with a byte above
    127 they apply the case tables of package [unicode], which the class
    [UnicodeMap] stands for. *)

From S2P Require Import Prelude.

Abbreviation chars := String.list_ascii_of_string.
Abbreviation unchars := String.string_of_list_ascii.

Definition byte_of (c : ascii) : Z := Z.of_N (Ascii.N_of_ascii c).
Definition char_of (z : Z) : ascii := Ascii.ascii_of_N (Z.to_N z).
Definition bytes_str (l : list Z) : string := unchars (map char_of l).

Definition str_len (s : string) : nat := String.length s.
Definition str_drop (n : nat) (s : string) : string := unchars (drop n (chars s)).
Definition str_take (n : nat) (s : string) : string := unchars (take n (chars s)).

Fixpoint is_prefix (p l : list ascii) : bool :=
  match p, l with
  | [], _ => true
  | _, [] => false
  | c :: p', d :: l' => Ascii.eqb c d && is_prefix p' l'
  end.

Definition HasPrefix (s p : string) : bool := is_prefix (chars p) (chars s).
Definition HasSuffix (s p : string) : bool :=
  is_prefix (rev (chars p)) (rev (chars s)).
Definition TrimPrefix (s p : string) : string :=
  if HasPrefix s p then str_drop (str_len p) s else s.
Definition Contains (s : string) (c : ascii) : bool :=
  existsb (Ascii.eqb c) (chars s).

(** [strings.ReplaceAll] with a one-byte old and a one-byte (empty) new string. *)
Definition replace_char (c d : ascii) (s : string) : string :=
  unchars (map (fun x => if Ascii.eqb x c then d else x) (chars s)).
Definition remove_char (c : ascii) (s : string) : string :=
  unchars (List.filter (fun x => negb (Ascii.eqb x c)) (chars s)).

(** [strings.Split(s, c)] and [strings.SplitN(s, c, 2)]. *)
Fixpoint split_chars (c : ascii) (l : list ascii) : list (list ascii) :=
  match l with
  | [] => [[]]
  | x :: l' =>
      if Ascii.eqb x c then [] :: split_chars c l'
      else match split_chars c l' with
           | h :: t => (x :: h) :: t
           | [] => [[x]]
           end
  end.
Definition Split (s : string) (c : ascii) : list string :=
  map unchars (split_chars c (chars s)).

Fixpoint cut_chars (c : ascii) (l : list ascii) : option (list ascii * list ascii) :=
  match l with
  | [] => None
  | x :: l' =>
      if Ascii.eqb x c then Some ([], l')
      else '(a, b) ← cut_chars c l'; Some (x :: a, b)
  end.
Definition SplitN2 (s : string) (c : ascii) : list string :=
  match cut_chars c (chars s) with
  | Some (a, b) => [unchars a; unchars b]
  | None => [s]
  end.

Fixpoint Join (l : list string) (sep : string) : string :=
  match l with
  | [] => ""
  | [s] => s
  | s :: l' => s +:+ sep +:+ Join l' sep
  end.

(** The runes with the White_Space property, in UTF-8. *)
Definition space_seqs : list (list ascii) :=
  map (map char_of)
    ([[9]; [10]; [11]; [12]; [13]; [32]; [0xC2; 0x85]; [0xC2; 0xA0]; [0xE1; 0x9A; 0x80]]
     ++ map (fun b => [0xE2; 0x80; 0x80 + b]) [0; 1; 2; 3; 4; 5; 6; 7; 8; 9; 10]
     ++ [[0xE2; 0x80; 0xA8]; [0xE2; 0x80; 0xA9]; [0xE2; 0x80; 0xAF]; [0xE2; 0x81; 0x9F];
         [0xE3; 0x80; 0x80]])%Z.

(** Drops the sequences of [seqs] at the front of [l]; [length l] steps are enough
    because every sequence has a byte. *)
Fixpoint trim_front (seqs : list (list ascii)) (fuel : nat) (l : list ascii) : list ascii :=
  match fuel with
  | O => l
  | S f =>
      match List.find (fun p => is_prefix p l) seqs with
      | Some p => trim_front seqs f (drop (length p) l)
      | None => l
      end
  end.
Definition trim_left (l : list ascii) : list ascii :=
  trim_front space_seqs (length l) l.
Definition trim_right (l : list ascii) : list ascii :=
  rev (trim_front (map (@rev ascii) space_seqs) (length l) (rev l)).
Definition TrimSpace (s : string) : string := unchars (trim_right (trim_left (chars s))).

(** [strings.TrimRight(s, c)] for a one-byte cutset. *)
Definition TrimRight1 (s : string) (c : ascii) : string :=
  unchars (rev (trim_front [[c]] (str_len s) (rev (chars s)))).

(** [strings.Fields]: the maximal runs of bytes outside white space. *)
Fixpoint fields_chars (fuel : nat) (cur : list ascii) (l : list ascii) : list (list ascii) :=
  let flush := match cur with [] => [] | _ => [rev cur] end in
  match fuel with
  | O => flush
  | S f =>
      match l with
      | [] => flush
      | x :: l' =>
          match List.find (fun p => is_prefix p l) space_seqs with
          | Some p => flush ++ fields_chars f [] (drop (length p) l)
          | None => fields_chars f (x :: cur) l'
          end
      end
  end.
Definition Fields (s : string) : list string :=
  map unchars (fields_chars (S (str_len s)) [] (chars s)).

Definition ascii_upper (c : ascii) : ascii :=
  let n := byte_of c in
  if ((97 <=? n) && (n <=? 122))%Z then char_of (n - 32) else c.
Definition ascii_lower (c : ascii) : ascii :=
  let n := byte_of c in
  if ((65 <=? n) && (n <=? 90))%Z then char_of (n + 32) else c.
Definition is_ascii_char (c : ascii) : bool := (byte_of c <? 128)%Z.
Definition is_ascii (s : string) : bool := forallb is_ascii_char (chars s).

(** [strings.Map(unicode.ToUpper, s)] and [strings.Map(unicode.ToLower, s)] for a
    string with a non-ASCII byte. *)
Class UnicodeMap := {
  map_to_upper : string -> string;
  map_to_lower : string -> string;
}.

Definition ToUpper `{UnicodeMap} (s : string) : string :=
  if is_ascii s then unchars (map ascii_upper (chars s)) else map_to_upper s.
Definition ToLower `{UnicodeMap} (s : string) : string :=
  if is_ascii s then unchars (map ascii_lower (chars s)) else map_to_lower s.

(** [strings.EqualFold(s, t)] for an ASCII [t] without the letters k and s, the
    only ASCII letters that fold with a rune outside ASCII. *)
Definition EqualFoldASCII (s t : string) : bool :=
  String.eqb (unchars (map ascii_lower (chars s))) (unchars (map ascii_lower (chars t))).

(** A [UnicodeMap] that leaves a string as it is, for concrete runs. *)
Definition unicode_id : UnicodeMap := {| map_to_upper := id; map_to_lower := id |}.

(** Text with its single quotes turned into double quotes, to write JSON. *)
Definition dq (s : string) : string := replace_char "'"%char (char_of 34) s.

(** A string literal used as a character test. *)
Definition is_digit (c : ascii) : bool := ((48 <=? byte_of c) && (byte_of c <=? 57))%Z.

(** ** Lemmas *)

Lemma chars_unchars l : chars (unchars l) = l.
Proof. apply String.list_ascii_of_string_of_list_ascii. Qed.
Lemma unchars_chars s : unchars (chars s) = s.
Proof. apply String.string_of_list_ascii_of_string. Qed.
Lemma chars_inj s t : chars s = chars t -> s = t.
Proof. intros H. by rewrite <- (unchars_chars s), H, unchars_chars. Qed.
Lemma length_chars s : length (chars s) = str_len s.
Proof. unfold str_len. induction s as [|c s IH]; cbn; congruence. Qed.
Lemma chars_app s t : chars (s +:+ t) = chars s ++ chars t.
Proof.
  induction s as [|c s IH]; [done|].
  change (c :: chars (s +:+ t) = c :: chars s ++ chars t). by rewrite IH.
Qed.

Create Rewrite HintDb gostrings.
#[export] Hint Rewrite chars_unchars unchars_chars chars_app length_chars : gostrings.
Ltac str_simpl := autorewrite with gostrings in *.

Lemma is_prefix_spec p l : is_prefix p l = true <-> exists k, l = p ++ k.
Proof.
  revert l. induction p as [|c p IH]; intros l; cbn.
  - split; [eauto|done].
  - destruct l as [|d l]; [split; [done|intros [? [=]]]|].
    rewrite andb_true_iff, IH, Ascii.eqb_eq. split.
    + intros [-> [k ->]]. eauto.
    + intros [k [= -> ->]]. eauto.
Qed.

Lemma HasSuffix_spec s p : HasSuffix s p = true <-> exists q, s = q +:+ p.
Proof.
  unfold HasSuffix. rewrite is_prefix_spec. split.
  - intros [k Hk]. exists (unchars (rev k)). apply chars_inj. str_simpl.
    rewrite <- (rev_involutive (chars s)), Hk, rev_app_distr, rev_involutive. done.
  - intros [q ->]. exists (rev (chars q)). str_simpl. by rewrite rev_app_distr.
Qed.

Lemma HasPrefix_spec s p : HasPrefix s p = true <-> exists q, s = p +:+ q.
Proof.
  unfold HasPrefix. rewrite is_prefix_spec. split.
  - intros [k Hk]. exists (unchars k). apply chars_inj. by str_simpl.
  - intros [q ->]. exists (chars q). by str_simpl.
Qed.

Lemma str_drop_app p q : str_drop (str_len p) (p +:+ q) = q.
Proof.
  unfold str_drop. str_simpl. rewrite <- length_chars, drop_app_length.
  apply unchars_chars.
Qed.

Lemma str_take_app p q : str_take (str_len p) (p +:+ q) = p.
Proof.
  unfold str_take. str_simpl. rewrite <- length_chars, take_app_length.
  apply unchars_chars.
Qed.

Lemma str_len_app p q : str_len (p +:+ q) = (str_len p + str_len q)%nat.
Proof. by rewrite <- !length_chars, chars_app, length_app. Qed.

Lemma TrimPrefix_app p q : TrimPrefix (p +:+ q) p = q.
Proof.
  unfold TrimPrefix. rewrite (proj2 (HasPrefix_spec _ _)) by eauto.
  apply str_drop_app.
Qed.

Lemma cut_chars_spec c l :
  match cut_chars c l with
  | Some (a, b) => l = a ++ c :: b /\ c ∉ a
  | None => c ∉ l
  end.
Proof.
  induction l as [|x l IH]; cbn; [apply not_elem_of_nil|].
  destruct (Ascii.eqb_spec x c) as [->|Hx]; [split; [done|apply not_elem_of_nil]|].
  destruct (cut_chars c l) as [[a b]|]; cbn.
  - destruct IH as [-> Ha]. split; [done|]. rewrite not_elem_of_cons. auto.
  - rewrite not_elem_of_cons. auto.
Qed.

Lemma cut_chars_app c a b : c ∉ a -> cut_chars c (a ++ c :: b) = Some (a, b).
Proof.
  induction a as [|x a IH]; cbn.
  - by rewrite Ascii.eqb_refl.
  - rewrite not_elem_of_cons. intros [Hx Ha]. destruct (Ascii.eqb_spec x c); [congruence|].
    by rewrite IH.
Qed.

Lemma split_chars_app c a b : c ∉ a -> split_chars c (a ++ c :: b) = a :: split_chars c b.
Proof.
  induction a as [|x a IH]; cbn [app split_chars].
  - by rewrite Ascii.eqb_refl.
  - rewrite not_elem_of_cons. intros [Hx Ha]. destruct (Ascii.eqb_spec x c); [congruence|]. by rewrite IH.
Qed.

Lemma split_chars_none c l : c ∉ l -> split_chars c l = [l].
Proof.
  induction l as [|x l IH]; [done|]. rewrite not_elem_of_cons. intros [Hx Hl]. cbn [split_chars].
  destruct (Ascii.eqb_spec x c); [congruence|]. by rewrite IH.
Qed.

Lemma ascii_upper_idem c : ascii_upper (ascii_upper c) = ascii_upper c.
Proof. by destruct c as [[] [] [] [] [] [] [] []]. Qed.
Lemma ascii_lower_upper c : ascii_upper (ascii_lower c) = ascii_upper c.
Proof. by destruct c as [[] [] [] [] [] [] [] []]. Qed.
Lemma ascii_upper_ascii c : is_ascii_char (ascii_upper c) = is_ascii_char c.
Proof. by destruct c as [[] [] [] [] [] [] [] []]. Qed.
Lemma ascii_lower_idem c : ascii_lower (ascii_lower c) = ascii_lower c.
Proof. by destruct c as [[] [] [] [] [] [] [] []]. Qed.

(** ** Lemmas: fuel *)

Lemma find_prefix_length seqs l p :
  Forall (fun q => q <> []) seqs -> List.find (fun q => is_prefix q l) seqs = Some p ->
  l <> [] -> (length (drop (length p) l) < length l)%nat.
Proof.
  intros Hs Hf Hl. apply List.find_some in Hf as [Hin _]. rewrite Forall_forall in Hs.
  specialize (Hs p Hin). rewrite length_drop. destruct p, l; cbn; try done; lia.
Qed.

(** One unit of fuel per byte is enough to trim. *)
Lemma trim_front_fuel seqs f f' l :
  Forall (fun q => q <> []) seqs -> (length l <= f)%nat -> (length l <= f')%nat ->
  trim_front seqs f l = trim_front seqs f' l.
Proof.
  intros Hs. assert (forall g, trim_front seqs g [] = []) as Hnil.
  { induction g as [|g IH]; [done|]. cbn. destruct (List.find _ seqs); [|done]. by rewrite drop_nil. }
  revert f' l. induction f as [|f IH]; intros [|f'] [|c l] Hf Hf'; rewrite ?Hnil;
    try (cbn in *; lia); try done.
  cbn [trim_front]. destruct (List.find _ seqs) as [p|] eqn:E; [|done].
  pose proof (find_prefix_length seqs (c :: l) p Hs E ltac:(done)). cbn [length] in *. apply IH; lia.
Qed.

(** And to split into fields, with one unit for the end. *)
Lemma fields_chars_fuel f f' cur l :
  (length l < f)%nat -> (length l < f')%nat -> fields_chars f cur l = fields_chars f' cur l.
Proof.
  assert (Forall (fun q => q <> []) space_seqs) as Hs.
  { apply Forall_forall. intros q Hq. assert (forallb (fun q => negb (bool_decide (q = []))) space_seqs = true)
      as Hb by (vm_compute; reflexivity). rewrite List.forallb_forall in Hb.
    apply Hb in Hq. by apply negb_true_iff, bool_decide_eq_false in Hq. }
  revert f' cur l. induction f as [|f IH]; intros [|f'] cur l Hf Hf'; [lia..|].
  cbn [fields_chars]. destruct l as [|c l]; [done|].
  destruct (List.find _ space_seqs) as [p|] eqn:E.
  - pose proof (find_prefix_length space_seqs (c :: l) p Hs E ltac:(done)). cbn [length] in *.
    f_equal. apply IH; lia.
  - cbn [length] in *. apply IH; lia.
Qed.
