(* ===== verification/GoStrconv.v ===== *)
(** * Numbers as text: package [strconv], [big.Int.SetString], float64

    A float64 is a [spec_float] of the Standard Library (IEEE 754 binary64, one
    NaN), with its correctly rounded operations. [ParseFloat] is correctly
    rounded from the exact decimal or hexadecimal value of the literal. *)

From S2P Require Import Prelude.
From S2P Require Import GoStrings.
From Stdlib Require Export SpecFloat.
From stdpp Require Export pretty.

Local Open Scope Z_scope.

(** ** float64 *)

Definition float64 := spec_float.
Definition f64_add : float64 -> float64 -> float64 := SFadd 53 1024.
Definition f64_sub : float64 -> float64 -> float64 := SFsub 53 1024.
Definition f64_mul : float64 -> float64 -> float64 := SFmul 53 1024.
Definition f64_div : float64 -> float64 -> float64 := SFdiv 53 1024.
Definition f64_lt (x y : float64) : bool := SFltb x y.
Definition f64_le (x y : float64) : bool := SFleb x y.
Definition f64_zero : float64 := S754_zero false.
(** [float64(z)] for an integer [z]: round to nearest, ties to even. *)
Definition f64_of_Z (z : Z) : float64 := binary_normalize 53 1024 z 0 false.

(** The integer part of a finite float64, towards zero ([0] for the others, whose
    conversion to an integer type is implementation-specific in Go). *)
Definition f64_trunc (x : float64) : Z :=
  match x with
  | S754_finite s m e =>
      let v := if 0 <=? e then Z.pos m * 2 ^ e else Z.pos m / 2 ^ (- e) in
      if s then - v else v
  | _ => 0
  end.

(** ** Digits *)

Definition digit_val (c : ascii) : option Z :=
  let n := byte_of c in
  if (48 <=? n) && (n <=? 57) then Some (n - 48)
  else if (97 <=? n) && (n <=? 122) then Some (n - 87)
  else if (65 <=? n) && (n <=? 90) then Some (n - 55)
  else None.

(** The value of a non-empty digit string in [base]; [None] is a syntax error. *)
Fixpoint digits_val (base acc : Z) (l : list ascii) : option Z :=
  match l with
  | [] => Some acc
  | c :: l' =>
      match digit_val c with
      | Some d => if d <? base then digits_val base (acc * base + d) l' else None
      | None => None
      end
  end.

Definition parse_nat (base : Z) (l : list ascii) : option Z :=
  match l with [] => None | _ => digits_val base 0 l end.

(** A sign, if any, and the rest: [true] is minus. *)
Definition split_sign (l : list ascii) : bool * list ascii :=
  match l with
  | c :: l' => if Ascii.eqb c "-" then (true, l')
               else if Ascii.eqb c "+" then (false, l') else (false, l)
  | [] => (false, [])
  end.

Inductive num_error := ErrSyntax | ErrRange.

(** [strconv.ParseInt(s, base, 64)] for a base from 2 to 36: the value or the
    kind of error. *)
Definition ParseInt (s : string) (base : Z) : Z + num_error :=
  let '(neg, l) := split_sign (chars s) in
  match parse_nat base l with
  | None => inr ErrSyntax
  | Some un =>
      if neg then (if two63 <? un then inr ErrRange else inl (- un))
      else (if two63 <=? un then inr ErrRange else inl un)
  end.
Definition Atoi (s : string) : Z + num_error := ParseInt s 10.

(** [strconv.ParseUint(s, 10, 32)]. *)
Definition ParseUint32 (s : string) : Z + num_error :=
  match parse_nat 10 (chars s) with
  | None => inr ErrSyntax
  | Some un => if two32 <=? un then inr ErrRange else inl un
  end.

(** [strconv.FormatInt(z, 10)]. *)
Definition FormatInt (z : Z) : string := pretty z.

(** [new(big.Int).SetString(s, base)] and [String()]. *)
Definition big_SetString (s : string) (base : Z) : option Z :=
  let '(neg, l) := split_sign (chars s) in
  v ← parse_nat base l; Some (if neg then - v else v).
Definition big_String (z : Z) : string := pretty z.

(** [strconv.ParseBool]. *)
Definition ParseBool (s : string) : option bool :=
  if existsb (String.eqb s) ["1"; "t"; "T"; "TRUE"; "true"; "True"] then Some true
  else if existsb (String.eqb s) ["0"; "f"; "F"; "FALSE"; "false"; "False"] then Some false
  else None.

(** ** strconv.ParseFloat *)

(** Underscores may only separate digits; the state is the kind of the last
    character: [0] a digit or a base prefix, [1] an underscore, [2] another. *)
Fixpoint underscore_go (hex : bool) (saw : Z) (l : list ascii) : bool :=
  match l with
  | [] => negb (saw =? 1)
  | c :: l' =>
      let n := byte_of (ascii_lower c) in
      if is_digit c || (hex && ((97 <=? n) && (n <=? 102))) then underscore_go hex 0 l'
      else if Ascii.eqb c "_" then (saw =? 0) && underscore_go hex 1 l'
      else negb (saw =? 1) && underscore_go hex 2 l'
  end.
Definition underscore_ok (l : list ascii) : bool :=
  let l := snd (split_sign l) in
  match l with
  | z :: x :: l' =>
      let n := byte_of (ascii_lower x) in
      if Ascii.eqb z "0" && ((n =? 98) || (n =? 111) || (n =? 120))
      then underscore_go (n =? 120) 0 l' else underscore_go false 2 l
  | _ => underscore_go false 2 l
  end.

(** The digits of the mantissa: its value without the point, the number of digits
    after the point, and whether a point, a digit and an underscore were seen. *)
Record mantissa := mkMantissa {
  ma_val : Z; ma_frac : Z; ma_dot : bool; ma_digits : bool; ma_under : bool }.

Fixpoint read_mantissa (base : Z) (a : mantissa) (l : list ascii) : mantissa * list ascii :=
  match l with
  | [] => (a, [])
  | c :: l' =>
      if Ascii.eqb c "_" then
        read_mantissa base (mkMantissa (ma_val a) (ma_frac a) (ma_dot a) (ma_digits a) true) l'
      else if Ascii.eqb c "." then
        if ma_dot a then (a, l)
        else read_mantissa base (mkMantissa (ma_val a) (ma_frac a) true (ma_digits a) (ma_under a)) l'
      else match digit_val c with
           | Some d =>
               if d <? base then
                 read_mantissa base
                   (mkMantissa (ma_val a * base + d)
                      (if ma_dot a then ma_frac a + 1 else ma_frac a) (ma_dot a) true (ma_under a)) l'
               else (a, l)
           | None => (a, l)
           end
  end.

(** The digits of the exponent: it stops growing at 10000, and underscores are
    skipped. *)
Fixpoint read_exp (e : Z) (under : bool) (l : list ascii) : Z * bool * list ascii :=
  match l with
  | [] => (e, under, [])
  | c :: l' =>
      if Ascii.eqb c "_" then read_exp e true l'
      else if is_digit c then
        read_exp (if e <? 10000 then e * 10 + (byte_of c - 48) else e) under l'
      else (e, under, l)
  end.

(** The exponent part: [None] is a malformed one. *)
Definition read_exponent (base : Z) (l : list ascii) : option (Z * bool * list ascii) :=
  let expchar := if base =? 16 then "p"%char else "e"%char in
  match l with
  | c :: l' =>
      if Ascii.eqb (ascii_lower c) expchar then
        let '(neg, l'') := split_sign l' in
        match l'' with
        | d :: _ =>
            if is_digit d then
              let '(e, u, rest) := read_exp 0 false l'' in
              Some (if neg then - e else e, u, rest)
            else None
        | [] => None
        end
      else if base =? 16 then None else Some (0, false, l)
  | [] => if base =? 16 then None else Some (0, false, [])
  end.

(** [m * 10^e] and [m * 2^e] with sign [s], correctly rounded. *)
Definition f64_sign (s : bool) (x : float64) : float64 := if s then SFopp x else x.
Definition f64_decimal (s : bool) (m e : Z) : float64 :=
  match m with
  | Zpos p =>
      if 0 <=? e then f64_sign s (binary_normalize 53 1024 (m * 10 ^ e) 0 false)
      else f64_div (S754_finite s p 0) (S754_finite false (Z.to_pos (10 ^ (- e))) 0)
  | _ => S754_zero s
  end.
Definition f64_binary (s : bool) (m e : Z) : float64 :=
  f64_sign s (binary_normalize 53 1024 m e false).

Definition is_inf (x : float64) : bool :=
  match x with S754_infinity _ => true | _ => false end.

(** inf, infinity and nan, whatever the case; inf and infinity may have a sign. *)
Definition parse_special (s : string) : option float64 :=
  let '(neg, l) := split_sign (chars s) in
  let low := unchars (map ascii_lower l) in
  if String.eqb low "inf" || String.eqb low "infinity" then Some (S754_infinity neg)
  else if String.eqb (unchars (map ascii_lower (chars s))) "nan" then Some S754_nan
  else None.

(** The value and the error, both returned by the Go function. *)
Definition ParseFloat (s : string) : float64 * option num_error :=
  let syntax := (f64_zero, Some ErrSyntax) in
  match parse_special s with
  | Some f => (f, None)
  | None =>
      let '(neg, l) := split_sign (chars s) in
      let '(base, l1) :=
        match l with
        | z :: x :: (_ :: _) as l' =>
            if Ascii.eqb z "0" && Ascii.eqb (ascii_lower x) "x" then (16, drop 2 l) else (10, l)
        | _ => (10, l)
        end in
      let '(a, l2) := read_mantissa base (mkMantissa 0 0 false false false) l1 in
      if negb (ma_digits a) then syntax
      else match read_exponent base l2 with
           | None => syntax
           | Some (e, u, rest) =>
               match rest with
               | _ :: _ => syntax
               | [] =>
                   if (ma_under a || u) && negb (underscore_ok (chars s)) then syntax
                   else
                     let v := if base =? 16 then f64_binary neg (ma_val a) (e - 4 * ma_frac a)
                              else f64_decimal neg (ma_val a) (e - ma_frac a) in
                     (v, if is_inf v then Some ErrRange else None)
               end
           end
  end.

(** A float64 constant of the program, from its decimal text. *)
Definition f64 (s : string) : float64 := fst (ParseFloat s).
