(* ===== verification/Rounding.v ===== *)
(** * Doubles as rational numbers

    What the operations of a [float64] do to the number it stands for: [val] is that
    number, and [rounds v x] says that [x] is finite and as near to [v] as the format
    allows, half a unit of the last of 53 bits, or half of the least positive double. *)

From S2P Require Import Prelude.
From S2P Require Import GoStrings.
From S2P Require Import GoStrconv.
From Stdlib Require Import QArith Qround Qabs Qpower Lqa.

Local Open Scope Z_scope.

(** ** Powers of two *)

Definition pow2 (e : Z) : Q := Qpower 2 e.

Lemma pow2_pos e : (0 < pow2 e)%Q.
Proof. by apply Qpower_0_lt. Qed.
Lemma pow2_add a b : (pow2 (a + b) == pow2 a * pow2 b)%Q.
Proof. by apply Qpower_plus. Qed.
Lemma pow2_Z k : 0 <= k -> (pow2 k == inject_Z (2 ^ k))%Q.
Proof. intros Hk. symmetry. by apply (Zpower_Qpower 2 k). Qed.
Lemma pow2_le a b : a <= b -> (pow2 a <= pow2 b)%Q.
Proof. intros Hab. by apply Qpower_le_compat_l. Qed.
Lemma pow2_half e : (pow2 (e - 1) == pow2 e / 2)%Q.
Proof. replace e with (e - 1 + 1) at 2 by lia. rewrite pow2_add. change (pow2 1) with 2%Q. field. Qed.
Lemma pow2_cancel m e k : (m * pow2 (- k) * pow2 (e + k) == m * pow2 e)%Q.
Proof.
  rewrite <- Qmult_assoc, <- pow2_add. by replace (- k + (e + k)) with e by lia.
Qed.
Lemma inject_lt (a b : Z) : (inject_Z a < inject_Z b)%Q <-> a < b.
Proof. by rewrite <- Zlt_Qlt. Qed.
Lemma inject_le (a b : Z) : (inject_Z a <= inject_Z b)%Q <-> a <= b.
Proof. by rewrite <- Zle_Qle. Qed.
Lemma inject_1 (a : Z) : (inject_Z (a + 1) == inject_Z a + 1)%Q.
Proof. by rewrite inject_Z_plus. Qed.

(** ** Digits *)

Lemma digits2_pos_bounds m : (2 ^ (Z.pos (digits2_pos m) - 1) <= Z.pos m < 2 ^ Z.pos (digits2_pos m)).
Proof.
  induction m as [m IH|m IH|]; cbn [digits2_pos]; [| |cbn; lia].
  all: rewrite Pos2Z.inj_succ, Z.pow_succ_r by lia.
  all: replace (Z.succ (Z.pos (digits2_pos m)) - 1) with (Z.succ (Z.pos (digits2_pos m) - 1)) by lia.
  all: rewrite Z.pow_succ_r by lia; lia.
Qed.

Lemma digits2_pos_iter m n : digits2_pos (Pos.iter xO m n) = (digits2_pos m + n)%positive.
Proof.
  induction n as [|n IH] using Pos.peano_ind; [cbn; lia|].
  rewrite Pos.iter_succ. cbn [digits2_pos]. rewrite IH. lia.
Qed.

Lemma iter_xO m n : Z.pos (Pos.iter xO m n) = Z.pos m * 2 ^ Z.pos n.
Proof.
  induction n as [|n IH] using Pos.peano_ind; [cbn; lia|].
  rewrite Pos.iter_succ, Pos2Z.inj_succ, Z.pow_succ_r by lia. lia.
Qed.

Lemma Zdigits2_nonneg m : 0 <= m -> 0 <= Zdigits2 m.
Proof. by destruct m. Qed.

Lemma Zdigits2_bounds m : 0 <= m -> m < 2 ^ Zdigits2 m /\ (0 < m -> 2 ^ (Zdigits2 m - 1) <= m).
Proof. intros Hm. destruct m as [|m|m]; [cbn; lia| |lia]. pose proof (digits2_pos_bounds m). cbn [Zdigits2]. lia. Qed.

Lemma Zdigits2_le m k : 0 <= m < 2 ^ k -> 0 <= k -> Zdigits2 m <= k.
Proof.
  intros Hm Hk. destruct (Z.le_gt_cases (Zdigits2 m) k) as [|Hd]; [done|].
  destruct (decide (m = 0)) as [->|Hne]; [done|]. destruct (Zdigits2_bounds m ltac:(lia)) as [_ Hb].
  specialize (Hb ltac:(lia)). assert (2 ^ k <= 2 ^ (Zdigits2 m - 1)) by (apply Z.pow_le_mono_r; lia). lia.
Qed.

Lemma Zdigits2_ge m k : 2 ^ k <= m -> 0 <= k -> k + 1 <= Zdigits2 m.
Proof.
  intros Hm Hk. destruct (Z.le_gt_cases (k + 1) (Zdigits2 m)) as [|Hd]; [done|].
  assert (0 < 2 ^ k) by (apply Z.pow_pos_nonneg; lia). destruct (Zdigits2_bounds m ltac:(lia)) as [Hb _].
  assert (2 ^ Zdigits2 m <= 2 ^ k) by (apply Z.pow_le_mono_r; lia). lia.
Qed.

(** ** Where a number lies between two integers *)

Definition located (m : Z) (l : location) (x : Q) : Prop :=
  match l with
  | loc_Exact => (x == inject_Z m)%Q
  | loc_Inexact Lt => (inject_Z m < x /\ x < inject_Z m + (1 # 2))%Q
  | loc_Inexact Eq => (x == inject_Z m + (1 # 2))%Q
  | loc_Inexact Gt => (inject_Z m + (1 # 2) < x /\ x < inject_Z m + 1)%Q
  end.

#[export] Instance located_proper m l : Proper (Qeq ==> iff) (located m l).
Proof. intros x y E. unfold located. destruct l as [|[]]; by rewrite E. Qed.

Definition reads (r : shr_record) (x : Q) : Prop := 0 <= shr_m r /\ located (shr_m r) (loc_of_shr_record r) x.

#[export] Instance reads_proper r : Proper (Qeq ==> iff) (reads r).
Proof. intros x y E. unfold reads. by rewrite E. Qed.

Lemma shr_1_reads r x : reads r x -> reads (shr_1 r) (x * (1 # 2)).
Proof.
  destruct r as [m rb sb]. unfold reads. cbn [shr_m]. intros [Hm Hl].
  destruct m as [|[p|p|]|p]; [| | | |lia]; cbn [shr_1 shr_m].
  1,2,3,4: split; [lia|].
  all: try (rewrite (Pos2Z.inj_xI p) in Hl); try (rewrite (Pos2Z.inj_xO p) in Hl).
  all: destruct rb, sb; cbn [orb loc_of_shr_record located] in Hl |- *;
    rewrite ?inject_Z_plus, ?inject_Z_mult in Hl; change (inject_Z 2) with 2%Q in Hl;
    change (inject_Z 1) with 1%Q in *; change (inject_Z 0) with 0%Q in *; lra.
Qed.

Lemma iter_reads p : forall r x, reads r x -> reads (SpecFloat.iter_pos shr_1 p r) (x * pow2 (- Z.pos p)).
Proof.
  induction p as [p IH|p IH|]; intros r x Hr; cbn [SpecFloat.iter_pos].
  - replace (- Z.pos p~1) with (-1 + (- Z.pos p + - Z.pos p)) by lia. rewrite !pow2_add, !Qmult_assoc.
    apply IH, IH. by apply shr_1_reads.
  - replace (- Z.pos p~0) with (- Z.pos p + - Z.pos p) by lia. rewrite !pow2_add, !Qmult_assoc. by apply IH, IH.
  - by apply shr_1_reads.
Qed.

Lemma shr_reads r e n x : reads r x -> 0 <= n ->
  let '(r', e') := shr r e n in e' = e + n /\ reads r' (x * pow2 (- n)).
Proof.
  intros Hr Hn. destruct n as [|p|p]; [| |lia]; cbn [shr].
  - split; [lia|]. change (pow2 (- 0)) with 1%Q. by rewrite Qmult_1_r.
  - split; [done|]. by apply iter_reads.
Qed.

Lemma record_of_loc_reads m l x : 0 <= m -> located m l x -> reads (shr_record_of_loc m l) x.
Proof. intros Hm Hl. split; [by destruct l as [|[]]|]. by destruct l as [|[]]. Qed.

Lemma located_floor m l x : located m l x -> (inject_Z m <= x /\ x < inject_Z m + 1)%Q.
Proof. destruct l as [|[]]; cbn; lra. Qed.

Lemma located_integer m l x k : located m l x -> (x == inject_Z k)%Q -> l = loc_Exact /\ m = k.
Proof.
  intros Hl E. pose proof (located_floor m l x Hl) as [H1 H2]. rewrite E in H1, H2.
  rewrite <- inject_1 in H2. apply (proj1 (inject_lt _ _)) in H2. apply (proj1 (inject_le _ _)) in H1.
  assert (m = k) as <- by lia. split; [|done]. destruct l as [|[]]; cbn in Hl; [done|lra..].
Qed.

Lemma nearest_even_near m l x : located m l x ->
  let n := round_nearest_even m l in
  (inject_Z n - x <= 1 # 2 /\ x - inject_Z n <= 1 # 2)%Q /\ m <= n <= m + 1 /\ (l = loc_Exact -> n = m).
Proof.
  intros Hl. cbv zeta. destruct l as [|[]]; cbn in Hl |- *.
  - split; [lra|]. split; [lia|done].
  - destruct (Z.even m); rewrite ?inject_1; (split; [lra|]; split; [lia|done]).
  - split; [lra|]. split; [lia|done].
  - rewrite inject_1. split; [lra|]. split; [lia|done].
Qed.

(** ** Finite doubles *)

Definition val (x : float64) : Q :=
  match x with S754_finite s m e => (inject_Z (if s then Z.neg m else Z.pos m) * pow2 e)%Q | _ => 0%Q end.
Definition finite (x : float64) : Prop :=
  match x with S754_finite _ m e => bounded 53 1024 m e = true | S754_zero _ => True | _ => False end.

Lemma bounded_iff m e : bounded 53 1024 m e = true <-> Z.max (Z.pos (digits2_pos m) + e - 53) (-1074) = e /\ e <= 971.
Proof.
  unfold bounded, canonical_mantissa, fexp. change (emin 53 1024) with (-1074). rewrite andb_true_iff, Z.eqb_eq, Z.leb_le.
  done.
Qed.

(** The second shift of [binary_round_aux]: a rounded mantissa is normal again. *)
Lemma renormalize s n f : 0 <= n <= 2 ^ 53 -> -1074 <= f <= 970 -> (n < 2 ^ 52 -> f = -1074) ->
  let '(r, e) := shr_fexp 53 1024 n f loc_Exact in
  let x := match shr_m r with
           | 0 => S754_zero s
           | Z.pos m => if e <=? 971 then S754_finite s m e else S754_infinity s
           | _ => S754_nan
           end in
  finite x /\ (val x == inject_Z (if s then - n else n) * pow2 f)%Q.
Proof.
  intros Hn Hf Hsub. unfold shr_fexp, fexp. change (emin 53 1024) with (-1074). cbn [shr_record_of_loc].
  destruct (decide (n = 2 ^ 53)) as [->|Hne].
  - change (Zdigits2 (2 ^ 53)) with 54. replace (Z.max (54 + f - 53) (-1074) - f) with 1 by lia.
    change (shr _ f 1) with (Build_shr_record (Z.pos 4503599627370496) false false, f + 1). cbn [shr_m].
    destruct (Z.leb_spec (f + 1) 971); [|lia]. cbn [finite val]. rewrite bounded_iff.
    change (Z.pos (digits2_pos 4503599627370496)) with 53. split; [lia|]. rewrite pow2_add. change (pow2 1) with 2%Q.
    destruct s; [change (inject_Z (- 2 ^ 53)) with (inject_Z (Z.neg 4503599627370496) * 2)%Q
                |change (inject_Z (2 ^ 53)) with (inject_Z (Z.pos 4503599627370496) * 2)%Q]; ring.
  - pose proof (Zdigits2_le n 53 ltac:(lia) ltac:(lia)) as Hd.
    assert (shr (Build_shr_record n false false) f (Z.max (Zdigits2 n + f - 53) (-1074) - f)
            = (Build_shr_record n false false, f)) as ->.
    { destruct (Z.max _ _ - f) as [|p|p] eqn:E; [done|lia|done]. }
    cbn [shr_m]. destruct n as [|m|m]; [| |lia].
    + split; [done|]. cbn. by destruct s.
    + destruct (Z.leb_spec f 971); [|lia]. cbn [finite val]. rewrite bounded_iff. cbn [Zdigits2] in Hd.
      split; [|by destruct s]. split; [|lia]. destruct (Z.lt_ge_cases (Z.pos m) (2 ^ 52)) as [H52|H52].
      * rewrite (Hsub H52) in *. lia.
      * pose proof (Zdigits2_ge (Z.pos m) 52 H52 ltac:(lia)) as Hd'. cbn [Zdigits2] in Hd'. lia.
Qed.

Definition fexp64 (m e : Z) : Z := Z.max (Zdigits2 m + e - 53) (-1074).

Lemma pow2_lt_inv a b : (pow2 a < pow2 b)%Q -> a < b.
Proof.
  intros Hab. destruct (Z.lt_ge_cases a b) as [|Hle]; [done|]. pose proof (pow2_le b a ltac:(lia)). lra.
Qed.

Lemma located_digits m l x : 0 <= m -> located m l x ->
  (x < pow2 (Zdigits2 m))%Q /\ (0 < m -> (pow2 (Zdigits2 m - 1) <= x)%Q).
Proof.
  intros Hm Hl. destruct (located_floor m l x Hl) as [H1 H2]. destruct (Zdigits2_bounds m Hm) as [Hb Hd].
  pose proof (Zdigits2_nonneg m Hm). split.
  - rewrite pow2_Z by done. eapply Qlt_le_trans; [exact H2|]. rewrite <- inject_1. apply inject_le. lia.
  - intros Hp. specialize (Hd Hp). eapply Qle_trans; [|exact H1].
    assert (1 <= Zdigits2 m). { destruct m as [|m|]; [lia| |lia]. cbn. lia. }
    rewrite pow2_Z by lia. by apply inject_le.
Qed.

(** One rounding: to the nearest multiple of the unit [pow2 (fexp64 m e)]. *)
Lemma round_aux_spec s m e l x : 0 <= m -> located m l x -> e <= fexp64 m e -> (x * pow2 e < pow2 1000)%Q ->
  let f := fexp64 m e in let r := binary_round_aux 53 1024 s m e l in
  exists n, finite r /\ (val r == inject_Z (if s then - n else n) * pow2 f)%Q /\ 0 <= n
    /\ (inject_Z n * pow2 f - x * pow2 e <= pow2 (f - 1) /\ x * pow2 e - inject_Z n * pow2 f <= pow2 (f - 1))%Q
    /\ (forall k, (x * pow2 e == inject_Z k * pow2 f)%Q -> n = k).
Proof.
  intros Hm Hl He Hv. cbv zeta. set (f := fexp64 m e) in *.
  destruct (located_digits m l x Hm Hl) as [Hhi Hlo].
  assert (-1074 <= f <= 970) as Hf.
  { split; [unfold f, fexp64; lia|]. destruct (decide (m = 0)) as [->|Hne].
    - unfold f, fexp64 in *. change (Zdigits2 0) with 0 in *. lia.
    - specialize (Hlo ltac:(lia)). assert (pow2 (Zdigits2 m - 1 + e) < pow2 1000)%Q as Hp.
      { rewrite pow2_add. eapply Qle_lt_trans; [|exact Hv]. apply Qmult_le_compat_r; [done|]. apply Qlt_le_weak, pow2_pos. }
      apply pow2_lt_inv in Hp. unfold f, fexp64 in *. lia. }
  remember (binary_round_aux 53 1024 s m e l) as r eqn:Er. unfold binary_round_aux in Er. unfold shr_fexp at 1 in Er.
  pose proof (shr_reads (shr_record_of_loc m l) e (fexp 53 1024 (Zdigits2 m + e) - e) x
    (record_of_loc_reads m l x Hm Hl)) as Hs.
  change (fexp 53 1024 (Zdigits2 m + e)) with f in *. specialize (Hs ltac:(lia)).
  destruct (shr _ _ _) as [r' e']. destruct Hs as [-> [Hm' Hl']]. replace (e + (f - e)) with f in Er by lia.
  set (y := (x * pow2 (- (f - e)))%Q) in *. assert (y * pow2 f == x * pow2 e)%Q as Hy.
  { pose proof (pow2_cancel x e (f - e)) as Hc. by replace (e + (f - e)) with f in Hc by lia. }
  destruct (nearest_even_near _ _ _ Hl') as ([Hn1 Hn2] & Hn & Hex). destruct (located_floor _ _ _ Hl') as [Hf1 Hf2].
  set (n := round_nearest_even _ _) in *. pose proof (pow2_pos f) as Hpf.
  assert (n <= 2 ^ 53) as Hmax.
  { assert (y < inject_Z (2 ^ 53))%Q as Hy53.
    { assert (y < pow2 (Zdigits2 m - (f - e)))%Q as H1.
      { unfold Z.sub at 1. rewrite pow2_add. apply Qmult_lt_compat_r; [apply pow2_pos|done]. }
      eapply Qlt_le_trans; [exact H1|]. rewrite <- pow2_Z by lia. apply pow2_le. unfold f, fexp64. lia. }
    assert (shr_m r' < 2 ^ 53) by (apply inject_lt; lra). lia. }
  assert (n < 2 ^ 52 -> f = -1074) as Hsub.
  { intros Hlt. destruct (Z.le_gt_cases (Zdigits2 m + e - 53) (-1074)); [unfold f, fexp64; lia|]. exfalso.
    destruct (decide (m = 0)) as [->|Hne]; [unfold f, fexp64 in *; change (Zdigits2 0) with 0 in *; lia|].
    specialize (Hlo ltac:(lia)). assert (inject_Z (2 ^ 52) <= y)%Q as Hy52.
    { rewrite <- pow2_Z by lia. replace 52 with (Zdigits2 m - 1 + - (f - e)) by (unfold f, fexp64; lia).
      rewrite pow2_add. apply Qmult_le_compat_r; [done|]. apply Qlt_le_weak, pow2_pos. }
    assert (2 ^ 52 < shr_m r' + 1) by (apply inject_lt; rewrite inject_1; lra). lia. }
  pose proof (renormalize s n f ltac:(lia) Hf Hsub) as Hr. destruct (shr_fexp _ _ _ _ _) as [r'' e''].
  subst r. exists n. destruct Hr as [Hfin Hval]. split; [done|]. split; [done|]. split; [lia|]. rewrite pow2_half, <- Hy. split.
  - assert (pow2 f / 2 == (1 # 2) * pow2 f)%Q as -> by (unfold Qdiv; change (/ 2)%Q with (1 # 2)%Q; ring).
    assert (inject_Z n * pow2 f - y * pow2 f == (inject_Z n - y) * pow2 f)%Q as -> by ring.
    assert (y * pow2 f - inject_Z n * pow2 f == (y - inject_Z n) * pow2 f)%Q as -> by ring.
    split; (apply Qmult_le_compat_r; [done|lra]).
  - intros k Hk. assert (y == inject_Z k)%Q as Hyk by (apply (Qmult_inj_r _ _ (pow2 f)); [lra|by rewrite Hy]).
    destruct (located_integer _ _ _ k Hl' Hyk) as [Hloc <-]. by apply Hex.
Qed.

(** ** The rounding of a number *)

(** Half a unit of the last place, relative to the number, or of the least double. *)
Definition ulp_half (v : Q) : Q := (Qabs v * pow2 (-53) + pow2 (-1075))%Q.

#[export] Instance ulp_half_proper : Proper (Qeq ==> Qeq) ulp_half.
Proof. intros v w E. unfold ulp_half. by rewrite E. Qed.

Record rounds (v : Q) (x : float64) : Prop := {
  rounds_finite : finite x;
  rounds_above : (val x <= v + ulp_half v)%Q;
  rounds_below : (v - ulp_half v <= val x)%Q;
  rounds_nonneg : (0 <= v -> 0 <= val x)%Q;
  rounds_nonpos : (v <= 0 -> val x <= 0)%Q;
  rounds_exact : forall k, Z.abs k < 2 ^ 53 -> (v == inject_Z k)%Q -> (val x == v)%Q }.

#[export] Instance rounds_proper : Proper (Qeq ==> eq ==> iff) rounds.
Proof.
  assert (forall v w x, (v == w)%Q -> rounds v x -> rounds w x) as Hr.
  { intros v w x E [H1 H2 H3 H4 H5 H6].
    split; [done|by rewrite <- E|by rewrite <- E|by rewrite <- E|by rewrite <- E|].
    intros k Hk Hw. rewrite <- E. apply (H6 k Hk). by rewrite E. }
  intros v w E x y ->. split; apply Hr; [done|by symmetry].
Qed.

Lemma ulp_half_nonneg v : (0 <= ulp_half v)%Q.
Proof.
  unfold ulp_half. pose proof (Qabs_nonneg v). pose proof (pow2_pos (-53)). pose proof (pow2_pos (-1075)).
  assert (0 <= Qabs v * pow2 (-53))%Q by (apply Qmult_le_0_compat; lra). lra.
Qed.

Lemma rounds_val x : finite x -> rounds (val x) x.
Proof. intros Hx. pose proof (ulp_half_nonneg (val x)). split; (done || lra || (intros; lra)). Qed.

Lemma signed_Q (s : bool) a : (inject_Z (if s then - a else a) == (if s then - inject_Z a else inject_Z a))%Q.
Proof. destruct s; [|done]. by rewrite inject_Z_opp. Qed.

Lemma unit_small m e l x : 0 <= m -> located m l x -> e <= fexp64 m e ->
  (pow2 (fexp64 m e - 1) <= x * pow2 e * pow2 (-53) + pow2 (-1075))%Q
  /\ (forall k, k < 2 ^ 53 -> (x * pow2 e == inject_Z k)%Q -> fexp64 m e <= 0).
Proof.
  intros Hm Hl He. destruct (located_digits m l x Hm Hl) as [_ Hlo]. destruct (located_floor m l x Hl) as [Hx _].
  assert (0 <= x)%Q as Hx0 by (apply (inject_le 0) in Hm; change (inject_Z 0) with 0%Q in Hm; lra).
  assert (0 <= x * pow2 e * pow2 (-53))%Q as Hpos.
  { repeat apply Qmult_le_0_compat; [done|apply Qlt_le_weak, pow2_pos..]. }
  destruct (decide (m = 0)) as [->|Hne].
  { unfold fexp64 in *. change (Zdigits2 0) with 0 in *. replace (Z.max _ _) with (-1074) by lia.
    split; [change (-1074 - 1) with (-1075); lra|lia]. }
  specialize (Hlo ltac:(lia)). assert (pow2 (Zdigits2 m - 1 + e) <= x * pow2 e)%Q as Hd.
  { rewrite pow2_add. apply Qmult_le_compat_r; [done|]. apply Qlt_le_weak, pow2_pos. }
  split.
  - unfold fexp64. destruct (Z.max_spec (Zdigits2 m + e - 53) (-1074)) as [[_ ->]|[_ ->]];
      [change (-1074 - 1) with (-1075); lra|].
    replace (Zdigits2 m + e - 53 - 1) with (Zdigits2 m - 1 + e + -53) by lia. rewrite (pow2_add _ (-53)).
    pose proof (pow2_pos (-1075)). pose proof (Qmult_le_compat_r _ _ (pow2 (-53)) Hd (Qlt_le_weak _ _ (pow2_pos _))). lra.
  - intros k Hk E. assert (Zdigits2 m - 1 + e < 53) as Hlt; [|unfold fexp64; lia].
    apply pow2_lt_inv. eapply Qle_lt_trans; [exact Hd|]. rewrite E, pow2_Z by lia. by apply inject_lt.
Qed.

Lemma aux_rounds (s : bool) m e l x : 0 <= m -> located m l x -> e <= fexp64 m e -> (x * pow2 e < pow2 1000)%Q ->
  rounds (if s then - (x * pow2 e) else x * pow2 e)%Q (binary_round_aux 53 1024 s m e l).
Proof.
  intros Hm Hl He Hv. destruct (round_aux_spec s m e l x Hm Hl He Hv) as (n & Hfin & Hval & Hn & [Hup Hdown] & Hex).
  destruct (unit_small m e l x Hm Hl He) as [Hu Hint]. destruct (located_floor m l x Hl) as [Hx _].
  assert (0 <= x * pow2 e)%Q as Hpos.
  { apply Qmult_le_0_compat; [|apply Qlt_le_weak, pow2_pos]. apply (inject_le 0) in Hm. change (inject_Z 0) with 0%Q in Hm. lra. }
  set (v := (x * pow2 e)%Q) in *. set (f := fexp64 m e) in *. set (r := binary_round_aux _ _ _ _ _ _) in *.
  rewrite signed_Q in Hval. assert (0 <= inject_Z n * pow2 f)%Q as Hn0.
  { apply Qmult_le_0_compat; [by apply (inject_le 0)|apply Qlt_le_weak, pow2_pos]. }
  assert (ulp_half (if s then - v else v) == v * pow2 (-53) + pow2 (-1075))%Q as Hulp.
  { unfold ulp_half. destruct s; rewrite ?Qabs_opp, Qabs_pos by done; reflexivity. }
  assert (val r == (if s then - (inject_Z n * pow2 f) else inject_Z n * pow2 f))%Q as Hval'.
  { rewrite Hval. destruct s; ring. }
  assert (v <= 0 -> inject_Z n * pow2 f == 0)%Q as Hzero.
  { intros Hv0. rewrite (Hex 0); [change (inject_Z 0) with 0%Q; lra|]. change (inject_Z 0) with 0%Q. lra. }
  split; [done|rewrite Hulp, Hval'; destruct s; lra|rewrite Hulp, Hval'; destruct s; lra|
    intros; rewrite Hval'; destruct s; lra|intros; rewrite Hval'; destruct s; lra|].
  intros k Hk E. assert (v == inject_Z (Z.abs k))%Q as Ev.
  { destruct (Z.abs_spec k) as [[Hk0 ->]|[Hk0 ->]]; rewrite ?inject_Z_opp; destruct s; try lra;
      [apply (inject_le 0) in Hk0|apply (inject_lt k 0) in Hk0]; change (inject_Z 0) with 0%Q in Hk0; lra. }
  specialize (Hint (Z.abs k) Hk Ev). assert (v == inject_Z (Z.abs k * 2 ^ (- f)) * pow2 f)%Q as Ek.
  { rewrite inject_Z_mult, <- pow2_Z by lia. rewrite <- Qmult_assoc, <- pow2_add. rewrite Z.add_opp_diag_l.
    change (pow2 0) with 1%Q. by rewrite Qmult_1_r. }
  rewrite Hval', (Hex _ Ek). destruct s; by rewrite <- Ek.
Qed.

(** ** The operations *)

Definition small (x : Q) : Prop := (Qabs x < pow2 1000)%Q.

#[export] Instance small_proper : Proper (Qeq ==> iff) small.
Proof. intros v w E. unfold small. by rewrite E. Qed.

Lemma align_val m e e' : e' <= e ->
  (inject_Z (Z.pos (fst (shl_align m e e'))) * pow2 e' == inject_Z (Z.pos m) * pow2 e)%Q.
Proof.
  intros He. unfold shl_align. destruct (e' - e) as [|p|p] eqn:E; cbn [fst]; [|lia|].
  - by replace e' with e by lia.
  - rewrite iter_xO, inject_Z_mult, <- pow2_Z, <- Qmult_assoc, <- pow2_add by lia. by replace (Z.pos p + e') with e by lia.
Qed.

Lemma normalize_rounds z e szero : small (inject_Z z * pow2 e) ->
  rounds (inject_Z z * pow2 e) (binary_normalize 53 1024 z e szero).
Proof.
  assert (forall (s : bool) m, (inject_Z (Z.pos m) * pow2 e < pow2 1000)%Q ->
    rounds (if s then - (inject_Z (Z.pos m) * pow2 e) else inject_Z (Z.pos m) * pow2 e)%Q (binary_round 53 1024 s m e)) as Hround.
  { intros s m Hv. unfold binary_round. set (f := fexp 53 1024 (Z.pos (digits2_pos m) + e)).
    assert (f = fexp64 (Z.pos m) e) as Hf by done.
    assert (Z.pos (fst (shl_align m e f)) = Z.pos m /\ snd (shl_align m e f) = e /\ e <= f
      \/ snd (shl_align m e f) = f /\ f < e /\ fexp64 (Z.pos (fst (shl_align m e f))) f = f) as Hal.
    { unfold shl_align. destruct (f - e) as [|p|p] eqn:E; cbn [fst snd]; [left; lia..|right].
      split; [done|]. split; [lia|]. unfold fexp64 in *. cbn [Zdigits2] in *. rewrite digits2_pos_iter. lia. }
    pose proof (align_val m e f) as Hval. destruct (shl_align m e f) as [m' e']. cbn [fst snd] in *.
    destruct Hal as [(Hm' & -> & Hef)|(-> & Hfe & Hd)].
    - rewrite Hm'. apply aux_rounds; [lia|done|lia|done].
    - pose proof (aux_rounds s (Z.pos m') f loc_Exact (inject_Z (Z.pos m')) ltac:(lia) (Qeq_refl _) ltac:(lia)) as Hr.
      specialize (Hval ltac:(lia)). rewrite <- Hval in Hv. specialize (Hr Hv). destruct s; by rewrite Hval in Hr. }
  intros Hs. unfold small in Hs. destruct z as [|m|m]; cbn [binary_normalize].
  - change (inject_Z 0) with 0%Q. rewrite Qmult_0_l. exact (rounds_val (S754_zero szero) I).
  - apply (Hround false). rewrite Qabs_pos in Hs; [done|]. apply Qmult_le_0_compat; [done|apply Qlt_le_weak, pow2_pos].
  - assert (inject_Z (Z.neg m) * pow2 e == - (inject_Z (Z.pos m) * pow2 e))%Q as E.
    { change (Z.neg m) with (- Z.pos m). rewrite inject_Z_opp. ring. }
    rewrite E in *. apply (Hround true). rewrite Qabs_opp, Qabs_pos in Hs; [done|].
    apply Qmult_le_0_compat; [done|apply Qlt_le_weak, pow2_pos].
Qed.

Lemma of_Z_val n : Z.abs n < 2 ^ 53 -> finite (f64_of_Z n) /\ (val (f64_of_Z n) == inject_Z n)%Q.
Proof.
  intros Hn. assert (rounds (inject_Z n * pow2 0) (f64_of_Z n)) as Hr.
  { apply normalize_rounds. unfold small. change (pow2 0) with 1%Q. rewrite Qmult_1_r.
    change (Qabs (inject_Z n)) with (inject_Z (Z.abs n)). eapply Qlt_le_trans; [by apply inject_lt|].
    rewrite <- pow2_Z by lia. by apply pow2_le. }
  change (pow2 0) with 1%Q in Hr. rewrite Qmult_1_r in Hr. split; [apply Hr|]. by apply (rounds_exact _ _ Hr n).
Qed.

Lemma cond_Zopp_val (s : bool) m : (inject_Z (cond_Zopp s (Z.pos m)) == inject_Z (if s then Z.neg m else Z.pos m))%Q.
Proof. by destruct s. Qed.

Lemma add_rounds x y : finite x -> finite y -> small (val x + val y) -> rounds (val x + val y) (f64_add x y).
Proof.
  intros Hx Hy Hs. destruct x as [sx|sx| |sx mx ex], y as [sy|sy| |sy my ey]; try contradiction; cbn [f64_add SFadd].
  - destruct sx, sy; exact (rounds_val (S754_zero _) I).
  - change (val (S754_zero sx)) with 0%Q. rewrite Qplus_0_l. by apply rounds_val.
  - change (val (S754_zero sy)) with 0%Q. rewrite Qplus_0_r. by apply rounds_val.
  - unfold f64_add, SFadd. set (ez := Z.min ex ey). set (z := _ + _).
    assert (inject_Z z * pow2 ez == val (S754_finite sx mx ex) + val (S754_finite sy my ey))%Q as E.
    { unfold z. rewrite inject_Z_plus, Qmult_plus_distr_l. cbn [val].
      pose proof (align_val mx ex ez ltac:(lia)) as H1. pose proof (align_val my ey ez ltac:(lia)) as H2.
      change (Z.neg mx) with (- Z.pos mx). change (Z.neg my) with (- Z.pos my). unfold cond_Zopp.
      destruct sx, sy; rewrite ?inject_Z_opp; lra. }
    rewrite <- E in Hs |- *. by apply normalize_rounds.
Qed.

Lemma opp_val x : finite x -> finite (SFopp x) /\ (val (SFopp x) == - val x)%Q.
Proof.
  intros Hx. destruct x as [s|s| |s m e]; try contradiction; cbn [SFopp finite val]; [done|]. split; [done|].
  change (Z.neg m) with (- Z.pos m). destruct s; cbn [negb]; rewrite ?inject_Z_opp; ring.
Qed.

Lemma sub_add x y : finite x -> finite y -> f64_sub x y = f64_add x (SFopp y) \/ x = S754_zero false /\ y = S754_zero false.
Proof.
  intros Hx Hy. unfold f64_sub, f64_add.
  destruct x as [sx|sx| |sx mx ex], y as [sy|sy| |sy my ey]; try contradiction; cbn [SFopp SFsub SFadd];
    [by destruct sx, sy; auto|by left..|left].
  do 2 f_equal. unfold cond_Zopp. destruct sy; cbn [negb]; lia.
Qed.

Lemma sub_rounds x y : finite x -> finite y -> small (val x - val y) -> rounds (val x - val y) (f64_sub x y).
Proof.
  intros Hx Hy Hs. destruct (sub_add x y Hx Hy) as [->|[-> ->]]; [|exact (rounds_val (S754_zero _) I)].
  destruct (opp_val y Hy) as [Hf Hv]. unfold Qminus in *. rewrite <- Hv in Hs |- *. by apply add_rounds.
Qed.

Lemma bounded_digits m e : bounded 53 1024 m e = true -> e = -1074 /\ Z.pos (digits2_pos m) <= 53 \/ Z.pos (digits2_pos m) = 53 /\ -1074 <= e.
Proof. rewrite bounded_iff. lia. Qed.

Lemma mul_digits m n : 0 < m -> 0 < n -> Zdigits2 m + Zdigits2 n - 1 <= Zdigits2 (m * n).
Proof.
  intros Hm Hn. destruct (Zdigits2_bounds m ltac:(lia)) as [_ H1], (Zdigits2_bounds n ltac:(lia)) as [_ H2].
  specialize (H1 Hm). specialize (H2 Hn).
  assert (1 <= Zdigits2 m /\ 1 <= Zdigits2 n) as [Hdm Hdn].
  { destruct m, n; try lia. cbn [Zdigits2]. lia. }
  pose proof (Zdigits2_ge (m * n) (Zdigits2 m - 1 + (Zdigits2 n - 1))) as H.
  rewrite Z.pow_add_r in H by lia. specialize (H ltac:(apply Z.mul_le_mono_nonneg; lia) ltac:(lia)). lia.
Qed.

Lemma mul_rounds x y : finite x -> finite y -> small (val x * val y) -> rounds (val x * val y) (f64_mul x y).
Proof.
  intros Hx Hy Hs. unfold f64_mul.
  destruct x as [sx|sx| |sx mx ex], y as [sy|sy| |sy my ey]; try contradiction; cbn [SFmul].
  1,2,3: cbn [val]; rewrite ?Qmult_0_l, ?Qmult_0_r; exact (rounds_val (S754_zero _) I).
  cbn [finite] in Hx, Hy. apply bounded_digits in Hx, Hy.
  pose proof (mul_digits (Z.pos mx) (Z.pos my) ltac:(lia) ltac:(lia)) as Hd.
  assert (val (S754_finite sx mx ex) * val (S754_finite sy my ey)
    == (if xorb sx sy then - (inject_Z (Z.pos (mx * my)) * pow2 (ex + ey)) else inject_Z (Z.pos (mx * my)) * pow2 (ex + ey)))%Q as E.
  { cbn [val]. change (Z.neg mx) with (- Z.pos mx). change (Z.neg my) with (- Z.pos my).
    destruct sx, sy; cbn [xorb]; rewrite pow2_add, Pos2Z.inj_mul, inject_Z_mult, ?inject_Z_opp; ring. }
  rewrite E in Hs |- *. apply aux_rounds; [lia|done| |].
  - unfold fexp64. change (Z.pos mx * Z.pos my) with (Z.pos (mx * my)) in Hd. cbn [Zdigits2] in *. lia.
  - assert (0 <= inject_Z (Z.pos (mx * my)) * pow2 (ex + ey))%Q as H0
      by (apply Qmult_le_0_compat; [done|apply Qlt_le_weak, pow2_pos]).
    unfold small in Hs. destruct (xorb sx sy); rewrite ?Qabs_opp, Qabs_pos in Hs; done.
Qed.

Lemma division_located q r d : 0 < d -> 0 <= r < d ->
  located q (new_location d r) (inject_Z (q * d + r) / inject_Z d).
Proof.
  intros Hd Hr. assert (0 < inject_Z d)%Q as Hd0 by (by apply (inject_lt 0)).
  assert (inject_Z (q * d + r) / inject_Z d == inject_Z q + inject_Z r / inject_Z d)%Q as E.
  { rewrite inject_Z_plus, inject_Z_mult. field. lra. }
  rewrite E. assert (2 * r < d -> (inject_Z r / inject_Z d < 1 # 2)%Q) as Hlt.
  { intros H. apply Qlt_shift_div_r; [done|]. apply inject_lt in H. rewrite inject_Z_mult in H. change (inject_Z 2) with 2%Q in H. lra. }
  assert (d < 2 * r -> (1 # 2 < inject_Z r / inject_Z d)%Q) as Hgt.
  { intros H. apply Qlt_shift_div_l; [done|]. apply inject_lt in H. rewrite inject_Z_mult in H. change (inject_Z 2) with 2%Q in H. lra. }
  assert (2 * r = d -> (inject_Z r / inject_Z d == 1 # 2)%Q) as Heq.
  { intros <-. rewrite inject_Z_mult. change (inject_Z 2) with 2%Q. field. rewrite inject_Z_mult in Hd0. change (inject_Z 2) with 2%Q in Hd0. lra. }
  assert (0 < r -> (0 < inject_Z r / inject_Z d)%Q) as Hpos.
  { intros H. apply Qlt_shift_div_l; [done|]. rewrite Qmult_0_l. by apply (inject_lt 0). }
  assert (inject_Z r / inject_Z d < 1)%Q as H1 by (apply Qlt_shift_div_r; [done|rewrite Qmult_1_l; apply inject_lt; lia]).
  unfold new_location, new_location_even, new_location_odd.
  destruct (Z.even d) eqn:Ev; (destruct (Z.eqb_spec r 0) as [->|Hne];
    [cbn [located]; change (inject_Z 0) with 0%Q; unfold Qdiv; rewrite Qmult_0_l; lra|]).
  - destruct (Z.compare_spec (2 * r) d) as [H|H|H]; cbn [located];
      [specialize (Heq H); lra|specialize (Hlt H); specialize (Hpos ltac:(lia)); lra|specialize (Hgt H); lra].
  - assert (2 * r <> d) as Hodd by (intros <-; by rewrite Z.even_mul in Ev).
    destruct (Z.compare_spec (2 * r + 1) d) as [H|H|H]; cbn [located];
      [specialize (Hlt ltac:(lia)); specialize (Hpos ltac:(lia)); lra
      |specialize (Hlt ltac:(lia)); specialize (Hpos ltac:(lia)); lra|specialize (Hgt ltac:(lia)); lra].
Qed.

Lemma quotient_digits m n : 0 < m -> 0 < n -> Zdigits2 m - Zdigits2 n <= Zdigits2 (m / n).
Proof.
  intros Hm Hn. destruct (Zdigits2_bounds m ltac:(lia)) as [_ H1], (Zdigits2_bounds n ltac:(lia)) as [H2 _].
  specialize (H1 Hm). pose proof (Z.div_pos m n ltac:(lia) Hn) as Hq.
  destruct (Z.le_gt_cases (Zdigits2 m - Zdigits2 n) 0) as [|Hd]; [pose proof (Zdigits2_nonneg _ Hq); lia|].
  pose proof (Zdigits2_nonneg n ltac:(lia)) as Hn0.
  enough (2 ^ (Zdigits2 m - Zdigits2 n - 1) <= m / n) as H by (apply Zdigits2_ge in H; lia).
  apply Z.div_le_lower_bound; [done|]. etransitivity; [|exact H1].
  replace (Zdigits2 m - 1) with (Zdigits2 n + (Zdigits2 m - Zdigits2 n - 1)) by lia.
  rewrite Z.pow_add_r by lia. apply Z.mul_le_mono_nonneg_r; [|lia]. apply Z.pow_nonneg. lia.
Qed.

Lemma Zdigits2_shift m s : 0 < m -> 0 <= s -> Zdigits2 (m * 2 ^ s) = Zdigits2 m + s.
Proof.
  intros Hm Hs. destruct m as [|m|]; [lia| |lia]. destruct s as [|p|]; [rewrite Z.pow_0_r, Z.mul_1_r; lia| |lia].
  rewrite <- iter_xO. cbn [Zdigits2]. rewrite digits2_pos_iter. lia.
Qed.

Lemma div_core_spec m1 e1 m2 e2 : 0 < m1 -> 0 < m2 ->
  let '(q, e, l) := SFdiv_core_binary 53 1024 m1 e1 m2 e2 in
  0 <= q /\ e <= fexp64 q e
  /\ exists x, located q l x /\ (x * pow2 e == (inject_Z m1 * pow2 e1) / (inject_Z m2 * pow2 e2))%Q.
Proof.
  intros Hm1 Hm2. unfold SFdiv_core_binary. set (e := Z.min _ (e1 - e2)).
  assert (match e1 - e2 - e with 0 => m1 | Z.pos _ => Z.shiftl m1 (e1 - e2 - e) | Z.neg _ => 0 end = m1 * 2 ^ (e1 - e2 - e)) as ->.
  { destruct (e1 - e2 - e) as [|p|p] eqn:E; [cbn; lia|by rewrite Z.shiftl_mul_pow2 by lia|lia]. }
  set (s := e1 - e2 - e). assert (0 <= s) as Hs by lia. assert (0 < m1 * 2 ^ s) as Hm by (apply Z.mul_pos_pos; [done|apply Z.pow_pos_nonneg; lia]).
  pose proof (Z_div_mod (m1 * 2 ^ s) m2 ltac:(lia)) as Hdm. destruct (Z.div_eucl (m1 * 2 ^ s) m2) as [q r] eqn:Eq.
  destruct Hdm as [Hq Hr]. assert (q = m1 * 2 ^ s / m2) as Hqd by (by apply (Z.div_unique_pos _ _ _ r); lia).
  assert (0 <= q) as Hq0 by (subst q; apply Z.div_pos; lia). split; [done|]. split.
  - pose proof (quotient_digits (m1 * 2 ^ s) m2 Hm Hm2) as Hd. rewrite <- Hqd, Zdigits2_shift in Hd by done.
    unfold fexp64. unfold fexp in e. change (emin 53 1024) with (-1074) in e. lia.
  - exists (inject_Z (q * m2 + r) / inject_Z m2)%Q. split; [by apply division_located|].
    replace (q * m2 + r) with (m1 * 2 ^ s) by lia. rewrite inject_Z_mult, <- pow2_Z by done.
    assert (0 < inject_Z m2)%Q by (by apply (inject_lt 0)). pose proof (pow2_pos e2).
    assert (pow2 e1 == pow2 s * pow2 e * pow2 e2)%Q as ->.
    { rewrite <- !pow2_add. by replace (s + e + e2) with e1 by lia. }
    field. lra.
Qed.

Lemma div_rounds x y : finite x -> finite y -> (0 < val y)%Q -> small (val x / val y) ->
  rounds (val x / val y) (f64_div x y).
Proof.
  intros Hx Hy Hpos Hs. unfold f64_div.
  destruct y as [sy|sy| |sy my ey]; try contradiction; [cbn in Hpos; lra|]. destruct sy.
  { exfalso. cbn [val] in Hpos. change (Z.neg my) with (- Z.pos my) in Hpos. rewrite inject_Z_opp in Hpos.
    pose proof (pow2_pos ey). assert (0 <= inject_Z (Z.pos my) * pow2 ey)%Q by (apply Qmult_le_0_compat; [done|lra]). lra. }
  destruct x as [sx|sx| |sx mx ex]; try contradiction; cbn [SFdiv].
  { change (val (S754_zero sx)) with 0%Q. unfold Qdiv. rewrite Qmult_0_l. exact (rounds_val (S754_zero _) I). }
  pose proof (div_core_spec (Z.pos mx) ex (Z.pos my) ey ltac:(lia) ltac:(lia)) as Hc.
  destruct (SFdiv_core_binary _ _ _ _ _ _) as [[q e] l]. destruct Hc as (Hq & He & u & Hl & Hu).
  set (w := (inject_Z (Z.pos mx) * pow2 ex / (inject_Z (Z.pos my) * pow2 ey))%Q) in *.
  assert (val (S754_finite sx mx ex) / val (S754_finite false my ey) == (if sx then - w else w))%Q as E.
  { unfold w. cbn [val] in Hpos |- *. change (Z.neg mx) with (- Z.pos mx). destruct sx; rewrite ?inject_Z_opp; field; split;
      [by pose proof (pow2_pos ey); lra|done|by pose proof (pow2_pos ey); lra|done]. }
  assert (0 <= w)%Q as Hw.
  { unfold w, Qdiv. apply Qmult_le_0_compat; [apply Qmult_le_0_compat; [done|apply Qlt_le_weak, pow2_pos]|].
    apply Qinv_le_0_compat. apply Qlt_le_weak. exact Hpos. }
  rewrite E in Hs |- *. unfold small in Hs.
  assert (w < pow2 1000)%Q as Hlt by (destruct sx; rewrite ?Qabs_opp, Qabs_pos in Hs; done).
  replace (xorb sx false) with sx by (by destruct sx). rewrite <- Hu in Hlt.
  pose proof (aux_rounds sx q e l u Hq Hl He Hlt) as Hr. destruct sx; by rewrite Hu in Hr.
Qed.

(** ** Comparisons *)

Lemma exponent_decides m1 e1 m2 e2 : bounded 53 1024 m1 e1 = true -> bounded 53 1024 m2 e2 = true -> e1 < e2 ->
  (inject_Z (Z.pos m1) * pow2 e1 < inject_Z (Z.pos m2) * pow2 e2)%Q.
Proof.
  intros H1 H2 He. apply bounded_digits in H1, H2.
  destruct (digits2_pos_bounds m1) as [_ Hm1], (digits2_pos_bounds m2) as [Hm2 _].
  assert (Z.pos m1 < 2 ^ 53) as Hm1' by (eapply Z.lt_le_trans; [exact Hm1|apply Z.pow_le_mono_r; lia]).
  assert (Z.pos (digits2_pos m2) = 53) as Hd2 by lia. rewrite Hd2 in Hm2. change (53 - 1) with 52 in Hm2.
  pose proof (pow2_pos e1). pose proof (pow2_pos e2).
  assert (inject_Z (Z.pos m1) * pow2 e1 < pow2 53 * pow2 e1)%Q as Ha.
  { apply Qmult_lt_compat_r; [done|]. rewrite pow2_Z by lia. by apply inject_lt. }
  assert (pow2 52 * pow2 e2 <= inject_Z (Z.pos m2) * pow2 e2)%Q as Hb.
  { apply Qmult_le_compat_r; [|lra]. rewrite pow2_Z by lia. by apply inject_le. }
  assert (pow2 53 * pow2 e1 <= pow2 52 * pow2 e2)%Q as Hc by (rewrite <- !pow2_add; apply pow2_le; lia). lra.
Qed.

Lemma magnitudes_compare m1 e1 m2 e2 : bounded 53 1024 m1 e1 = true -> bounded 53 1024 m2 e2 = true ->
  match e1 ?= e2 with Lt => Lt | Gt => Gt | Eq => Pos.compare_cont Eq m1 m2 end
  = (inject_Z (Z.pos m1) * pow2 e1 ?= inject_Z (Z.pos m2) * pow2 e2)%Q.
Proof.
  intros H1 H2. destruct (Z.compare_spec e1 e2) as [->|He|He].
  - pose proof (pow2_pos e2). change (Pos.compare_cont Eq m1 m2) with (Z.pos m1 ?= Z.pos m2).
    destruct (Z.compare_spec (Z.pos m1) (Z.pos m2)) as [E|Hm|Hm]; symmetry.
    + rewrite E. by apply -> Qeq_alt.
    + apply -> Qlt_alt. apply Qmult_lt_compat_r; [done|]. by apply inject_lt.
    + apply -> Qgt_alt. apply Qmult_lt_compat_r; [done|]. by apply inject_lt.
  - symmetry. apply -> Qlt_alt. by apply exponent_decides.
  - symmetry. apply -> Qgt_alt. by apply exponent_decides.
Qed.

Lemma compare_val x y : finite x -> finite y -> SFcompare x y = Some (val x ?= val y)%Q.
Proof.
  intros Hx Hy.
  assert (forall m e, 0 < inject_Z (Z.pos m) * pow2 e)%Q as Hpos.
  { intros m e. rewrite <- (Qmult_0_l (pow2 e)). apply Qmult_lt_compat_r; [apply pow2_pos|]. by apply (inject_lt 0). }
  assert (forall m e, inject_Z (Z.neg m) * pow2 e == - (inject_Z (Z.pos m) * pow2 e))%Q as Hneg.
  { intros m e. change (Z.neg m) with (- Z.pos m). rewrite inject_Z_opp. ring. }
  destruct x as [sx|sx| |sx mx ex], y as [sy|sy| |sy my ey]; try contradiction; cbn [SFcompare val]; f_equal.
  - destruct sy; symmetry; [apply -> Qgt_alt|apply -> Qlt_alt]; [rewrite Hneg; specialize (Hpos my ey); lra|apply Hpos].
  - destruct sx; symmetry; [apply -> Qlt_alt|apply -> Qgt_alt]; [rewrite Hneg; specialize (Hpos mx ex); lra|apply Hpos].
  - cbn [finite] in Hx, Hy. pose proof (magnitudes_compare mx ex my ey Hx Hy) as Hm.
    pose proof (magnitudes_compare my ey mx ex Hy Hx) as Hm'.
    specialize (Hpos mx ex) as Hpx. specialize (Hpos my ey) as Hpy.
    destruct sx, sy; [|symmetry; apply -> Qlt_alt; rewrite Hneg; lra|symmetry; apply -> Qgt_alt; rewrite Hneg; lra|done].
    assert (forall a b : Q, (- a ?= - b) = (b ?= a))%Q as Hopp.
    { intros a b. destruct (Qcompare_spec b a) as [H|H|H]; [apply -> Qeq_alt|apply -> Qlt_alt|apply -> Qgt_alt]; lra. }
    rewrite (Qcompare_comp _ _ (Hneg mx ex) _ _ (Hneg my ey)), Hopp, <- Hm'.
    rewrite (Z.compare_antisym ex ey). destruct (ex ?= ey); cbn [CompOpp]; [|done..].
    exact (eq_sym (Z.compare_antisym (Z.pos mx) (Z.pos my))).
Qed.

Lemma le_val x y : finite x -> finite y -> f64_le x y = true <-> (val x <= val y)%Q.
Proof.
  intros Hx Hy. unfold f64_le, SFleb. rewrite compare_val by done.
  destruct (Qcompare_spec (val x) (val y)); split; (done || lra || discriminate).
Qed.
Lemma lt_val x y : finite x -> finite y -> f64_lt x y = true <-> (val x < val y)%Q.
Proof.
  intros Hx Hy. unfold f64_lt, SFltb. rewrite compare_val by done.
  destruct (Qcompare_spec (val x) (val y)); split; (done || lra || discriminate).
Qed.
