(* ===== verification/GoFmt.v ===== *)
(** * Package [fmt], and [time.Duration] as text

    The verbs the commands print with: [%d], [%-13d], [%s], [%.2f]. A float is printed
    from its exact value, rounded half to even, as [strconv.FormatFloat] does for the
    format ['f']. [Duration.Round], [Duration.String], [Duration.Milliseconds]. *)

From S2P Require Import Prelude.
From S2P Require Import GoStrings.
From S2P Require Import GoStrconv.

Local Open Scope Z_scope.

(** ** Floats *)

(** [num / den] to the nearest integer, ties to the even one. *)
Definition round_half_even (num den : Z) : Z :=
  let q := num / den in
  let r := num mod den in
  if 2 * r <? den then q
  else if den <? 2 * r then q + 1
  else if Z.even q then q else q + 1.

(** [m * 2^e] in units of [10^-prec]. *)
Definition scaled (prec m e : Z) : Z :=
  if 0 <=? e then m * 2 ^ e * 10 ^ prec else round_half_even (m * 10 ^ prec) (2 ^ (- e)).

Definition zero_pad (width : nat) (s : string) : string :=
  unchars (replicate (width - str_len s) "0"%char) +:+ s.

(** [n] units of [10^-prec]. *)
Definition fixed (prec : nat) (n : Z) : string :=
  match prec with
  | O => FormatInt n
  | _ => let unit := 10 ^ Z.of_nat prec in
         FormatInt (n / unit) +:+ "." +:+ zero_pad prec (FormatInt (n mod unit))
  end.

(** [%.<prec>f]. *)
Definition FormatFixed (prec : nat) (x : float64) : string :=
  let sign (s : bool) := if s then "-" else "" in
  match x with
  | S754_nan => "NaN"
  | S754_infinity s => if s then "-Inf" else "+Inf"
  | S754_zero s => sign s +:+ fixed prec 0
  | S754_finite s m e => sign s +:+ fixed prec (scaled (Z.of_nat prec) (Z.pos m) e)
  end.

(** ** Padding *)

(** [utf8.RuneCountInString] of a valid string: the bytes that do not continue a rune. *)
Definition rune_count (s : string) : nat :=
  length (List.filter (fun c => negb ((128 <=? byte_of c) && (byte_of c <? 192))) (chars s)).

(** [%-<width>s]. *)
Definition pad_right (width : nat) (s : string) : string :=
  s +:+ unchars (replicate (width - rune_count s) " "%char).

(** ** Durations *)

Definition microsecond : duration := 1000.

(** [lessThanHalf], over uint64. *)
Definition lessThanHalf (x y : Z) : bool := (x mod two64 + x mod two64) mod two64 <? y mod two64.

Definition Duration_Round (d m : duration) : duration :=
  if m <=? 0 then d
  else
    let r := Z.rem d m in
    if d <? 0 then
      let r := wrap64 (- r) in
      if lessThanHalf r m then wrap64 (d + r)
      else
        let d1 := wrap64 (wrap64 (d - m) + r) in
        if d1 <? d then d1 else - two63
    else if lessThanHalf r m then d - r
    else
      let d1 := wrap64 (wrap64 (d + m) - r) in
      if d <? d1 then d1 else MaxInt64.

Definition Milliseconds (d : duration) : Z := Z.quot d millisecond.

(** Drops the zeros at the end. *)
Fixpoint trim_zeros (l : list ascii) : list ascii :=
  match l with
  | [] => []
  | c :: l' =>
      match trim_zeros l' with
      | [] => if Ascii.eqb c "0" then [] else [c]
      | t => c :: t
      end
  end.

(** [fmtFrac]: the fraction [v mod 10^prec] with its point, nothing if it is zero. *)
Definition fmt_frac (prec : nat) (v : Z) : string :=
  match trim_zeros (chars (zero_pad prec (FormatInt (v mod 10 ^ Z.of_nat prec)))) with
  | [] => ""
  | ds => "." +:+ unchars ds
  end.

Definition fmt_units (prec : nat) (unit : string) (u : Z) : string :=
  FormatInt (u / 10 ^ Z.of_nat prec) +:+ fmt_frac prec u +:+ unit.

(** [time.Duration.String]. *)
Definition Duration_String (d : duration) : string :=
  let u := Z.abs d in
  let text :=
    if u <? second then
      if u =? 0 then "0s"
      else if u <? microsecond then fmt_units 0 "ns" u
      else if u <? millisecond then fmt_units 3 (bytes_str [0xC2; 0xB5; 115]) u
      else fmt_units 6 "ms" u
    else
      let s := u / second in
      let m := s / 60 in
      let h := m / 60 in
      (if 0 <? h then FormatInt h +:+ "h" else "")
      +:+ (if 0 <? m then FormatInt (m mod 60) +:+ "m" else "")
      +:+ FormatInt (s mod 60) +:+ fmt_frac 9 u +:+ "s" in
  if d <? 0 then "-" +:+ text else text.

Example duration_examples :
  map Duration_String [0; 999; 1500; -1200000; 1500000000; 3723004000000; 60000000000]
  = ["0s"; "999ns"; "1.5" +:+ bytes_str [0xC2; 0xB5; 115]; "-1.2ms"; "1.5s"; "1h2m3.004s"; "1m0s"].
Proof. vm_compute. reflexivity. Qed.

Example fixed_examples :
  map (FormatFixed 2) [f64 "1.005"; f64 "0.125"; f64 "-2.5"; f64 "1e3"; S754_nan; S754_infinity true]
  = ["1.00"; "0.12"; "-2.50"; "1000.00"; "NaN"; "-Inf"].
Proof. vm_compute. reflexivity. Qed.

(** ** Lemmas: numbers are read back *)

Lemma digits_val_pretty n : forall s,
  digits_val 10 0 (chars (pretty_N_go n s)) = digits_val 10 (Z.of_N n) (chars s).
Proof.
  induction (N.lt_wf_0 n) as [n _ IH]. intros s.
  destruct (decide (0 < n)%N) as [Hn|Hn].
  - rewrite pretty_N_go_step by done. rewrite IH by (apply N.div_lt; lia).
    change (chars (String ?c s)) with (c :: chars s). cbn [digits_val].
    assert (n mod 10 < 10)%N as Hm by (by apply N.mod_lt).
    assert (digit_val (pretty_N_char (n mod 10)) = Some (Z.of_N (n mod 10))) as ->.
    { destruct (n mod 10)%N as [|p]; [done|]. do 4 (destruct p as [p|p|]; try done; try lia). }
    destruct (Z.ltb_spec (Z.of_N (n mod 10)) 10); [|lia].
    f_equal. pose proof (N.div_mod n 10). lia.
  - assert (n = 0%N) as -> by lia. by rewrite pretty_N_go_0.
Qed.

Definition is_dec (c : ascii) : Prop := is_digit c = true.

Lemma pretty_dec n : forall s, Forall is_dec (chars s) -> Forall is_dec (chars (pretty_N_go n s)).
Proof.
  induction (N.lt_wf_0 n) as [n _ IH]. intros s Hs.
  destruct (decide (0 < n)%N) as [Hn|Hn].
  - rewrite pretty_N_go_step by done. apply IH; [apply N.div_lt; lia|]. constructor; [|done].
    assert (n mod 10 < 10)%N as Hm by (by apply N.mod_lt).
    destruct (n mod 10)%N as [|p]; [done|]. do 4 (destruct p as [p|p|]; try done; try lia).
  - assert (n = 0%N) as -> by lia. by rewrite pretty_N_go_0.
Qed.

Lemma FormatInt_nonneg z : 0 <= z ->
  chars (FormatInt z) <> [] /\ Forall is_dec (chars (FormatInt z))
  /\ digits_val 10 0 (chars (FormatInt z)) = Some z.
Proof.
  intros Hz. unfold FormatInt. destruct z as [|p|p]; [|clear Hz|lia].
  - split; [done|]. split; [by repeat constructor|done].
  - change (pretty (Z.pos p)) with (pretty_N_go (N.pos p) "").
    pose proof (digits_val_pretty (N.pos p) "") as Hd. cbn [digits_val chars] in Hd.
    split; [|split; [by apply pretty_dec|done]].
    rewrite pretty_N_go_step by lia. intros E.
    assert (forall n c s, chars (pretty_N_go n (String c s)) <> []) as Hne.
    { intros n. induction (N.lt_wf_0 n) as [n _ IH]. intros c s. destruct (decide (0 < n)%N) as [Hn|Hn].
      - rewrite pretty_N_go_step by done. apply IH, N.div_lt; lia.
      - assert (n = 0%N) as -> by lia. by rewrite pretty_N_go_0. }
    by apply Hne in E.
Qed.

Lemma FormatInt_neg z : z < 0 -> FormatInt z = "-" +:+ FormatInt (- z).
Proof. by destruct z. Qed.

Lemma dec_not_sign c : is_dec c -> Ascii.eqb c "-" = false /\ Ascii.eqb c "+" = false /\ c <> "."%char.
Proof. intros H. destruct (Ascii.eqb_spec c "-"), (Ascii.eqb_spec c "+"); subst; try done. split_and!; try done. by intros ->. Qed.

Lemma Atoi_FormatInt z : int64 z -> Atoi (FormatInt z) = inl z.
Proof.
  intros Hz. unfold Atoi, ParseInt. destruct (Z.neg_nonneg_cases z) as [Hn|Hn].
  - rewrite (FormatInt_neg z Hn), chars_app. cbn [chars app split_sign].
    change (Ascii.eqb "-" "-") with true. cbn iota.
    destruct (FormatInt_nonneg (- z)) as (Hne & _ & Hd); [lia|]. unfold parse_nat.
    destruct (chars (FormatInt (- z))); [done|]. rewrite Hd.
    destruct (Z.ltb_spec two63 (- z)); [int_lia|]. f_equal. lia.
  - destruct (FormatInt_nonneg z Hn) as (Hne & Hf & Hd). unfold parse_nat, split_sign.
    destruct (chars (FormatInt z)) as [|c l]; [done|]. apply Forall_cons_1 in Hf as [Hc _].
    destruct (dec_not_sign c Hc) as (-> & -> & _). rewrite Hd. destruct (Z.leb_spec two63 z); [int_lia|done].
Qed.

(** What a printed decimal says: its units of [10^-prec], and whether it is negative. *)
Definition read_fixed (s : string) : option (bool * Z) :=
  let '(neg, l) := split_sign (chars s) in
  v ← parse_nat 10 (List.filter (fun c => negb (Ascii.eqb c ".")) l); Some (neg, v).

Lemma zero_pad_digits w s : forall acc,
  digits_val 10 acc (chars (zero_pad w s)) = digits_val 10 (acc * 10 ^ Z.of_nat (w - str_len s)) (chars s).
Proof.
  unfold zero_pad. rewrite chars_app, chars_unchars. induction (w - str_len s)%nat as [|n IH]; intros acc.
  { change (Z.of_nat 0) with 0. by rewrite Z.mul_1_r. }
  cbn [replicate app digits_val]. change (digit_val "0") with (Some 0). change (0 <? 10) with true.
  cbn iota. rewrite IH. f_equal. rewrite Nat2Z.inj_succ, Z.pow_succ_r by lia. lia.
Qed.

(** A run of digits shifts what was read before it. *)
Lemma digits_val_run l : Forall is_dec l -> exists v,
  0 <= v /\ forall acc, digits_val 10 acc l = Some (acc * 10 ^ Z.of_nat (length l) + v).
Proof.
  induction 1 as [|c l Hc _ (v & Hv & IH)].
  { exists 0. split; [done|]. intros acc. cbn. f_equal. lia. }
  assert (exists d, digit_val c = Some d /\ 0 <= d < 10) as (d & Hd & Hr).
  { unfold is_dec, is_digit, digit_val in *. eexists. rewrite Hc. split; [reflexivity|]. lia. }
  exists (d * 10 ^ Z.of_nat (length l) + v). split; [pose proof (Z.pow_nonneg 10 (Z.of_nat (length l))); nia|].
  intros acc. cbn [digits_val length]. rewrite Hd. destruct (Z.ltb_spec d 10); [|lia].
  rewrite IH, Nat2Z.inj_succ, Z.pow_succ_r by lia. f_equal. lia.
Qed.

Lemma pretty_len n : (0 < n)%N -> forall s, exists k,
  str_len (pretty_N_go n s) = (S k + str_len s)%nat /\ 10 ^ Z.of_nat k <= Z.of_N n.
Proof.
  induction (N.lt_wf_0 n) as [n _ IH]. intros Hn s. rewrite pretty_N_go_step by done.
  destruct (decide (0 < n / 10)%N) as [Hq|Hq].
  - destruct (IH (n / 10)%N) with (s := String (pretty_N_char (n mod 10)) s) as (k & -> & Hk);
      [apply N.div_lt; lia|done|].
    exists (S k). split; [unfold str_len; cbn [String.length]; lia|].
    rewrite Nat2Z.inj_succ, Z.pow_succ_r by lia.
    assert (10 * (n / 10) <= n)%N by (apply N.Div0.mul_div_le). lia.
  - assert (n / 10 = 0)%N as -> by (by apply N.le_0_r, N.nlt_ge). rewrite pretty_N_go_0. exists 0%nat. split; [done|].
    change (10 ^ Z.of_nat 0) with 1. lia.
Qed.

Lemma FormatInt_len z prec : (0 < prec)%nat -> 0 <= z < 10 ^ Z.of_nat prec ->
  (str_len (FormatInt z) <= prec)%nat.
Proof.
  intros Hp Hz. destruct z as [|p|p]; [cbn; lia| |lia].
  change (FormatInt (Z.pos p)) with (pretty_N_go (N.pos p) "").
  destruct (pretty_len (N.pos p)) with (s := "") as (k & -> & Hk); [done|]. cbn.
  destruct (Nat.le_gt_cases prec k) as [Hle|Hlt]; [|lia]. exfalso.
  pose proof (Z.pow_le_mono_r 10 (Z.of_nat prec) (Z.of_nat k)). lia.
Qed.

Lemma dec_filter l : Forall is_dec l -> List.filter (fun c => negb (Ascii.eqb c ".")) l = l.
Proof.
  induction 1 as [|c l Hc _ IH]; cbn; [done|]. destruct (Ascii.eqb_spec c "."); [by subst|]. cbn. by rewrite IH.
Qed.

Lemma zero_pad_dec w s : Forall is_dec (chars s) -> Forall is_dec (chars (zero_pad w s)).
Proof.
  intros Hs. unfold zero_pad. rewrite chars_app, chars_unchars. apply Forall_app. split; [|done].
  by apply Forall_replicate.
Qed.

Lemma zero_pad_len w s : (str_len s <= w)%nat -> length (chars (zero_pad w s)) = w.
Proof.
  intros Hl. unfold zero_pad. rewrite chars_app, chars_unchars, length_app, length_replicate, length_chars. lia.
Qed.

(** A fixed-point decimal is read back to the units it was made of. *)
Lemma read_fixed_spec prec n (neg : bool) : (0 < prec)%nat -> 0 <= n ->
  read_fixed ((if neg then "-" else "") +:+ fixed prec n) = Some (neg, n).
Proof.
  intros Hp Hn. unfold read_fixed. rewrite chars_app. unfold fixed.
  destruct prec as [|prec]; [lia|]. set (u := 10 ^ Z.of_nat (S prec)).
  assert (0 < u) as Hu by (by apply Z.pow_pos_nonneg).
  destruct (FormatInt_nonneg (n / u)) as (Hne & Hf & Hd); [by apply Z.div_pos|].
  pose proof (Z.mod_pos_bound n u Hu) as Hm.
  destruct (FormatInt_nonneg (n mod u)) as (_ & Hf2 & Hd2); [lia|].
  pose proof (FormatInt_len (n mod u) (S prec) Hp Hm) as Hl.
  rewrite !chars_app. set (a := chars (FormatInt (n / u))) in *.
  set (z := zero_pad (S prec) (FormatInt (n mod u))).
  assert (split_sign (chars (if neg then "-" else "") ++ a ++ chars "." ++ chars z)
          = (neg, a ++ chars "." ++ chars z)) as ->.
  { destruct neg; [done|]. cbn [chars app]. destruct a as [|c l]; [done|]. cbn [app split_sign].
    apply Forall_cons_1 in Hf as [Hc _]. by destruct (dec_not_sign c Hc) as (-> & -> & _). }
  rewrite !List.filter_app, (dec_filter a), (dec_filter (chars z)) by (try done; by apply zero_pad_dec).
  change (a ++ List.filter _ (chars ".") ++ chars z) with (a ++ chars z).
  assert (parse_nat 10 (a ++ chars z) = digits_val 10 0 (a ++ chars z)) as -> by (by destruct a).
  assert (digits_val 10 0 (a ++ chars z) = Some n) as ->; [|done].
  destruct (digits_val_run (a ++ chars z)) as (v & _ & Hv); [apply Forall_app; split; [done|by apply zero_pad_dec]|].
  destruct (digits_val_run a) as (va & _ & Hva); [done|].
  destruct (digits_val_run (chars z)) as (vz & _ & Hvz); [by apply zero_pad_dec|].
  rewrite Hva in Hd. injection Hd as Hd.
  assert (digits_val 10 0 (chars z) = Some (n mod u)) as Hz by (subst z; by rewrite zero_pad_digits).
  rewrite Hvz in Hz. injection Hz as Hz.
  assert (forall l1 l2 acc, digits_val 10 acc (l1 ++ l2) = (v ← digits_val 10 acc l1; digits_val 10 v l2)) as Happ.
  { intros l1. induction l1 as [|c l1 IH]; intros l2 acc; [done|]. cbn [app digits_val].
    destruct (digit_val c); [|done]. by destruct (_ <? 10); rewrite ?IH. }
  rewrite Happ, Hva. cbn [mbind option_bind]. rewrite Hvz. f_equal. subst z.
  rewrite zero_pad_len in * by done. fold u in Hz |- *. pose proof (Z.div_mod n u). lia.
Qed.

(** Rounding is to the nearest: off by at most half a unit. *)
Lemma round_half_even_spec num den : 0 < den -> 2 * Z.abs (den * round_half_even num den - num) <= den.
Proof.
  intros Hd. unfold round_half_even. pose proof (Z.div_mod num den). pose proof (Z.mod_pos_bound num den Hd).
  set (q := num / den) in *. set (r := num mod den) in *.
  destruct (Z.ltb_spec (2 * r) den); [|destruct (Z.ltb_spec den (2 * r)); [|destruct (Z.even q)]]; nia.
Qed.

(** ** Lemmas: texts of one line *)

Definition one_line (s : string) : Prop := char_of 10 ∉ chars s.

(** Decides that a character does not occur. *)
Lemma no_char c s : forallb (fun x => negb (Ascii.eqb x c)) (chars s) = true -> c ∉ chars s.
Proof.
  intros Hs Hin. rewrite forallb_forall in Hs. apply list_elem_of_In, Hs in Hin. by rewrite Ascii.eqb_refl in Hin.
Qed.

Lemma one_line_app s t : one_line s -> one_line t -> one_line (s +:+ t).
Proof. unfold one_line. rewrite chars_app, elem_of_app. tauto. Qed.

Lemma dec_one_line s : Forall is_dec (chars s) -> one_line s.
Proof. unfold one_line. rewrite List.Forall_forall. intros Hf Hin%list_elem_of_In%Hf. done. Qed.

Lemma FormatInt_one_line z : one_line (FormatInt z).
Proof.
  assert (forall n, 0 <= n -> one_line (FormatInt n)) as Hpos
    by (intros n Hn; by apply dec_one_line, FormatInt_nonneg).
  destruct (Z.neg_nonneg_cases z) as [Hz|Hz]; [|by apply Hpos].
  rewrite FormatInt_neg by done. apply one_line_app; [|apply Hpos; lia].
  unfold one_line. cbn. rewrite list_elem_of_singleton. done.
Qed.
