(* ===== verification/GoTime.v ===== *)
(** * Package [time]: [time.Parse] for [time.RFC3339Nano], [time.ParseDuration]

    The layout is 2006-01-02T15:04:05.999999999Z07:00. The parser follows
    package [time]: the hour may have one digit, the fraction may start with a
    comma and keeps nine digits, the zone is Z or a signed hh:mm offset. Dates
    are proleptic Gregorian, days are counted from 1970-01-01. *)

From S2P Require Import Prelude.
From S2P Require Import GoStrings.
From S2P Require Import GoStrconv.

Local Open Scope Z_scope.

Definition is_leap (y : Z) : bool :=
  (y mod 4 =? 0) && (negb (y mod 100 =? 0) || (y mod 400 =? 0)).

(** Leap days before year [y] (counted from year 1). *)
Definition leaps_before (y : Z) : Z := (y - 1) / 4 - (y - 1) / 100 + (y - 1) / 400.

Definition days_in (m y : Z) : Z :=
  if m =? 2 then (if is_leap y then 29 else 28)
  else if (m =? 4) || (m =? 6) || (m =? 9) || (m =? 11) then 30 else 31.

Definition days_before_month (m y : Z) : Z :=
  nth (Z.to_nat (m - 1)) [0; 31; 59; 90; 120; 151; 181; 212; 243; 273; 304; 334] 0
  + (if (2 <? m) && is_leap y then 1 else 0).

(** Days from 1970-01-01 to the date. *)
Definition days_from_civil (y m d : Z) : Z :=
  365 * (y - 1970) + (leaps_before y - leaps_before 1970) + days_before_month m y + (d - 1).

(** The time of a civil date and clock, at an offset of [zone] seconds east. *)
Definition civil_time (y mo d h mi s nsec zone : Z) : time :=
  (days_from_civil y mo d * 86400 + h * 3600 + mi * 60 + s - zone) * 1000000000 + nsec.

Definition dig (c : ascii) : option Z :=
  if is_digit c then Some (byte_of c - 48) else None.

(** Two digits; one digit is enough when [fixed] is false. *)
Definition getnum (fixed : bool) (l : list ascii) : option (Z * list ascii) :=
  match l with
  | a :: l' =>
      x ← dig a;
      match l' with
      | b :: l'' =>
          match dig b with
          | Some y => Some (x * 10 + y, l'')
          | None => if fixed then None else Some (x, l')
          end
      | [] => if fixed then None else Some (x, [])
      end
  | [] => None
  end.

Definition get_year (l : list ascii) : option (Z * list ascii) :=
  '(hi, l) ← getnum true l; '(lo, l) ← getnum true l; Some (hi * 100 + lo, l).

Definition expect (c : ascii) (l : list ascii) : option (list ascii) :=
  match l with
  | d :: l' => if Ascii.eqb c d then Some l' else None
  | [] => None
  end.

Definition check (b : bool) : option unit := if b then Some tt else None.

Fixpoint take_digits (l : list ascii) : list ascii * list ascii :=
  match l with
  | c :: l' => if is_digit c then let '(a, b) := take_digits l' in (c :: a, b) else ([], l)
  | [] => ([], [])
  end.

(** An optional fraction: a period or comma and at least one digit, of which
    nine count. *)
Definition get_frac (l : list ascii) : Z * list ascii :=
  match l with
  | p :: l' =>
      if Ascii.eqb p "." || Ascii.eqb p "," then
        match take_digits l' with
        | ([], _) => (0, l)
        | (ds, rest) =>
            let ds := take 9 ds in
            (default 0 (digits_val 10 0 ds) * 10 ^ (9 - Z.of_nat (length ds)), rest)
        end
      else (0, l)
  | [] => (0, [])
  end.

(** The zone: its offset in seconds east of UTC. *)
Definition get_zone (l : list ascii) : option (Z * list ascii) :=
  match l with
  | c :: l' =>
      if Ascii.eqb c "Z" then Some (0, l')
      else
        '(hr, l1) ← getnum true l';
        l2 ← expect ":"%char l1;
        '(mm, l3) ← getnum true l2;
        _ ← check ((hr <=? 24) && (mm <=? 60));
        let off := (hr * 60 + mm) * 60 in
        if Ascii.eqb c "+" then Some (off, l3)
        else if Ascii.eqb c "-" then Some (- off, l3) else None
  | [] => None
  end.

Definition ParseRFC3339Nano (s : string) : option time :=
  '(y, l) ← get_year (chars s);
  l ← expect "-"%char l;
  '(mo, l) ← getnum true l;
  _ ← check ((1 <=? mo) && (mo <=? 12));
  l ← expect "-"%char l;
  '(d, l) ← getnum true l;
  l ← expect "T"%char l;
  '(h, l) ← getnum false l;
  _ ← check (h <? 24);
  l ← expect ":"%char l;
  '(mi, l) ← getnum true l;
  _ ← check (mi <? 60);
  l ← expect ":"%char l;
  '(sec, l) ← getnum true l;
  _ ← check (sec <? 60);
  let '(nsec, l) := get_frac l in
  '(zone, l) ← get_zone l;
  match l with
  | [] =>
      _ ← check ((1 <=? d) && (d <=? days_in mo y));
      Some (civil_time y mo d h mi sec nsec zone)
  | _ => None
  end.

(** ** The calendar is contiguous *)

Lemma div_step n y : 0 < n -> y / n - (y - 1) / n = if y mod n =? 0 then 1 else 0.
Proof.
  intros Hn. destruct (Z.eqb_spec (y mod n) 0) as [H|H].
  - assert ((y - 1) / n = y / n - 1); [|lia].
    symmetry. apply (Z.div_unique _ _ _ (n - 1)); [lia|].
    rewrite (Z.div_mod y n) at 1 by lia. rewrite H. lia.
  - assert ((y - 1) / n = y / n); [|lia].
    pose proof (Z.mod_pos_bound y n Hn).
    symmetry. apply (Z.div_unique _ _ _ (y mod n - 1)); [lia|].
    rewrite (Z.div_mod y n) at 1 by lia. lia.
Qed.

Lemma mod_mul_0 n k y : 0 < n -> 0 < k -> y mod (n * k) = 0 -> y mod n = 0.
Proof.
  intros Hn Hk H. apply (Z.mod_divide y (n * k)) in H as [q ->]; [|nia].
  replace (q * (n * k)) with (q * k * n) by lia. apply Z.mod_mul. lia.
Qed.

Lemma leaps_step y : leaps_before (y + 1) - leaps_before y = if is_leap y then 1 else 0.
Proof.
  unfold leaps_before, is_leap. replace (y + 1 - 1) with y by lia.
  pose proof (div_step 4 y ltac:(lia)). pose proof (div_step 100 y ltac:(lia)).
  pose proof (div_step 400 y ltac:(lia)).
  pose proof (mod_mul_0 4 25 y ltac:(lia) ltac:(lia)).
  pose proof (mod_mul_0 100 4 y ltac:(lia) ltac:(lia)).
  change (4 * 25) with 100 in *. change (100 * 4) with 400 in *.
  destruct (Z.eqb_spec (y mod 4) 0), (Z.eqb_spec (y mod 100) 0), (Z.eqb_spec (y mod 400) 0);
    cbn [negb andb orb]; lia.
Qed.

(** The first day of the month after a month is the day after its last day. *)
Lemma days_from_civil_month y m :
  1 <= m < 12 ->
  days_from_civil y (m + 1) 1 = days_from_civil y m (days_in m y) + 1.
Proof.
  intros Hm. unfold days_from_civil, days_before_month, days_in.
  assert (m = 1 \/ m = 2 \/ m = 3 \/ m = 4 \/ m = 5 \/ m = 6 \/ m = 7 \/ m = 8 \/ m = 9
          \/ m = 10 \/ m = 11) as H by lia.
  generalize (365 * (y - 1970) + (leaps_before y - leaps_before 1970)). intros n.
  rewrite <- !Z.add_assoc. f_equal.
  destruct (is_leap y); repeat destruct H as [->|H]; try subst m; reflexivity.
Qed.

(** The first day of a year is the day after the last day of the year before. *)
Lemma days_from_civil_year y :
  days_from_civil (y + 1) 1 1 = days_from_civil y 12 31 + 1.
Proof.
  unfold days_from_civil, days_before_month. pose proof (leaps_step y).
  change (nth (Z.to_nat (1 - 1)) _ _) with 0. change (nth (Z.to_nat (12 - 1)) _ _) with 334.
  change (2 <? 1) with false. change (2 <? 12) with true.
  destruct (is_leap y), (is_leap (y + 1)); cbn [andb]; lia.
Qed.

(** ** time.ParseDuration *)

(** The units in nanoseconds; the two micro signs are U+00B5 and U+03BC. *)
Definition duration_unit (u : list ascii) : option Z :=
  let s := unchars u in
  if String.eqb s "ns" then Some 1
  else if String.eqb s "us" || String.eqb s (bytes_str [0xC2; 0xB5; 115])
          || String.eqb s (bytes_str [0xCE; 0xBC; 115]) then Some 1000
  else if String.eqb s "ms" then Some 1000000
  else if String.eqb s "s" then Some 1000000000
  else if String.eqb s "m" then Some 60000000000
  else if String.eqb s "h" then Some 3600000000000 else None.

(** [leadingInt]: [None] is an overflow. *)
Fixpoint leading_int (x : Z) (l : list ascii) : option (Z * list ascii) :=
  match l with
  | c :: l' =>
      if is_digit c then
        if two63 / 10 <? x then None
        else
          let x := x * 10 + (byte_of c - 48) in
          if two63 <? x then None else leading_int x l'
      else Some (x, l)
  | [] => Some (x, [])
  end.

(** [leadingFraction]: the digits and the number of them that were used. *)
Fixpoint leading_fraction (x : Z) (scale : float64) (over : bool) (l : list ascii)
    : Z * float64 * list ascii :=
  match l with
  | c :: l' =>
      if is_digit c then
        let y := x * 10 + (byte_of c - 48) in
        if over || ((two63 - 1) / 10 <? x) || (two63 <? y) then leading_fraction x scale true l'
        else leading_fraction y (f64_mul scale (f64_of_Z 10)) false l'
      else (x, scale, l)
  | [] => (x, scale, [])
  end.

Definition is_unit_char (c : ascii) : bool := negb (Ascii.eqb c "." || is_digit c).
Fixpoint span_unit (l : list ascii) : list ascii * list ascii :=
  match l with
  | c :: l' => if is_unit_char c then let '(a, b) := span_unit l' in (c :: a, b) else ([], l)
  | [] => ([], [])
  end.

(** One number with its unit, in nanoseconds, and the rest. *)
Definition duration_term (l : list ascii) : option (Z * list ascii) :=
  match l with
  | [] => None
  | c :: _ =>
      if negb (Ascii.eqb c "." || is_digit c) then None
      else
        '(v, l1) ← leading_int 0 l;
        let pre := negb (length l =? length l1)%nat in
        let '(f, scale, l2, post) :=
          match l1 with
          | d :: l1' =>
              if Ascii.eqb d "." then
                let '(f, scale, l2) := leading_fraction 0 (f64_of_Z 1) false l1' in
                (f, scale, l2, negb (length l1' =? length l2)%nat)
              else (0, f64_of_Z 1, l1, false)
          | [] => (0, f64_of_Z 1, l1, false)
          end in
        if negb pre && negb post then None
        else
          match span_unit l2 with
          | ([], _) => None
          | (u, l3) =>
              unit ← duration_unit u;
              if two63 / unit <? v then None
              else
                let v := v * unit in
                let v := if 0 <? f
                         then v + f64_trunc (f64_mul (f64_of_Z f) (f64_div (f64_of_Z unit) scale))
                         else v in
                if two63 <? v then None else Some (v, l3)
          end
  end.

(** A term consumes at least its unit, so the length of the text is enough fuel. *)
Fixpoint duration_sum (fuel : nat) (d : Z) (l : list ascii) : option Z :=
  match l with
  | [] => Some d
  | _ =>
      match fuel with
      | O => None
      | S f =>
          '(v, l') ← duration_term l;
          if two63 <? d + v then None else duration_sum f (d + v) l'
      end
  end.

Definition ParseDuration (s : string) : option duration :=
  let '(neg, l) := split_sign (chars s) in
  if String.eqb (unchars l) "0" then Some 0
  else match l with
       | [] => None
       | _ =>
           d ← duration_sum (length l) 0 l;
           if neg then Some (wrap64 (- d)) else if two63 - 1 <? d then None else Some d
       end.

(** ** Lemmas: the fuel of [ParseDuration] is enough *)

Lemma leading_int_length x l v r : leading_int x l = Some (v, r) -> (length r <= length l)%nat.
Proof.
  revert x. induction l as [|c l IH]; intros x; cbn; [by intros [= _ <-]|].
  destruct (is_digit c); [|by intros [= _ <-]].
  repeat (destruct (_ <? _); [done|]). intros H%IH. lia.
Qed.
Lemma leading_fraction_length x scale over l :
  (length (leading_fraction x scale over l).2 <= length l)%nat.
Proof.
  revert x scale over. induction l as [|c l IH]; intros x scale over; cbn; [done|].
  destruct (is_digit c); [|done]. destruct (_ || _); (etrans; [apply IH|lia]).
Qed.
Lemma span_unit_length l u r : span_unit l = (u, r) -> length l = (length u + length r)%nat.
Proof.
  revert u r. induction l as [|c l IH]; intros u r; cbn; [by intros [= <- <-]|].
  destruct (is_unit_char c); [|by intros [= <- <-]]. destruct (span_unit l) as [a b].
  intros [= <- <-]. cbn. by rewrite (IH a b eq_refl).
Qed.

Lemma duration_term_length l v r : duration_term l = Some (v, r) -> (length r < length l)%nat.
Proof.
  unfold duration_term. destruct l as [|c l]; [done|]. destruct (negb _); [done|].
  destruct (leading_int 0 (c :: l)) as [[x l1]|] eqn:E1; [|done]. cbn [mbind option_bind].
  apply leading_int_length in E1.
  set (q := match l1 with [] => _ | _ => _ end).
  assert (length q.1.2 <= length l1)%nat as Hq.
  { subst q. destruct l1 as [|d l1']; [done|]. destruct (Ascii.eqb d "."); [|done].
    pose proof (leading_fraction_length 0 (f64_of_Z 1) false l1').
    destruct (leading_fraction _ _ _ _) as [[f s] l2]. cbn in *. lia. }
  destruct q as [[[f scale] l2] post]. cbn [fst snd] in Hq. destruct (_ && _); [done|].
  destruct (span_unit l2) as [[|u0 u] l3] eqn:Es; [done|]. apply span_unit_length in Es. cbn in Es.
  destruct (duration_unit (u0 :: u)); [|done]. cbn [mbind option_bind].
  destruct (_ <? _); [done|]. destruct (_ <? _); [done|]. intros [= _ <-]. cbn [length] in *. lia.
Qed.

Lemma duration_sum_fuel f f' d l :
  (length l <= f)%nat -> (length l <= f')%nat -> duration_sum f d l = duration_sum f' d l.
Proof.
  revert f' d l. induction f as [|f IH]; intros [|f'] d [|c l] Hf Hf'; try (cbn in *; lia); try done.
  cbn [duration_sum]. destruct (duration_term (c :: l)) as [[v r]|] eqn:E; [|done]. cbn [mbind option_bind].
  apply duration_term_length in E. cbn [length] in *. destruct (_ <? _); [done|]. apply IH; lia.
Qed.
