(* ===== verification/GoJson.v ===== *)
(** * Package [encoding/json]: the values, [Unmarshal] and its field matching

    [json_parse] reads a text into a value with the syntax and the string
    decoding of Go's scanner; a [json.RawMessage] is the value it holds.
    Decoding into a Go value takes the current value and returns the new one,
    [None] when a type does not fit (Go goes on and reports the first such error
    at the end, and every caller here drops the result on an error). *)

From S2P Require Import Prelude.
From S2P Require Import GoStrings.
From S2P Require Import GoStrconv.

Local Open Scope Z_scope.

#[local] Set Warnings "-register-all".

Inductive json :=
  | JNull
  | JBool (b : bool)
  | JNum (lit : string)
  | JStr (s : string)
  | JArr (l : list json)
  | JObj (m : list (string * json)).

(** ** Text to value *)

Definition is_ws (c : ascii) : bool :=
  let n := byte_of c in (n =? 32) || (n =? 9) || (n =? 10) || (n =? 13).
Fixpoint skip_ws (l : list ascii) : list ascii :=
  match l with c :: l' => if is_ws c then skip_ws l' else l | [] => [] end.

Definition in_range (lo hi : Z) (c : ascii) : bool :=
  (lo <=? byte_of c) && (byte_of c <=? hi).

(** The length of the valid UTF-8 sequence (of two bytes or more) at the front
    of [l]; [0] when there is none. *)
Definition utf8_len (l : list ascii) : nat :=
  match l with
  | a :: b :: l' =>
      let cont := in_range 0x80 0xBF in
      if in_range 0xC2 0xDF a then (if cont b then 2%nat else O)
      else
        let second :=
          if byte_of a =? 0xE0 then in_range 0xA0 0xBF b
          else if byte_of a =? 0xED then in_range 0x80 0x9F b
          else if byte_of a =? 0xF0 then in_range 0x90 0xBF b
          else if byte_of a =? 0xF4 then in_range 0x80 0x8F b
          else cont b in
        if in_range 0xE0 0xEF a then
          match l' with c :: _ => if second && cont c then 3%nat else O | [] => O end
        else if in_range 0xF0 0xF4 a then
          match l' with
          | c :: d :: _ => if second && cont c && cont d then 4%nat else O
          | _ => O
          end
        else O
  | _ => O
  end.

(** UTF-8 of a code point. *)
Definition utf8_encode (r : Z) : list ascii :=
  map char_of
    (if r <? 0x80 then [r]
     else if r <? 0x800 then [0xC0 + r / 64; 0x80 + r mod 64]
     else if r <? 0x10000 then [0xE0 + r / 4096; 0x80 + r / 64 mod 64; 0x80 + r mod 64]
     else [0xF0 + r / 262144; 0x80 + r / 4096 mod 64; 0x80 + r / 64 mod 64; 0x80 + r mod 64]).

Definition hex4 (l : list ascii) : option (Z * list ascii) :=
  match l with
  | a :: b :: c :: d :: l' =>
      v ← digits_val 16 0 [a; b; c; d]; Some (v, l')
  | _ => None
  end.

(** The rune of an escape [\uXXXX] whose first unit is [r]: a valid surrogate
    pair is one rune, another surrogate is U+FFFD. *)
Definition surrogate (r : Z) (l : list ascii) : Z * list ascii :=
  if (0xD800 <=? r) && (r <? 0xE000) then
    match l with
    | b :: u :: l' =>
        if (byte_of b =? 92) && Ascii.eqb u "u" then
          match hex4 l' with
          | Some (r2, l'') =>
              if (r <? 0xDC00) && (0xDC00 <=? r2) && (r2 <? 0xE000)
              then ((r - 0xD800) * 1024 + (r2 - 0xDC00) + 0x10000, l'')
              else (0xFFFD, l)
          | None => (0xFFFD, l)
          end
        else (0xFFFD, l)
    | _ => (0xFFFD, l)
    end
  else (r, l).

Definition simple_escape (c : ascii) : option Z :=
  if byte_of c =? 34 then Some 34 else if byte_of c =? 92 then Some 92
  else if Ascii.eqb c "/" then Some 47 else if Ascii.eqb c "b" then Some 8
  else if Ascii.eqb c "f" then Some 12 else if Ascii.eqb c "n" then Some 10
  else if Ascii.eqb c "r" then Some 13 else if Ascii.eqb c "t" then Some 9 else None.

(** The body of a string after its opening quote, accumulated in reverse. *)
Fixpoint parse_str (fuel : nat) (acc : list ascii) (l : list ascii) : option (string * list ascii) :=
  match fuel with
  | O => None
  | S f =>
      match l with
      | [] => None
      | c :: l' =>
          if byte_of c =? 34 then Some (unchars (rev acc), l')
          else if byte_of c =? 92 then
            match l' with
            | e :: l'' =>
                if Ascii.eqb e "u" then
                  '(r, l3) ← hex4 l'';
                  let '(r, l4) := surrogate r l3 in
                  parse_str f (rev (utf8_encode r) ++ acc) l4
                else
                  b ← simple_escape e; parse_str f (char_of b :: acc) l''
            | [] => None
            end
          else if byte_of c <? 32 then None
          else if byte_of c <? 128 then parse_str f (c :: acc) l'
          else
            match utf8_len l with
            | O => parse_str f (rev (utf8_encode 0xFFFD) ++ acc) l'
            | n => parse_str f (rev (take n l) ++ acc) (drop n l)
            end
      end
  end.

Fixpoint span_digits (l : list ascii) : list ascii * list ascii :=
  match l with
  | c :: l' => if is_digit c then let '(a, b) := span_digits l' in (c :: a, b) else ([], l)
  | [] => ([], [])
  end.

(** The literal of a number: minus, integer part without a leading zero,
    fraction, exponent. *)
Definition num_int (l : list ascii) : option (list ascii * list ascii) :=
  match l with
  | c :: l' =>
      if Ascii.eqb c "0" then Some ([c], l')
      else match span_digits l with ([], _) => None | r => Some r end
  | [] => None
  end.
Definition num_frac (l : list ascii) : option (list ascii * list ascii) :=
  match l with
  | c :: l' =>
      if Ascii.eqb c "." then
        match span_digits l' with ([], _) => None | (ds, r) => Some (c :: ds, r) end
      else Some ([], l)
  | [] => Some ([], [])
  end.
Definition num_exp (l : list ascii) : option (list ascii * list ascii) :=
  match l with
  | c :: l' =>
      if Ascii.eqb (ascii_lower c) "e" then
        let '(sg, l'') :=
          match l' with
          | s :: r => if Ascii.eqb s "+" || Ascii.eqb s "-" then ([s], r) else ([], l')
          | [] => ([], [])
          end in
        match span_digits l'' with ([], _) => None | (ds, r) => Some (c :: sg ++ ds, r) end
      else Some ([], l)
  | [] => Some ([], [])
  end.
Definition parse_num (l : list ascii) : option (string * list ascii) :=
  let '(sg, l1) := match l with
                   | c :: l' => if Ascii.eqb c "-" then ([c], l') else ([], l)
                   | [] => ([], [])
                   end in
  '(i, l2) ← num_int l1;
  '(fr, l3) ← num_frac l2;
  '(ex, l4) ← num_exp l3;
  Some (unchars (sg ++ i ++ fr ++ ex), l4).

Definition max_nesting : Z := 10000.

(** Values, elements and members. [depth] is the number of open containers; two
    units of fuel per byte are enough ([json_parse_fuel]). *)
Fixpoint parse_value (fuel : nat) (depth : Z) (l : list ascii) : option (json * list ascii) :=
  match fuel with
  | O => None
  | S f =>
      let deeper := depth <? max_nesting in
      match skip_ws l with
      | [] => None
      | c :: l' =>
          if Ascii.eqb c "{" then
            if deeper then
              match skip_ws l' with
              | d :: l'' =>
                  if Ascii.eqb d "}" then Some (JObj [], l'')
                  else '(m, r) ← parse_members f (depth + 1) [] (d :: l''); Some (JObj m, r)
              | [] => None
              end
            else None
          else if Ascii.eqb c "[" then
            if deeper then
              match skip_ws l' with
              | d :: l'' =>
                  if Ascii.eqb d "]" then Some (JArr [], l'')
                  else '(m, r) ← parse_elems f (depth + 1) [] (d :: l''); Some (JArr m, r)
              | [] => None
              end
            else None
          else if byte_of c =? 34 then
            '(s, r) ← parse_str (S (length l')) [] l'; Some (JStr s, r)
          else if is_prefix (chars "true") (c :: l') then Some (JBool true, drop 4 (c :: l'))
          else if is_prefix (chars "false") (c :: l') then Some (JBool false, drop 5 (c :: l'))
          else if is_prefix (chars "null") (c :: l') then Some (JNull, drop 4 (c :: l'))
          else '(n, r) ← parse_num (c :: l'); Some (JNum n, r)
      end
  end
with parse_elems (fuel : nat) (depth : Z) (acc : list json) (l : list ascii)
    : option (list json * list ascii) :=
  match fuel with
  | O => None
  | S f =>
      '(v, r) ← parse_value f depth l;
      match skip_ws r with
      | c :: r' =>
          if Ascii.eqb c "," then parse_elems f depth (v :: acc) r'
          else if Ascii.eqb c "]" then Some (rev (v :: acc), r') else None
      | [] => None
      end
  end
with parse_members (fuel : nat) (depth : Z) (acc : list (string * json)) (l : list ascii)
    : option (list (string * json) * list ascii) :=
  match fuel with
  | O => None
  | S f =>
      match skip_ws l with
      | q :: l' =>
          if byte_of q =? 34 then
            '(k, r) ← parse_str (S (length l')) [] l';
            match skip_ws r with
            | c :: r' =>
                if Ascii.eqb c ":" then
                  '(v, r2) ← parse_value f depth r';
                  match skip_ws r2 with
                  | d :: r3 =>
                      if Ascii.eqb d "," then parse_members f depth ((k, v) :: acc) r3
                      else if Ascii.eqb d "}" then Some (rev ((k, v) :: acc), r3) else None
                  | [] => None
                  end
                else None
            | [] => None
            end
          else None
      | [] => None
      end
  end.

Definition json_parse (s : string) : option json :=
  let l := chars s in
  match parse_value (S (2 * length l)) 0 l with
  | Some (v, r) => match skip_ws r with [] => Some v | _ => None end
  | None => None
  end.

(** ** Decoding into Go values *)

Definition decoder (A : Type) := A -> json -> option A.

Definition dec_string : decoder string := fun cur j =>
  match j with JStr s => Some s | JNull => Some cur | _ => None end.
Definition dec_bool : decoder bool := fun cur j =>
  match j with JBool b => Some b | JNull => Some cur | _ => None end.
Definition dec_int64 : decoder Z := fun cur j =>
  match j with
  | JNum lit => match ParseInt lit 10 with inl z => Some z | inr _ => None end
  | JNull => Some cur
  | _ => None
  end.
Definition dec_uint32 : decoder Z := fun cur j =>
  match j with
  | JNum lit => match ParseUint32 lit with inl z => Some z | inr _ => None end
  | JNull => Some cur
  | _ => None
  end.
Definition dec_float64 : decoder float64 := fun cur j =>
  match j with
  | JNum lit => match ParseFloat lit with (f, None) => Some f | (_, Some _) => None end
  | JNull => Some cur
  | _ => None
  end.
(** A [json.RawMessage]: [None] is the empty one. *)
Definition dec_raw : decoder (option json) := fun _ j => Some (Some j).
(** A pointer; a nil one is allocated with the zero value. *)
Definition dec_ptr {A} (zero : A) (d : decoder A) : decoder (option A) := fun cur j =>
  match j with
  | JNull => Some None
  | _ => Some <$> d (default zero cur) j
  end.
(** A slice: element [i] is decoded into the element [i] the slice had. *)
Fixpoint dec_elems {A} (zero : A) (d : decoder A) (cur : list A) (l : list json)
    : option (list A) :=
  match l with
  | [] => Some []
  | j :: l' =>
      a ← d (default zero (head cur)) j;
      r ← dec_elems zero d (tail cur) l'; Some (a :: r)
  end.
Definition dec_slice {A} (zero : A) (d : decoder A) : decoder (list A) := fun cur j =>
  match j with
  | JArr l => dec_elems zero d cur l
  | JNull => Some []
  | _ => None
  end.

(** A struct is decoded member by member. A member goes to the field whose name
    equals its key, else to the first field whose name equals it up to case
    folding, else nowhere. *)
Definition fields (A : Type) := list (string * decoder A).

(** Case folding of a key, as far as an ASCII field name is concerned: U+017F
    folds with s and U+212A with k. *)
Fixpoint fold_key (fuel : nat) (l : list ascii) : list ascii :=
  match fuel with
  | O => []
  | S f =>
      if is_prefix (map char_of [0xC5; 0xBF]) l then "S"%char :: fold_key f (drop 2 l)
      else if is_prefix (map char_of [0xE2; 0x84; 0xAA]) l then "K"%char :: fold_key f (drop 3 l)
      else match l with c :: l' => ascii_upper c :: fold_key f l' | [] => [] end
  end.
Definition fold_name (s : string) : string := unchars (fold_key (str_len s) (chars s)).

Definition find_field {A} (fs : fields A) (key : string) : option (decoder A) :=
  match List.find (fun f => String.eqb (fst f) key) fs with
  | Some f => Some (snd f)
  | None =>
      match List.find (fun f => String.eqb (fold_name (fst f)) (fold_name key)) fs with
      | Some f => Some (snd f)
      | None => None
      end
  end.

Fixpoint dec_members {A} (fs : fields A) (cur : A) (m : list (string * json)) : option A :=
  match m with
  | [] => Some cur
  | (k, v) :: m' =>
      match find_field fs k with
      | Some d => cur' ← d cur v; dec_members fs cur' m'
      | None => dec_members fs cur m'
      end
  end.
Definition dec_struct {A} (fs : fields A) : decoder A := fun cur j =>
  match j with
  | JObj m => dec_members fs cur m
  | JNull => Some cur
  | _ => None
  end.

(** A field: its name, how its value is read from the struct and set in it. *)
Definition field {A B} (name : string) (d : decoder B) (get : A -> B) (set : B -> A -> A)
    : string * decoder A :=
  (name, fun cur j => b ← d (get cur) j; Some (set b cur)).

(** [map[string]json.RawMessage]: a key that occurs twice keeps its last value. *)
Definition dec_map (j : json) : option (gmap string json) :=
  match j with
  | JObj m => Some (fold_left (fun acc kv => <[fst kv := snd kv]> acc) m ∅)
  | JNull => Some ∅
  | _ => None
  end.

Definition json_syntax : error := EMsg "json: invalid text".
Definition json_type : error := EMsg "json: cannot unmarshal".

(** [json.Unmarshal(raw, &v)] for a text, and for a RawMessage. *)
Definition Unmarshal {A} (d : decoder A) (zero : A) (raw : string) : res A :=
  match json_parse raw with
  | Some j => of_option json_type (d zero j)
  | None => Err json_syntax
  end.
Definition UnmarshalRaw {A} (d : decoder A) (zero : A) (raw : option json) : res A :=
  match raw with
  | Some j => of_option json_type (d zero j)
  | None => Err json_syntax
  end.

(** ** Lemmas: the fuel of [json_parse] is enough *)

Lemma skip_ws_length l : (length (skip_ws l) <= length l)%nat.
Proof. induction l as [|c l IH]; cbn; [lia|]. destruct (is_ws c); cbn; lia. Qed.

Lemma span_digits_length l a r : span_digits l = (a, r) -> (length r <= length l)%nat.
Proof.
  revert a r. induction l as [|c l IH]; cbn; intros a r; [intros [= <- <-]; done|].
  destruct (is_digit c); [|intros [= <- <-]; done].
  destruct (span_digits l) as [a' r'] eqn:E. intros [= <- <-].
  specialize (IH _ _ eq_refl). cbn. lia.
Qed.

Lemma hex4_length l r l' : hex4 l = Some (r, l') -> (length l' < length l)%nat.
Proof.
  destruct l as [|a [|b [|c [|d l]]]]; try done. unfold hex4.
  destruct (digits_val _ _ _); [|done]. intros [= _ <-]. cbn. lia.
Qed.

Lemma surrogate_length r l r' l' : surrogate r l = (r', l') -> (length l' <= length l)%nat.
Proof.
  unfold surrogate. destruct (_ && _); [|by intros [= _ <-]].
  destruct l as [|b [|u l]]; [by intros [= _ <-]..|].
  repeat split_match; intros [= _ <-]; try done.
  all: repeat match goal with H : hex4 _ = Some _ |- _ => apply hex4_length in H end; cbn in *; lia.
Qed.

Lemma drop_lt {A} n (l : list A) : n <> O -> l <> [] -> (length (drop n l) < length l)%nat.
Proof. rewrite length_drop. destruct l; cbn; [done|lia]. Qed.

(** A string is read from its own bytes, and one unit of fuel per byte is enough. *)
Lemma parse_str_length f acc l s r : parse_str f acc l = Some (s, r) -> (length r < length l)%nat.
Proof.
  revert acc l. induction f as [|f IH]; intros acc l; [done|]. destruct l as [|c l']; [done|]. cbn [parse_str].
  destruct (byte_of c =? 34); [intros [= _ <-]; cbn; lia|].
  destruct (byte_of c =? 92).
  { destruct l' as [|e l'']; [done|]. destruct (Ascii.eqb e "u").
    - destruct (hex4 l'') as [[r0 l3]|] eqn:Eh; [|done]. cbn. destruct (surrogate r0 l3) as [r1 l4] eqn:Es.
      intros H%IH. apply hex4_length in Eh. apply surrogate_length in Es. lia.
    - destruct (simple_escape e); [|done]. intros H%IH. cbn. lia. }
  destruct (byte_of c <? 32); [done|]. destruct (byte_of c <? 128); [intros H%IH; cbn; lia|].
  destruct (utf8_len (c :: l')) as [|n] eqn:En; [intros H%IH; cbn; lia|].
  intros H%IH. pose proof (drop_lt (S n) (c :: l') ltac:(done) ltac:(done)). lia.
Qed.

Lemma parse_str_fuel f f' acc l :
  (length l < f)%nat -> (length l < f')%nat -> parse_str f acc l = parse_str f' acc l.
Proof.
  revert f' acc l. induction f as [|f IH]; intros f' acc l Hf Hf'; [lia|].
  destruct f' as [|f']; [lia|]. destruct l as [|c l']; [done|]. cbn [parse_str length] in *.
  destruct (byte_of c =? 34); [done|]. destruct (byte_of c =? 92).
  { destruct l' as [|e l'']; [done|]. cbn [length] in *. destruct (Ascii.eqb e "u").
    - destruct (hex4 l'') as [[r0 l3]|] eqn:Eh; [|done]. cbn. destruct (surrogate r0 l3) as [r1 l4] eqn:Es.
      apply hex4_length in Eh. apply surrogate_length in Es. apply IH; lia.
    - destruct (simple_escape e); [|done]. cbn. apply IH; lia. }
  destruct (byte_of c <? 32); [done|]. destruct (byte_of c <? 128); [apply IH; lia|].
  destruct (utf8_len (c :: l')) as [|n]; [apply IH; lia|].
  pose proof (drop_lt (S n) (c :: l') ltac:(done) ltac:(done)). cbn [length] in *. apply IH; lia.
Qed.

Lemma span_digits_lt l a r : span_digits l = (a, r) -> a <> [] -> (length r < length l)%nat.
Proof.
  destruct l as [|c l]; cbn; [by intros [= <- <-]|]. destruct (is_digit c); [|by intros [= <- <-]].
  destruct (span_digits l) as [a' r'] eqn:E. intros [= <- <-] _.
  apply span_digits_length in E. lia.
Qed.

Lemma num_int_length l i r : num_int l = Some (i, r) -> (length r < length l)%nat.
Proof.
  destruct l as [|c l]; [done|]. unfold num_int. destruct (Ascii.eqb c "0").
  - intros [= _ <-]. cbn. lia.
  - destruct (span_digits (c :: l)) as [[|d ds] r'] eqn:E; [done|]. intros [= _ <-].
    by eapply span_digits_lt.
Qed.
Lemma num_frac_length l i r : num_frac l = Some (i, r) -> (length r <= length l)%nat.
Proof.
  destruct l as [|c l]; [by intros [= _ <-]|]. unfold num_frac.
  destruct (Ascii.eqb c "."); [|by intros [= _ <-]].
  destruct (span_digits l) as [[|d ds] r'] eqn:E; [done|]. intros [= _ <-].
  apply span_digits_length in E. cbn. lia.
Qed.
Lemma num_exp_length l i r : num_exp l = Some (i, r) -> (length r <= length l)%nat.
Proof.
  destruct l as [|c l]; [by intros [= _ <-]|]. unfold num_exp.
  destruct (Ascii.eqb (ascii_lower c) "e"); [|by intros [= _ <-]].
  destruct l as [|s l]; [done|]. destruct (_ || _).
  all: match goal with |- context [span_digits ?x] => destruct (span_digits x) as [[|d ds] r'] eqn:E end;
    [done|]; intros [= _ <-]; apply span_digits_length in E; cbn in *; lia.
Qed.
Lemma parse_num_length l n r : parse_num l = Some (n, r) -> (length r < length l)%nat.
Proof.
  unfold parse_num. set (p := match l with [] => _ | _ => _ end).
  assert (length p.2 <= length l)%nat as Hp by (subst p; destruct l as [|c l]; [done|]; destruct (Ascii.eqb c "-"); cbn; lia).
  destruct p as [sg l1]. cbn [snd] in Hp.
  destruct (num_int l1) as [[i l2]|] eqn:E1; [|done]. cbn.
  destruct (num_frac l2) as [[fr l3]|] eqn:E2; [|done]. cbn.
  destruct (num_exp l3) as [[ex l4]|] eqn:E3; [|done]. intros [= _ <-].
  apply num_int_length in E1. apply num_frac_length in E2. apply num_exp_length in E3. lia.
Qed.

(** Every parser consumes at least one byte. *)
Lemma parse_length f :
  (forall depth l v r, parse_value f depth l = Some (v, r) -> (length r < length l)%nat)
  /\ (forall depth acc l v r, parse_elems f depth acc l = Some (v, r) -> (length r < length l)%nat)
  /\ (forall depth acc l v r, parse_members f depth acc l = Some (v, r) -> (length r < length l)%nat).
Proof.
  induction f as [|f (IHv & IHe & IHm)]; [done|].
  split_and!.
  - intros depth l v r. cbn [parse_value]. pose proof (skip_ws_length l) as Hl.
    destruct (skip_ws l) as [|c l']; [done|]. cbn [length] in Hl. pose proof (skip_ws_length l') as Hl'.
    destruct (Ascii.eqb c "{"); [|destruct (Ascii.eqb c "[")].
    1,2: destruct (depth <? max_nesting); [|done]; destruct (skip_ws l') as [|d l'']; [done|];
      cbn [length] in Hl'; (destruct (Ascii.eqb d _); [intros [= _ <-]; lia|]).
    + destruct (parse_members _ _ _ _) as [[m r']|] eqn:E; [|done]. intros [= _ <-].
      apply IHm in E. cbn [length] in E. lia.
    + destruct (parse_elems _ _ _ _) as [[m r']|] eqn:E; [|done]. intros [= _ <-].
      apply IHe in E. cbn [length] in E. lia.
    + destruct (byte_of c =? 34).
      { destruct (parse_str _ _ _) as [[s r']|] eqn:E; [|done]. intros [= _ <-].
        apply parse_str_length in E. lia. }
      do 3 (destruct (is_prefix _ _); [intros [= _ <-]; cbn [drop]; rewrite ?length_drop; lia|]).
      destruct (parse_num _) as [[n r']|] eqn:E; [|done]. intros [= _ <-].
      apply parse_num_length in E. cbn [length] in E. lia.
  - intros depth acc l v r. cbn [parse_elems]. destruct (parse_value f depth l) as [[x r1]|] eqn:E; [|done].
    cbn. apply IHv in E. pose proof (skip_ws_length r1) as Hr. destruct (skip_ws r1) as [|c r']; [done|].
    cbn [length] in Hr. destruct (Ascii.eqb c ","); [intros H%IHe; lia|].
    destruct (Ascii.eqb c "]"); [intros [= _ <-]; lia|done].
  - intros depth acc l v r. cbn [parse_members]. pose proof (skip_ws_length l) as Hl.
    destruct (skip_ws l) as [|q l']; [done|]. cbn [length] in Hl. destruct (byte_of q =? 34); [|done].
    destruct (parse_str _ _ _) as [[k r0]|] eqn:E; [|done]. cbn. apply parse_str_length in E.
    pose proof (skip_ws_length r0) as Hr0. destruct (skip_ws r0) as [|c r']; [done|]. cbn [length] in Hr0.
    destruct (Ascii.eqb c ":"); [|done]. destruct (parse_value f depth r') as [[x r2]|] eqn:Ev; [|done].
    cbn. apply IHv in Ev. pose proof (skip_ws_length r2) as Hr2. destruct (skip_ws r2) as [|d r3]; [done|].
    cbn [length] in Hr2. destruct (Ascii.eqb d ","); [intros H%IHm; lia|].
    destruct (Ascii.eqb d "}"); [intros [= _ <-]; lia|done].
Qed.

(** Two units of fuel per byte are enough: more fuel gives the same answer, so a
    text is never rejected for want of fuel. *)
Lemma parse_fuel f :
  (forall f' depth l, (2 * length l < f)%nat -> (2 * length l < f')%nat ->
     parse_value f depth l = parse_value f' depth l)
  /\ (forall f' depth acc l, (2 * length l + 1 < f)%nat -> (2 * length l + 1 < f')%nat ->
     parse_elems f depth acc l = parse_elems f' depth acc l)
  /\ (forall f' depth acc l, (2 * length l < f)%nat -> (2 * length l < f')%nat ->
     parse_members f depth acc l = parse_members f' depth acc l).
Proof.
  induction f as [|f (IHv & IHe & IHm)]; [split_and!; intros; lia|].
  split_and!.
  - intros [|f'] depth l Hf Hf'; [lia|]. cbn [parse_value]. pose proof (skip_ws_length l) as Hl.
    destruct (skip_ws l) as [|c l']; [done|]. cbn [length] in Hl. pose proof (skip_ws_length l') as Hl'.
    destruct (skip_ws l') as [|d l'']; [done|]. cbn [length] in Hl'.
    rewrite (IHm f'), (IHe f') by (cbn [length]; lia). done.
  - intros [|f'] depth acc l Hf Hf'; [lia|]. cbn [parse_elems]. rewrite <- (IHv f') by lia.
    destruct (parse_value f depth l) as [[x r1]|] eqn:E; [|done]. cbn.
    apply (proj1 (parse_length f)) in E. pose proof (skip_ws_length r1) as Hr.
    destruct (skip_ws r1) as [|c r']; [done|]. cbn [length] in Hr. by rewrite (IHe f') by lia.
  - intros [|f'] depth acc l Hf Hf'; [lia|]. cbn [parse_members]. pose proof (skip_ws_length l) as Hl.
    destruct (skip_ws l) as [|q l']; [done|]. cbn [length] in Hl. destruct (byte_of q =? 34); [|done].
    destruct (parse_str _ _ _) as [[k r0]|] eqn:E; [|done]. cbn. apply parse_str_length in E.
    pose proof (skip_ws_length r0) as Hr0. destruct (skip_ws r0) as [|c r']; [done|]. cbn [length] in Hr0.
    destruct (Ascii.eqb c ":"); [|done]. rewrite <- (IHv f') by lia.
    destruct (parse_value f depth r') as [[x r2]|] eqn:Ev; [|done]. cbn.
    apply (proj1 (parse_length f)) in Ev. pose proof (skip_ws_length r2) as Hr2.
    destruct (skip_ws r2) as [|d r3]; [done|]. cbn [length] in Hr2. by rewrite (IHm f') by lia.
Qed.

Theorem json_parse_fuel s f :
  (2 * str_len s < f)%nat ->
  json_parse s
  = match parse_value f 0 (chars s) with
    | Some (v, r) => match skip_ws r with [] => Some v | _ => None end
    | None => None
    end.
Proof.
  intros Hf. unfold json_parse. rewrite <- length_chars in Hf.
  by rewrite (proj1 (parse_fuel _) f) by lia.
Qed.

Lemma Unmarshal_no_panic {A} (d : decoder A) zero raw : Unmarshal d zero raw <> Panic.
Proof. unfold Unmarshal. destruct (json_parse raw); [|done]. by destruct (d zero j). Qed.
Lemma UnmarshalRaw_no_panic {A} (d : decoder A) zero raw : UnmarshalRaw d zero raw <> Panic.
Proof. unfold UnmarshalRaw. destruct raw; [|done]. by destruct (d zero j). Qed.

#[export] Hint Resolve Unmarshal_no_panic UnmarshalRaw_no_panic : tapeline.
