(* ===== verification/Model.v ===== *)
(** * Package [internal/model]: the canonical market data types

    Kinds and sides are strings, as in the code. A struct field that is a
    pointer is an option; the value [any] that [Payload] returns keeps the
    difference between the nil interface and a typed nil pointer. *)

From S2P Require Import Prelude.
From S2P Require Import GoStrings.
From S2P Require Import GoStrconv.

Local Open Scope Z_scope.

Definition Kind := string.
Definition KindTrade : Kind := "trade".
Definition KindBookDelta : Kind := "book_delta".
Definition KindChainTransfer : Kind := "chain_transfer".

Definition SideBuy : string := "BUY".
Definition SideSell : string := "SELL".
Definition SideUnknown : string := "UNKNOWN".

Definition NoSequence : Z := -1.

Record Level := mkLevel { lvl_Price : float64; lvl_Size : float64 }.

Record Trade := mkTrade {
  tr_Venue : string; tr_Symbol : string; tr_TradeID : string;
  tr_Price : float64; tr_Size : float64; tr_Side : string;
  tr_EventTimeUS : Z; tr_IngestTimeUS : Z; tr_Sequence : Z }.

Record BookDelta := mkBookDelta {
  bd_Venue : string; bd_Symbol : string; bd_IsSnapshot : bool;
  bd_Bids : list Level; bd_Asks : list Level;
  bd_EventTimeUS : Z; bd_IngestTimeUS : Z; bd_Sequence : Z }.

Record ChainTransfer := mkChainTransfer {
  ct_Chain : string; ct_Token : string; ct_Symbol : string;
  ct_FromAddr : string; ct_ToAddr : string; ct_AmountRaw : string;
  ct_Decimals : Z; ct_BlockNumber : Z; ct_LogIndex : Z; ct_TxHash : string;
  ct_EventTimeUS : Z; ct_IngestTimeUS : Z }.

Record Event := mkEvent {
  ev_Kind : Kind; ev_Venue : string; ev_Symbol : string; ev_Sequence : Z;
  ev_Trade : option Trade; ev_Book : option BookDelta; ev_Chain : option ChainTransfer }.

(** The dynamic value of an [any] that holds a record pointer. *)
Inductive payload :=
  | PNil
  | PTrade (p : option Trade)
  | PBook (p : option BookDelta)
  | PChain (p : option ChainTransfer).

(** [Event.Payload]. *)
Definition Payload (e : Event) : payload :=
  if String.eqb (ev_Kind e) KindTrade then PTrade (ev_Trade e)
  else if String.eqb (ev_Kind e) KindBookDelta then PBook (ev_Book e)
  else if String.eqb (ev_Kind e) KindChainTransfer then PChain (ev_Chain e)
  else PNil.

(** [payload == nil]: only the nil interface is equal to nil. *)
Definition payload_is_nil (p : payload) : bool :=
  match p with PNil => true | _ => false end.

(** The record a payload carries, if there is one. *)
Definition payload_present (p : payload) : bool :=
  match p with
  | PNil => false
  | PTrade o => bool_decide (is_Some o)
  | PBook o => bool_decide (is_Some o)
  | PChain o => bool_decide (is_Some o)
  end.

(** [Micros]. *)
Definition Micros (t : time) : Z := UnixMicro t.

Definition NormalizeSide (s : string) : string :=
  if existsb (String.eqb s) ["b"; "B"; "buy"; "BUY"; "Buy"; "bid"; "BID"] then SideBuy
  else if existsb (String.eqb s)
            ["s"; "S"; "sell"; "SELL"; "Sell"; "ask"; "ASK"; "offer"; "OFFER"] then SideSell
  else SideUnknown.

(** The tagged union is well formed: exactly the pointer of the kind is non-nil,
    and the record agrees with the event. *)
Definition event_wf (e : Event) : Prop :=
  match ev_Trade e, ev_Book e, ev_Chain e with
  | Some t, None, None =>
      ev_Kind e = KindTrade /\ tr_Venue t = ev_Venue e /\ tr_Symbol t = ev_Symbol e
      /\ tr_Sequence t = ev_Sequence e
  | None, Some b, None =>
      ev_Kind e = KindBookDelta /\ bd_Venue b = ev_Venue e /\ bd_Symbol b = ev_Symbol e
      /\ bd_Sequence b = ev_Sequence e
  | None, None, Some c =>
      ev_Kind e = KindChainTransfer /\ ct_Chain c = ev_Venue e /\ ct_Symbol c = ev_Symbol e
  | _, _, _ => False
  end.

(** ** Lemmas *)

(** A well-formed event has the payload its kind promises. *)
Lemma event_wf_payload e : event_wf e -> payload_present (Payload e) = true.
Proof.
  unfold event_wf, Payload, payload_present.
  destruct (ev_Trade e), (ev_Book e), (ev_Chain e); try done; intros (-> & _); done.
Qed.

Lemma NormalizeSide_cases s :
  NormalizeSide s = SideBuy \/ NormalizeSide s = SideSell \/ NormalizeSide s = SideUnknown.
Proof. unfold NormalizeSide. destruct existsb; [auto|]. destruct existsb; auto. Qed.
