(* ===== verification/Schemas.v ===== *)
(** * Package [avroschema]: the embedded Avro schemas

    The texts of the [.avsc] files, byte for byte (in a Rocq string the double
    quotes are written as single quotes, which [dq] turns back), and the map
    [Current]. A schema text is read with the JSON parser into the part of Avro it
    uses, so that it can be compared with the Go struct it is marshalled from and
    with another version of itself. *)

From S2P Require Import Prelude.
From S2P Require Import GoStrings.
From S2P Require Import GoStrconv.
From S2P Require Import GoJson.
From S2P Require Import Model.

Local Open Scope Z_scope.

#[local] Set Warnings "-register-all".

Definition TradeV1 : string := dq
"{
  'type': 'record',
  'name': 'Trade',
  'namespace': 'io.tapeline.md',
  'doc': 'A single executed trade, normalized across venues. v1.',
  'fields': [
    { 'name': 'venue', 'type': 'string', 'doc': 'coinbase | kraken | binance' },
    { 'name': 'symbol', 'type': 'string', 'doc': 'Canonical pair, e.g. BTC-USD' },
    { 'name': 'trade_id', 'type': 'string', 'doc': 'Venue-assigned trade identifier, stringified' },
    { 'name': 'price', 'type': 'double' },
    { 'name': 'size', 'type': 'double' },
    { 'name': 'side', 'type': 'string', 'doc': 'BUY | SELL | UNKNOWN (aggressor side)' },
    { 'name': 'event_time_us', 'type': 'long', 'doc': 'Venue event timestamp, epoch microseconds' },
    { 'name': 'ingest_time_us', 'type': 'long', 'doc': 'Local receipt timestamp, epoch microseconds' },
    { 'name': 'sequence', 'type': 'long', 'doc': 'Venue sequence number, -1 when the venue does not supply one' }
  ]
}
".

Definition TradeV2 : string := dq
"{
  'type': 'record',
  'name': 'Trade',
  'namespace': 'io.tapeline.md',
  'doc': 'A single executed trade, normalized across venues. v2 adds maker_order_id and liquidity. Both new fields carry defaults, so this is a FULL-compatible evolution of v1: v1 readers ignore the new fields, v2 readers fill defaults when reading v1 payloads. See docs/SCHEMA_EVOLUTION.md.',
  'fields': [
    { 'name': 'venue', 'type': 'string' },
    { 'name': 'symbol', 'type': 'string' },
    { 'name': 'trade_id', 'type': 'string' },
    { 'name': 'price', 'type': 'double' },
    { 'name': 'size', 'type': 'double' },
    { 'name': 'side', 'type': 'string' },
    { 'name': 'event_time_us', 'type': 'long' },
    { 'name': 'ingest_time_us', 'type': 'long' },
    { 'name': 'sequence', 'type': 'long' },
    {
      'name': 'maker_order_id',
      'type': ['null', 'string'],
      'default': null,
      'doc': 'Resting order id when the venue publishes it. Added in v2.'
    },
    {
      'name': 'liquidity',
      'type': 'string',
      'default': 'UNKNOWN',
      'doc': 'MAKER | TAKER | UNKNOWN. Added in v2.'
    }
  ]
}
".

Definition BookDeltaV1 : string := dq
"{
  'type': 'record',
  'name': 'BookDelta',
  'namespace': 'io.tapeline.md',
  'doc': 'An L2 order book update. is_snapshot=true means the levels replace the book rather than patch it.',
  'fields': [
    { 'name': 'venue', 'type': 'string' },
    { 'name': 'symbol', 'type': 'string' },
    { 'name': 'is_snapshot', 'type': 'boolean' },
    {
      'name': 'bids',
      'type': {
        'type': 'array',
        'items': {
          'type': 'record',
          'name': 'Level',
          'fields': [
            { 'name': 'price', 'type': 'double' },
            { 'name': 'size', 'type': 'double', 'doc': '0 removes the level' }
          ]
        }
      }
    },
    { 'name': 'asks', 'type': { 'type': 'array', 'items': 'Level' } },
    { 'name': 'event_time_us', 'type': 'long' },
    { 'name': 'ingest_time_us', 'type': 'long' },
    { 'name': 'sequence', 'type': 'long' }
  ]
}
".

Definition ChainTransferV1 : string := dq
"{
  'type': 'record',
  'name': 'ChainTransfer',
  'namespace': 'io.tapeline.md',
  'doc': 'A decoded ERC-20 Transfer log from an EVM chain.',
  'fields': [
    { 'name': 'chain', 'type': 'string', 'doc': 'ethereum | base' },
    { 'name': 'token', 'type': 'string', 'doc': 'Contract address, lowercase hex' },
    { 'name': 'symbol', 'type': 'string', 'doc': 'Resolved token symbol, or the contract address when unknown' },
    { 'name': 'from_addr', 'type': 'string' },
    { 'name': 'to_addr', 'type': 'string' },
    { 'name': 'amount_raw', 'type': 'string', 'doc': 'uint256 as a decimal string; do not parse into a double' },
    { 'name': 'decimals', 'type': 'int' },
    { 'name': 'block_number', 'type': 'long' },
    { 'name': 'log_index', 'type': 'int' },
    { 'name': 'tx_hash', 'type': 'string' },
    { 'name': 'event_time_us', 'type': 'long' },
    { 'name': 'ingest_time_us', 'type': 'long' }
  ]
}
".

(** [Current], as the list of its entries. *)
Definition Current : list (Kind * string) :=
  [(KindTrade, TradeV1); (KindBookDelta, BookDeltaV1); (KindChainTransfer, ChainTransferV1)].

(** ** The structs of package [model], as the Avro library sees them

    The [avro] tag and the Go type of every field, in order. *)
Inductive go_type :=
  | GoString | GoFloat64 | GoInt64 | GoInt32 | GoBool
  | GoPtr (t : go_type)
  | GoSlice (t : go_type)
  | GoStruct (fs : list (string * go_type)).

Definition Level_tags : go_type := GoStruct [("price", GoFloat64); ("size", GoFloat64)].
Definition Trade_fields : list (string * go_type) :=
  [("venue", GoString); ("symbol", GoString); ("trade_id", GoString); ("price", GoFloat64);
   ("size", GoFloat64); ("side", GoString); ("event_time_us", GoInt64); ("ingest_time_us", GoInt64);
   ("sequence", GoInt64)].
Definition Trade_tags : go_type := GoStruct Trade_fields.
Definition TradeV2_tags : go_type :=
  GoStruct (Trade_fields ++ [("maker_order_id", GoPtr GoString); ("liquidity", GoString)]).
Definition BookDelta_tags : go_type :=
  GoStruct
    [("venue", GoString); ("symbol", GoString); ("is_snapshot", GoBool); ("bids", GoSlice Level_tags);
     ("asks", GoSlice Level_tags); ("event_time_us", GoInt64); ("ingest_time_us", GoInt64);
     ("sequence", GoInt64)].
Definition ChainTransfer_tags : go_type :=
  GoStruct
    [("chain", GoString); ("token", GoString); ("symbol", GoString); ("from_addr", GoString);
     ("to_addr", GoString); ("amount_raw", GoString); ("decimals", GoInt32); ("block_number", GoInt64);
     ("log_index", GoInt32); ("tx_hash", GoString); ("event_time_us", GoInt64);
     ("ingest_time_us", GoInt64)].

(** The struct a kind's payload points to. *)
Definition struct_of (kind : Kind) : option go_type :=
  if String.eqb kind KindTrade then Some Trade_tags
  else if String.eqb kind KindBookDelta then Some BookDelta_tags
  else if String.eqb kind KindChainTransfer then Some ChainTransfer_tags
  else None.

(** ** Reading a schema

    The declarations of the Avro specification the schemas use: a type is a name,
    an array, a union or a record, whose fields may have a default. *)
Inductive avro_type :=
  | TName (name : string)
  | TArray (items : avro_type)
  | TUnion (branches : list avro_type)
  | TRecord (name : string) (fs : list (string * avro_type * option json)).

Definition member (m : list (string * json)) (key : string) : option json :=
  snd <$> List.find (fun kv => String.eqb kv.1 key) m.
Definition text_of (j : json) : option string := match j with JStr s => Some s | _ => None end.

(** The fuel bounds the nesting of types. The embedded schemas nest five deep; with
    too little fuel a schema is not read at all, and [schemas_fit_structs] shows
    that all four are. *)
Fixpoint read_type (fuel : nat) (j : json) : option avro_type :=
  match fuel with
  | O => None
  | S f =>
      match j with
      | JStr s => Some (TName s)
      | JArr l => TUnion <$> mapM (read_type f) l
      | JObj m =>
          match member m "type" with
          | Some (JStr t) =>
              if String.eqb t "array" then TArray <$> (member m "items" ≫= read_type f)
              else if String.eqb t "record" then
                name ← member m "name" ≫= text_of;
                match member m "fields" with
                | Some (JArr l) =>
                    TRecord name <$>
                      mapM (fun j =>
                        match j with
                        | JObj fm =>
                            fname ← member fm "name" ≫= text_of;
                            t ← member fm "type" ≫= read_type f;
                            Some (fname, t, member fm "default")
                        | _ => None
                        end) l
                | _ => None
                end
              else Some (TName t)
          | Some t => read_type f t
          | None => None
          end
      | _ => None
      end
  end.
Definition read_schema (text : string) : option avro_type := json_parse text ≫= read_type 8.

(** The records a schema declares: a name refers to an earlier one. *)
Fixpoint declared (fuel : nat) (t : avro_type) : list (string * avro_type) :=
  match fuel with
  | O => []
  | S f =>
      match t with
      | TName _ => []
      | TArray t => declared f t
      | TUnion l => flat_map (declared f) l
      | TRecord name fs => (name, t) :: flat_map (fun ft => declared f ft.1.2) fs
      end
  end.

(** A Go type is marshalled to an Avro type: a struct to a record with its tags as
    field names, in order; a nil pointer is the null of a union. *)
Fixpoint fits (defs : list (string * avro_type)) (fuel : nat) (g : go_type) (t : avro_type) : bool :=
  match fuel with
  | O => false
  | S f =>
      match g, t with
      | GoString, TName n => String.eqb n "string"
      | GoFloat64, TName n => String.eqb n "double"
      | GoInt64, TName n => String.eqb n "long"
      | GoInt32, TName n => String.eqb n "int"
      | GoBool, TName n => String.eqb n "boolean"
      | GoPtr g, TUnion [TName n; t] => String.eqb n "null" && fits defs f g t
      | GoSlice g, TArray t => fits defs f g t
      | GoStruct _, TName n =>
          match List.find (fun d => String.eqb d.1 n) defs with
          | Some (_, t) => fits defs f g t
          | None => false
          end
      | GoStruct gs, TRecord _ fs =>
          (length gs =? length fs)%nat
          && forallb (fun p => String.eqb p.1.1 p.2.1.1 && fits defs f p.1.2 p.2.1.2) (zip gs fs)
      | _, _ => false
      end
  end.

(** ** Evolution

    Schema resolution of records by name: a reader reads a writer's data if every
    field of the reader is one of the writer's, of the same type, or has a
    default; the writer's other fields are skipped. *)
Fixpoint same_type (fuel : nat) (a b : avro_type) : bool :=
  match fuel with
  | O => false
  | S f =>
      match a, b with
      | TName x, TName y => String.eqb x y
      | TArray x, TArray y => same_type f x y
      | TUnion xs, TUnion ys =>
          (length xs =? length ys)%nat && forallb (fun p => same_type f p.1 p.2) (zip xs ys)
      | TRecord x xs, TRecord y ys =>
          String.eqb x y && (length xs =? length ys)%nat
          && forallb (fun p => String.eqb p.1.1.1 p.2.1.1 && same_type f p.1.1.2 p.2.1.2) (zip xs ys)
      | _, _ => false
      end
  end.
Definition reads (reader writer : avro_type) : bool :=
  match reader, writer with
  | TRecord x rs, TRecord y ws =>
      String.eqb x y
      && forallb (fun r =>
           match List.find (fun w => String.eqb w.1.1 r.1.1) ws with
           | Some w => same_type 8 r.1.2 w.1.2
           | None => bool_decide (is_Some r.2)
           end) rs
  | _, _ => false
  end.

(** ** Properties *)

(** C33. The embedded schemas are the wire format of the structs: every kind of
    event has one, its text is valid JSON, and the fields of the struct its payload
    points to are those of the schema, with the same names, in the same order, of
    the Avro type of the Go type. The next version of the trade schema fits its
    struct as well, reads what the current one wrote and is read by it: the
    evolution is compatible in both directions. *)
Theorem schemas_fit_structs :
  map fst Current = [KindTrade; KindBookDelta; KindChainTransfer]
  /\ (forall kind text, (kind, text) ∈ Current ->
       exists t g, read_schema text = Some t /\ struct_of kind = Some g
         /\ fits (declared 8 t) 8 g t = true)
  /\ exists v1 v2, read_schema TradeV1 = Some v1 /\ read_schema TradeV2 = Some v2
       /\ fits (declared 8 v2) 8 TradeV2_tags v2 = true
       /\ reads v1 v2 = true /\ reads v2 v1 = true.
Proof.
  split; [reflexivity|]. split.
  - intros kind text Hin. unfold Current in Hin. rewrite !elem_of_cons in Hin.
    destruct Hin as [[= -> ->]|[[= -> ->]|[[= -> ->]|Hin%elem_of_nil]]]; [..|done];
      do 2 eexists; (split; [vm_compute; reflexivity|]); (split; [reflexivity|]); vm_compute; reflexivity.
  - do 2 eexists. split; [vm_compute; reflexivity|]. split; [vm_compute; reflexivity|].
    split; [vm_compute; reflexivity|]. split; vm_compute; reflexivity.
Qed.

(** A required field without a default is not readable from older data. *)
Theorem required_field_breaks :
  exists v1 bad, read_schema TradeV1 = Some v1
    /\ match v1 with
       | TRecord n fs => bad = TRecord n (fs ++ [("settlement_venue", TName "string", None)])
       | _ => False
       end
    /\ reads bad v1 = false /\ reads v1 bad = true.
Proof.
  do 2 eexists. split; [vm_compute; reflexivity|]. split; [reflexivity|]. split; vm_compute; reflexivity.
Qed.
