(* ===== verification/Gap.v ===== *)
(** * Package [internal/gap]: the sequence continuity detector

    The detector maps every stream key to the last sequence number seen. Its
    operations run under one mutex, so a use of it by several goroutines is a
    sequence of operations ([op], [run_ops]). The specification of one stream
    ([stream_step]) is over mathematical integers and has no map. *)

From S2P Require Import Prelude.
From S2P Require Import GoStrings.

Local Open Scope Z_scope.

Inductive Status :=
  | StatusOK
  | StatusFirst
  | StatusGap
  | StatusDuplicate
  | StatusRegression
  | StatusUnsequenced.

#[export] Instance Status_eq_dec : EqDecision Status.
Proof. solve_decision. Defined.

Definition Status_String (s : Status) : string :=
  match s with
  | StatusOK => "ok"
  | StatusFirst => "first"
  | StatusGap => "gap"
  | StatusDuplicate => "duplicate"
  | StatusRegression => "regression"
  | StatusUnsequenced => "unsequenced"
  end.

Record Key := mkKey { k_Venue : string; k_Symbol : string; k_Channel : string }.

#[export] Instance Key_eq_dec : EqDecision Key.
Proof. solve_decision. Defined.
#[export] Instance Key_countable : Countable Key.
Proof.
  refine (inj_countable' (fun k => (k_Venue k, k_Symbol k, k_Channel k))
            (fun t => mkKey t.1.1 t.1.2 t.2) _).
  by intros [].
Defined.

Definition Key_String (k : Key) : string :=
  k_Venue k +:+ "/" +:+ k_Symbol k +:+ "/" +:+ k_Channel k.

Record Result := mkResult {
  r_Key : Key; r_Status : Status; r_Expected : Z; r_Got : Z; r_Missing : Z }.

Definition NeedsResync (r : Result) : bool :=
  bool_decide (r_Status r = StatusGap) || bool_decide (r_Status r = StatusRegression).

Record Detector := mkDetector { d_last : gmap Key Z; d_regressionTolerance : Z }.

Definition NewWithTolerance (tolerance : Z) : Detector := mkDetector ∅ tolerance.
Definition New : Detector := NewWithTolerance 1000.

Definition set_last (d : Detector) (k : Key) (seq : Z) : Detector :=
  mkDetector (<[k := seq]> (d_last d)) (d_regressionTolerance d).

Definition Observe (d : Detector) (k : Key) (seq : Z) : Result * Detector :=
  if seq <? 0 then (mkResult k StatusUnsequenced 0 seq 0, d)
  else
    match d_last d !! k with
    | None => (mkResult k StatusFirst seq seq 0, set_last d k seq)
    | Some last =>
        let expected := wrap64 (last + 1) in
        if seq =? expected then
          (mkResult k StatusOK expected seq 0, set_last d k seq)
        else if expected <? seq then
          (mkResult k StatusGap expected seq (wrap64 (seq - expected)), set_last d k seq)
        else if wrap64 (last - seq) <=? d_regressionTolerance d then
          (mkResult k StatusDuplicate expected seq 0, d)
        else
          (mkResult k StatusRegression expected seq 0, set_last d k seq)
    end.

Definition Reset (d : Detector) (k : Key) : Detector :=
  mkDetector (delete k (d_last d)) (d_regressionTolerance d).

Definition ResetVenue (d : Detector) (venue : string) : Detector :=
  mkDetector (filter (fun kv => k_Venue kv.1 <> venue) (d_last d)) (d_regressionTolerance d).

Definition Last (d : Detector) (k : Key) : option Z := d_last d !! k.

(** ** A run of operations *)

Inductive op :=
  | OpObserve (k : Key) (seq : Z)
  | OpReset (k : Key)
  | OpResetVenue (venue : string).

Definition do_op (d : Detector) (o : op) : option Result * Detector :=
  match o with
  | OpObserve k seq => let '(r, d') := Observe d k seq in (Some r, d')
  | OpReset k => (None, Reset d k)
  | OpResetVenue v => (None, ResetVenue d v)
  end.

Fixpoint run_ops (d : Detector) (ops : list op) : list Result * Detector :=
  match ops with
  | [] => ([], d)
  | o :: ops' =>
      let '(r, d1) := do_op d o in
      let '(rs, d2) := run_ops d1 ops' in
      (option_list r ++ rs, d2)
  end.

(** ** Specification of one stream *)

Inductive stream_op := SObserve (seq : Z) | SReset.

(** The verdict and the missing count, and the new watermark. *)
Definition stream_step (tol : Z) (w : option Z) (o : stream_op)
    : option (Status * Z) * option Z :=
  match o with
  | SReset => (None, None)
  | SObserve seq =>
      if seq <? 0 then (Some (StatusUnsequenced, 0), w)
      else match w with
           | None => (Some (StatusFirst, 0), Some seq)
           | Some last =>
               if last + 1 <? seq then (Some (StatusGap, seq - last - 1), Some seq)
               else if seq =? last + 1 then (Some (StatusOK, 0), Some seq)
               else if last - tol <=? seq then (Some (StatusDuplicate, 0), Some last)
               else (Some (StatusRegression, 0), Some seq)
           end
  end.

Fixpoint stream_run (tol : Z) (w : option Z) (ops : list stream_op)
    : list (Status * Z) * option Z :=
  match ops with
  | [] => ([], w)
  | o :: ops' =>
      let '(v, w1) := stream_step tol w o in
      let '(vs, w2) := stream_run tol w1 ops' in
      (option_list v ++ vs, w2)
  end.

(** The operations that concern stream [k], and the verdicts about it. *)
Definition project (k : Key) (o : op) : list stream_op :=
  match o with
  | OpObserve k' seq => if decide (k' = k) then [SObserve seq] else []
  | OpReset k' => if decide (k' = k) then [SReset] else []
  | OpResetVenue v => if decide (k_Venue k = v) then [SReset] else []
  end.
Definition verdicts_at (k : Key) (rs : list Result) : list (Status * Z) :=
  map (fun r => (r_Status r, r_Missing r)) (List.filter (fun r => bool_decide (r_Key r = k)) rs).

(** The sequence numbers a run may observe: below the largest int64, so that the
    expected successor exists. *)
Definition op_ok (o : op) : Prop :=
  match o with OpObserve _ seq => seq < MaxInt64 | _ => True end.

Definition in_bounds (d : Detector) : Prop :=
  map_Forall (fun _ last => 0 <= last < MaxInt64) (d_last d).

(** The messages of a run of verdicts that were taken as new, and the missing
    messages it reports. *)
Definition advances (v : Status * Z) : bool :=
  match v.1 with StatusOK | StatusGap => true | _ => false end.
Definition n_advances (vs : list (Status * Z)) : Z := Z.of_nat (length (List.filter advances vs)).
Definition total_missing (vs : list (Status * Z)) : Z := fold_right Z.add 0 (map snd vs).
Definition no_regression (vs : list (Status * Z)) : Prop :=
  Forall (fun v => v.1 <> StatusRegression) vs.

Definition suppressed (v : Status * Z) : bool :=
  match v.1 with StatusDuplicate | StatusUnsequenced => true | _ => false end.

(** The sequence numbers of one stream that are not suppressed, given its verdicts. *)
Fixpoint accepted (seqs : list Z) (vs : list (Status * Z)) : list Z :=
  match seqs, vs with
  | s :: seqs', v :: vs' =>
      if suppressed v then accepted seqs' vs' else s :: accepted seqs' vs'
  | _, _ => []
  end.

(** ** Lemmas *)

Lemma Last_set_last_eq d k seq : Last (set_last d k seq) k = Some seq.
Proof. apply lookup_insert_eq. Qed.
Lemma Last_set_last_ne d k k' seq : k <> k' -> Last (set_last d k seq) k' = Last d k'.
Proof. apply lookup_insert_ne. Qed.

Lemma Last_Reset d k k' : Last (Reset d k) k' = if decide (k = k') then None else Last d k'.
Proof. unfold Last, Reset; cbn. apply lookup_delete. Qed.

Lemma Last_ResetVenue d v k :
  Last (ResetVenue d v) k = if decide (k_Venue k = v) then None else Last d k.
Proof.
  unfold Last, ResetVenue; cbn. rewrite map_lookup_filter.
  destruct (d_last d !! k); cbn; repeat case_decide; cbn; try done; case_guard; done.
Qed.

Lemma Observe_tolerance d k seq :
  d_regressionTolerance (Observe d k seq).2 = d_regressionTolerance d.
Proof. unfold Observe. repeat case_match; done. Qed.

Lemma Observe_other d k k' seq : k <> k' -> Last (Observe d k seq).2 k' = Last d k'.
Proof.
  intros Hk. unfold Observe. repeat case_match; cbn; try done; by apply Last_set_last_ne.
Qed.

Lemma Observe_key d k seq : r_Key (Observe d k seq).1 = k.
Proof. unfold Observe. repeat case_match; done. Qed.

#[export] Hint Rewrite Observe_tolerance Observe_key : tapeline_rw.

Lemma Observe_stream d k seq :
  in_bounds d -> seq < MaxInt64 ->
  stream_step (d_regressionTolerance d) (Last d k) (SObserve seq)
  = (Some (r_Status (Observe d k seq).1, r_Missing (Observe d k seq).1),
     Last (Observe d k seq).2 k).
Proof.
  intros Hb Hs. unfold Observe, stream_step. destruct (Z.ltb_spec seq 0); [done|].
  change (d_last d !! k) with (Last d k). destruct (Last d k) as [last|] eqn:Hl; cycle 1.
  { cbn. by rewrite Last_set_last_eq. }
  assert (0 <= last < MaxInt64) as Hlast by (by eapply (map_Forall_lookup_1 _ _ _ _ Hb Hl)).
  rewrite (wrap64_id (last + 1)), (wrap64_id (seq - (last + 1))), (wrap64_id (last - seq))
    by int_lia.
  replace (seq - (last + 1)) with (seq - last - 1) by lia.
  split_cmp; try lia; cbn; rewrite ?Last_set_last_eq; try done; by rewrite Hl.
Qed.

Lemma Observe_in_bounds d k seq :
  in_bounds d -> seq < MaxInt64 -> in_bounds (Observe d k seq).2.
Proof.
  intros Hb Hs. unfold Observe. destruct (Z.ltb_spec seq 0); [done|].
  repeat case_match; try done; apply map_Forall_insert_2; auto with lia.
Qed.

Lemma do_op_in_bounds d o : in_bounds d -> op_ok o -> in_bounds (do_op d o).2.
Proof.
  intros Hb Ho. destruct o as [k seq|k|v]; cbn in *.
  - pose proof (Observe_in_bounds d k seq Hb Ho) as H. by destruct (Observe d k seq).
  - by apply map_Forall_delete.
  - intros k last [H _]%map_lookup_filter_Some. by apply (map_Forall_lookup_1 _ _ _ _ Hb H).
Qed.

Lemma do_op_tolerance d o : d_regressionTolerance (do_op d o).2 = d_regressionTolerance d.
Proof.
  destruct o as [k seq|k|v]; cbn; try done.
  pose proof (Observe_tolerance d k seq). by destruct (Observe d k seq).
Qed.

Lemma verdicts_at_app k rs rs' :
  verdicts_at k (rs ++ rs') = verdicts_at k rs ++ verdicts_at k rs'.
Proof. unfold verdicts_at. by rewrite List.filter_app, map_app. Qed.

Lemma stream_run_app tol w a b :
  stream_run tol w (a ++ b)
  = ((stream_run tol w a).1 ++ (stream_run tol (stream_run tol w a).2 b).1,
     (stream_run tol (stream_run tol w a).2 b).2).
Proof.
  revert w. induction a as [|o a IH]; intros w; cbn; [by destruct (stream_run tol w b)|].
  destruct (stream_step tol w o) as [v w1]. rewrite IH.
  destruct (stream_run tol w1 a) as [vs w2]. cbn. by rewrite (assoc_L (++)).
Qed.

Lemma do_op_stream d o k :
  in_bounds d -> op_ok o ->
  stream_run (d_regressionTolerance d) (Last d k) (project k o)
  = (verdicts_at k (option_list (do_op d o).1), Last (do_op d o).2 k).
Proof.
  intros Hb Ho. destruct o as [k' seq|k'|v]; cbn -[stream_step].
  - destruct (Observe d k' seq) as [r d'] eqn:E. cbn -[stream_step]. case_decide as Hk.
    + subst k'. cbn -[stream_step]. rewrite Observe_stream, E by done. cbn.
      pose proof (Observe_key d k seq) as Hr. rewrite E in Hr; cbn in Hr.
      unfold verdicts_at; cbn. by rewrite bool_decide_eq_true_2.
    + pose proof (Observe_key d k' seq) as Hr. rewrite E in Hr; cbn in Hr. cbn.
      unfold verdicts_at; cbn. rewrite bool_decide_eq_false_2 by congruence.
      pose proof (Observe_other d k' k seq Hk) as Ho'. rewrite E in Ho'. cbn in Ho'. by rewrite Ho'.
  - rewrite Last_Reset. by case_decide.
  - rewrite Last_ResetVenue. by case_decide.
Qed.

Lemma run_ops_stream d ops k :
  in_bounds d -> Forall op_ok ops ->
  stream_run (d_regressionTolerance d) (Last d k) (ops ≫= project k)
  = (verdicts_at k (run_ops d ops).1, Last (run_ops d ops).2 k).
Proof.
  intros Hb Hops. revert d Hb. induction Hops as [|o ops Ho Hops IH]; intros d Hb; [done|].
  change ((o :: ops) ≫= project k) with (project k o ++ (ops ≫= project k)).
  rewrite stream_run_app, do_op_stream by done. cbn [fst snd].
  pose proof (do_op_in_bounds d o Hb Ho) as Hb1. pose proof (do_op_tolerance d o) as Ht.
  cbn [run_ops]. destruct (do_op d o) as [r d1]; cbn [fst snd] in *.
  rewrite <- Ht, IH by done. destruct (run_ops d1 ops) as [rs d2]. cbn [fst snd].
  by rewrite verdicts_at_app.
Qed.

Lemma project_observes k seqs : (map (OpObserve k) seqs ≫= project k) = map SObserve seqs.
Proof.
  induction seqs as [|s seqs IH]; [done|].
  change (project k (OpObserve k s) ++ (map (OpObserve k) seqs ≫= project k)
          = SObserve s :: map SObserve seqs).
  rewrite IH. cbn. by destruct (decide (k = k)).
Qed.

Lemma n_advances_cons v vs :
  n_advances (v :: vs) = (if advances v then 1 else 0) + n_advances vs.
Proof. unfold n_advances. cbn. destruct (advances v); cbn [length]; lia. Qed.
Lemma total_missing_cons v vs : total_missing (v :: vs) = v.2 + total_missing vs.
Proof. reflexivity. Qed.

(** One stream: what a run of non-negative observations without a regression does. *)
Lemma stream_run_accounting tol w seqs vs w' :
  0 <= tol -> Forall (fun s => 0 <= s) seqs ->
  stream_run tol (Some w) (map SObserve seqs) = (vs, w') -> no_regression vs ->
  w' = Some (w + n_advances vs + total_missing vs).
Proof.
  intros Ht. revert w vs w'. induction seqs as [|s seqs IH]; intros w vs w' Hs Hrun Hr.
  { cbn in Hrun. injection Hrun as <- <-. cbn. f_equal. unfold n_advances. cbn. lia. }
  apply Forall_cons_1 in Hs as [Hs0 Hs]. cbn in Hrun.
  destruct (Z.ltb_spec s 0); [lia|].
  destruct (Z.ltb_spec (w + 1) s); [|destruct (Z.eqb_spec s (w + 1)); [|destruct (Z.leb_spec (w - tol) s)]];
    destruct (stream_run tol _ _) as [vs1 w1] eqn:E; injection Hrun as <- <-;
    apply Forall_cons_1 in Hr as [Hr1 Hr]; try done;
    rewrite (IH _ _ _ Hs E Hr); f_equal; cbn [option_list app];
    rewrite n_advances_cons, total_missing_cons; cbn; lia.
Qed.

Lemma stream_run_accepted tol w seqs vs w' :
  0 <= tol -> Forall (fun s => 0 <= s) seqs ->
  stream_run tol (Some w) (map SObserve seqs) = (vs, w') -> no_regression vs ->
  StronglySorted Z.lt (w :: accepted seqs vs).
Proof.
  intros Ht. revert w vs w'. induction seqs as [|s seqs IH]; intros w vs w' Hs Hrun Hr.
  { repeat constructor. }
  apply Forall_cons_1 in Hs as [Hs0 Hs]. cbn in Hrun.
  destruct (Z.ltb_spec s 0); [lia|].
  destruct (Z.ltb_spec (w + 1) s); [|destruct (Z.eqb_spec s (w + 1)); [|destruct (Z.leb_spec (w - tol) s)]];
    destruct (stream_run tol _ _) as [vs1 w1] eqn:E; injection Hrun as <- <-;
    apply Forall_cons_1 in Hr as [Hr1 Hr]; try done; specialize (IH _ _ _ Hs E Hr); cbn; [| |done].
  all: constructor; [done|]; constructor; [lia|].
  all: apply StronglySorted_inv in IH as [_ IH]; eapply Forall_impl; [|exact IH]; cbn; lia.
Qed.

(** ** Properties *)

(** C28. Every interleaving of the operations of several goroutines gives each
    stream the verdicts and the watermark of its own specification automaton,
    run on the operations that concern it alone: streams are independent, and
    the map, the lock and int64 arithmetic are invisible. *)
Theorem detector_refines_streams ops k :
  Forall op_ok ops ->
  stream_run 1000 None (ops ≫= project k)
  = (verdicts_at k (run_ops New ops).1, Last (run_ops New ops).2 k).
Proof. intros H. apply (run_ops_stream New); [apply map_Forall_empty|done]. Qed.

Lemma detector_refines_streams_witness :
  let k := mkKey "binance" "BTC-USD" "book" in
  let k2 := mkKey "kraken" "BTC-USD" "trades" in
  let ops := [OpObserve k 5; OpObserve k2 900; OpObserve k 6; OpResetVenue "kraken";
              OpObserve k 9; OpObserve k2 7; OpReset k; OpObserve k 0] in
  stream_run 1000 None (ops ≫= project k)
  = (verdicts_at k (run_ops New ops).1, Last (run_ops New ops).2 k)
  /\ verdicts_at k (run_ops New ops).1
     = [(StatusFirst, 0); (StatusOK, 0); (StatusGap, 2); (StatusFirst, 0)].
Proof.
  split; [|vm_compute; reflexivity].
  apply detector_refines_streams. repeat constructor.
Defined.

(** C29. Accounting: while a stream does not regress, the distance its watermark
    has covered is exactly the messages that advanced it plus the messages
    reported missing; nothing is lost without being counted. *)
Theorem gap_accounting d k w0 seqs :
  in_bounds d -> 0 <= d_regressionTolerance d -> Last d k = Some w0 ->
  Forall (fun s => 0 <= s < MaxInt64) seqs ->
  no_regression (verdicts_at k (run_ops d (map (OpObserve k) seqs)).1) ->
  Last (run_ops d (map (OpObserve k) seqs)).2 k
  = Some (w0 + n_advances (verdicts_at k (run_ops d (map (OpObserve k) seqs)).1)
          + total_missing (verdicts_at k (run_ops d (map (OpObserve k) seqs)).1)).
Proof.
  intros Hb Ht Hw Hs Hr. pose proof (run_ops_stream d (map (OpObserve k) seqs) k Hb) as H.
  rewrite project_observes, Hw in H.
  eapply stream_run_accounting; [done| |apply H|done].
  - eapply Forall_impl; [|exact Hs]; cbn; lia.
  - apply Forall_map. eapply Forall_impl; [|exact Hs]; cbn; lia.
Qed.

Definition gap_example_key : Key := mkKey "coinbase" "" "connection".
Definition gap_example : Detector := set_last New gap_example_key 10.
Definition gap_example_seqs : list Z := [11; 11; 15; 14; 16].

Lemma gap_example_in_bounds : in_bounds gap_example.
Proof. apply map_Forall_insert_2; [vm_compute; intuition congruence|apply map_Forall_empty]. Qed.

Lemma gap_accounting_witness :
  Last (run_ops gap_example (map (OpObserve gap_example_key) gap_example_seqs)).2 gap_example_key
  = Some (10 + n_advances (verdicts_at gap_example_key
                (run_ops gap_example (map (OpObserve gap_example_key) gap_example_seqs)).1)
          + total_missing (verdicts_at gap_example_key
                (run_ops gap_example (map (OpObserve gap_example_key) gap_example_seqs)).1))
  /\ total_missing (verdicts_at gap_example_key
       (run_ops gap_example (map (OpObserve gap_example_key) gap_example_seqs)).1) = 3.
Proof.
  split; [|vm_compute; reflexivity].
  apply gap_accounting.
  - apply gap_example_in_bounds.
  - vm_compute; congruence.
  - vm_compute; reflexivity.
  - repeat constructor; vm_compute; intuition congruence.
  - vm_compute; repeat constructor; discriminate.
Defined.

(** No replay: the sequence numbers a stream lets through between two
    regressions are strictly increasing, above its watermark. A sequence number
    is never accepted twice. *)
Theorem accepted_strictly_increasing d k w0 seqs :
  in_bounds d -> 0 <= d_regressionTolerance d -> Last d k = Some w0 ->
  Forall (fun s => 0 <= s < MaxInt64) seqs ->
  no_regression (verdicts_at k (run_ops d (map (OpObserve k) seqs)).1) ->
  StronglySorted Z.lt
    (w0 :: accepted seqs (verdicts_at k (run_ops d (map (OpObserve k) seqs)).1)).
Proof.
  intros Hb Ht Hw Hs Hr. pose proof (run_ops_stream d (map (OpObserve k) seqs) k Hb) as H.
  rewrite project_observes, Hw in H.
  eapply stream_run_accepted; [done| |apply H|done].
  - eapply Forall_impl; [|exact Hs]; cbn; lia.
  - apply Forall_map. eapply Forall_impl; [|exact Hs]; cbn; lia.
Qed.

Lemma accepted_strictly_increasing_witness :
  StronglySorted Z.lt (10 :: accepted gap_example_seqs (verdicts_at gap_example_key
     (run_ops gap_example (map (OpObserve gap_example_key) gap_example_seqs)).1)).
Proof.
  apply accepted_strictly_increasing.
  - apply gap_example_in_bounds.
  - vm_compute; congruence.
  - vm_compute; reflexivity.
  - repeat constructor; vm_compute; intuition congruence.
  - vm_compute; repeat constructor; discriminate.
Defined.
