(* ===== verification/Encode.v ===== *)
(** * Package [internal/encode]: the Confluent framing of an Avro payload

    The Avro library (github.com/hamba/avro) is the class [AvroLib]: parsing a
    schema, marshalling a record, unmarshalling bytes, resolving a reader schema
    against a writer schema. A frame is the magic byte, the schema id as a
    big-endian uint32, and the payload. *)

From Stdlib Require Strings.Byte.
From S2P Require Import Prelude.
From S2P Require Import GoStrings.
From S2P Require Import GoStrconv.
From S2P Require Import Model.

Local Open Scope Z_scope.

Abbreviation byte := Byte.byte.

(** The Avro library. [avro_value] is what unmarshalling produces. *)
Class AvroLib := {
  avro_schema : Type;
  avro_value : Type;
  avro_Parse : string -> res avro_schema;
  avro_Marshal : avro_schema -> payload -> res (list byte);
  avro_Unmarshal : avro_schema -> list byte -> res avro_value;
  avro_Resolve : avro_schema -> avro_schema -> res avro_schema;
  avro_Compatible : avro_schema -> avro_schema -> option error;
}.

Definition byte_val (b : byte) : Z := Z.of_N (Byte.to_N b).
(** The byte of [z mod 256]. *)
Definition byte_mk (z : Z) : byte :=
  match Byte.of_N (Z.to_N (Z.land z 255)) with Some b => b | None => Byte.x00 end.

Definition MagicByte : byte := Byte.x00.
Definition HeaderLen : nat := 5.

Definition ErrShortPayload : error := ESentinel "encode: payload shorter than wire header".
Definition ErrBadMagic : error := ESentinel "encode: bad magic byte".

(** [binary.BigEndian.PutUint32] and [Uint32]. *)
Definition PutUint32 (v : Z) : list byte :=
  [byte_mk (Z.shiftr v 24); byte_mk (Z.shiftr v 16); byte_mk (Z.shiftr v 8); byte_mk v].
Definition Uint32 (a b c d : byte) : Z :=
  Z.lor (Z.lor (Z.lor (byte_val d) (Z.shiftl (byte_val c) 8)) (Z.shiftl (byte_val b) 16))
        (Z.shiftl (byte_val a) 24).

Record Encoder `{AvroLib} := mkEncoder {
  e_schemaID : Z; e_schema : avro_schema; e_header : list byte }.
Arguments mkEncoder {_} _ _ _.
Arguments e_schemaID {_} _.
Arguments e_schema {_} _.
Arguments e_header {_} _.

Definition NewEncoder `{AvroLib} (schemaID : Z) (schemaJSON : string) : res Encoder :=
  s ← wrap_err "parse avro schema" (avro_Parse schemaJSON);
  Ok (mkEncoder schemaID s (MagicByte :: PutUint32 (uwrap32 schemaID))).

Definition SchemaID `{AvroLib} (e : Encoder) : Z := e_schemaID e.
Definition Schema `{AvroLib} (e : Encoder) : avro_schema := e_schema e.

Definition Encode `{AvroLib} (e : Encoder) (v : payload) : res (list byte) :=
  p ← wrap_err "avro marshal" (avro_Marshal (e_schema e) v);
  Ok (e_header e ++ p).

Definition SplitHeader (b : list byte) : res (Z * list byte) :=
  if (length b <? HeaderLen)%nat then Err ErrShortPayload
  else
    match b with
    | m :: b1 :: b2 :: b3 :: b4 :: rest =>
        if Byte.eqb m MagicByte then Ok (Uint32 b1 b2 b3 b4, rest)
        else Err (EWrap "got" ErrBadMagic)
    | _ => Panic
    end.

Definition Decode `{AvroLib} (writerSchema : avro_schema) (b : list byte) : res avro_value :=
  '(_, p) ← SplitHeader b; avro_Unmarshal writerSchema p.

Definition DecodeResolved `{AvroLib} (readerSchema writerSchema : avro_schema) (b : list byte)
    : res avro_value :=
  '(_, p) ← SplitHeader b;
  resolved ← wrap_err "resolve reader against writer schema"
               (avro_Resolve readerSchema writerSchema);
  avro_Unmarshal resolved p.

Definition Compatible `{AvroLib} (readerSchema writerSchema : avro_schema) : option error :=
  avro_Compatible readerSchema writerSchema.

(** An Avro library for concrete runs: the schema is its text, the payload of a
    record its symbol. *)
Definition payload_bytes (p : payload) : res (list byte) :=
  match p with
  | PTrade (Some t) => Ok (map Ascii.byte_of_ascii (chars (tr_Symbol t)))
  | PBook (Some b) => Ok (map Ascii.byte_of_ascii (chars (bd_Symbol b)))
  | PChain (Some c) => Ok (map Ascii.byte_of_ascii (chars (ct_Symbol c)))
  | _ => Err (EMsg "avro: cannot encode nil pointer")
  end.
Definition toy_avro : AvroLib := {|
  avro_schema := string;
  avro_value := list byte;
  avro_Parse s := if String.eqb s "" then Err (EMsg "avro: empty schema") else Ok s;
  avro_Marshal _ p := payload_bytes p;
  avro_Unmarshal _ b := Ok b;
  avro_Resolve r w := if String.eqb r w then Ok r else Err (EMsg "avro: incompatible");
  avro_Compatible r w := if String.eqb r w then None else Some (EMsg "avro: incompatible");
|}.

(** ** Lemmas *)

Lemma byte_val_range b : 0 <= byte_val b < 256.
Proof. unfold byte_val. pose proof (Byte.to_N_bounded b). lia. Qed.

Lemma byte_val_mk z : byte_val (byte_mk z) = z mod 256.
Proof.
  unfold byte_mk, byte_val. change 255 with (Z.ones 8). rewrite Z.land_ones by lia.
  change (2 ^ 8) with 256. pose proof (Z.mod_pos_bound z 256).
  destruct (Byte.of_N (Z.to_N (z mod 256))) as [b|] eqn:E.
  - apply Byte.to_of_N in E. rewrite E. lia.
  - apply Byte.of_N_None_iff in E. lia.
Qed.

Lemma byte_val_inj a b : byte_val a = byte_val b -> a = b.
Proof.
  unfold byte_val. intros H%N2Z.inj. pose proof (Byte.of_to_N a). pose proof (Byte.of_to_N b).
  congruence.
Qed.

Lemma lor_shiftl a b n : 0 <= n -> 0 <= a < 2 ^ n -> Z.lor a (Z.shiftl b n) = a + b * 2 ^ n.
Proof.
  intros Hn Ha. rewrite Z.shiftl_mul_pow2 by done.
  assert (Z.land a (b * 2 ^ n) = 0) as Hl.
  { apply Z.bits_inj'. intros i Hi. rewrite Z.land_spec, Z.bits_0.
    destruct (Z.ltb_spec i n); [rewrite Z.mul_pow2_bits_low by lia; apply andb_false_r|].
    destruct (decide (a = 0)) as [->|]; [by rewrite Z.bits_0|].
    rewrite (Z.bits_above_log2 a i); [done|lia|]. apply Z.log2_lt_pow2; [lia|].
    eapply Z.lt_le_trans; [apply Ha|]. apply Z.pow_le_mono_r; lia. }
  rewrite <- Z.lxor_lor by done. symmetry. by apply Z.add_nocarry_lxor.
Qed.

Ltac pow_lia :=
  change (2 ^ 8) with 256 in *; change (2 ^ 16) with 65536 in *;
  change (2 ^ 24) with 16777216 in *; unfold two32 in *; lia.

Lemma Uint32_val a b c d :
  Uint32 a b c d
  = byte_val d + byte_val c * 2 ^ 8 + byte_val b * 2 ^ 16 + byte_val a * 2 ^ 24.
Proof.
  pose proof (byte_val_range a). pose proof (byte_val_range b).
  pose proof (byte_val_range c). pose proof (byte_val_range d).
  unfold Uint32. rewrite (lor_shiftl (byte_val d)) by pow_lia.
  rewrite (lor_shiftl (byte_val d + _)) by pow_lia. by rewrite lor_shiftl by pow_lia.
Qed.

Lemma Uint32_range a b c d : 0 <= Uint32 a b c d < two32.
Proof.
  pose proof (byte_val_range a). pose proof (byte_val_range b).
  pose proof (byte_val_range c). pose proof (byte_val_range d).
  rewrite Uint32_val. pow_lia.
Qed.

(** The four bytes of a uint32 in base 256. *)
Lemma uint32_bytes v :
  0 <= v < two32 ->
  v = v mod 256 + (v / 256) mod 256 * 2 ^ 8 + (v / 65536) mod 256 * 2 ^ 16
      + (v / 16777216) mod 256 * 2 ^ 24.
Proof.
  intros Hv. replace (v / 65536) with (v / 256 / 256) by (rewrite Z.div_div; [f_equal|..]; lia).
  replace (v / 16777216) with (v / 256 / 256 / 256)
    by (rewrite !Z.div_div; [f_equal|..]; lia).
  pose proof (Z.div_mod v 256). pose proof (Z.div_mod (v / 256) 256).
  pose proof (Z.div_mod (v / 256 / 256) 256).
  assert (v / 256 / 256 / 256 mod 256 = v / 256 / 256 / 256) as ->; [|pow_lia].
  apply Z.mod_small. rewrite !Z.div_div by lia. split; [apply Z.div_pos; lia|].
  apply Z.div_lt_upper_bound; pow_lia.
Qed.

Lemma PutUint32_bytes v :
  map byte_val (PutUint32 v)
  = [(v / 16777216) mod 256; (v / 65536) mod 256; (v / 256) mod 256; v mod 256].
Proof.
  unfold PutUint32; cbn [map]. rewrite !byte_val_mk, !Z.shiftr_div_pow2 by lia. done.
Qed.

Lemma Uint32_PutUint32 v a b c d :
  0 <= v < two32 -> PutUint32 v = [a; b; c; d] -> Uint32 a b c d = v.
Proof.
  intros Hv H. pose proof (PutUint32_bytes v) as Hb. rewrite H in Hb. cbn [map] in Hb.
  injection Hb as Ha Hb Hc Hd. rewrite Uint32_val, Ha, Hb, Hc, Hd. symmetry.
  by apply uint32_bytes.
Qed.

Lemma PutUint32_Uint32 a b c d : PutUint32 (Uint32 a b c d) = [a; b; c; d].
Proof.
  pose proof (byte_val_range a). pose proof (byte_val_range b).
  pose proof (byte_val_range c). pose proof (byte_val_range d).
  assert (map byte_val (PutUint32 (Uint32 a b c d)) = map byte_val [a; b; c; d]) as E.
  { rewrite PutUint32_bytes, Uint32_val. cbn [map].
    change (2 ^ 8) with 256. change (2 ^ 16) with 65536. change (2 ^ 24) with 16777216.
    set (n := _ + byte_val a * 16777216).
    repeat f_equal; subst n; Z.div_mod_to_equations; lia. }
  unfold PutUint32 in E |- *; cbn [map] in E. injection E as E1 E2 E3 E4.
  by rewrite (byte_val_inj _ _ E1), (byte_val_inj _ _ E2), (byte_val_inj _ _ E3),
    (byte_val_inj _ _ E4).
Qed.

Lemma SplitHeader_frame id p :
  0 <= id < two32 -> SplitHeader (MagicByte :: PutUint32 id ++ p) = Ok (id, p).
Proof.
  intros Hid. unfold SplitHeader. cbn -[Uint32 byte_mk Z.shiftr Byte.eqb].
  change (Byte.eqb MagicByte MagicByte) with true. cbn -[Uint32 byte_mk].
  do 2 f_equal. by apply Uint32_PutUint32.
Qed.

(** ** Properties *)

(** C30. Round trip of the wire format: whatever an encoder of a registry id
    writes, [SplitHeader] reads back as that id and the exact Avro payload, so
    decoding a frame is decoding its payload. *)
Theorem SplitHeader_Encode `{AvroLib} schemaID schemaJSON e v out :
  0 <= schemaID < two32 ->
  NewEncoder schemaID schemaJSON = Ok e -> Encode e v = Ok out ->
  exists p, avro_Marshal (Schema e) v = Ok p /\ SplitHeader out = Ok (schemaID, p)
            /\ SchemaID e = schemaID
            /\ forall writer, Decode writer out = avro_Unmarshal writer p.
Proof.
  intros Hid He Hout. unfold NewEncoder in He. apply bind_Ok in He as (s & Hs & [= <-]).
  unfold Encode in Hout. cbn [e_schema e_header] in Hout.
  apply bind_Ok in Hout as (p & Hp & [= <-]).
  exists p. assert (uwrap32 schemaID = schemaID) as Hw by (by apply Z.mod_small).
  assert (SplitHeader ((MagicByte :: PutUint32 schemaID) ++ p) = Ok (schemaID, p)) as Hsplit
    by (by apply SplitHeader_frame).
  rewrite Hw.
  cbn [Schema SchemaID e_schema e_schemaID]. split_and!; [|done|done|].
  - unfold wrap_err in Hp. by destruct (avro_Marshal s v).
  - intros writer. unfold Decode. unfold PutUint32 in Hsplit. cbn [app] in Hsplit. by rewrite Hsplit.
Qed.

Lemma SplitHeader_Encode_witness :
  let H := toy_avro in
  let t := mkTrade "kraken" "BTC-USD" "1" (S754_zero false) (S754_zero false) SideBuy 0 0 1 in
  let e := mkEncoder 305419896 "trade" (MagicByte :: PutUint32 305419896) in
  let out := e_header e ++ map Ascii.byte_of_ascii (chars "BTC-USD") in
  exists p, avro_Marshal (Schema e) (PTrade (Some t)) = Ok p
            /\ SplitHeader out = Ok (305419896, p) /\ SchemaID e = 305419896
            /\ forall writer, Decode writer out = avro_Unmarshal writer p.
Proof.
  cbn zeta. apply (@SplitHeader_Encode toy_avro 305419896 "trade"); [|reflexivity..].
  vm_compute. intuition congruence.
Defined.

(** C31. [SplitHeader] decides the framing exactly: it returns an id and a payload
    iff the bytes are that frame, reports a buffer below five bytes as short and
    any other first byte as a bad magic, and never panics. *)
Theorem SplitHeader_total b :
  match SplitHeader b with
  | Ok (id, p) => 0 <= id < two32 /\ b = MagicByte :: PutUint32 id ++ p
  | Err e =>
      (length b < HeaderLen)%nat /\ e = ErrShortPayload
      \/ (HeaderLen <= length b)%nat /\ head b <> Some MagicByte
         /\ errors_is e "encode: bad magic byte" = true
  | Panic => False
  end.
Proof.
  unfold SplitHeader. destruct (Nat.ltb_spec (length b) HeaderLen) as [|Hl]; [auto|].
  destruct b as [|m [|b1 [|b2 [|b3 [|b4 rest]]]]]; cbn in Hl; unfold HeaderLen in Hl; try lia.
  destruct (Byte.eqb m MagicByte) eqn:E.
  - apply Byte.byte_dec_bl in E. subst m. rewrite PutUint32_Uint32. split; [apply Uint32_range|done].
  - right. split_and!; [cbn; unfold HeaderLen; lia| |done].
    cbn. intros [= ->]. by rewrite (Byte.byte_dec_lb eq_refl) in E.
Qed.
