(* ===== verification/Metrics.v ===== *)
(** * Package [internal/metrics]: what the tier reports to Prometheus

    A call on a collector is a value, and a component that reports metrics
    returns the calls it made in order. A counter's amount is kept as the integer
    the code converts to float64. *)

From S2P Require Import Prelude.
From S2P Require Import GoStrings.
From S2P Require Import GoStrconv.

Local Open Scope Z_scope.

Inductive series :=
  | EventsReceived
  | EventsPublished
  | PublishErrors
  | DecodeErrors
  | SequenceGaps
  | SequenceMessagesMissed
  | DuplicatesDropped
  | Reconnects
  | ConnectionUp
  | SourceLagSeconds
  | PublishLatencySeconds
  | PipelineQueueDepth
  | EventsDropped
  | SchemaRegistrations.

#[export] Instance series_eq_dec : EqDecision series.
Proof. solve_decision. Defined.

(** ** The declarations of the collectors *)

Inductive collector_type := CounterVec | GaugeVec | HistogramVec (buckets : list float64).
Record collector := mkCollector {
  c_Name : string; c_Type : collector_type; c_Labels : list string }.
Definition namespace : string := "tapeline".
Definition ingest (name : string) : string := namespace +:+ "_ingest_" +:+ name.

Definition declared_as (s : series) : collector :=
  match s with
  | EventsReceived => mkCollector (ingest "events_received_total") CounterVec ["venue"; "kind"]
  | EventsPublished => mkCollector (ingest "events_published_total") CounterVec ["venue"; "topic"]
  | PublishErrors => mkCollector (ingest "publish_errors_total") CounterVec ["venue"; "topic"]
  | DecodeErrors => mkCollector (ingest "decode_errors_total") CounterVec ["venue"]
  | SequenceGaps => mkCollector (ingest "sequence_gaps_total") CounterVec ["venue"; "channel"]
  | SequenceMessagesMissed =>
      mkCollector (ingest "sequence_messages_missed_total") CounterVec ["venue"; "channel"]
  | DuplicatesDropped => mkCollector (ingest "duplicates_dropped_total") CounterVec ["venue"; "channel"]
  | Reconnects => mkCollector (ingest "reconnects_total") CounterVec ["venue"; "reason"]
  | ConnectionUp => mkCollector (ingest "connection_up") GaugeVec ["venue"]
  | SourceLagSeconds =>
      mkCollector (ingest "source_lag_seconds")
        (HistogramVec (map f64 ["0.001"; "0.005"; "0.01"; "0.025"; "0.05"; "0.1"; "0.25"; "0.5"; "1";
                                "2.5"; "5"; "10"])) ["venue"; "kind"]
  | PublishLatencySeconds =>
      mkCollector (ingest "publish_latency_seconds")
        (HistogramVec (map f64 ["0.0005"; "0.001"; "0.0025"; "0.005"; "0.01"; "0.025"; "0.05"; "0.1";
                                "0.25"; "1"])) ["topic"]
  | PipelineQueueDepth => mkCollector (ingest "pipeline_queue_depth") GaugeVec ["stage"]
  | EventsDropped => mkCollector (ingest "events_dropped_total") CounterVec []
  | SchemaRegistrations => mkCollector (ingest "schema_registrations_total") CounterVec ["subject"]
  end.

(** The registered collectors. *)
Definition collectors : list series :=
  [EventsReceived; EventsPublished; PublishErrors; DecodeErrors; SequenceGaps; SequenceMessagesMissed;
   DuplicatesDropped; Reconnects; ConnectionUp; SourceLagSeconds; PublishLatencySeconds;
   PipelineQueueDepth; SchemaRegistrations; EventsDropped].

(** [init]: [MustRegister] panics on a name that is taken (the names here have the
    form Prometheus accepts), and [NewHistogramVec] on buckets that do not grow. *)
Fixpoint register_all (taken : list string) (cs : list series) : res (list string) :=
  match cs with
  | [] => Ok taken
  | c :: cs' =>
      let name := c_Name (declared_as c) in
      if existsb (String.eqb name) taken then Panic else register_all (name :: taken) cs'
  end.
Definition init : res (list string) := register_all [] collectors.
Fixpoint growing (l : list float64) : bool :=
  match l with
  | x :: (y :: _) as l' => f64_lt x y && growing l'
  | _ => true
  end.

(** [WithLabelValues(labels...)] followed by [Add], [Set] or [Observe]. *)
Inductive metric :=
  | MAdd (s : series) (labels : list string) (n : Z)
  | MSet (s : series) (labels : list string) (n : Z)
  | MObserve (s : series) (labels : list string) (x : float64).

Definition MInc (s : series) (labels : list string) : metric := MAdd s labels 1.

(** What the client library accepts without a panic: as many label values as the
    collector has labels, and no negative amount for a counter. It asks also that a label
    value is valid UTF-8, which is not part of this: the texts of a configuration and of a
    frame become labels as they are. *)
Definition metric_safe (m : metric) : bool :=
  match m with
  | MAdd s labels n =>
      match c_Type (declared_as s) with CounterVec => true | _ => false end
      && (length labels =? length (c_Labels (declared_as s)))%nat && (0 <=? n)
  | MSet s labels _ =>
      match c_Type (declared_as s) with GaugeVec => true | _ => false end
      && (length labels =? length (c_Labels (declared_as s)))%nat
  | MObserve s labels _ =>
      match c_Type (declared_as s) with HistogramVec b => growing b | _ => false end
      && (length labels =? length (c_Labels (declared_as s)))%nat
  end.

(** What a counter has been increased by, over all its labels. *)
Definition counted (s : series) (m : metric) : Z :=
  match m with MAdd s' _ n => if decide (s' = s) then n else 0 | _ => 0 end.
Definition counter_total (s : series) (l : list metric) : Z :=
  fold_right Z.add 0 (map (counted s) l).

Definition ObserveSourceLag (venue kind : string) (eventTimeUS ingestTimeUS : Z) : list metric :=
  if (eventTimeUS <=? 0) || (ingestTimeUS <? eventTimeUS) then []
  else [MObserve SourceLagSeconds [venue; kind]
          (f64_div (f64_of_Z (wrap64 (ingestTimeUS - eventTimeUS))) (f64 "1e6"))].

(** ** The endpoint

    What the server of [Serve] meets: [ListenAndServe] returns an error (it always
    does in the end) before the context is done, or the context is done and the
    server is shut down, or neither yet. *)
Inductive serve_env :=
  | ListenReturned (err : error)
  | ContextDone (shutdown : option error) (err : error)
  | Serving.

Definition ErrServerClosed : string := "http: Server closed".
Definition listen_result (err : error) : option error :=
  if errors_is err ErrServerClosed then None else Some err.

(** [None] while it serves. The result of [Shutdown] is discarded. *)
Definition Serve (env : serve_env) : option (option error) :=
  match env with
  | ListenReturned err => Some (listen_result err)
  | ContextDone _ err => Some (listen_result err)
  | Serving => None
  end.

(** The two routes: status and body; [metrics] is what promhttp renders. *)
Definition route (metrics : Z * string) (path : string) : Z * string :=
  if String.eqb path "/metrics" then metrics
  else if String.eqb path "/healthz" then (200, "ok")
  else (404, "404 page not found
").

(** ** Lemmas *)

Lemma counter_total_app s a b : counter_total s (a ++ b) = counter_total s a + counter_total s b.
Proof.
  unfold counter_total. induction a as [|m a IH]; cbn; [done|]. rewrite IH. lia.
Qed.

Lemma counter_total_cons s m l : counter_total s (m :: l) = counted s m + counter_total s l.
Proof. done. Qed.

Lemma counter_total_lag s v k a b : counter_total s (ObserveSourceLag v k a b) = 0.
Proof. unfold ObserveSourceLag. by destruct orb. Qed.

#[export] Hint Rewrite counter_total_app counter_total_cons counter_total_lag : tapeline_rw.
