(* ===== verification/Tracing.v ===== *)
(** * Package [internal/tracing]: trace context in Kafka headers

    OpenTelemetry is the class [Otel]: a context, starting a span in it, whether
    the context holds a valid span, and the global text-map propagator. *)

From S2P Require Import Prelude.
From S2P Require Import GoStrings.
From S2P Require Import GoStrconv.

Local Open Scope Z_scope.

(** A [KafkaHeaderCarrier] is a string map. *)
Abbreviation KafkaHeaderCarrier := (gmap string string).
Definition Carrier_Get (c : KafkaHeaderCarrier) (key : string) : string := default "" (c !! key).
Definition Carrier_Set (c : KafkaHeaderCarrier) (key value : string) : KafkaHeaderCarrier :=
  <[key := value]> c.
(** The keys, in the order in which the map is walked. *)
Definition Carrier_Keys (c : KafkaHeaderCarrier) : list string := map fst (map_to_list c).

Class Otel := {
  context : Type;
  background : context;
  StartSpan : context -> string -> list (string * string) -> context;
  SpanContextValid : context -> bool;
  Propagator_Inject : context -> KafkaHeaderCarrier -> KafkaHeaderCarrier;
  Propagator_Extract : context -> KafkaHeaderCarrier -> context;
}.

(** [None] is the nil map. *)
Definition InjectKafka `{Otel} (ctx : context) : option KafkaHeaderCarrier :=
  if negb (SpanContextValid ctx) then None
  else
    let carrier := Propagator_Inject ctx ∅ in
    if (size carrier =? 0)%nat then None else Some carrier.

Definition ExtractKafka `{Otel} (ctx : context) (headers : option KafkaHeaderCarrier) : context :=
  match headers with
  | None => ctx
  | Some h => if (size h =? 0)%nat then ctx else Propagator_Extract ctx h
  end.

Definition VenueAttributes (venue symbol kind : string) : list (string * string) :=
  [("tapeline.venue", venue); ("tapeline.symbol", symbol); ("tapeline.kind", kind)].

(** The sampling ratio [Init] gives the sampler. *)
Definition SamplingRatio (cfg : float64) : float64 :=
  if f64_le cfg f64_zero || f64_lt (f64 "1") cfg then f64 "0.01" else cfg.

(** [Init]. The OpenTelemetry SDK builds the exporter of an endpoint and merges the
    service's name and version into the default resource, or fails. *)
Definition ServiceName : string := "tapeline-ingestd".
Record TracingConfig := mkTracingConfig {
  tc_Endpoint : string; tc_SampleRatio : float64; tc_Version : string }.
Class OtelSDK := {
  otlp_New : string -> option error;
  resource_Merge : string -> string -> option error;
}.
(** The tracer provider that is installed globally. *)
Inductive TracerProvider :=
  | NoopTracerProvider
  | SDKTracerProvider (endpoint name version : string) (ratio : float64).

Definition Init `{OtelSDK} (cfg : TracingConfig) : res TracerProvider :=
  if String.eqb (tc_Endpoint cfg) "" then Ok NoopTracerProvider
  else
    match otlp_New (tc_Endpoint cfg) with
    | Some err => Err (EWrap "otlp exporter" err)
    | None =>
        match resource_Merge ServiceName (tc_Version cfg) with
        | Some err => Err (EWrap "otel resource" err)
        | None =>
            Ok (SDKTracerProvider (tc_Endpoint cfg) ServiceName (tc_Version cfg)
                  (SamplingRatio (tc_SampleRatio cfg)))
        end
    end.

(** Tracing disabled: a no-op tracer, whose spans are never valid. *)
Definition no_otel : Otel := {|
  context := unit; background := tt;
  StartSpan _ _ _ := tt; SpanContextValid _ := false;
  Propagator_Inject _ c := c; Propagator_Extract _ _ := tt |}.

(** ** Lemmas *)

Lemma InjectKafka_untraced `{Otel} ctx : SpanContextValid ctx = false -> InjectKafka ctx = None.
Proof. intros H0. unfold InjectKafka. by rewrite H0. Qed.

Lemma InjectKafka_nonempty `{Otel} ctx c : InjectKafka ctx = Some c -> c <> ∅.
Proof.
  unfold InjectKafka. destruct (SpanContextValid ctx); [|done]. cbn [negb].
  destruct (Nat.eqb_spec (size (Propagator_Inject ctx ∅)) 0); [done|].
  intros [= <-] Hc. rewrite Hc in *. done.
Qed.
