(* ===== verification/Sink.v ===== *)
(** * Package [internal/sink]: publishing framed records

    [Producer] is the interface the pipeline publishes through; a producer's
    state holds whatever decides its next answer (the broker included).
    [AtomicProducer] states what the pipeline's delivery guarantees need of it:
    a publish that returns nil appends the whole batch to the log, in order, and
    one that fails appends nothing. [MemoryProducer] keeps that contract. *)

From S2P Require Import Prelude.
From S2P Require Import GoStrings.
From S2P Require Import GoStrconv.
From S2P Require Import Encode.
From S2P Require Import Metrics.
From S2P Require Import Tracing.

Local Open Scope Z_scope.

Record Message := mkMessage {
  m_Topic : string; m_Key : string; m_Value : list byte; m_TimeUS : Z;
  m_Venue : string; m_Kind : string; m_Trace : option KafkaHeaderCarrier }.

(** [Publish] returns the error and the metrics it reported. *)
Class Producer (P : Type) := {
  Publish : P -> list Message -> P * option error * list metric;
  Close : P -> P * option error;
}.

(** ** KafkaProducer, over the writer of github.com/segmentio/kafka-go *)

Record KafkaMessage := mkKafkaMessage {
  km_Topic : string; km_Key : string; km_Value : list byte; km_Time : time;
  km_Headers : list (string * string) }.

(** [Config], with [RequireAll] as [-1] (all in-sync replicas). *)
Record WriterConfig := mkWriterConfig {
  wc_Brokers : list string; wc_RequiredAcks : Z; wc_BatchSize : Z; wc_BatchBytes : Z;
  wc_BatchTimeout : duration; wc_Compression : string; wc_Async : bool }.

Definition DefaultConfig (brokers : list string) : WriterConfig :=
  mkWriterConfig brokers (-1) 500 (Z.shiftl 1 20) (10 * millisecond) "lz4" false.

(** The fields of the [kafka.Writer] that are set; the balancer is the key hash. An
    empty topic leaves the choice to each message. *)
Record WriterSettings := mkWriterSettings {
  ws_Config : WriterConfig; ws_Topic : string; ws_Balancer : string; ws_MaxAttempts : Z;
  ws_AllowAutoTopicCreation : bool }.

(** [WriteMessages] answers with an error, if any, and takes some seconds. *)
Class KafkaLib := {
  kafka_Writer : Type;
  new_Writer : WriterSettings -> kafka_Writer;
  WriteMessages : kafka_Writer -> list KafkaMessage -> kafka_Writer * option error * float64;
  Writer_Close : kafka_Writer -> kafka_Writer * option error;
}.

(** The zero [time.Time], in nanoseconds. *)
Definition zero_time : time := - 62135596800000000000.

Record KafkaProducer `{KafkaLib} := mkKafkaProducer { kp_w : kafka_Writer }.
Arguments mkKafkaProducer {_} _.
Arguments kp_w {_} _.

Definition NewKafkaProducer `{KafkaLib} (cfg : WriterConfig) : KafkaProducer :=
  mkKafkaProducer (new_Writer (mkWriterSettings cfg "" "hash" 10 false)).

Definition kafka_headers (m : Message) : list (string * string) :=
  [("venue", m_Venue m); ("kind", m_Kind m)] ++
  match m_Trace m with Some t => map_to_list t | None => [] end.

Definition kafka_message (m : Message) : KafkaMessage :=
  mkKafkaMessage (m_Topic m) (m_Key m) (m_Value m) (m_TimeUS m * 1000) (kafka_headers m).

Definition KafkaProducer_Publish `{KafkaLib} (p : KafkaProducer) (msgs : list Message)
    : KafkaProducer * option error * list metric :=
  match msgs with
  | [] => (p, None, [])
  | _ =>
      let '(w, err, elapsed) := WriteMessages (kp_w p) (map kafka_message msgs) in
      (mkKafkaProducer w, err,
       msgs ≫= fun m =>
         [MObserve PublishLatencySeconds [m_Topic m] elapsed;
          match err with
          | Some _ => MInc PublishErrors [m_Venue m; m_Topic m]
          | None => MInc EventsPublished [m_Venue m; m_Topic m]
          end])
  end.

Definition KafkaProducer_Close `{KafkaLib} (p : KafkaProducer) : KafkaProducer * option error :=
  let '(w, err) := Writer_Close (kp_w p) in (mkKafkaProducer w, err).

#[export] Instance KafkaProducer_Producer `{KafkaLib} : Producer KafkaProducer := {|
  Publish := KafkaProducer_Publish; Close := KafkaProducer_Close |}.

(** ** MemoryProducer *)

Record MemoryProducer := mkMemoryProducer {
  mp_messages : list Message; mp_closed : bool; mp_failWith : option error }.

Definition NewMemoryProducer : MemoryProducer := mkMemoryProducer [] false None.

Definition SetFailure (m : MemoryProducer) (err : option error) : MemoryProducer :=
  mkMemoryProducer (mp_messages m) (mp_closed m) err.

Definition MemoryProducer_Publish (m : MemoryProducer) (msgs : list Message)
    : MemoryProducer * option error * list metric :=
  if mp_closed m then (m, Some (EMsg "sink: producer closed"), [])
  else
    match mp_failWith m with
    | Some e => (m, Some e, [])
    | None =>
        (mkMemoryProducer (mp_messages m ++ msgs) (mp_closed m) (mp_failWith m), None, [])
    end.

(** [Messages] (a copy of the log) and [Len]. *)
Definition Messages (m : MemoryProducer) : list Message := mp_messages m.
Definition Len (m : MemoryProducer) : nat := length (mp_messages m).

Definition MemoryProducer_Close (m : MemoryProducer) : MemoryProducer * option error :=
  (mkMemoryProducer (mp_messages m) true (mp_failWith m), None).

#[export] Instance MemoryProducer_Producer : Producer MemoryProducer := {|
  Publish := MemoryProducer_Publish; Close := MemoryProducer_Close |}.

(** ** The contract of a producer *)

Class AtomicProducer (P : Type) `{Producer P} := {
  plog : P -> list Message;
  publish_ok : forall p msgs p' ms,
    Publish p msgs = (p', None, ms) -> plog p' = plog p ++ msgs;
  publish_err : forall p msgs p' e ms,
    Publish p msgs = (p', Some e, ms) -> plog p' = plog p;
}.

#[export] Instance MemoryProducer_Atomic : AtomicProducer MemoryProducer.
Proof.
  refine {| plog := Messages |}; cbn; unfold MemoryProducer_Publish; intros p msgs p' *;
    destruct (mp_closed p), (mp_failWith p); intros [=]; by subst.
Defined.

(** The series a producer may report; every other counter is the pipeline's. *)
Definition sink_series (s : series) : bool :=
  match s with EventsPublished | PublishErrors | PublishLatencySeconds => true | _ => false end.

Class QuietProducer (P : Type) `{Producer P} :=
  publish_quiet : forall p msgs s, sink_series s = false -> counter_total s (Publish p msgs).2 = 0.

#[export] Instance MemoryProducer_Quiet : QuietProducer MemoryProducer.
Proof.
  intros p msgs s Hs. cbn. unfold MemoryProducer_Publish.
  by destruct (mp_closed p), (mp_failWith p).
Qed.

#[export] Instance KafkaProducer_Quiet `{KafkaLib} : QuietProducer KafkaProducer.
Proof.
  intros p msgs s Hs. cbn. unfold KafkaProducer_Publish. destruct msgs as [|m0 msgs]; [done|].
  destruct (WriteMessages _ _) as [[w err] el]. cbn [snd].
  generalize (m0 :: msgs). intros l. induction l as [|m l IH]; [done|].
  cbn [mbind list_bind]. rewrite counter_total_app, IH. by destruct err, s.
Qed.

(** A memory producer whose broker goes away and comes back: it follows a script
    of answers, and succeeds when the script is over. *)
Record ScriptedProducer := mkScripted {
  sp_log : list Message; sp_script : list (option error) }.
Definition Scripted_Publish (p : ScriptedProducer) (msgs : list Message)
    : ScriptedProducer * option error * list metric :=
  match sp_script p with
  | Some e :: s => (mkScripted (sp_log p) s, Some e, [])
  | None :: s => (mkScripted (sp_log p ++ msgs) s, None, [])
  | [] => (mkScripted (sp_log p ++ msgs) [], None, [])
  end.
#[export] Instance Scripted_Producer : Producer ScriptedProducer := {|
  Publish := Scripted_Publish; Close p := (p, None) |}.
#[export] Instance Scripted_Atomic : AtomicProducer ScriptedProducer.
Proof.
  refine {| plog := sp_log |}; cbn; unfold Scripted_Publish; intros p msgs p' *;
    destruct (sp_script p) as [|[]]; intros [=]; by subst.
Defined.
#[export] Instance Scripted_Quiet : QuietProducer ScriptedProducer.
Proof. intros p msgs s Hs. cbn. unfold Scripted_Publish. by destruct (sp_script p) as [|[]]. Qed.

(** ** The log of a Kafka writer *)

(** The log of a writer: an acknowledged write appends its messages, a failed one
    some of them. *)
Class WriterLog `{KafkaLib} := {
  written : kafka_Writer -> list KafkaMessage;
  written_new : forall s, written (new_Writer s) = [];
  written_ok : forall w kms w' x, WriteMessages w kms = (w', None, x) -> written w' = written w ++ kms;
  written_err : forall w kms w' e x, WriteMessages w kms = (w', Some e, x) ->
    exists part, part `sublist_of` kms /\ written w' = written w ++ part;
}.

(** An in-memory cluster for concrete runs: the writer is its log. *)
Definition log_kafka : KafkaLib := {|
  kafka_Writer := list KafkaMessage; new_Writer _ := [];
  WriteMessages w ms := (w ++ ms, None, f64_zero); Writer_Close w := (w, None) |}.
Definition log_writer : @WriterLog log_kafka.
Proof.
  refine {| written := fun w : @kafka_Writer log_kafka => w |}.
  - done.
  - intros w kms w' x [= <- _]. done.
  - done.
Defined.
