(* ===== verification/Pipeline.v ===== *)
(** * Package [internal/pipeline]: continuity, encoding, batching, publishing

    [Run] is a loop over what its [select] receives: an event, the closed
    channel, a tick, or the cancelled context ([input]); its local variables and
    the objects it owns are the state [state]. The clock, the arrival order and
    the producer's answers are the environment. *)

From S2P Require Import Prelude.
From S2P Require Import GoStrings.
From S2P Require Import GoStrconv.
From S2P Require Import Model.
From S2P Require Import Gap.
From S2P Require Import Encode.
From S2P Require Import Metrics.
From S2P Require Import Tracing.
From S2P Require Import Sink.

Local Open Scope Z_scope.

Record Pipeline `{AvroLib} := mkPipeline {
  p_Encoders : gmap Kind Encoder;
  p_Topics : gmap Kind string;
  p_BatchSize : Z;
  p_FlushInterval : duration;
  p_OnResync : option (string -> Key -> Detector -> Detector);
  p_DropOnGap : bool;
  p_MaxPendingEvents : Z;
  p_ConnectionScopedVenues : gmap string bool }.
Arguments mkPipeline {_} _ _ _ _ _ _ _ _.
Arguments p_Encoders {_} _.
Arguments p_Topics {_} _.
Arguments p_BatchSize {_} _.
Arguments p_FlushInterval {_} _.
Arguments p_OnResync {_} _.
Arguments p_DropOnGap {_} _.
Arguments p_MaxPendingEvents {_} _.
Arguments p_ConnectionScopedVenues {_} _.

Record Stats := mkStats {
  st_Received : Z; st_Published : Z; st_Duplicates : Z; st_Gaps : Z; st_Missed : Z;
  st_EncodeErrs : Z; st_PublishFailures : Z; st_Dropped : Z }.
Definition zero_stats : Stats := mkStats 0 0 0 0 0 0 0 0.

(** The defaults [Run] puts in place of unset fields. *)
Definition with_defaults `{AvroLib} (p : Pipeline) : Pipeline :=
  mkPipeline (p_Encoders p) (p_Topics p)
    (if p_BatchSize p <=? 0 then 500 else p_BatchSize p)
    (if p_FlushInterval p <=? 0 then 10 * millisecond else p_FlushInterval p)
    (p_OnResync p) (p_DropOnGap p)
    (if p_MaxPendingEvents p <=? 0 then 100000 else p_MaxPendingEvents p)
    (p_ConnectionScopedVenues p).

(** ** One event *)

Definition channelFor (k : Kind) : string :=
  if String.eqb k KindTrade then "trades"
  else if String.eqb k KindBookDelta then "book"
  else if String.eqb k KindChainTransfer then "chain"
  else "unknown".

Definition sequenceKey `{AvroLib} (p : Pipeline) (ev : Event) : Key :=
  if default false (p_ConnectionScopedVenues p !! ev_Venue ev)
  then mkKey (ev_Venue ev) "" "connection"
  else mkKey (ev_Venue ev) (ev_Symbol ev) (channelFor (ev_Kind ev)).

(** The event and ingest times; the pointer of the kind is dereferenced. *)
Definition timestamps (ev : Event) : res (Z * Z) :=
  if String.eqb (ev_Kind ev) KindTrade then
    match ev_Trade ev with Some t => Ok (tr_EventTimeUS t, tr_IngestTimeUS t) | None => Panic end
  else if String.eqb (ev_Kind ev) KindBookDelta then
    match ev_Book ev with Some b => Ok (bd_EventTimeUS b, bd_IngestTimeUS b) | None => Panic end
  else if String.eqb (ev_Kind ev) KindChainTransfer then
    match ev_Chain ev with Some c => Ok (ct_EventTimeUS c, ct_IngestTimeUS c) | None => Panic end
  else Ok (0, 0).

Definition frame `{AvroLib, Otel} (p : Pipeline) (ctx : context) (ev : Event)
    : res (Message * list metric) :=
  let ctx := StartSpan ctx "ingest.frame"
               (VenueAttributes (ev_Venue ev) (ev_Symbol ev) (ev_Kind ev)) in
  enc ← of_option (EMsg "no encoder registered for kind") (p_Encoders p !! ev_Kind ev);
  topic ← of_option (EMsg "no topic configured for kind") (p_Topics p !! ev_Kind ev);
  let payload := Payload ev in
  if payload_is_nil payload then Err (EMsg "event of kind carries no payload")
  else
    value ← Encode enc payload;
    '(eventTimeUS, ingestTimeUS) ← timestamps ev;
    Ok (mkMessage topic (ev_Symbol ev) value eventTimeUS (ev_Venue ev) (ev_Kind ev)
          (InjectKafka ctx),
        ObserveSourceLag (ev_Venue ev) (ev_Kind ev) eventTimeUS ingestTimeUS).

(** What [checkSequence] counts. *)
Definition count_duplicate (s : Stats) : Stats :=
  mkStats (st_Received s) (st_Published s) (st_Duplicates s + 1) (st_Gaps s) (st_Missed s)
    (st_EncodeErrs s) (st_PublishFailures s) (st_Dropped s).
Definition count_gap (missing : Z) (s : Stats) : Stats :=
  mkStats (st_Received s) (st_Published s) (st_Duplicates s) (st_Gaps s + 1)
    (wrap64 (st_Missed s + missing)) (st_EncodeErrs s) (st_PublishFailures s) (st_Dropped s).

(** [checkSequence]: whether to drop the event, the detector, the statistics and
    the metrics. *)
Definition checkSequence `{AvroLib} (p : Pipeline) (det : Detector) (s : Stats) (ev : Event)
    : bool * Detector * Stats * list metric :=
  let key := sequenceKey p ev in
  let '(r, det) := Observe det key (ev_Sequence ev) in
  match r_Status r with
  | StatusDuplicate =>
      (true, det, count_duplicate s, [MInc DuplicatesDropped [ev_Venue ev; k_Channel key]])
  | StatusGap | StatusRegression =>
      (p_DropOnGap p,
       match p_OnResync p with Some f => f (ev_Venue ev) key det | None => det end,
       count_gap (r_Missing r) s,
       MInc SequenceGaps [ev_Venue ev; k_Channel key] ::
       (if 0 <? r_Missing r
        then [MAdd SequenceMessagesMissed [ev_Venue ev; k_Channel key] (r_Missing r)] else []))
  | _ => (false, det, s, [])
  end.

(** ** The state of [Run] *)

Record state (P : Type) := mkState {
  s_det : Detector; s_prod : P; s_batch : list Message; s_stats : Stats;
  s_metrics : list metric }.
Arguments mkState {P} _ _ _ _ _.
Arguments s_det {P} _.
Arguments s_prod {P} _.
Arguments s_batch {P} _.
Arguments s_stats {P} _.
Arguments s_metrics {P} _.

Definition queue_depth (b : list Message) : metric :=
  MSet PipelineQueueDepth ["batch"] (Z.of_nat (length b)).

Definition count_published (n : Z) (s : Stats) : Stats :=
  mkStats (st_Received s) (st_Published s + n) (st_Duplicates s) (st_Gaps s) (st_Missed s)
    (st_EncodeErrs s) (st_PublishFailures s) (st_Dropped s).
Definition count_failure (dropped : Z) (s : Stats) : Stats :=
  mkStats (st_Received s) (st_Published s) (st_Duplicates s) (st_Gaps s) (st_Missed s)
    (st_EncodeErrs s) (st_PublishFailures s + 1) (st_Dropped s + dropped).
Definition count_received (s : Stats) : Stats :=
  mkStats (st_Received s + 1) (st_Published s) (st_Duplicates s) (st_Gaps s) (st_Missed s)
    (st_EncodeErrs s) (st_PublishFailures s) (st_Dropped s).
Definition count_encode_err (s : Stats) : Stats :=
  mkStats (st_Received s) (st_Published s) (st_Duplicates s) (st_Gaps s) (st_Missed s)
    (st_EncodeErrs s + 1) (st_PublishFailures s) (st_Dropped s).

(** The closure [flush]: a failed publish keeps the batch, trimmed of its oldest
    messages to the bound. *)
Definition flush `{AvroLib} {P} `{Producer P} (p : Pipeline) (st : state P) : state P :=
  match s_batch st with
  | [] => st
  | batch =>
      let '(prod, err, ms) := Publish (s_prod st) batch in
      match err with
      | Some _ =>
          let over := Z.of_nat (length batch) - p_MaxPendingEvents p in
          if 0 <? over then
            let kept := drop (Z.to_nat over) batch in
            mkState (s_det st) prod kept (count_failure over (s_stats st))
              (s_metrics st ++ ms ++ [MAdd EventsDropped [] over; queue_depth kept])
          else
            mkState (s_det st) prod batch (count_failure 0 (s_stats st))
              (s_metrics st ++ ms ++ [queue_depth batch])
      | None =>
          mkState (s_det st) prod []
            (count_published (Z.of_nat (length batch)) (s_stats st))
            (s_metrics st ++ ms ++ [queue_depth []])
      end
  end.

(** The case of the event channel. *)
Definition on_event `{AvroLib, Otel} {P} `{Producer P} (p : Pipeline) (ctx : context)
    (ev : Event) (st : state P) : res (state P) :=
  let stats := count_received (s_stats st) in
  let m1 := MInc EventsReceived [ev_Venue ev; ev_Kind ev] in
  let '(drop, det, stats, m2) := checkSequence p (s_det st) stats ev in
  let ms := s_metrics st ++ m1 :: m2 in
  if drop then Ok (mkState det (s_prod st) (s_batch st) stats ms)
  else
    match frame p ctx ev with
    | Panic => Panic
    | Err _ =>
        Ok (mkState det (s_prod st) (s_batch st) (count_encode_err stats)
              (ms ++ [MInc DecodeErrors [ev_Venue ev]]))
    | Ok (msg, m3) =>
        let batch := s_batch st ++ [msg] in
        let st := mkState det (s_prod st) batch stats (ms ++ m3 ++ [queue_depth batch]) in
        Ok (if p_BatchSize p <=? Z.of_nat (length batch) then flush p st else st)
    end.

(** The last publish of a cancelled run: it is attempted even with an empty batch. *)
Definition final_flush {P} `{Producer P} (st : state P) : state P :=
  let '(prod, err, ms) := Publish (s_prod st) (s_batch st) in
  let lost := match err with Some _ => (0 <? length (s_batch st))%nat | None => false end in
  mkState (s_det st) prod (s_batch st)
    (if lost then s_stats st
     else count_published (Z.of_nat (length (s_batch st))) (s_stats st))
    (s_metrics st ++ ms).

Inductive input := InEvent (ev : Event) | InClosed | InTick | InDone.

(** [Run] on what it receives: [inl] is a run that goes on, [inr] one that
    returned. *)
Fixpoint loop `{AvroLib, Otel} {P} `{Producer P} (p : Pipeline) (ctx : context)
    (ins : list input) (st : state P) : res (state P + state P) :=
  match ins with
  | [] => Ok (inl st)
  | InDone :: _ => Ok (inr (final_flush st))
  | InClosed :: _ => Ok (inr (flush p st))
  | InTick :: ins' => loop p ctx ins' (flush p st)
  | InEvent ev :: ins' => st' ← on_event p ctx ev st; loop p ctx ins' st'
  end.

Definition initial {P} (det : option Detector) (prod : P) : state P :=
  mkState (default New det) prod [] zero_stats [].

Definition Run `{AvroLib, Otel} {P} `{Producer P} (p : Pipeline) (det : option Detector)
    (prod : P) (ctx : context) (ins : list input) : res (state P + state P) :=
  loop (with_defaults p) ctx ins (initial det prod).

(** ** Specification: what a run lets through, whatever the producer does *)

(** The detector after an event, and the message it becomes, if any. *)
Definition next_det `{AvroLib} (p : Pipeline) (det : Detector) (ev : Event) : Detector :=
  (checkSequence p det zero_stats ev).1.1.2.
Definition event_msg `{AvroLib, Otel} (p : Pipeline) (ctx : context) (det : Detector) (ev : Event)
    : option Message :=
  if (checkSequence p det zero_stats ev).1.1.1 then None
  else match frame p ctx ev with Ok (m, _) => Some m | _ => None end.

(** The framed messages of a sequence of inputs, in order. *)
Fixpoint framed `{AvroLib, Otel} (p : Pipeline) (ctx : context) (det : Detector)
    (ins : list input) : list Message :=
  match ins with
  | [] | InDone :: _ | InClosed :: _ => []
  | InTick :: ins' => framed p ctx det ins'
  | InEvent ev :: ins' =>
      option_list (event_msg p ctx det ev) ++ framed p ctx (next_det p det ev) ins'
  end.

(** The detector after a sequence of inputs. *)
Fixpoint dets `{AvroLib} (p : Pipeline) (det : Detector) (ins : list input) : Detector :=
  match ins with
  | [] | InDone :: _ | InClosed :: _ => det
  | InTick :: ins' => dets p det ins'
  | InEvent ev :: ins' => dets p (next_det p det ev) ins'
  end.

(** The most messages a run retains. *)
Definition retention `{AvroLib} (p : Pipeline) : Z :=
  Z.max (p_BatchSize p - 1) (p_MaxPendingEvents p).

(** Events of a run that became no message. *)
Definition rejected `{AvroLib} (p : Pipeline) (s : Stats) : Z :=
  st_Duplicates s + (if p_DropOnGap p then st_Gaps s else 0) + st_EncodeErrs s.

(** The invariant of a run that has framed [F] and started from the log [log0]:
    [published] is what the producer has acknowledged since. *)
Record pipeline_inv `{AvroLib} {P} `{AtomicProducer P} (p : Pipeline) (log0 : list Message)
    (F : list Message) (st : state P) (published : list Message) : Prop := mkInv {
  inv_log : plog (s_prod st) = log0 ++ published;
  inv_published : st_Published (s_stats st) = Z.of_nat (length published);
  inv_dropped : 0 <= st_Dropped (s_stats st);
  inv_order : published ++ s_batch st `sublist_of` F;
  inv_length : Z.of_nat (length F)
    = Z.of_nat (length published) + Z.of_nat (length (s_batch st)) + st_Dropped (s_stats st);
  inv_received : st_Received (s_stats st)
    = rejected p (s_stats st) + Z.of_nat (length F);
  inv_loss : 0 < st_Dropped (s_stats st) -> p_MaxPendingEvents p < Z.of_nat (length F) }.

(** ** Lemmas *)

Section invariant.
Context `{AvroLib, Otel} {P : Type} `{AtomicProducer P}.
Context (p : Pipeline) (ctx : context) (log0 : list Message).
Hypothesis Hbatch : 0 < p_BatchSize p.
Hypothesis Hpending : 0 < p_MaxPendingEvents p.

Lemma flush_det (st : state P) : s_det (flush p st) = s_det st.
Proof.
  unfold flush. destruct (s_batch st); [done|]. destruct (Publish _ _) as [[? []] ?]; [|done].
  by destruct (0 <? _).
Qed.

Lemma flush_bound (st : state P) :
  Z.of_nat (length (s_batch (flush p st))) <= p_MaxPendingEvents p.
Proof.
  unfold flush. destruct (s_batch st) as [|m b] eqn:E; [rewrite E; cbn; lia|].
  destruct (Publish _ _) as [[? [e|]] ?]; [|cbn; lia].
  split_cmp; cbn [s_batch]; [rewrite length_drop|]; lia.
Qed.

Lemma flush_inv F (st : state P) pub :
  pipeline_inv p log0 F st pub -> exists pub', pipeline_inv p log0 F (flush p st) pub'.
Proof.
  intros [Hlog Hpub Hdrop Hord Hlen Hrec Hloss]. unfold flush.
  destruct (s_batch st) as [|m b] eqn:Eb.
  { exists pub. split; try done; by rewrite Eb. }
  set (batch := m :: b) in *.
  destruct (Publish (s_prod st) batch) as [[prod err] ms] eqn:EP. destruct err as [e|].
  - apply publish_err in EP. exists pub.
    split_cmp; split; cbn [s_prod s_batch s_stats st_Published st_Dropped st_Received count_failure];
      rewrite ?EP, ?length_drop; try done; try lia.
    etrans; [|exact Hord]. apply sublist_app; [done|apply sublist_drop].
  - apply publish_ok in EP. exists (pub ++ batch).
    split; cbn [s_prod s_batch s_stats st_Published st_Dropped st_Received count_published];
      rewrite ?length_app; cbn [length]; try done; try lia.
    + by rewrite EP, Hlog, (assoc_L (++)).
    + by rewrite app_nil_r.
Qed.

(** The statistics do not influence the sequence check. *)
Lemma checkSequence_stats det s ev :
  exists f, (checkSequence p det s ev)
    = ((checkSequence p det zero_stats ev).1.1.1, next_det p det ev, f,
       (checkSequence p det zero_stats ev).2)
    /\ st_Received f = st_Received s /\ st_Published f = st_Published s
    /\ st_Dropped f = st_Dropped s /\ st_EncodeErrs f = st_EncodeErrs s
    /\ rejected p f
       = rejected p s + (if (checkSequence p det zero_stats ev).1.1.1 then 1 else 0).
Proof.
  unfold next_det, checkSequence. destruct (Observe det _ _) as [r d].
  unfold rejected.
  destruct (r_Status r); eexists; (split; [reflexivity|]); cbn; destruct (p_DropOnGap p); lia.
Qed.

Lemma on_event_inv F (st st' : state P) pub ev :
  pipeline_inv p log0 F st pub -> Z.of_nat (length (s_batch st)) <= retention p ->
  on_event p ctx ev st = Ok st' ->
  s_det st' = next_det p (s_det st) ev
  /\ Z.of_nat (length (s_batch st')) <= retention p
  /\ exists pub',
       pipeline_inv p log0 (F ++ option_list (event_msg p ctx (s_det st) ev)) st' pub'.
Proof.
  intros [Hlog Hpub Hdrop Hord Hlen Hrec Hloss] Hb Hev. unfold on_event in Hev. unfold event_msg.
  destruct (checkSequence_stats (s_det st) (count_received (s_stats st)) ev)
    as (f & E & Hf1 & Hf2 & Hf3 & Hf4 & Hf5).
  rewrite E in Hev. cbn in Hf1, Hf2, Hf3, Hf4.
  change (rejected p (count_received (s_stats st))) with (rejected p (s_stats st)) in Hf5.
  destruct (checkSequence p (s_det st) zero_stats ev).1.1.1.
  { injection Hev as <-. cbn [option_list]. rewrite app_nil_r.
    split_and!; [done|done|]. exists pub. split; cbn [s_prod s_batch s_stats]; try done; lia. }
  destruct (frame p ctx ev) as [[msg m3]|e|]; [| |done]; cycle 1.
  { injection Hev as <-. cbn [option_list]. rewrite app_nil_r.
    split_and!; [done|done|]. exists pub.
    split; cbn [s_prod s_batch s_stats count_encode_err st_Received st_Published st_Dropped];
      try done; try lia. unfold rejected in *. cbn. lia. }
  injection Hev as <-. cbn [option_list].
  set (st1 := mkState _ _ _ _ _).
  assert (pipeline_inv p log0 (F ++ [msg]) st1 pub) as Hinv.
  { split; cbn; rewrite ?length_app; cbn [length]; try done; try lia.
    rewrite (assoc_L (++)). by apply sublist_app. }
  assert (s_det st1 = next_det p (s_det st) ev) as Hd by done.
  unfold retention in *. destruct (Z.leb_spec (p_BatchSize p) (Z.of_nat (length (s_batch st ++ [msg])))).
  - rewrite flush_det. split_and!; [done| |by eapply flush_inv].
    pose proof (flush_bound st1). lia.
  - split_and!; [done|cbn; lia|by exists pub].
Qed.

Lemma loop_inv ins : forall F (st st' : state P) pub,
  pipeline_inv p log0 F st pub -> Z.of_nat (length (s_batch st)) <= retention p ->
  loop p ctx ins st = Ok (inl st') ->
  s_det st' = dets p (s_det st) ins
  /\ Z.of_nat (length (s_batch st')) <= retention p
  /\ exists pub', pipeline_inv p log0 (F ++ framed p ctx (s_det st) ins) st' pub'.
Proof.
  induction ins as [|i ins IH]; intros F st st' pub Hinv Hb Hrun; cbn in Hrun.
  { injection Hrun as <-. cbn. rewrite app_nil_r. eauto. }
  destruct i as [ev| | |]; cbn [framed dets]; try done.
  - apply bind_Ok in Hrun as (st1 & Hev & Hrun).
    destruct (on_event_inv _ _ _ _ _ Hinv Hb Hev) as (Hd & Hb1 & pub1 & Hinv1).
    destruct (IH _ _ _ _ Hinv1 Hb1 Hrun) as (Hd2 & Hb2 & pub2 & Hinv2).
    rewrite Hd in *. rewrite (assoc_L (++)). eauto.
  - destruct (flush_inv _ _ _ Hinv) as [pub1 Hinv1].
    assert (Z.of_nat (length (s_batch (flush p st))) <= retention p) as Hb1
      by (pose proof (flush_bound st); unfold retention; lia).
    destruct (IH _ _ _ _ Hinv1 Hb1 Hrun) as (Hd2 & Hb2 & pub2 & Hinv2).
    rewrite flush_det in *. eauto.
Qed.

Lemma initial_inv det (prod : P) :
  plog prod = log0 -> pipeline_inv p log0 [] (initial det prod) [].
Proof.
  intros Hl. split; cbn; try done; [by rewrite app_nil_r|].
  unfold rejected; cbn. by destruct (p_DropOnGap p).
Qed.
End invariant.

(** The detector after an event is the one of the sequence check. *)
Lemma on_event_det `{AvroLib, Otel} {P} `{Producer P} (p : Pipeline) ctx ev (st st' : state P) :
  on_event p ctx ev st = Ok st' -> s_det st' = next_det p (s_det st) ev.
Proof.
  intros Hev. unfold on_event in Hev.
  destruct (checkSequence_stats p (s_det st) (count_received (s_stats st)) ev) as (f & Hf & _).
  rewrite Hf in Hev. destruct (checkSequence p (s_det st) zero_stats ev).1.1.1; [by injection Hev as <-|].
  destruct (frame p ctx ev) as [[msg m3]|e|]; [|by injection Hev as <-|done].
  destruct (_ <=? _); injection Hev as <-; [|done]. by rewrite flush_det.
Qed.

Lemma with_defaults_pos `{AvroLib} (p : Pipeline) :
  0 < p_BatchSize (with_defaults p) /\ 0 < p_MaxPendingEvents (with_defaults p).
Proof. cbn. split_cmp; lia. Qed.

(** A run that returned: what it did before, and how it ended. *)
Lemma loop_returned `{AvroLib, Otel} {P} `{Producer P} (p : Pipeline) ctx ins : forall (st st' : state P),
  loop p ctx ins st = Ok (inr st') ->
  exists pre post st1,
    loop p ctx pre st = Ok (inl st1)
    /\ (ins = pre ++ InClosed :: post /\ st' = flush p st1
        \/ ins = pre ++ InDone :: post /\ st' = final_flush st1).
Proof.
  induction ins as [|i ins IH]; intros st st' Hrun; cbn in Hrun; [done|].
  destruct i as [ev| | |].
  - apply bind_Ok in Hrun as (st1 & Hev & Hrun).
    destruct (IH _ _ Hrun) as (pre & post & st2 & Hpre & Hend).
    exists (InEvent ev :: pre), post, st2. cbn. rewrite Hev. split; [done|].
    destruct Hend as [[-> ->]|[-> ->]]; auto.
  - injection Hrun as <-. exists [], ins, st. auto.
  - destruct (IH _ _ Hrun) as (pre & post & st2 & Hpre & Hend).
    exists (InTick :: pre), post, st2. split; [done|].
    destruct Hend as [[-> ->]|[-> ->]]; auto.
  - injection Hrun as <-. exists [], ins, st. auto.
Qed.

Lemma Run_inv `{AvroLib, Otel} {P} `{AtomicProducer P} (p : Pipeline) det (prod : P) ctx ins st :
  Run p det prod ctx ins = Ok (inl st) ->
  Z.of_nat (length (s_batch st)) <= retention (with_defaults p)
  /\ exists pub, pipeline_inv (with_defaults p) (plog prod)
                   (framed (with_defaults p) ctx (default New det) ins) st pub.
Proof.
  intros Hrun. destruct (with_defaults_pos p) as [Hbs Hmp].
  assert (Z.of_nat (length (s_batch (initial det prod))) <= retention (with_defaults p)) as Hb
    by (unfold retention; cbn [initial s_batch length]; lia).
  destruct (loop_inv (with_defaults p) ctx (plog prod) Hmp ins [] _ _ []
              (initial_inv _ _ det prod eq_refl) Hb Hrun) as (_ & Hb' & pub & Hinv).
  eauto.
Qed.

(** The rejected and the delivered events add up, for a run that goes on and for
    one that returned. *)
Lemma Run_returned_inv `{AvroLib, Otel} {P} `{AtomicProducer P} (p : Pipeline) det (prod : P)
    ctx ins st :
  Run p det prod ctx ins = Ok (inr st) ->
  exists F pub st1, pipeline_inv (with_defaults p) (plog prod) F st1 pub
    /\ (st = flush (with_defaults p) st1 \/ st = final_flush st1).
Proof.
  intros (pre & post & st1 & Hpre & Hend)%loop_returned.
  destruct (Run_inv p det prod ctx pre st1 Hpre) as (_ & pub & Hinv).
  eexists _, pub, st1. split; [exact Hinv|]. destruct Hend as [[_ ->]|[_ ->]]; auto.
Qed.

Lemma sublist_same_length {A} (l k : list A) :
  l `sublist_of` k -> length l = length k -> l = k.
Proof.
  induction 1 as [|x l k Hs IH|x l k Hs IH]; cbn; intros Hl; [done| |].
  - f_equal. auto.
  - apply sublist_length in Hs. lia.
Qed.

(** The counters that mirror the statistics. *)
Record metrics_agree (ms : list metric) (s : Stats) : Prop := mkAgree {
  ag_received : counter_total EventsReceived ms = st_Received s;
  ag_duplicates : counter_total DuplicatesDropped ms = st_Duplicates s;
  ag_gaps : counter_total SequenceGaps ms = st_Gaps s;
  ag_errors : counter_total DecodeErrors ms = st_EncodeErrs s;
  ag_dropped : counter_total EventsDropped ms = st_Dropped s }.

Ltac agree_lia :=
  unfold counter_total in *; cbn in *; repeat case_decide; try discriminate; try congruence; lia.

Section agreement.
Context `{AvroLib, Otel} {P : Type} `{QuietProducer P}.
Context (p : Pipeline) (ctx : context).

Lemma flush_agree (st : state P) :
  metrics_agree (s_metrics st) (s_stats st) ->
  metrics_agree (s_metrics (flush p st)) (s_stats (flush p st)).
Proof.
  intros [A1 A2 A3 A4 A5]. unfold flush. destruct (s_batch st) as [|m b] eqn:Eb; [done|].
  pose proof (fun s => publish_quiet (s_prod st) (m :: b) s) as Hq.
  destruct (Publish (s_prod st) (m :: b)) as [[prod err] ms]; cbn [snd] in Hq.
  destruct err; [split_cmp|]; split; cbn [s_metrics s_stats];
    rewrite !counter_total_app, Hq by done; agree_lia.
Qed.

Lemma checkSequence_agree det ms s ev :
  let '(_, _, s', ms') := checkSequence p det s ev in
  metrics_agree ms s -> metrics_agree (ms ++ ms') s'.
Proof.
  unfold checkSequence. destruct (Observe det _ _) as [r d].
  destruct (r_Status r); intros [A1 A2 A3 A4 A5]; try destruct (0 <? r_Missing r);
    split; cbn; rewrite counter_total_app; agree_lia.
Qed.

Lemma on_event_agree (st st' : state P) ev :
  metrics_agree (s_metrics st) (s_stats st) -> on_event p ctx ev st = Ok st' ->
  metrics_agree (s_metrics st') (s_stats st').
Proof.
  intros Ha Hev. unfold on_event in Hev.
  assert (metrics_agree (s_metrics st ++ [MInc EventsReceived [ev_Venue ev; ev_Kind ev]])
            (count_received (s_stats st))) as HA.
  { destruct Ha as [A1 A2 A3 A4 A5]. split; rewrite counter_total_app; agree_lia. }
  pose proof (checkSequence_agree (s_det st) (s_metrics st ++ [MInc EventsReceived [ev_Venue ev; ev_Kind ev]])
                (count_received (s_stats st)) ev) as HB.
  destruct (checkSequence p (s_det st) (count_received (s_stats st)) ev)
    as [[[dr d] stats] m2].
  specialize (HB HA). rewrite <- (assoc_L (++)) in HB. cbn [app] in HB.
  set (ms0 := s_metrics st ++ _ :: m2) in *. clearbody ms0. destruct dr.
  { by injection Hev as <-. }
  destruct (frame p ctx ev) as [[msg m3]|e|] eqn:Ef; [| |done].
  - injection Hev as <-. set (st1 := mkState _ _ _ _ _).
    assert (metrics_agree (s_metrics st1) (s_stats st1)) as HC.
    { destruct HB as [A1 A2 A3 A4 A5]. unfold frame in Ef.
      apply bind_Ok in Ef as (enc & _ & Ef). apply bind_Ok in Ef as (topic & _ & Ef).
      destruct (payload_is_nil _); [done|]. apply bind_Ok in Ef as (v & _ & Ef).
      apply bind_Ok in Ef as ([t1 t2] & _ & [= <- <-]).
      split; cbn [s_metrics s_stats st1]; rewrite !counter_total_app, counter_total_lag;
        agree_lia. }
    destruct (_ <=? _); [by apply flush_agree|done].
  - injection Hev as <-. destruct HB as [A1 A2 A3 A4 A5].
    split; cbn [s_metrics s_stats]; rewrite counter_total_app; agree_lia.
Qed.

Lemma loop_agree ins : forall (st st' : state P),
  metrics_agree (s_metrics st) (s_stats st) -> loop p ctx ins st = Ok (inl st') ->
  metrics_agree (s_metrics st') (s_stats st').
Proof.
  induction ins as [|i ins IH]; intros st st' Ha Hrun; cbn in Hrun; [by injection Hrun as <-|].
  destruct i as [ev| | |]; try done.
  - apply bind_Ok in Hrun as (st1 & Hev & Hrun). eauto using on_event_agree.
  - eauto using flush_agree.
Qed.
End agreement.

Lemma frame_wf_no_panic `{AvroLib, Otel} (p : Pipeline) ctx ev :
  event_wf ev -> (forall s v, avro_Marshal s v <> Panic) -> frame p ctx ev <> Panic.
Proof.
  intros Hwf Hm. unfold frame.
  destruct (p_Encoders p !! ev_Kind ev) as [enc|]; cbn; [|done].
  destruct (p_Topics p !! ev_Kind ev) as [topic|]; cbn; [|done].
  destruct (payload_is_nil (Payload ev)); [done|].
  unfold Encode. specialize (Hm (e_schema enc) (Payload ev)).
  destruct (avro_Marshal (e_schema enc) (Payload ev)); cbn; [|done..].
  unfold timestamps, event_wf in *.
  destruct (ev_Trade ev), (ev_Book ev), (ev_Chain ev); try done; by destruct Hwf as (-> & _).
Qed.

(** A well-formed event whose kind has an encoder and a topic is framed, unless the
    Avro library refuses its record. *)
Lemma frame_encoder `{AvroLib, Otel} (p : Pipeline) ctx ev id schemaJSON enc topic :
  event_wf ev -> NewEncoder id schemaJSON = Ok enc ->
  p_Encoders p !! ev_Kind ev = Some enc -> p_Topics p !! ev_Kind ev = Some topic ->
  exists sch, avro_Parse schemaJSON = Ok sch
    /\ match avro_Marshal sch (Payload ev) with
       | Ok body =>
           exists m ms, frame p ctx ev = Ok (m, ms) /\ m_Topic m = topic
             /\ m_Key m = ev_Symbol ev
             /\ m_Value m = MagicByte :: PutUint32 (uwrap32 id) ++ body
       | Err e => frame p ctx ev = Err (EWrap "avro marshal" e)
       | Panic => frame p ctx ev = Panic
       end.
Proof.
  intros Hwf Henc Hp Ht. apply bind_Ok in Henc as (sch & Hsch%wrap_err_Ok & [= <-]).
  exists sch. split; [done|]. unfold frame. rewrite Hp, Ht. cbn [of_option mbind res_bind].
  pose proof (event_wf_payload ev Hwf) as Hpl. destruct (Payload ev) eqn:E; [done| | |];
    unfold Encode; cbn [payload_is_nil e_schema e_header];
    (destruct (avro_Marshal sch _) as [body|e|]; cbn [mbind res_bind wrap_err]; [|done..]);
    unfold timestamps, event_wf in *;
    destruct (ev_Trade ev), (ev_Book ev), (ev_Chain ev); try done; destruct Hwf as (-> & _);
    do 2 eexists; done.
Qed.

Lemma on_event_total `{AvroLib, Otel} {P} `{Producer P} (p : Pipeline) ctx ev (st : state P) :
  event_wf ev -> (forall s v, avro_Marshal s v <> Panic) -> exists st', on_event p ctx ev st = Ok st'.
Proof.
  intros Hwf Hm. unfold on_event.
  destruct (checkSequence p (s_det st) (count_received (s_stats st)) ev) as [[[[] d] stats] m2]; [eauto|].
  pose proof (frame_wf_no_panic p ctx ev Hwf Hm). destruct (frame p ctx ev) as [[]| |]; [eauto|eauto|done].
Qed.

(** ** Properties *)

(** C24. Delivery through an unreliable producer: while a run goes on, what the
    producer has acknowledged followed by what is retained is an ordered
    selection of the framed messages, each at most once, that leaves out exactly
    [Dropped] of them; with nothing dropped it is all of them, in order. *)
Theorem pipeline_delivery `{AvroLib, Otel} {P} `{AtomicProducer P} (p : Pipeline) det (prod : P)
    ctx ins st :
  Run p det prod ctx ins = Ok (inl st) ->
  let F := framed (with_defaults p) ctx (default New det) ins in
  exists published,
    plog (s_prod st) = plog prod ++ published
    /\ st_Published (s_stats st) = Z.of_nat (length published)
    /\ published ++ s_batch st `sublist_of` F
    /\ Z.of_nat (length F) = Z.of_nat (length (published ++ s_batch st)) + st_Dropped (s_stats st)
    /\ (st_Dropped (s_stats st) = 0 -> published ++ s_batch st = F).
Proof.
  intros (_ & pub & Hinv)%Run_inv F. exists pub. destruct Hinv as [Hlog Hpub Hd Hord Hlen _ _].
  rewrite length_app. split_and!; [done|done|done|subst F; lia|].
  intros Hz. apply sublist_same_length; [done|]. rewrite length_app. subst F. lia.
Qed.

(** C25. No silent loss: an outage that the retry buffer can hold drops nothing,
    whatever the producer answers and whenever it recovers. *)
Theorem pipeline_no_loss `{AvroLib, Otel} {P} `{AtomicProducer P} (p : Pipeline) det (prod : P)
    ctx ins st :
  Run p det prod ctx ins = Ok (inl st) ->
  Z.of_nat (length (framed (with_defaults p) ctx (default New det) ins))
    <= p_MaxPendingEvents (with_defaults p) ->
  st_Dropped (s_stats st) = 0
  /\ exists published, plog (s_prod st) = plog prod ++ published
     /\ published ++ s_batch st = framed (with_defaults p) ctx (default New det) ins.
Proof.
  intros (_ & pub & Hinv)%Run_inv Hle. destruct Hinv as [Hlog Hpub Hd Hord Hlen _ Hloss].
  assert (st_Dropped (s_stats st) = 0) as Hz.
  { destruct (Z.eq_dec (st_Dropped (s_stats st)) 0); [done|]. lia. }
  split; [done|]. exists pub. split; [done|].
  apply sublist_same_length; [done|]. rewrite length_app. lia.
Qed.

(** C26. Bounded retention: however long the broker is away, a run never holds
    more messages than the retry bound or one batch short of full. *)
Theorem pipeline_bounded `{AvroLib, Otel} {P} `{AtomicProducer P} (p : Pipeline) det (prod : P)
    ctx ins st :
  Run p det prod ctx ins = Ok (inl st) ->
  Z.of_nat (length (s_batch st))
    <= Z.max (p_BatchSize (with_defaults p) - 1) (p_MaxPendingEvents (with_defaults p)).
Proof. by intros [Hb _]%Run_inv. Qed.

(** C27. Conservation of events: every event received is counted once, as a
    suppressed duplicate, a dropped gap, an encoding error, a published message, a
    dropped message, or it is still retained; a run that returned leaves out
    nothing but the batch its last publish could not write. *)
Theorem pipeline_conservation `{AvroLib, Otel} {P} `{AtomicProducer P} (p : Pipeline) det (prod : P)
    ctx ins r :
  Run p det prod ctx ins = Ok r ->
  match r with
  | inl st =>
      st_Received (s_stats st) = rejected p (s_stats st) + st_Published (s_stats st)
        + st_Dropped (s_stats st) + Z.of_nat (length (s_batch st))
  | inr st =>
      exists unsent, (unsent = 0 \/ unsent = Z.of_nat (length (s_batch st)))
        /\ st_Received (s_stats st) = rejected p (s_stats st) + st_Published (s_stats st)
             + st_Dropped (s_stats st) + unsent
  end.
Proof.
  intros Hrun. destruct r as [st|st].
  - apply Run_inv in Hrun as (_ & pub & Hinv). destruct Hinv as [_ Hp _ _ Hl Hr _].
    change (rejected (with_defaults p)) with (rejected p) in Hr. lia.
  - apply Run_returned_inv in Hrun as (F & pub & st1 & Hinv & [->| ->]).
    + destruct (with_defaults_pos p) as [Hbs Hmp].
      destruct (flush_inv (with_defaults p) (plog prod) Hmp F st1 pub Hinv)
        as (pub' & [_ Hp _ _ Hl Hr _]).
      change (rejected (with_defaults p)) with (rejected p) in Hr. eexists. split; [by right|]. lia.
    + destruct Hinv as [_ Hp _ _ Hl Hr _]. change (rejected (with_defaults p)) with (rejected p) in Hr.
      unfold final_flush. destruct (Publish _ _) as [[prod' [e|]] ms]; cbn [s_stats s_batch].
      * exists (Z.of_nat (length (s_batch st1))). split; [by right|].
        destruct (Nat.ltb_spec 0 (length (s_batch st1))).
        -- lia.
        -- unfold rejected in *. cbn. lia.
      * exists 0. split; [by left|]. unfold rejected in *. cbn. lia.
Qed.

(** The exported counters are the statistics: events received, duplicates
    suppressed, gaps, encoding errors and dropped events each count the same in
    Prometheus as in [Stats], over any run and any producer outcome. *)
Theorem pipeline_metrics `{AvroLib, Otel} {P} `{QuietProducer P} (p : Pipeline) det (prod : P)
    ctx ins st :
  Run p det prod ctx ins = Ok (inl st) -> metrics_agree (s_metrics st) (s_stats st).
Proof. intros Hrun. eapply loop_agree; [|exact Hrun]. by split. Qed.

(** Framing a well-formed event never panics: the only failures are an
    unknown kind and the Avro library's. *)
Theorem frame_no_panic `{AvroLib, Otel} (p : Pipeline) ctx ev :
  event_wf ev -> (forall s v, avro_Marshal s v <> Panic) -> frame p ctx ev <> Panic.
Proof. apply frame_wf_no_panic. Qed.

(** The check for a missing payload does not see a nil record: an event of a
    known kind whose pointer is nil passes it, so framing fails only if the Avro
    library refuses the nil pointer, and dereferences it otherwise. *)
Theorem nil_record_passes_check `{AvroLib, Otel} (p : Pipeline) ctx venue symbol seq kind enc topic b :
  kind ∈ [KindTrade; KindBookDelta; KindChainTransfer] ->
  p_Encoders p !! kind = Some enc -> p_Topics p !! kind = Some topic ->
  avro_Marshal (e_schema enc) (Payload (mkEvent kind venue symbol seq None None None)) = Ok b ->
  let ev := mkEvent kind venue symbol seq None None None in
  payload_present (Payload ev) = false /\ payload_is_nil (Payload ev) = false
  /\ frame p ctx ev = Panic.
Proof.
  intros Hk Henc Htop Hb ev.
  assert (timestamps ev = Panic /\ payload_is_nil (Payload ev) = false
          /\ payload_present (Payload ev) = false) as (Ht & Hn & Hp).
  { subst ev. clear Hb. rewrite !elem_of_cons in Hk.
    destruct Hk as [->|[->|[->|Hk]]]; [done..|by apply elem_of_nil in Hk]. }
  split_and!; [done|done|]. unfold frame, Encode.
  change (ev_Kind ev) with kind. rewrite Henc, Htop. cbn [of_option mbind res_bind].
  fold ev in Hb. rewrite Hn, Hb. cbn. by rewrite Ht.
Qed.

(** ** A concrete pipeline: two trades of a duplicate pair and a failing broker *)

#[local] Existing Instance toy_avro.
#[local] Existing Instance no_otel.

Definition ex_ctx : @context no_otel := tt.
Definition ex_encoder : Encoder := mkEncoder 7 "trade" (MagicByte :: PutUint32 7).
Definition ex_pipeline : Pipeline :=
  mkPipeline {[KindTrade := ex_encoder]} {[KindTrade := "md.trades.v1"]} 2 0 None false 3 ∅.
Definition ex_event (symbol : string) (seq : Z) : Event :=
  mkEvent KindTrade "kraken" symbol seq
    (Some (mkTrade "kraken" symbol "1" f64_zero f64_zero SideBuy 0 0 seq)) None None.
Definition ex_inputs : list input :=
  [InEvent (ex_event "BTC-USD" 1); InEvent (ex_event "BTC-USD" 2);
   InEvent (ex_event "BTC-USD" 2); InEvent (ex_event "BTC-USD" 5); InTick].
Definition ex_producer : ScriptedProducer :=
  mkScripted [] [Some (EMsg "broker down"); Some (EMsg "broker down")].
Definition ex_state : state ScriptedProducer :=
  match Run ex_pipeline None ex_producer ex_ctx ex_inputs with
  | Ok (inl st) => st
  | _ => initial None ex_producer
  end.

Lemma ex_run : Run ex_pipeline None ex_producer ex_ctx ex_inputs = Ok (inl ex_state).
Proof. vm_compute. reflexivity. Qed.

Lemma pipeline_delivery_witness :
  exists published,
    plog (s_prod ex_state) = plog ex_producer ++ published
    /\ st_Published (s_stats ex_state) = Z.of_nat (length published)
    /\ published ++ s_batch ex_state
       `sublist_of` framed (with_defaults ex_pipeline) ex_ctx New ex_inputs
    /\ Z.of_nat (length (framed (with_defaults ex_pipeline) ex_ctx New ex_inputs))
       = Z.of_nat (length (published ++ s_batch ex_state)) + st_Dropped (s_stats ex_state)
    /\ (st_Dropped (s_stats ex_state) = 0 ->
        published ++ s_batch ex_state = framed (with_defaults ex_pipeline) ex_ctx New ex_inputs).
Proof. exact (pipeline_delivery ex_pipeline None ex_producer ex_ctx ex_inputs ex_state ex_run). Defined.

Lemma pipeline_no_loss_witness :
  st_Dropped (s_stats ex_state) = 0
  /\ exists published, plog (s_prod ex_state) = plog ex_producer ++ published
     /\ published ++ s_batch ex_state = framed (with_defaults ex_pipeline) ex_ctx New ex_inputs.
Proof.
  apply (pipeline_no_loss ex_pipeline None ex_producer ex_ctx ex_inputs ex_state ex_run).
  vm_compute. congruence.
Defined.

Lemma pipeline_bounded_witness : Z.of_nat (length (s_batch ex_state)) <= Z.max (2 - 1) 3.
Proof. exact (pipeline_bounded ex_pipeline None ex_producer ex_ctx ex_inputs ex_state ex_run). Defined.

Lemma pipeline_conservation_witness :
  st_Received (s_stats ex_state)
  = rejected ex_pipeline (s_stats ex_state) + st_Published (s_stats ex_state)
    + st_Dropped (s_stats ex_state) + Z.of_nat (length (s_batch ex_state)).
Proof.
  exact (pipeline_conservation ex_pipeline None ex_producer ex_ctx ex_inputs (inl ex_state) ex_run).
Defined.

Lemma pipeline_metrics_witness : metrics_agree (s_metrics ex_state) (s_stats ex_state).
Proof. exact (pipeline_metrics ex_pipeline None ex_producer ex_ctx ex_inputs ex_state ex_run). Defined.

Lemma frame_no_panic_witness : frame ex_pipeline ex_ctx (ex_event "BTC-USD" 1) <> Panic.
Proof.
  apply frame_no_panic; [by vm_compute|].
  intros s v. cbn. by destruct v as [|[]|[]|[]].
Defined.

Definition lenient_avro : AvroLib := {|
  avro_schema := string; avro_value := list byte; avro_Parse s := Ok s;
  avro_Marshal _ _ := Ok []; avro_Unmarshal _ b := Ok b; avro_Resolve r _ := Ok r;
  avro_Compatible _ _ := None |}.

Definition lenient_encoder : @Encoder lenient_avro := @mkEncoder lenient_avro 7 "trade" [].
Definition lenient_pipeline : @Pipeline lenient_avro :=
  @mkPipeline lenient_avro {[KindTrade := lenient_encoder]} {[KindTrade := "md.trades.v1"]}
    2 0 None false 3 ∅.

Lemma nil_record_passes_check_witness :
  let ev := mkEvent KindTrade "kraken" "BTC-USD" 1 None None None in
  payload_present (Payload ev) = false /\ payload_is_nil (Payload ev) = false
  /\ @frame lenient_avro no_otel lenient_pipeline ex_ctx ev = Panic.
Proof.
  apply (@nil_record_passes_check lenient_avro no_otel lenient_pipeline ex_ctx
           "kraken" "BTC-USD" 1 KindTrade lenient_encoder "md.trades.v1" []);
    [left|reflexivity..].
Defined.
