(* ===== verification/Delivery.v ===== *)
(** * At-least-once delivery to Kafka

    The delivery theorems of Pipeline.v are about what a producer acknowledged. A
    broker writes more than that: messages of a publish that failed, which the pipeline
    publishes again; the messages of one publish several times, since kafka-go's writer
    makes up to [MaxAttempts] attempts of its own and is not idempotent; and an attempt
    that was given up may still be written later. Here the producer has a log per topic
    and key ([KeyedLog], of the records [R] the messages become). Of a publish it is only
    known that it appends records it was given, then or before, and, if it was
    acknowledged, each of its own at least once and in order. [KafkaProducer]
    (internal/sink/kafka.go) is an instance if the writer keeps that much
    ([KafkaBroker]).

    The proof adds a ghost log of the acknowledged messages to any producer
    ([Ghost]), which makes it one of the producers of Pipeline.v without changing
    the run. *)

From S2P Require Import Prelude.
From S2P Require Import GoStrings.
From S2P Require Import GoStrconv.
From S2P Require Import Model.
From S2P Require Import Gap.
From S2P Require Import Encode.
From S2P Require Import Metrics.
From S2P Require Import Tracing.
From S2P Require Import Sink.
From S2P Require Import Pipeline.

Local Open Scope Z_scope.

Definition for_key (topic key : string) (m : Message) : bool :=
  String.eqb (m_Topic m) topic && String.eqb (m_Key m) key.
Definition keyed (topic key : string) (msgs : list Message) : list Message :=
  List.filter (for_key topic key) msgs.

Class KeyedLog (P R : Type) `{Producer P} := {
  render : Message -> R;
  klog : P -> string -> string -> list R;
  given : P -> string -> string -> list R;
  given_publish : forall p msgs p' r ms t k,
    Publish p msgs = (p', r, ms) -> given p' t k = given p t k ++ map render (keyed t k msgs);
  klog_publish : forall p msgs p' r ms t k,
    Publish p msgs = (p', r, ms) ->
    exists part, klog p' t k = klog p t k ++ part
      /\ Forall (fun x => x ∈ given p' t k) part
      /\ (r = None -> map render (keyed t k msgs) `sublist_of` part);
}.

(** kafka-go's writer: the hash balancer sends a key to one partition, where the batches
    of its messages are tried one after the other, each until it is acknowledged or given
    up. No error says that every message was acknowledged by the broker at least once; an
    error says nothing of which were. [offered] is what the writer was ever given. *)
Definition kafka_for_key (topic key : string) (m : KafkaMessage) : bool :=
  String.eqb (km_Topic m) topic && String.eqb (km_Key m) key.
Class KafkaBroker `{KafkaLib} := {
  partition_log : kafka_Writer -> string -> string -> list KafkaMessage;
  offered : kafka_Writer -> list KafkaMessage;
  offered_write : forall w kms w' r x,
    WriteMessages w kms = (w', r, x) -> offered w' = offered w ++ kms;
  write_appends : forall w kms w' r x t k,
    WriteMessages w kms = (w', r, x) ->
    exists part, partition_log w' t k = partition_log w t k ++ part
      /\ Forall (fun m => m ∈ List.filter (kafka_for_key t k) (offered w')) part
      /\ (r = None -> List.filter (kafka_for_key t k) kms `sublist_of` part);
}.

(** ** Lemmas *)

Lemma keyed_app t k a b : keyed t k (a ++ b) = keyed t k a ++ keyed t k b.
Proof. apply List.filter_app. Qed.

Lemma sublist_filter {A} (f : A -> bool) l l' :
  l `sublist_of` l' -> List.filter f l `sublist_of` List.filter f l'.
Proof.
  induction 1 as [|x l l' Hs IH|x l l' Hs IH]; cbn; [constructor| |]; destruct (f x);
    by try constructor.
Qed.

Lemma sublist_forall {A} (Q : A -> Prop) l l' : l `sublist_of` l' -> Forall Q l' -> Forall Q l.
Proof.
  induction 1 as [|x l l' Hs IH|x l l' Hs IH]; [done| |]; intros [Hx Hf]%Forall_cons_1; [|auto].
  apply List.Forall_cons; auto.
Qed.

Lemma kafka_keyed t k msgs :
  List.filter (kafka_for_key t k) (map kafka_message msgs) = map kafka_message (keyed t k msgs).
Proof.
  induction msgs as [|m msgs IH]; cbn; [done|].
  change (kafka_for_key t k (kafka_message m)) with (for_key t k m).
  destruct (for_key t k m); cbn; by rewrite IH.
Qed.

#[export] Instance KafkaProducer_KeyedLog `{KafkaBroker} : KeyedLog KafkaProducer KafkaMessage.
Proof.
  refine {| render := kafka_message; klog := fun p => partition_log (kp_w p);
            given := fun p t k => List.filter (kafka_for_key t k) (offered (kp_w p)) |}.
  - intros p msgs p' r ms t k. cbn. unfold KafkaProducer_Publish. destruct msgs as [|m msgs].
    { intros [= <- _ _]. cbn. by rewrite app_nil_r. }
    destruct (WriteMessages _ _) as [[w err] x] eqn:E. intros [= <- _ _]. cbn [kp_w].
    by rewrite (offered_write _ _ _ _ _ E), List.filter_app, kafka_keyed.
  - intros p msgs p' r ms t k. cbn. unfold KafkaProducer_Publish. destruct msgs as [|m msgs].
    { intros [= <- _ _]. exists []. rewrite app_nil_r. split_and!; [done|constructor|intros _; constructor]. }
    destruct (WriteMessages _ _) as [[w err] x] eqn:E. intros [= <- -> _]. cbn [kp_w].
    destruct (write_appends _ _ _ _ _ t k E) as (part & Hl & Hf & Hs). exists part.
    by rewrite kafka_keyed in Hs.
Defined.

(** A producer with the log of what it acknowledged. *)
Definition Ghost (P : Type) : Type := P * list Message.
Definition ghost_publish {P} `{Producer P} (g : Ghost P) (msgs : list Message)
    : Ghost P * option error * list metric :=
  let '(p', err, ms) := Publish g.1 msgs in
  ((p', match err with None => g.2 ++ msgs | Some _ => g.2 end), err, ms).
#[local] Instance ghost_producer {P} `{Producer P} : Producer (Ghost P) := {|
  Publish := ghost_publish;
  Close := fun g => let '(p', err) := Close g.1 in ((p', g.2), err) |}.
#[local] Instance ghost_atomic {P} `{Producer P} : AtomicProducer (Ghost P).
Proof.
  refine {| plog := snd |}; intros [p l] msgs [p' l'] *; cbn; unfold ghost_publish; cbn;
    destruct (Publish p msgs) as [[p2 err] ms2]; by intros [= <- <- -> _].
Defined.

Section simulation.
Context `{AvroLib, Otel} {P : Type} `{Producer P}.
Context (p : Pipeline) (ctx : context).

(** Forgetting the ghost log commutes with the pipeline. *)
Definition strip (st : state (Ghost P)) : state P :=
  mkState (s_det st) (s_prod st).1 (s_batch st) (s_stats st) (s_metrics st).

Lemma strip_flush st : flush p (strip st) = strip (flush p st).
Proof.
  unfold flush. cbn. destruct (s_batch st) as [|m b] eqn:E; [done|].
  unfold ghost_publish. destruct (Publish (s_prod st).1 (m :: b)) as [[p' [err|]] ms]; [|done].
  by destruct (0 <? _).
Qed.

Lemma strip_on_event ev st : on_event p ctx ev (strip st) = strip <$> on_event p ctx ev st.
Proof.
  unfold on_event. cbn [s_stats s_det s_metrics s_prod s_batch strip].
  destruct (checkSequence p (s_det st) _ ev) as [[[[] d] stats] m2]; [done|].
  destruct (frame p ctx ev) as [[msg m3]|e|]; [|done..]. cbn.
  destruct (p_BatchSize p <=? _); [|done]. by rewrite <- strip_flush.
Qed.

Definition strip_result (r : state (Ghost P) + state (Ghost P)) : state P + state P :=
  match r with inl st => inl (strip st) | inr st => inr (strip st) end.

Lemma strip_loop ins : forall st, loop p ctx ins (strip st) = strip_result <$> loop p ctx ins st.
Proof.
  induction ins as [|i ins IH]; intros st; [done|]. destruct i as [ev| | |]; cbn [loop].
  - rewrite strip_on_event. destruct (on_event p ctx ev st) as [st1| |]; cbn; [apply IH|done..].
  - by rewrite strip_flush.
  - by rewrite strip_flush, IH.
  - unfold final_flush. cbn. unfold ghost_publish. by destruct (Publish _ _) as [[p' err] ms].
Qed.
End simulation.

Section log.
Context `{AvroLib, Otel} {P R : Type} `{KeyedLog P R}.
Context (p : Pipeline) (ctx : context) (log0 given0 : string -> string -> list R).

(** The records of the messages [F], or given before. *)
Definition known (F : list Message) (t k : string) (x : R) : Prop :=
  x ∈ given0 t k ++ map render (keyed t k F).

(** What the logs have gained ([l]) holds the acknowledged messages of the key in
    order, and only records of [F] or given before. *)
Record log_inv (F : list Message) (st : state (Ghost P)) : Prop := mkLogInv {
  li_batch : Forall (fun m => m ∈ F) (s_batch st);
  li_given : forall t k, Forall (known F t k) (given (s_prod st).1 t k);
  li_log : forall t k, exists l,
    klog (s_prod st).1 t k = log0 t k ++ l
    /\ map render (keyed t k (s_prod st).2) `sublist_of` l
    /\ Forall (known F t k) l }.

Lemma known_grow F F' t k l : Forall (known F t k) l -> Forall (known (F ++ F') t k) l.
Proof.
  intros Hl. eapply Forall_impl; [exact Hl|]. unfold known. intros x Hx.
  rewrite keyed_app, map_app, (assoc_L (++)). apply elem_of_app. by left.
Qed.

Lemma log_inv_grow F F' st : log_inv F st -> log_inv (F ++ F') st.
Proof.
  intros [Hb Hg Hl]. split.
  - eapply Forall_impl; [exact Hb|]. intros m Hm. apply elem_of_app. by left.
  - intros t k. by apply known_grow.
  - intros t k. destruct (Hl t k) as (l & ? & ? & ?). exists l. split_and!; [done..|]. by apply known_grow.
Qed.

Lemma known_batch F t k msgs :
  Forall (fun m => m ∈ F) msgs -> Forall (known F t k) (map render (keyed t k msgs)).
Proof.
  intros Hm. apply List.Forall_forall. intros x (m & <- & Hin)%in_map_iff.
  apply filter_In in Hin as [Hin Hk]. pose proof (proj1 (List.Forall_forall _ _) Hm m Hin) as HF.
  unfold known. apply elem_of_app. right. apply list_elem_of_In, in_map, filter_In.
  split; [by apply list_elem_of_In|done].
Qed.

(** One publish, acknowledged or not. *)
Lemma publish_known F st msgs p' err ms :
  log_inv F st -> Forall (fun m => m ∈ F) msgs -> Publish (s_prod st).1 msgs = (p', err, ms) ->
  (forall t k, Forall (known F t k) (given p' t k))
  /\ forall t k, exists l,
    klog p' t k = log0 t k ++ l
    /\ map render (keyed t k (s_prod st).2 ++ match err with None => keyed t k msgs | Some _ => [] end) `sublist_of` l
    /\ Forall (known F t k) l.
Proof.
  intros [_ Hg Hl] Hm EP.
  assert (forall t k, Forall (known F t k) (given p' t k)) as Hg'.
  { intros t k. rewrite (given_publish _ _ _ _ _ t k EP). apply Forall_app. split; [done|]. by apply known_batch. }
  split; [exact Hg'|]. intros t k. destruct (Hl t k) as (l & Hk & Hs & Hf).
  destruct (klog_publish _ _ _ _ _ t k EP) as (part & Hk' & Hpart & Hok). exists (l ++ part).
  rewrite Hk', Hk, (assoc_L (++)). split; [done|]. split.
  - rewrite map_app. apply sublist_app; [done|]. destruct err; [apply sublist_nil_l|by apply Hok].
  - apply Forall_app. split; [done|]. eapply Forall_impl; [exact Hpart|]. intros x Hx.
    apply list_elem_of_In in Hx. exact (proj1 (List.Forall_forall _ _) (Hg' t k) x Hx).
Qed.

Lemma flush_log F st : log_inv F st -> log_inv F (flush p st).
Proof.
  intros Hinv. pose proof (li_batch _ _ Hinv) as Hb. unfold flush.
  destruct (s_batch st) as [|m0 b] eqn:Eb; [done|].
  set (batch := m0 :: b) in *. cbn [Publish ghost_producer]. unfold ghost_publish.
  destruct (Publish (s_prod st).1 batch) as [[p' err] ms] eqn:EP.
  destruct (publish_known F st batch p' err ms Hinv Hb EP) as [Hg Hl]. destruct err as [err|].
  - assert (forall t k, exists l, klog p' t k = log0 t k ++ l
      /\ map render (keyed t k (s_prod st).2) `sublist_of` l /\ Forall (known F t k) l) as Hl'.
    { intros t k. specialize (Hl t k). by rewrite app_nil_r in Hl. }
    destruct (0 <? _); split; cbn [s_batch s_prod fst snd]; try done.
    by eapply sublist_forall; [apply sublist_drop|].
  - split; cbn [s_batch s_prod fst snd]; [constructor|done|]. intros t k. rewrite keyed_app. apply Hl.
Qed.

Lemma on_event_log F st st' ev :
  log_inv F st -> on_event p ctx ev st = Ok st' ->
  log_inv (F ++ option_list (event_msg p ctx (s_det st) ev)) st'.
Proof.
  intros Hinv Hev. unfold on_event in Hev. unfold event_msg.
  destruct (checkSequence_stats p (s_det st) (count_received (s_stats st)) ev) as (f & E & _).
  rewrite E in Hev. cbn [fst snd] in Hev.
  destruct (checkSequence p (s_det st) zero_stats ev).1.1.1.
  { injection Hev as <-. cbn [option_list]. rewrite app_nil_r. by destruct Hinv. }
  destruct (frame p ctx ev) as [[msg m3]|e|]; [| |done]; cycle 1.
  { injection Hev as <-. cbn [option_list]. rewrite app_nil_r. by destruct Hinv. }
  injection Hev as <-. cbn [option_list]. set (st1 := mkState _ _ _ _ _).
  assert (log_inv (F ++ [msg]) st1) as Hst1.
  { apply (log_inv_grow F [msg]) in Hinv as [Hb Hg Hl]. split; [|exact Hg|exact Hl]. cbn [s_batch st1].
    apply Forall_app. split; [done|]. repeat constructor. apply elem_of_app. right. by left. }
  destruct (_ <=? _); [by apply flush_log|done].
Qed.

Lemma loop_log ins : forall F st st',
  log_inv F st -> loop p ctx ins st = Ok (inl st') -> log_inv (F ++ framed p ctx (s_det st) ins) st'.
Proof.
  induction ins as [|i ins IH]; intros F st st' Hinv Hrun; cbn [loop framed] in *.
  { injection Hrun as <-. by rewrite app_nil_r. }
  destruct i as [ev| | |]; try done.
  - apply bind_Ok in Hrun as (st1 & Hev & Hrun). rewrite (assoc_L (++)).
    pose proof (on_event_log _ _ _ _ Hinv Hev) as H1'. apply (IH _ _ _ H1') in Hrun.
    by rewrite (on_event_det p ctx ev st st1 Hev) in Hrun.
  - apply (IH _ _ _ (flush_log _ _ Hinv)) in Hrun. by rewrite flush_det in Hrun.
Qed.
End log.

(** ** Properties *)

(** C5. At least once: with a producer that may write messages of a publish that failed,
    any message several times, and some late, every framed message but the [Dropped] ones
    is in the log of its topic and symbol or still retained, the logged ones in the order
    of the events; a message may be there more than once, and no record is there whose
    message was not framed, or given to the producer before, for that topic and symbol. *)
Theorem pipeline_at_least_once `{AvroLib, Otel} {P R} `{KeyedLog P R} (p : Pipeline) det (prod : P)
    ctx ins st :
  Run p det prod ctx ins = Ok (inl st) ->
  let F := framed (with_defaults p) ctx (default New det) ins in
  exists acked,
    acked ++ s_batch st `sublist_of` F
    /\ Z.of_nat (length F) = Z.of_nat (length (acked ++ s_batch st)) + st_Dropped (s_stats st)
    /\ forall t k, exists written,
         klog (s_prod st) t k = klog prod t k ++ written
         /\ map render (keyed t k acked) `sublist_of` written
         /\ Forall (fun x => x ∈ given prod t k ++ map render (keyed t k F)) written.
Proof.
  intros Hrun F. unfold Run in Hrun.
  change (initial det prod) with (strip (initial det ((prod, []) : Ghost P))) in Hrun.
  rewrite strip_loop in Hrun.
  destruct (loop (with_defaults p) ctx ins (initial det ((prod, []) : Ghost P))) as [[g|g]| |] eqn:Hg;
    try done. injection Hrun as <-.
  destruct (Run_inv p det ((prod, []) : Ghost P) ctx ins g Hg) as (_ & pub & Hinv).
  destruct Hinv as [Hlog _ _ Hord Hlen _ _]. cbn in Hlog. fold F in Hord, Hlen.
  assert (log_inv (klog prod) (given prod) [] (initial det ((prod, []) : Ghost P))) as H0'.
  { split; [constructor| |].
    - intros t k. apply Forall_forall. intros x Hx. unfold known. cbn. by rewrite app_nil_r.
    - intros t k. exists []. rewrite app_nil_r. split_and!; [done|constructor|constructor]. }
  destruct (loop_log (with_defaults p) ctx (klog prod) (given prod) ins [] _ g H0' Hg) as [_ _ Hl].
  exists pub. cbn [strip s_batch s_stats s_prod]. rewrite length_app. split; [done|]. split; [lia|].
  intros t k. destruct (Hl t k) as (l & Hk & Hs & Hf). exists l. rewrite <- Hlog. by split_and!.
Qed.

#[local] Existing Instance toy_avro.
#[local] Existing Instance no_otel.

(** A writer that fails as often as it is told to; the first message it was ever given
    arrives again with each write that does not fail, and that write is made twice. *)
Record flaky_writer := mkFlaky {
  fl_log : list KafkaMessage; fl_given : list KafkaMessage; fl_fails : nat }.
Definition flaky_write (w : flaky_writer) (kms : list KafkaMessage) : flaky_writer * option error * float64 :=
  match fl_fails w with
  | S n => (mkFlaky (fl_log w) (fl_given w ++ kms) n, Some (EMsg "leader not available"), f64_zero)
  | O => (mkFlaky (fl_log w ++ take 1 (fl_given w) ++ kms ++ kms) (fl_given w ++ kms) O, None, f64_zero)
  end.
Definition flaky_kafka : KafkaLib := {|
  kafka_Writer := flaky_writer; new_Writer := fun _ => mkFlaky [] [] O;
  WriteMessages := flaky_write; Writer_Close := fun w => (w, None) |}.
#[local] Existing Instance flaky_kafka.

#[local] Instance flaky_broker : KafkaBroker.
Proof.
  refine {| partition_log := fun (w : @kafka_Writer flaky_kafka) t k => List.filter (kafka_for_key t k) (fl_log w);
            offered := fun (w : @kafka_Writer flaky_kafka) => fl_given w |}.
  - intros [log g [|n]] kms w' r x; cbn; by intros [= <- _ _].
  - intros [log g [|n]] kms w' r x t k; cbn; intros [= <- <- _]; cbn [fl_log fl_given].
    + eexists. rewrite List.filter_app. split; [reflexivity|]. rewrite !List.filter_app. split.
      * rewrite <- !List.filter_app. apply List.Forall_forall. intros m [Hm Hk]%filter_In.
        apply list_elem_of_In, filter_In. split; [|done]. rewrite !in_app_iff in *.
        destruct Hm as [Hm|Hm]; [|tauto]. left. rewrite <- (firstn_skipn 1 g). apply in_app_iff. by left.
      * intros _. apply sublist_inserts_l, sublist_inserts_r. done.
    + exists []. rewrite app_nil_r. split_and!; [done|constructor|done].
Defined.

Definition flaky_producer : KafkaProducer := mkKafkaProducer (mkFlaky [] [] 1%nat).
Definition flaky_state : state KafkaProducer :=
  match Run ex_pipeline None flaky_producer ex_ctx ex_inputs with
  | Ok (inl st) => st
  | _ => initial None flaky_producer
  end.

Lemma pipeline_at_least_once_witness :
  length (klog (s_prod flaky_state) "md.trades.v1" "BTC-USD") = 7%nat
  /\ exists acked,
       acked ++ s_batch flaky_state `sublist_of` framed (with_defaults ex_pipeline) ex_ctx New ex_inputs
       /\ forall t k, exists written,
            klog (s_prod flaky_state) t k = klog flaky_producer t k ++ written
            /\ map kafka_message (keyed t k acked) `sublist_of` written.
Proof.
  split; [vm_compute; reflexivity|].
  assert (Run ex_pipeline None flaky_producer ex_ctx ex_inputs = Ok (inl flaky_state)) as Hrun
    by (vm_compute; reflexivity).
  destruct (pipeline_at_least_once ex_pipeline None flaky_producer ex_ctx ex_inputs flaky_state Hrun)
    as (acked & Hs & _ & Hk).
  exists acked. split; [exact Hs|]. intros t k. destruct (Hk t k) as (w & Hw & Hl & _).
  exists w. split; [exact Hw|exact Hl].
Defined.
