(* ===== verification/Venue.v ===== *)
(** * Package [internal/venue], [venue.go]: what the adapters share

    The interface of a decoder, the parsing helpers and the reconnect pacing.
    The runner of one connection is in [Runner]. A decoder that keeps state
    returns its new state next to its result. *)

From S2P Require Import Prelude.
From S2P Require Import GoStrings.
From S2P Require Import GoStrconv.
From S2P Require Import Rounding.
From S2P Require Import GoTime.
From S2P Require Import Model.

Local Open Scope Z_scope.

Definition ChannelTrades : string := "trades".
Definition ChannelBook : string := "book".

(** The interface [Decoder] of a type [D] of adapters, whose subscription
    messages are of type [M]. *)
Class Decoder (D M : Type) := {
  dec_Name : D -> string;
  dec_URL : D -> string;
  dec_Subscriptions : D -> list string -> list M * D;
  dec_Decode : D -> string -> time -> res (list Event) * D;
}.

(** What every decoder promises its runner and the pipeline: decoding is total and
    never panics, the events of a frame are well formed and carry the decoder's
    name as their venue, and the name never changes. *)
Definition events_ok (venue : string) (evs : list Event) : Prop :=
  Forall (fun e => ev_Venue e = venue /\ event_wf e) evs.

Class LawfulDecoder (D M : Type) `{Decoder D M} := {
  decode_no_panic : forall d raw now, (dec_Decode d raw now).1 <> Panic;
  decode_events_ok : forall d raw now evs,
    (dec_Decode d raw now).1 = Ok evs -> events_ok (dec_Name d) evs;
  decode_name : forall d raw now, dec_Name (dec_Decode d raw now).2 = dec_Name d;
  subscriptions_name : forall d syms, dec_Name (dec_Subscriptions d syms).2 = dec_Name d;
}.

(** ** Parsing helpers *)

(** The value and the error, both returned by the Go function. *)
Definition parseFloat (s : string) : float64 * option num_error :=
  if String.eqb s "" then (f64_zero, None) else ParseFloat s.

Definition mustFloat (s : string) : float64 := fst (parseFloat s).

(** [if err != nil { return nil, fmt.Errorf("ctx: %w", err) }] *)
Definition parse_num_error (e : num_error) : error :=
  match e with
  | ErrSyntax => ESentinel "strconv.ErrSyntax"
  | ErrRange => ESentinel "strconv.ErrRange"
  end.
Definition parseFloat_res (ctx s : string) : res float64 :=
  match parseFloat s with
  | (f, None) => Ok f
  | (_, Some e) => Err (EWrap ctx (parse_num_error e))
  end.

Definition parseRFC3339Micros (s : string) (fallback : time) : Z :=
  if String.eqb s "" then UnixMicro fallback
  else match ParseRFC3339Nano s with
       | None => UnixMicro fallback
       | Some t => UnixMicro t
       end.

Definition canonicalPair `{UnicodeMap} (s : string) : string :=
  let s := ToUpper (TrimSpace s) in
  let s := replace_char "/" "-" s in
  let s := replace_char "_" "-" s in
  s.

(** ** Backoff *)

Record Backoff := mkBackoff {
  bo_Base : duration; bo_Max : duration; bo_Factor : float64; bo_Jitter : float64 }.

Definition DefaultBackoff : Backoff :=
  mkBackoff (500 * millisecond) (30 * second) (f64_of_Z 2) (f64 "0.3").

(** [math.Pow(x, y)] for an integer [y >= 0]: squaring on the mantissa and the
    exponent of [x], which stops when the exponent leaves [-4096, 4096]. A step
    halves [i < 2^63], so 63 steps are enough ([pow_loop_fuel]). *)
Fixpoint pow_loop (fuel : nat) (i : Z) (a1 : float64) (ae : Z) (x1 : float64) (xe : Z)
    : float64 * Z :=
  match fuel with
  | O => (a1, ae)
  | S f =>
      if i =? 0 then (a1, ae)
      else if (xe <? -4096) || (4096 <? xe) then (a1, ae + xe)
      else
        let '(a1, ae) := if Z.odd i then (f64_mul a1 x1, ae + xe) else (a1, ae) in
        let x1 := f64_mul x1 x1 in
        let xe := 2 * xe in
        let '(x1, xe) := if f64_lt x1 (f64 "0.5") then (f64_add x1 x1, xe - 1) else (x1, xe) in
        pow_loop f (Z.div2 i) a1 ae x1 xe
  end.
Definition math_Pow (x : float64) (y : Z) : float64 :=
  if (y =? 0) || SFeqb x (f64_of_Z 1) then f64_of_Z 1
  else if y =? 1 then x
  else match x with
       | S754_nan => S754_nan
       | S754_zero s => S754_zero (s && Z.odd y)
       | S754_infinity s => S754_infinity (s && Z.odd y)
       | S754_finite _ _ _ =>
           if two63 <=? y then
             if SFeqb x (f64_of_Z (-1)) then f64_of_Z 1
             else if f64_lt (SFabs x) (f64_of_Z 1) then f64_zero else S754_infinity false
           else
           let '(x1, xe) := SFfrexp 53 1024 x in
           let '(a1, ae) := pow_loop 63 y (f64_of_Z 1) 0 x1 xe in
           SFldexp 53 1024 a1 ae
       end.

(** [Backoff.Delay]; [rnd] is the number [rnd.Float64()] returns. *)
Definition Delay (b : Backoff) (attempt : Z) (rnd : float64) : duration :=
  let attempt := if attempt <? 0 then 0 else attempt in
  let d := f64_mul (f64_of_Z (bo_Base b)) (math_Pow (bo_Factor b) (f64_trunc (f64_of_Z attempt))) in
  let max := f64_of_Z (bo_Max b) in
  let d := if f64_lt max d || SFeqb d (S754_infinity false) then max else d in
  let d := if f64_lt f64_zero (bo_Jitter b)
           then let span := f64_mul d (bo_Jitter b) in
                f64_add (f64_sub d (f64_div span (f64_of_Z 2))) (f64_mul span rnd)
           else d in
  let d := if f64_lt d f64_zero then f64_zero else d in
  f64_trunc d.

(** ** Lemmas *)

(** 63 steps are enough for every exponent of an int64. *)
Lemma pow_loop_fuel f f' i a1 ae x1 xe :
  0 <= i < 2 ^ Z.of_nat f -> 0 <= i < 2 ^ Z.of_nat f' ->
  pow_loop f i a1 ae x1 xe = pow_loop f' i a1 ae x1 xe.
Proof.
  revert f' i a1 ae x1 xe. induction f as [|f IH]; intros f' i a1 ae x1 xe Hf Hf'.
  { assert (i = 0) as -> by (cbn in Hf; lia). by destruct f'. }
  destruct f' as [|f']; [assert (i = 0) as -> by (cbn in Hf'; lia); done|].
  cbn [pow_loop]. destruct (Z.eqb_spec i 0); [done|]. destruct (_ || _); [done|].
  destruct (if Z.odd i then _ else _) as [a1' ae']. destruct (if f64_lt _ _ then _ else _) as [x1' xe'].
  rewrite !Nat2Z.inj_succ, !Z.pow_succ_r in * by lia. rewrite Z.div2_div.
  apply IH; (split; [apply Z.div_pos; lia|apply Z.div_lt_upper_bound; lia]).
Qed.

(** The float64 [2^k], for [-1022 <= k <= 1023]. *)
Definition pow2f (k : Z) : float64 := S754_finite false 4503599627370496 (k - 52).

(** A mantissa of 53 bits needs no rounding. *)
Lemma round_53 s m e :
  digits2_pos m = 53%positive -> -1074 <= e ->
  binary_round_aux 53 1024 s (Zpos m) e loc_Exact
  = if e <=? 971 then S754_finite s m e else S754_infinity s.
Proof.
  intros Hm He. unfold binary_round_aux, shr_fexp. cbn [Zdigits2 shr_record_of_loc]. rewrite Hm.
  assert (fexp 53 1024 (53 + e) - e = 0) as Hf by (unfold fexp, emin; lia).
  rewrite Hf. cbn [shr shr_m loc_of_shr_record round_nearest_even Zdigits2 shr_record_of_loc].
  rewrite Hm, Hf. reflexivity.
Qed.

(** A product of two mantissas that is [m * 2^52] for a 53-bit [m]. *)
Lemma mul_pow2f m e k :
  digits2_pos m = 53%positive -> -1074 <= e + k ->
  f64_mul (S754_finite false m e) (pow2f k)
  = if e + k <=? 971 then S754_finite false m (e + k) else S754_infinity false.
Proof.
  intros Hm He. unfold f64_mul, SFmul, pow2f. cbn [xorb].
  pose proof (digits2_pos_iter m 52) as Hd.
  replace (m * 4503599627370496)%positive with (Pos.iter xO m 52) by (cbn; lia).
  rewrite Hm in Hd. transitivity (binary_round_aux 53 1024 false (Zpos m) (e + k) loc_Exact); [|by apply round_53].
  unfold binary_round_aux at 1, shr_fexp at 1. cbn [Zdigits2 shr_record_of_loc]. rewrite Hd.
  assert (fexp 53 1024 (Z.pos (53 + 52) + (e + (k - 52))) - (e + (k - 52)) = 52) as ->
    by (unfold fexp, emin; lia).
  cbn [shr]. change (SpecFloat.iter_pos shr_1 52 _) with (Build_shr_record (Zpos m) false false).
  replace (e + (k - 52) + 52) with (e + k) by lia.
  cbn [shr_m loc_of_shr_record round_nearest_even]. unfold binary_round_aux, shr_fexp.
  cbn [Zdigits2 shr_record_of_loc]. rewrite Hm.
  assert (fexp 53 1024 (53 + (e + k)) - (e + k) = 0) as -> by (unfold fexp, emin; lia).
  cbn [shr shr_m loc_of_shr_record round_nearest_even Zdigits2 shr_record_of_loc]. rewrite Hm.
  assert (fexp 53 1024 (53 + (e + k)) - (e + k) = 0) as -> by (unfold fexp, emin; lia).
  reflexivity.
Qed.

Lemma ldexp_pow2f k e :
  -1022 <= k + e ->
  SFldexp 53 1024 (pow2f k) e = if k + e <=? 1023 then pow2f (k + e) else S754_infinity false.
Proof.
  intros He. unfold SFldexp, pow2f, binary_round. replace (k - 52 + e) with (k + e - 52) by lia.
  set (x := k + e - 52). change (Z.pos (digits2_pos 4503599627370496)) with 53.
  assert (fexp 53 1024 (53 + x) = x) as -> by (unfold fexp, emin; lia).
  unfold shl_align. rewrite Z.sub_diag, round_53 by (done || lia). split_cmp; (done || lia).
Qed.

(** Raising 2 to [i * 2^j]: the mantissa stays a power of two. *)
Lemma pow_loop_2 f i j p ae :
  0 <= i < 2 ^ Z.of_nat f -> 0 <= p <= j -> j <= 12 -> 0 <= ae - p ->
  exists q e, pow_loop f i (pow2f (- p)) ae (pow2f (-1)) (2 ^ j + 1) = (pow2f (- q), e)
    /\ (e - q = ae - p + i * 2 ^ j \/ 4096 <= e - q /\ 4096 <= i * 2 ^ j).
Proof.
  revert i j p ae. induction f as [|f IH]; intros i j p ae Hi Hp Hj Hae.
  { exists p, ae. split; [done|]. left. change (2 ^ Z.of_nat 0) with 1 in Hi. nia. }
  cbn [pow_loop]. destruct (Z.eqb_spec i 0) as [->|Hi0].
  { exists p, ae. split; [done|]. left. lia. }
  assert (0 < 2 ^ j) by (apply Z.pow_pos_nonneg; lia).
  destruct (Z.ltb_spec (2 ^ j + 1) (-4096)); [lia|].
  destruct (Z.ltb_spec 4096 (2 ^ j + 1)) as [Hbig|Hsmall]; cbn [orb].
  { exists p, (ae + (2 ^ j + 1)). split; [done|]. right. nia. }
  assert (j < 12).
  { destruct (Z.eq_dec j 12) as [->|]; [|lia]. change (2 ^ 12) with 4096 in Hsmall. lia. }
  assert (f64_mul (pow2f (- p)) (pow2f (-1)) = pow2f (- (p + 1))) as Hmul.
  { unfold pow2f at 1. rewrite mul_pow2f by (done || lia). unfold pow2f. split_cmp; [|lia].
    f_equal; lia. }
  change (f64_mul (pow2f (-1)) (pow2f (-1))) with (pow2f (-2)).
  change (f64_lt (pow2f (-2)) (f64 "0.5")) with true. cbn iota.
  change (f64_add (pow2f (-2)) (pow2f (-2))) with (pow2f (-1)).
  assert (2 * (2 ^ j + 1) - 1 = 2 ^ (j + 1) + 1) as -> by (rewrite Z.pow_add_r by lia; lia).
  assert (0 <= Z.div2 i < 2 ^ Z.of_nat f) as Hd.
  { rewrite Nat2Z.inj_succ, Z.pow_succ_r in Hi by lia. rewrite Z.div2_div.
    split; [apply Z.div_pos; lia|apply Z.div_lt_upper_bound; lia]. }
  pose proof (Zdiv2_odd_eqn i) as Hio. assert (2 ^ (j + 1) = 2 * 2 ^ j) as Hj1
    by (rewrite Z.pow_add_r by lia; lia).
  destruct (Z.odd i).
  - rewrite Hmul. destruct (IH (Z.div2 i) (j + 1) (p + 1) (ae + (2 ^ j + 1))) as (q & e & -> & Hqe);
      [done|lia..|]. exists q, e. split; [done|]. nia.
  - destruct (IH (Z.div2 i) (j + 1) p ae) as (q & e & -> & Hqe); [done|lia..|].
    exists q, e. split; [done|]. nia.
Qed.

Lemma math_Pow_2 n :
  0 <= n < two63 ->
  math_Pow (f64_of_Z 2) n = if n <=? 1023 then pow2f n else S754_infinity false.
Proof.
  intros Hn. unfold math_Pow. change (SFeqb (f64_of_Z 2) (f64_of_Z 1)) with false.
  rewrite orb_false_r. change (f64_of_Z 2) with (pow2f 1).
  destruct (Z.eqb_spec n 0) as [->|]; [done|]. destruct (Z.eqb_spec n 1) as [->|]; [done|].
  destruct (Z.leb_spec two63 n); [lia|]. cbn [pow2f].
  change (SFfrexp 53 1024 _) with (pow2f (-1), 2 ^ 0 + 1). change (f64_of_Z 1) with (pow2f (- 0)).
  destruct (pow_loop_2 63 n 0 0 0) as (q & e & -> & He); [|lia..|].
  { change (2 ^ Z.of_nat 63) with two63. lia. }
  change (2 ^ 0) with 1 in He. rewrite ldexp_pow2f by lia.
  replace (- q + e) with (e - q) by lia. destruct He as [->|[??]]; split_cmp; try (done || lia).
  f_equal. lia.
Qed.

(** An integer below [2^53] is a float64. *)
Lemma trunc_of_Z n : 0 <= n < 2 ^ 53 -> f64_trunc (f64_of_Z n) = n.
Proof.
  intros Hn. destruct n as [|m|]; [done| |lia]. pose proof (digits2_pos_bounds m) as Hm.
  unfold f64_of_Z, binary_normalize, binary_round.
  remember (digits2_pos m) as dm eqn:Hd. set (d := Z.pos dm) in *.
  assert (d <= 53) as Hd53.
  { destruct (Z.le_gt_cases d 53); [done|].
    assert (2 ^ 53 <= 2 ^ (d - 1)) by (apply Z.pow_le_mono_r; lia). lia. }
  assert (fexp 53 1024 (d + 0) = d - 53) as -> by (unfold fexp, emin; lia).
  unfold shl_align. destruct (d - 53 - 0) as [|q|q] eqn:Hq; [|lia|].
  - assert (digits2_pos m = 53%positive) as Hm53 by (unfold d in *; lia).
    rewrite (round_53 false m 0 Hm53) by lia. cbn. lia.
  - rewrite round_53; [|rewrite digits2_pos_iter; unfold d in *; lia|lia].
    destruct (Z.leb_spec (d - 53) 971); [|lia]. cbn [f64_trunc].
    destruct (Z.leb_spec 0 (d - 53)); [lia|]. rewrite iter_xO.
    replace (- (d - 53)) with (Z.pos q) by lia. apply Z.div_mul. apply Z.pow_nonzero; lia.
Qed.

(** The delay before jitter, as a float64. *)
Lemma capped_delay n :
  0 <= n < two63 ->
  let x := f64_mul (f64_of_Z (500 * millisecond)) (math_Pow (f64_of_Z 2) n) in
  let max := f64_of_Z (30 * second) in
  (if f64_lt max x || SFeqb x (S754_infinity false) then max else x)
  = f64_of_Z (Z.min (500 * millisecond * 2 ^ n) (30 * second)).
Proof.
  intros Hn. rewrite math_Pow_2 by lia. cbv zeta.
  destruct (Z.le_gt_cases n 6) as [Hle|Hgt].
  { assert (n = 0 \/ n = 1 \/ n = 2 \/ n = 3 \/ n = 4 \/ n = 5 \/ n = 6) as Hcases by lia.
    repeat destruct Hcases as [->|Hcases]; [vm_compute; reflexivity..|].
    subst n. vm_compute. reflexivity. }
  assert (2 ^ 7 <= 2 ^ n) as H7 by (apply Z.pow_le_mono_r; lia). change (2 ^ 7) with 128 in H7.
  rewrite (Z.min_r (500 * millisecond * 2 ^ n)) by (unfold millisecond, second; lia).
  destruct (Z.leb_spec n 1023); [|vm_compute; reflexivity].
  destruct (f64_of_Z (500 * millisecond)) as [| | |s m e] eqn:Hb; [discriminate Hb..|].
  vm_compute in Hb. injection Hb as <- <- <-. rewrite mul_pow2f by (done || lia).
  destruct (Z.leb_spec (-24 + n) 971) as [Hfin|]; [|vm_compute; reflexivity].
  destruct (f64_of_Z (30 * second)) as [| | |s m e] eqn:Hmax; [discriminate Hmax..|].
  vm_compute in Hmax. injection Hmax as <- <- <-. unfold f64_lt, SFltb, SFcompare.
  rewrite (proj2 (Z.compare_lt_iff (-18) (-24 + n))) by lia. done.
Qed.

(** Delays of at most 30 s are float64 numbers that [Pow(1, 0) = 1] leaves alone. *)
Lemma constant_pacing d :
  In d [500000000; 1000000000; 2000000000; 4000000000; 8000000000; 16000000000; 30000000000] ->
  f64_mul (f64_of_Z d) (math_Pow (f64_of_Z 1) 0) = f64_of_Z d
  /\ f64_lt (f64_of_Z d) (f64_of_Z d) || SFeqb (f64_of_Z d) (S754_infinity false) = false
  /\ f64_lt (f64_of_Z d) f64_zero = false.
Proof. intros H. repeat destruct H as [<-|H]; [vm_compute; auto..|destruct H]. Qed.

Lemma schedule_values n :
  0 <= n ->
  In (Z.min (500 * millisecond * 2 ^ n) (30 * second))
    [500000000; 1000000000; 2000000000; 4000000000; 8000000000; 16000000000; 30000000000].
Proof.
  intros Hn. destruct (Z.le_gt_cases n 6) as [Hle|Hgt].
  { assert (n = 0 \/ n = 1 \/ n = 2 \/ n = 3 \/ n = 4 \/ n = 5 \/ n = 6) as Hcases by lia.
    repeat destruct Hcases as [->|Hcases]; [vm_compute; auto 10..|]. subst n. vm_compute. auto 10. }
  assert (2 ^ 7 <= 2 ^ n) as H7 by (apply Z.pow_le_mono_r; lia). change (2 ^ 7) with 128 in H7.
  rewrite Z.min_r by (unfold millisecond, second; lia). vm_compute. auto 10.
Qed.

Lemma parseFloat_res_no_panic ctx s : parseFloat_res ctx s <> Panic.
Proof. unfold parseFloat_res. by destruct (parseFloat s) as [? [?|]]. Qed.
Lemma wrap_err_no_panic {A} ctx (m : res A) : m <> Panic -> wrap_err ctx m <> Panic.
Proof. by destruct m. Qed.
Lemma bind_no_panic {A B} (m : res A) (f : A -> res B) :
  m <> Panic -> (forall a, m = Ok a -> f a <> Panic) -> m ≫= f <> Panic.
Proof. destruct m; cbn; intros; auto; discriminate. Qed.

#[export] Hint Resolve parseFloat_res_no_panic wrap_err_no_panic bind_no_panic : tapeline.

(** ** Lemmas on canonical pairs *)

(** What [canonicalPair] does to an ASCII character. *)
Definition canon_char (c : ascii) : ascii :=
  let c := ascii_upper c in
  let c := if Ascii.eqb c "/" then "-"%char else c in
  if Ascii.eqb c "_" then "-"%char else c.

Lemma canon_char_idem c : canon_char (canon_char c) = canon_char c.
Proof. by destruct c as [[] [] [] [] [] [] [] []]. Qed.
Lemma canon_char_ascii c : is_ascii_char (canon_char c) = is_ascii_char c.
Proof. by destruct c as [[] [] [] [] [] [] [] []]. Qed.

(** White space of one byte, and the first bytes of the longer sequences. *)
Definition starts_with (seqs : list (list ascii)) (c : ascii) : bool :=
  existsb (fun p => match p with a :: _ => Ascii.eqb a c | [] => false end) seqs.
Definition space_byte (c : ascii) : bool := starts_with space_seqs c.
Lemma canon_char_space c : is_ascii_char c = true -> space_byte (canon_char c) = space_byte c.
Proof. by destruct c as [[] [] [] [] [] [] [] []]. Qed.

(** Sequences of one byte, or of several bytes that are not ASCII. *)
Definition utf8_seqs (seqs : list (list ascii)) : bool :=
  forallb (fun p => match p with [] => false | [_] => true
                    | a :: _ => negb (is_ascii_char a) end) seqs.

Definition ascii_chars (l : list ascii) : Prop := forallb is_ascii_char l = true.

Fixpoint drop_spaces (l : list ascii) : list ascii :=
  match l with c :: l' => if space_byte c then drop_spaces l' else l | [] => [] end.

Lemma find_space seqs c l :
  utf8_seqs seqs = true -> is_ascii_char c = true ->
  List.find (fun p => is_prefix p (c :: l)) seqs = if starts_with seqs c then Some [c] else None.
Proof.
  intros Hs Hc. induction seqs as [|p seqs IH]; [done|]. cbn in Hs.
  apply andb_true_iff in Hs as [Hp Hs]. destruct p as [|a p]; [done|]. cbn.
  destruct (Ascii.eqb_spec a c) as [->|]; cbn [andb orb]; [|by apply IH].
  destruct p; [done|]. by rewrite Hc in Hp.
Qed.

Lemma find_space_nil seqs : utf8_seqs seqs = true -> List.find (fun p => is_prefix p []) seqs = None.
Proof.
  induction seqs as [|p seqs IH]; [done|]. cbn. intros [Hp Hs]%andb_true_iff.
  destruct p; [done|]. by apply IH.
Qed.

(** On ASCII text white space is a single byte. *)
Lemma trim_front_ascii seqs fuel l :
  utf8_seqs seqs = true -> (forall c, is_ascii_char c = true -> starts_with seqs c = space_byte c) ->
  ascii_chars l -> (length l <= fuel)%nat -> trim_front seqs fuel l = drop_spaces l.
Proof.
  intros Hs Hb. revert l. induction fuel as [|f IH]; intros [|c l] Hl Hf; try (cbn in *; lia).
  - done.
  - cbn. by rewrite find_space_nil.
  - cbn in Hl. apply andb_true_iff in Hl as [Hc Hl]. cbn [trim_front drop_spaces].
    rewrite find_space, Hb by done. destruct (space_byte c); [|done].
    apply IH; [done|cbn in *; lia].
Qed.

Lemma ascii_chars_rev l : ascii_chars l -> ascii_chars (rev l).
Proof. unfold ascii_chars. rewrite !forallb_forall. intros H c Hc. apply H. by rewrite in_rev. Qed.
Lemma ascii_chars_drop_spaces l : ascii_chars l -> ascii_chars (drop_spaces l).
Proof.
  unfold ascii_chars. induction l as [|c l IH]; [done|]. intros Hl. cbn [drop_spaces].
  destruct (space_byte c); [|exact Hl]. cbn in Hl. apply andb_true_iff in Hl as [_ Hl]. auto.
Qed.
Lemma ascii_chars_map l : ascii_chars l -> ascii_chars (map canon_char l).
Proof.
  unfold ascii_chars. induction l as [|c l IH]; cbn; [done|].
  rewrite canon_char_ascii. intros [-> Hl]%andb_true_iff. auto.
Qed.

Definition trim_spaces (l : list ascii) : list ascii := rev (drop_spaces (rev (drop_spaces l))).

Lemma ascii_chars_trim l : ascii_chars l -> ascii_chars (trim_spaces l).
Proof. intros H. by apply ascii_chars_rev, ascii_chars_drop_spaces, ascii_chars_rev, ascii_chars_drop_spaces. Qed.

Lemma TrimSpace_ascii s : is_ascii s = true -> TrimSpace s = unchars (trim_spaces (chars s)).
Proof.
  intros Hs. unfold TrimSpace, trim_left, trim_right, trim_spaces. f_equal. f_equal.
  assert (forall c, is_ascii_char c = true ->
            starts_with (map (@rev ascii) space_seqs) c = space_byte c) as Hrev.
  { by intros [[] [] [] [] [] [] [] []]. }
  rewrite (trim_front_ascii space_seqs _ (chars s)) by done.
  apply trim_front_ascii; [done|done| |by rewrite length_rev].
  by apply ascii_chars_rev, ascii_chars_drop_spaces.
Qed.

(** A character map that keeps white space apart from the rest commutes with
    trimming. *)
Definition keeps_space (f : ascii -> ascii) : Prop :=
  forall c, is_ascii_char c = true -> space_byte (f c) = space_byte c.

Lemma drop_spaces_map f l :
  keeps_space f -> ascii_chars l -> drop_spaces (map f l) = map f (drop_spaces l).
Proof.
  intros Hf. induction l as [|c l IH]; [done|]. intros [Hc Hl]%andb_true_iff.
  cbn [map drop_spaces]. rewrite Hf by done. destruct (space_byte c); auto.
Qed.
Lemma drop_spaces_idem l : drop_spaces (drop_spaces l) = drop_spaces l.
Proof.
  induction l as [|c l IH]; [done|]. cbn [drop_spaces].
  destruct (space_byte c) eqn:E; [exact IH|]. cbn [drop_spaces]. by rewrite E.
Qed.

Lemma drop_spaces_snoc l c :
  space_byte c = false -> drop_spaces (l ++ [c]) = drop_spaces l ++ [c].
Proof.
  intros Hc. induction l as [|d l IH]; cbn [app drop_spaces]; [by rewrite Hc|].
  by destruct (space_byte d).
Qed.

(** Nothing is left to trim at the front after trimming the back of a trimmed text. *)
Lemma drop_spaces_fix l : drop_spaces l = l -> drop_spaces (rev (drop_spaces (rev l))) = rev (drop_spaces (rev l)).
Proof.
  destruct l as [|c l]; [done|]. cbn [drop_spaces rev]. destruct (space_byte c) eqn:E.
  - intros H. exfalso. assert (length (drop_spaces l) <= length l)%nat as Hlen.
    { clear. induction l as [|c l IH]; cbn [drop_spaces length]; [done|].
      destruct (space_byte c); cbn [length]; lia. }
    rewrite H in Hlen. cbn in Hlen. lia.
  - intros _. rewrite drop_spaces_snoc by done. rewrite rev_app_distr. cbn [rev app drop_spaces].
    by rewrite E.
Qed.

Lemma trim_spaces_idem l : trim_spaces (trim_spaces l) = trim_spaces l.
Proof.
  unfold trim_spaces. rewrite (drop_spaces_fix (drop_spaces l)) by apply drop_spaces_idem.
  by rewrite rev_involutive, drop_spaces_idem.
Qed.

Lemma canonicalPair_ascii `{UnicodeMap} s :
  is_ascii s = true -> canonicalPair s = unchars (map canon_char (trim_spaces (chars s))).
Proof.
  intros Hs. unfold canonicalPair, ToUpper. rewrite TrimSpace_ascii by done.
  unfold is_ascii. str_simpl. rewrite (ascii_chars_trim _ Hs).
  unfold replace_char. str_simpl. rewrite !map_map. done.
Qed.

Lemma trim_spaces_map f l :
  keeps_space f -> ascii_chars l -> trim_spaces (map f l) = map f (trim_spaces l).
Proof.
  intros Hf Hl. unfold trim_spaces.
  rewrite drop_spaces_map, <- !map_rev, drop_spaces_map by
    auto using ascii_chars_rev, ascii_chars_drop_spaces. by rewrite map_rev.
Qed.

Lemma canonicalPair_is_ascii `{UnicodeMap} s :
  is_ascii s = true -> is_ascii (canonicalPair s) = true.
Proof.
  intros Hs. rewrite canonicalPair_ascii by done. unfold is_ascii. str_simpl.
  by apply ascii_chars_map, ascii_chars_trim.
Qed.

Lemma canonicalPair_idem `{UnicodeMap} s :
  is_ascii s = true -> canonicalPair (canonicalPair s) = canonicalPair s.
Proof.
  intros Hs. rewrite (canonicalPair_ascii (canonicalPair s)) by (by apply canonicalPair_is_ascii).
  rewrite (canonicalPair_ascii s) by done. str_simpl.
  rewrite trim_spaces_map by (exact canon_char_space || by apply ascii_chars_trim).
  rewrite trim_spaces_idem, map_map. f_equal. apply map_ext, canon_char_idem.
Qed.

(** ** Properties *)

(** Reconnect pacing. For every attempt number the default backoff waits the
    base doubled that many times, capped at the maximum: without jitter exactly
    that, and with a jitter fraction what a constant pacing at that delay waits
    for the same random draw. [math.Pow], which overflows from attempt 1024 on,
    and the float64 comparison with the cap never break the schedule. *)
Theorem backoff_schedule n jitter rnd :
  0 <= n < 2 ^ 53 ->
  let d := Z.min (500 * millisecond * 2 ^ n) (30 * second) in
  let b := mkBackoff (bo_Base DefaultBackoff) (bo_Max DefaultBackoff) (bo_Factor DefaultBackoff) in
  Delay (b jitter) n rnd = Delay (mkBackoff d d (f64_of_Z 1) jitter) 0 rnd
  /\ Delay (b f64_zero) n rnd = d.
Proof.
  intros Hn d b. unfold Delay. cbn [bo_Base bo_Max bo_Factor bo_Jitter b DefaultBackoff].
  destruct (Z.ltb_spec n 0); [lia|]. rewrite trunc_of_Z, capped_delay by int_lia. fold d.
  change (f64_trunc (f64_of_Z (if 0 <? 0 then 0 else 0))) with 0.
  destruct (constant_pacing d) as (-> & Hlt & Hneg); [by apply schedule_values; lia|].
  rewrite Hlt. split; [done|]. change (f64_lt f64_zero f64_zero) with false. cbn iota.
  rewrite Hneg. apply trunc_of_Z. unfold d, millisecond, second. lia.
Qed.

Lemma backoff_schedule_witness :
  let b := mkBackoff (bo_Base DefaultBackoff) (bo_Max DefaultBackoff) (bo_Factor DefaultBackoff) in
  Delay (b f64_zero) 3 f64_zero = 4 * second
  /\ Delay (b f64_zero) 5000 f64_zero = 30 * second.
Proof.
  split.
  - apply (backoff_schedule 3 f64_zero f64_zero). vm_compute. intuition congruence.
  - vm_compute. reflexivity.
Defined.

(** Jitter is added after the cap, so a delay may exceed the configured
    maximum by half the jitter fraction: 34.4 s where the default maximum is
    30 s. *)
Theorem jitter_exceeds_max :
  bo_Max DefaultBackoff = 30 * second
  /\ bo_Max DefaultBackoff < Delay DefaultBackoff 6 (f64 "0.99")
  /\ Delay DefaultBackoff 6 (f64 "0.99") = 34410000000.
Proof. vm_compute. auto. Qed.

(** [mustFloat] does not return 0 for every text it cannot represent: a number
    out of range yields an infinity, and a text that is not a number 0. *)
Theorem mustFloat_range_error :
  mustFloat "1e400" = S754_infinity false /\ mustFloat "-1e400" = S754_infinity true
  /\ mustFloat "" = f64_zero /\ mustFloat "abc" = f64_zero /\ mustFloat "NaN" = S754_nan.
Proof. vm_compute. auto. Qed.
