(* ===== verification/Binance.v ===== *)
(** * Package [internal/venue], [binance.go]: the Binance adapter

    The one adapter with state: the symbols it subscribed to, and per book a
    cursor that turns the update-id ranges [U, u] of the depth stream into a
    dense sequence. [Decode] returns the new state with its result. *)

From S2P Require Import Prelude.
From S2P Require Import GoStrings.
From S2P Require Import GoStrconv.
From S2P Require Import GoJson.
From S2P Require Import Model.
From S2P Require Import Gap.
From S2P Require Import Venue.

Local Open Scope Z_scope.

Definition VenueBinance : string := "binance".

Definition binanceQuoteAliases (quote : string) : option string :=
  if String.eqb quote "USD" then Some "USDT" else None.

Definition binanceKnownQuotes : list string :=
  ["USDT"; "USDC"; "TUSD"; "FDUSD"; "BUSD"; "USD"; "BTC"; "ETH"; "BNB"].

Record binanceBookCursor := mkCursor {
  lastFinalUpdateID : Z; dense : Z; initialized : bool }.

Record Binance := mkBinance {
  toCanon : gmap string string;
  symbols : list string;
  depthMS : Z;
  bookSeq : gmap string binanceBookCursor }.

Definition Name (b : Binance) : string := VenueBinance.

Section symbols.
Context `{UnicodeMap}.

Definition BinanceSymbol (canonical : string) : string :=
  match SplitN2 (canonicalPair canonical) "-" with
  | [base; quote] =>
      let quote := match binanceQuoteAliases quote with Some alias => alias | None => quote end in
      base +:+ quote
  | _ => remove_char "-" (canonicalPair canonical)
  end.

Definition setSymbols (b : Binance) (syms : list string) : Binance :=
  mkBinance
    (fold_left (fun m s => <[BinanceSymbol s := canonicalPair s]> m) syms (toCanon b))
    syms (depthMS b) (bookSeq b).

Definition NewBinance (syms : list string) (depth : Z) : Binance :=
  let depth := if depth =? 1000 then depth else 100 in
  setSymbols (mkBinance ∅ [] depth ∅) syms.

(** The fallback split of a symbol that was not subscribed to. *)
Fixpoint split_quote (up : string) (quotes : list string) : string :=
  match quotes with
  | [] => up
  | q :: quotes' =>
      if HasSuffix up q && (str_len q <? str_len up)%nat then
        let base := str_take (str_len up - str_len q) up in
        let q := if String.eqb q "USDT" then "USD" else q in
        base +:+ "-" +:+ q
      else split_quote up quotes'
  end.

Definition canonFor (b : Binance) (venueSymbol : string) : string :=
  let up := ToUpper venueSymbol in
  match toCanon b !! up with
  | Some canon => canon
  | None => split_quote up binanceKnownQuotes
  end.

Definition stream_names (depthMS : Z) (s : string) : list string :=
  let v := ToLower (BinanceSymbol s) in
  [v +:+ "@trade"; v +:+ "@depth@" +:+ FormatInt depthMS +:+ "ms"].

Definition URL (b : Binance) : string :=
  let streams := flat_map (stream_names (depthMS b)) (symbols b) in
  "wss://stream.binance.com:9443/stream?streams=" +:+ GoStrings.Join streams "/".

Definition Subscriptions (b : Binance) (syms : list string) : list Empty_set * Binance :=
  ([], match syms with [] => b | _ => setSymbols b syms end).
End symbols.

(** ** Frames *)

Record binanceError := mkBinanceError { be_Code : Z; be_Msg : string }.
Record binanceEnvelope := mkEnvelope {
  env_Stream : string; env_Data : option json; env_Error : option binanceError }.
Record binanceTrade := mkBinanceTrade {
  bt_EventType : string; bt_EventTimeMS : Z; bt_Symbol : string; bt_TradeID : Z;
  bt_Price : string; bt_Quantity : string; bt_TradeTimeMS : Z; bt_BuyerIsMaker : bool;
  bt_Ignore : bool }.
Record binanceDepth := mkBinanceDepth {
  bde_EventType : string; bde_EventTimeMS : Z; bde_Symbol : string; bde_FirstUpdateID : Z;
  bde_FinalUpdateID : Z; bde_Bids : list (list string); bde_Asks : list (list string) }.

Definition error_fields : fields binanceError :=
  [ field "code" dec_int64 be_Code (fun v e => mkBinanceError v (be_Msg e));
    field "msg" dec_string be_Msg (fun v e => mkBinanceError (be_Code e) v) ].

Definition envelope_fields : fields binanceEnvelope :=
  [ field "stream" dec_string env_Stream (fun v e => mkEnvelope v (env_Data e) (env_Error e));
    field "data" dec_raw env_Data (fun v e => mkEnvelope (env_Stream e) v (env_Error e));
    field "error" (dec_ptr (mkBinanceError 0 "") (dec_struct error_fields)) env_Error
      (fun v e => mkEnvelope (env_Stream e) (env_Data e) v) ].

Definition zero_envelope : binanceEnvelope := mkEnvelope "" None None.

Definition trade_fields : fields binanceTrade :=
  [ field "e" dec_string bt_EventType (fun v '(mkBinanceTrade _ b c d e f g h i) =>
      mkBinanceTrade v b c d e f g h i);
    field "E" dec_int64 bt_EventTimeMS (fun v '(mkBinanceTrade a _ c d e f g h i) =>
      mkBinanceTrade a v c d e f g h i);
    field "s" dec_string bt_Symbol (fun v '(mkBinanceTrade a b _ d e f g h i) =>
      mkBinanceTrade a b v d e f g h i);
    field "t" dec_int64 bt_TradeID (fun v '(mkBinanceTrade a b c _ e f g h i) =>
      mkBinanceTrade a b c v e f g h i);
    field "p" dec_string bt_Price (fun v '(mkBinanceTrade a b c d _ f g h i) =>
      mkBinanceTrade a b c d v f g h i);
    field "q" dec_string bt_Quantity (fun v '(mkBinanceTrade a b c d e _ g h i) =>
      mkBinanceTrade a b c d e v g h i);
    field "T" dec_int64 bt_TradeTimeMS (fun v '(mkBinanceTrade a b c d e f _ h i) =>
      mkBinanceTrade a b c d e f v h i);
    field "m" dec_bool bt_BuyerIsMaker (fun v '(mkBinanceTrade a b c d e f g _ i) =>
      mkBinanceTrade a b c d e f g v i);
    field "M" dec_bool bt_Ignore (fun v '(mkBinanceTrade a b c d e f g h _) =>
      mkBinanceTrade a b c d e f g h v) ].

Definition zero_trade : binanceTrade := mkBinanceTrade "" 0 "" 0 "" "" 0 false false.

Definition dec_levels : decoder (list (list string)) := dec_slice [] (dec_slice "" dec_string).

Definition depth_fields : fields binanceDepth :=
  [ field "e" dec_string bde_EventType (fun v '(mkBinanceDepth _ b c d e f g) =>
      mkBinanceDepth v b c d e f g);
    field "E" dec_int64 bde_EventTimeMS (fun v '(mkBinanceDepth a _ c d e f g) =>
      mkBinanceDepth a v c d e f g);
    field "s" dec_string bde_Symbol (fun v '(mkBinanceDepth a b _ d e f g) =>
      mkBinanceDepth a b v d e f g);
    field "U" dec_int64 bde_FirstUpdateID (fun v '(mkBinanceDepth a b c _ e f g) =>
      mkBinanceDepth a b c v e f g);
    field "u" dec_int64 bde_FinalUpdateID (fun v '(mkBinanceDepth a b c d _ f g) =>
      mkBinanceDepth a b c d v f g);
    field "b" dec_levels bde_Bids (fun v '(mkBinanceDepth a b c d e _ g) =>
      mkBinanceDepth a b c d e v g);
    field "a" dec_levels bde_Asks (fun v '(mkBinanceDepth a b c d e f _) =>
      mkBinanceDepth a b c d e f v) ].

Definition zero_depth : binanceDepth := mkBinanceDepth "" 0 "" 0 0 [] [].

(** ** The dense sequence *)

Definition max64 (a b : Z) : Z := if b <? a then a else b.

(** One step of a cursor, [None] when the book has none yet. *)
Definition cursor_step (cur : option binanceBookCursor) (firstUpdateID finalUpdateID : Z)
    : Z * binanceBookCursor :=
  let cur := match cur with Some c => c | None => mkCursor 0 0 false end in
  if negb (initialized cur) then (0, mkCursor finalUpdateID 0 true)
  else if firstUpdateID =? wrap64 (lastFinalUpdateID cur + 1) then
    let d := wrap64 (dense cur + 1) in (d, mkCursor finalUpdateID d true)
  else if firstUpdateID <=? lastFinalUpdateID cur then
    (dense cur, mkCursor (max64 (lastFinalUpdateID cur) finalUpdateID) (dense cur) true)
  else
    let missing := wrap64 (firstUpdateID - lastFinalUpdateID cur - 1) in
    let missing := if missing <? 1 then 1 else missing in
    let d := wrap64 (dense cur + (missing + 1)) in (d, mkCursor finalUpdateID d true).

Definition denseSequence (b : Binance) (symbol : string) (firstUpdateID finalUpdateID : Z)
    : Z * Binance :=
  let '(seq, cur) := cursor_step (bookSeq b !! symbol) firstUpdateID finalUpdateID in
  (seq, mkBinance (toCanon b) (symbols b) (depthMS b) (<[symbol := cur]> (bookSeq b))).

Definition ResetBooks (b : Binance) : Binance :=
  mkBinance (toCanon b) (symbols b) (depthMS b) ∅.

(** ** Decode *)

Definition decode_level (ctx : string) (lvl : list string) : res Level :=
  if (length lvl <? 2)%nat then Err (EMsg ctx)
  else
    p ← index lvl 0; q ← index lvl 1;
    Ok (mkLevel (mustFloat p) (mustFloat q)).

Section decode.
Context `{UnicodeMap}.

Definition decodeTrade (b : Binance) (data : option json) (now : time) : res (list Event) :=
  t ← wrap_err "binance trade" (UnmarshalRaw (dec_struct trade_fields) zero_trade data);
  price ← parseFloat_res "binance trade price" (bt_Price t);
  qty ← parseFloat_res "binance trade qty" (bt_Quantity t);
  let side := if bt_BuyerIsMaker t then SideSell else SideBuy in
  let sym := canonFor b (bt_Symbol t) in
  let eventTimeUS := wrap64 ((if bt_TradeTimeMS t =? 0 then bt_EventTimeMS t
                              else bt_TradeTimeMS t) * 1000) in
  Ok [mkEvent KindTrade VenueBinance sym (bt_TradeID t)
        (Some (mkTrade VenueBinance sym (FormatInt (bt_TradeID t)) price qty side
                 eventTimeUS (UnixMicro now) (bt_TradeID t))) None None].

Definition decodeDepth (b : Binance) (data : option json) (now : time)
    : res (list Event) * Binance :=
  match wrap_err "binance depth" (UnmarshalRaw (dec_struct depth_fields) zero_depth data) with
  | Ok d =>
      let sym := canonFor b (bde_Symbol d) in
      let '(seq, b') := denseSequence b sym (bde_FirstUpdateID d) (bde_FinalUpdateID d) in
      (bids ← map_res (decode_level "binance depth: malformed bid level") (bde_Bids d);
       asks ← map_res (decode_level "binance depth: malformed ask level") (bde_Asks d);
       Ok [mkEvent KindBookDelta VenueBinance sym seq None
             (Some (mkBookDelta VenueBinance sym false bids asks
                      (wrap64 (bde_EventTimeMS d * 1000)) (UnixMicro now) seq)) None],
       b')
  | Err e => (Err e, b)
  | Panic => (Panic, b)
  end.

(** The event type, read from the key [e] exactly. *)
Definition event_type (data : option json) : res string :=
  probe ← wrap_err "binance data probe" (UnmarshalRaw (fun _ => dec_map) ∅ data);
  match probe !! ("e" : string) with
  | Some rawType =>
      wrap_err "binance event type" (UnmarshalRaw dec_string "" (Some rawType))
  | None => Ok ""
  end.

Definition Decode (b : Binance) (raw : string) (now : time) : res (list Event) * Binance :=
  match wrap_err "binance envelope" (Unmarshal (dec_struct envelope_fields) zero_envelope raw) with
  | Ok env =>
      match env_Error env, env_Data env with
      | Some _, _ => (Err (EMsg "binance error"), b)
      | None, None => (Ok [], b)
      | None, data =>
          match event_type data with
          | Ok ty =>
              if String.eqb ty "trade" then (decodeTrade b data now, b)
              else if String.eqb ty "depthUpdate" then decodeDepth b data now
              else (Ok [], b)
          | Err e => (Err e, b)
          | Panic => (Panic, b)
          end
      end
  | Err e => (Err e, b)
  | Panic => (Panic, b)
  end.
End decode.

#[export] Instance binance_decoder `{UnicodeMap} : Decoder Binance Empty_set := {|
  dec_Name := Name; dec_URL := URL; dec_Subscriptions := Subscriptions; dec_Decode := Decode |}.

(** ** Specification of the depth stream

    Over update ids: [range_step] compares an update [U, u] with the last id of
    its book; the detector should report an id range that was skipped with its
    size, and an update that starts at or below the last id as a duplicate. *)
Definition range_step (last : option Z) (U u : Z) : (Status * Z) * Z :=
  match last with
  | None => ((StatusFirst, 0), u)
  | Some l =>
      if l + 1 <? U then ((StatusGap, U - (l + 1)), u)
      else if U =? l + 1 then ((StatusOK, 0), u)
      else ((StatusDuplicate, 0), Z.max l u)
  end.

Fixpoint range_run (last : option Z) (rs : list (Z * Z)) : list (Status * Z) :=
  match rs with
  | [] => []
  | (U, u) :: rs' =>
      let '(v, l) := range_step last U u in v :: range_run (Some l) rs'
  end.

(** A run of depth updates of several books: symbol, [U] and [u]. *)
Definition update : Type := string * (Z * Z).
Definition update_ok (x : update) : Prop := 0 <= x.2.1 <= x.2.2 /\ x.2.2 < MaxInt64.
Definition ranges_of (sym : string) (xs : list update) : list (Z * Z) :=
  map snd (List.filter (fun x => String.eqb x.1 sym) xs).

Definition book_key (sym : string) : Key := mkKey VenueBinance sym ChannelBook.

Fixpoint dense_run (b : Binance) (xs : list update) : list op :=
  match xs with
  | [] => []
  | (sym, (U, u)) :: xs' =>
      let '(seq, b') := denseSequence b sym U u in
      OpObserve (book_key sym) seq :: dense_run b' xs'
  end.

(** The watermark of a book's stream is the dense counter of its cursor. *)
Definition cursor_agrees (cur : option binanceBookCursor) (w : option Z) : Prop :=
  match cur with
  | None => w = None
  | Some c => initialized c = true /\ w = Some (dense c)
              /\ 0 <= dense c <= lastFinalUpdateID c /\ lastFinalUpdateID c < MaxInt64
  end.

Definition last_id (cur : option binanceBookCursor) : option Z := lastFinalUpdateID <$> cur.

(** ** Lemmas on the dense sequence *)

Lemma cursor_step_stream tol cur w U u :
  0 <= tol -> cursor_agrees cur w -> 0 <= U <= u -> u < MaxInt64 ->
  let '(seq, c) := cursor_step cur U u in
  seq < MaxInt64
  /\ stream_step tol w (SObserve seq) = (Some (range_step (last_id cur) U u).1, Some (dense c))
  /\ lastFinalUpdateID c = (range_step (last_id cur) U u).2
  /\ cursor_agrees (Some c) (Some (dense c)).
Proof.
  intros Ht Hc HU Hu. unfold cursor_step; cbv zeta. destruct cur as [[l d i]|]; cbn in *; cycle 1.
  { subst w. repeat split; cbn; int_lia. }
  destruct Hc as (-> & -> & Hd & Hl). cbn [negb initialized lastFinalUpdateID dense].
  rewrite (wrap64_id (l + 1)), (wrap64_id (d + 1)), (wrap64_id (U - l - 1)) by int_lia.
  unfold max64. destruct (Z.eqb_spec U (l + 1)) as [->|Hne];
    [|destruct (Z.leb_spec U l) as [Hle|Hgt]]; cycle 2.
  - rewrite (proj2 (Z.ltb_ge (U - l - 1) 1)), wrap64_id by int_lia. cbn.
    split; [int_lia|]. split_cmp; try lia. repeat split; try lia; repeat (f_equal; cbn; try lia).
  - cbn. split; [int_lia|]. split_cmp; try lia. repeat split; try lia; repeat (f_equal; cbn; try lia).
  - cbn. split; [int_lia|]. split_cmp; try lia; repeat split; try lia; repeat (f_equal; cbn; try lia).
Qed.

Definition agrees (b : Binance) (d : Detector) : Prop :=
  forall sym, cursor_agrees (bookSeq b !! sym) (Last d (book_key sym)).

(** One update through the cursor and the detector: the verdict is the one of the
    specification, for the book of the update, and the other books keep theirs. *)
Lemma dense_step b d sym U u :
  in_bounds d -> 0 <= d_regressionTolerance d -> agrees b d -> 0 <= U <= u -> u < MaxInt64 ->
  let seq := (denseSequence b sym U u).1 in
  let b' := (denseSequence b sym U u).2 in
  let r := (Observe d (book_key sym) seq).1 in
  let d' := (Observe d (book_key sym) seq).2 in
  in_bounds d' /\ d_regressionTolerance d' = d_regressionTolerance d /\ agrees b' d'
  /\ (r_Status r, r_Missing r) = (range_step (last_id (bookSeq b !! sym)) U u).1
  /\ last_id (bookSeq b' !! sym) = Some (range_step (last_id (bookSeq b !! sym)) U u).2
  /\ (forall sym', sym' <> sym -> bookSeq b' !! sym' = bookSeq b !! sym').
Proof.
  intros Hb Ht Ha HU Hu. unfold denseSequence.
  pose proof (cursor_step_stream _ _ _ U u Ht (Ha sym) HU Hu) as Hs.
  destruct (cursor_step (bookSeq b !! sym) U u) as [seq c]. cbn [fst snd bookSeq].
  destruct Hs as (Hseq & Hstep & Hlast & Hc).
  rewrite Observe_stream in Hstep by done. injection Hstep as Hv Hw.
  split; [by apply Observe_in_bounds|]. split; [apply Observe_tolerance|].
  split; [|split; [|split]].
  - intros sym'. cbn [bookSeq]. destruct (decide (sym' = sym)) as [->|Hne].
    + by rewrite lookup_insert_eq, Hw.
    + rewrite lookup_insert_ne, Observe_other by (congruence || (intros [=]; congruence)). apply Ha.
  - exact Hv.
  - rewrite lookup_insert_eq. cbn. by rewrite Hlast.
  - intros sym' Hne. by rewrite lookup_insert_ne.
Qed.

Lemma dense_run_verdicts b d xs sym :
  in_bounds d -> 0 <= d_regressionTolerance d -> agrees b d -> Forall update_ok xs ->
  verdicts_at (book_key sym) (run_ops d (dense_run b xs)).1
  = range_run (last_id (bookSeq b !! sym)) (ranges_of sym xs).
Proof.
  intros Hb Ht Ha Hxs. revert b d Hb Ht Ha.
  induction Hxs as [|[s [U u]] xs [HU Hu] Hxs IH]; intros b d Hb Ht Ha; [done|].
  cbn in HU, Hu. pose proof (dense_step b d s U u Hb Ht Ha HU Hu) as Hstep. cbn zeta in Hstep.
  cbn [dense_run]. destruct (denseSequence b s U u) as [seq b']. cbn [fst snd] in Hstep.
  cbn [run_ops do_op]. pose proof (Observe_key d (book_key s) seq) as Hk.
  destruct (Observe d (book_key s) seq) as [r d']. cbn [fst snd] in *.
  destruct Hstep as (Hb' & Ht' & Ha' & Hv & Hl & Hother). rewrite <- Ht' in Ht.
  specialize (IH b' d' Hb' Ht Ha'). destruct (run_ops d' (dense_run b' xs)) as [rs d'']. cbn [fst].
  rewrite verdicts_at_app. cbn [fst] in IH. rewrite IH. clear IH.
  unfold verdicts_at, ranges_of. change (option_list (Some r)) with [r].
  cbn [List.filter map fst].
  destruct (String.eqb_spec s sym) as [->|Hne].
  - rewrite bool_decide_eq_true_2 by done. cbn. rewrite Hl, Hv. by destruct (range_step _ U u).
  - rewrite bool_decide_eq_false_2 by (rewrite Hk; intros [=]; congruence). cbn.
    by rewrite Hother by congruence.
Qed.

(** ** Lemmas on frames *)

Lemma dec_members_app {A} (fs : fields A) cur m1 m2 :
  dec_members fs cur (m1 ++ m2) = (dec_members fs cur m1 ≫= fun c => dec_members fs c m2).
Proof.
  revert cur. induction m1 as [|[k v] m1 IH]; intros cur; [done|]. cbn.
  destruct (find_field fs k) as [d|]; [|by apply IH]. destruct (d cur v); [|done]. by apply IH.
Qed.

(** Two trades that differ at most in the deprecated flag. *)
Definition same_trade (t1 t2 : binanceTrade) : Prop :=
  mkBinanceTrade (bt_EventType t1) (bt_EventTimeMS t1) (bt_Symbol t1) (bt_TradeID t1)
    (bt_Price t1) (bt_Quantity t1) (bt_TradeTimeMS t1) (bt_BuyerIsMaker t1) false
  = mkBinanceTrade (bt_EventType t2) (bt_EventTimeMS t2) (bt_Symbol t2) (bt_TradeID t2)
      (bt_Price t2) (bt_Quantity t2) (bt_TradeTimeMS t2) (bt_BuyerIsMaker t2) false.

Definition opt_same (o1 o2 : option binanceTrade) : Prop :=
  match o1, o2 with
  | Some t1, Some t2 => same_trade t1 t2
  | None, None => True
  | _, _ => False
  end.

Definition respects_ignore (d : decoder binanceTrade) : Prop :=
  forall t1 t2 j, same_trade t1 t2 -> opt_same (d t1 j) (d t2 j).

Lemma trade_fields_respect : Forall (fun f => respects_ignore (snd f)) trade_fields.
Proof.
  unfold trade_fields, field.
  repeat apply List.Forall_cons; [..|apply List.Forall_nil]; cbn [snd];
    intros [] [] j [=]; subst; cbn -[ParseInt];
    destruct j; cbn -[ParseInt]; try done; by destruct (ParseInt lit 10).
Qed.

Lemma find_field_In {A} (fs : fields A) k d :
  find_field fs k = Some d -> exists n, In (n, d) fs.
Proof.
  unfold find_field. destruct (List.find _ fs) as [f|] eqn:E1.
  - intros [= <-]. apply find_some in E1 as [E1 _]. exists (fst f). by destruct f.
  - destruct (List.find _ fs) as [f|] eqn:E2 in |- *; [|done].
    intros [= <-]. apply find_some in E2 as [E2 _]. exists (fst f). by destruct f.
Qed.

Lemma dec_members_respects t1 t2 m :
  same_trade t1 t2 -> opt_same (dec_members trade_fields t1 m) (dec_members trade_fields t2 m).
Proof.
  revert t1 t2. induction m as [|[k v] m IH]; intros t1 t2 Ht; [done|]. cbn [dec_members].
  destruct (find_field trade_fields k) as [d|] eqn:E; [|by apply IH].
  apply find_field_In in E as [n Hd].
  pose proof (proj1 (Forall_forall _ _) trade_fields_respect (n, d)) as Hr.
  rewrite <- list_elem_of_In in Hd. specialize (Hr Hd t1 t2 v Ht). cbn in Hr.
  destruct (d t1 v), (d t2 v); try done. by apply IH.
Qed.

(** ** Lemmas on symbols *)

Section symbol_lemmas.
Context `{U : UnicodeMap}.

(** ASCII text without lower-case letters. *)
Definition upper_char (c : ascii) : bool := is_ascii_char c && Ascii.eqb (ascii_upper c) c.
Definition upper_text (s : string) : Prop := forallb upper_char (chars s) = true.

Lemma canon_char_upper c : is_ascii_char c = true -> upper_char (canon_char c) = true.
Proof. by destruct c as [[] [] [] [] [] [] [] []]. Qed.
Lemma upper_lower c : upper_char c = true -> ascii_upper (ascii_lower c) = c.
Proof. by destruct c as [[] [] [] [] [] [] [] []]. Qed.
Lemma upper_char_ascii c : upper_char c = true -> is_ascii_char c = true.
Proof. unfold upper_char. by intros [? _]%andb_true_iff. Qed.
Lemma upper_char_fix c : upper_char c = true -> ascii_upper c = c.
Proof. unfold upper_char. by intros [_ ?%Ascii.eqb_eq]%andb_true_iff. Qed.
Lemma ascii_lower_ascii c : is_ascii_char (ascii_lower c) = is_ascii_char c.
Proof. by destruct c as [[] [] [] [] [] [] [] []]. Qed.

Lemma upper_text_app s t : upper_text s -> upper_text t -> upper_text (s +:+ t).
Proof. unfold upper_text. str_simpl. rewrite forallb_app. by intros -> ->. Qed.

Lemma canonicalPair_upper s : is_ascii s = true -> upper_text (canonicalPair s).
Proof.
  intros Hs. rewrite canonicalPair_ascii by done. unfold upper_text. str_simpl.
  pose proof (ascii_chars_trim _ Hs) as Ht. unfold ascii_chars in Ht.
  rewrite forallb_forall in *. intros c (c' & <- & Hc)%in_map_iff. by apply canon_char_upper, Ht.
Qed.

Lemma BinanceSymbol_upper s : is_ascii s = true -> upper_text (BinanceSymbol s).
Proof.
  intros Hs. pose proof (canonicalPair_upper s Hs) as Hu. unfold BinanceSymbol, SplitN2.
  pose proof (cut_chars_spec "-"%char (chars (canonicalPair s))) as Hc.
  destruct (cut_chars _ _) as [[x y]|].
  - destruct Hc as [Hc _]. unfold upper_text in Hu. rewrite Hc, forallb_app in Hu. cbn in Hu.
    apply andb_true_iff in Hu as [Hx Hy]. apply upper_text_app.
    + unfold upper_text. by str_simpl.
    + unfold binanceQuoteAliases. destruct (String.eqb _ "USD"); [done|].
      unfold upper_text. by str_simpl.
  - unfold upper_text, remove_char in *. str_simpl. rewrite forallb_forall in *.
    intros c [Hc' _]%filter_In. auto.
Qed.

Lemma ToUpper_upper s : upper_text s -> ToUpper s = s.
Proof.
  intros Hs. unfold ToUpper. unfold upper_text in Hs. rewrite forallb_forall in Hs.
  assert (is_ascii s = true) as ->.
  { unfold is_ascii. rewrite forallb_forall. intros c Hc. by apply upper_char_ascii, Hs. }
  apply chars_inj. str_simpl. rewrite <- (map_id (chars s)) at 2. apply map_ext_in.
  intros c Hc. by apply upper_char_fix, Hs.
Qed.

Lemma ToUpper_ToLower s : upper_text s -> ToUpper (ToLower s) = s.
Proof.
  intros Hs. unfold ToUpper, ToLower. unfold upper_text in Hs. rewrite forallb_forall in Hs.
  assert (forall c, In c (chars s) -> is_ascii_char c = true) as Ha
    by (intros c Hc; by apply upper_char_ascii, Hs).
  assert (is_ascii s = true) as -> by (unfold is_ascii; by rewrite forallb_forall).
  assert (is_ascii (unchars (map ascii_lower (chars s))) = true) as ->.
  { unfold is_ascii. str_simpl. rewrite forallb_forall. intros c (c' & <- & Hc)%in_map_iff.
    rewrite ascii_lower_ascii. auto. }
  apply chars_inj. str_simpl. rewrite map_map. rewrite <- (map_id (chars s)) at 2.
  apply map_ext_in. intros c Hc. by apply upper_lower, Hs.
Qed.

Lemma fold_insert_lookup (f g : string -> string) syms (m : gmap string string) k v :
  (m !! k = Some v \/ exists s, In s syms /\ f s = k) ->
  (forall s, In s syms -> f s = k -> g s = v) ->
  fold_left (fun m s => <[f s := g s]> m) syms m !! k = Some v.
Proof.
  revert m. induction syms as [|s syms IH]; intros m Hm Hv; cbn.
  - by destruct Hm as [?|(? & [] & _)].
  - apply IH; [|by intros; apply Hv; [right|]].
    destruct (decide (f s = k)) as [<-|Hk].
    + left. rewrite lookup_insert_eq. f_equal. apply Hv; [by left|done].
    + destruct Hm as [Hm|(t & [->|Ht] & Hf)]; [|done|right; eauto].
      left. by rewrite lookup_insert_ne.
Qed.

Lemma canonFor_subscribed b v c : toCanon b !! ToUpper v = Some c -> canonFor b v = c.
Proof. unfold canonFor. by intros ->. Qed.

(** The fallback takes the first known quote that leaves a base. *)
Definition quote_fits (up q : string) : bool := HasSuffix up q && (str_len q <? str_len up)%nat.
Definition canonical_quote (q : string) : string := if String.eqb q "USDT" then "USD" else q.

Lemma suffix_split up q :
  HasSuffix up q = true -> up = str_take (str_len up - str_len q) up +:+ q.
Proof.
  intros [p ->]%HasSuffix_spec. rewrite str_len_app.
  replace (str_len p + str_len q - str_len q)%nat with (str_len p) by lia.
  by rewrite str_take_app.
Qed.

Lemma split_quote_spec up quotes :
  (exists q1 q q2, quotes = q1 ++ q :: q2 /\ quote_fits up q = true
     /\ forallb (fun q' => negb (quote_fits up q')) q1 = true
     /\ split_quote up quotes
        = str_take (str_len up - str_len q) up +:+ "-" +:+ canonical_quote q)
  \/ forallb (fun q' => negb (quote_fits up q')) quotes = true /\ split_quote up quotes = up.
Proof.
  induction quotes as [|q quotes IH]; [by right|]. cbn [split_quote].
  destruct (HasSuffix up q && _) eqn:E.
  - left. exists [], q, quotes. done.
  - destruct IH as [(q1 & q' & q2 & -> & Hq & Hq1 & Hs)|[Hq Hs]].
    + left. exists (q :: q1), q', q2. cbn. unfold quote_fits at 2. by rewrite E.
    + right. cbn. unfold quote_fits at 1. by rewrite E.
Qed.
End symbol_lemmas.

Lemma suffix_of_suffix up q q' :
  HasSuffix up q = true -> HasSuffix up q' = true -> (str_len q <= str_len q')%nat ->
  HasSuffix q' q = true.
Proof.
  intros [a Ha]%HasSuffix_spec [a' Ha']%HasSuffix_spec Hlen. apply HasSuffix_spec.
  exists (str_drop (str_len a') a).
  assert (str_len a' <= str_len a)%nat as Hle.
  { pose proof (f_equal str_len Ha) as H1. pose proof (f_equal str_len Ha') as H2.
    rewrite str_len_app in H1, H2. lia. }
  rewrite <- (str_drop_app a' q'), <- Ha', Ha. apply chars_inj. unfold str_drop. str_simpl.
  rewrite drop_app_le by (rewrite length_chars; lia). done.
Qed.

(** Every quote comes before the shorter ones that are its suffixes. *)
Fixpoint longest_first (quotes : list string) : bool :=
  match quotes with
  | [] => true
  | q :: quotes' =>
      forallb (fun q' => (str_len q' <=? str_len q)%nat || negb (HasSuffix q' q)) quotes'
      && longest_first quotes'
  end.

Lemma longest_first_app q1 q q2 q' :
  longest_first (q1 ++ q :: q2) = true -> In q' q2 ->
  (str_len q' <= str_len q)%nat \/ HasSuffix q' q = false.
Proof.
  intros H Hq. induction q1 as [|x q1 IH]; cbn in H.
  - apply andb_true_iff in H as [H _]. rewrite forallb_forall in H.
    specialize (H q' Hq). apply orb_true_iff in H as [H|H]; [left; by apply Nat.leb_le|right].
    by apply negb_true_iff.
  - apply andb_true_iff in H as [_ H]. by apply IH.
Qed.

(** ** Lemmas on decoding *)

Section decode_lemmas.
Context `{U : UnicodeMap}.

Lemma decodeTrade_no_panic b data now : decodeTrade b data now <> Panic.
Proof. unfold decodeTrade. auto 8 with tapeline. Qed.

Lemma decode_level_no_panic ctx lvl : decode_level ctx lvl <> Panic.
Proof. by destruct lvl as [|p [|q lvl]]. Qed.

Lemma decodeDepth_no_panic b data now : (decodeDepth b data now).1 <> Panic.
Proof.
  unfold decodeDepth. pose proof (UnmarshalRaw_no_panic (dec_struct depth_fields) zero_depth data).
  destruct (UnmarshalRaw _ _ data) as [d|e|]; cbn; [|done..].
  destruct (denseSequence _ _ _ _) as [seq b']. cbn.
  apply bind_no_panic; [apply map_res_no_panic; intros; apply decode_level_no_panic|].
  intros bids _. apply bind_no_panic; [|done].
  apply map_res_no_panic; intros; apply decode_level_no_panic.
Qed.

Lemma event_type_no_panic data : event_type data <> Panic.
Proof.
  unfold event_type. apply bind_no_panic; [auto with tapeline|]. intros probe _.
  destruct (probe !! _); auto with tapeline.
Qed.

Lemma binance_Decode_no_panic b raw now : (Decode b raw now).1 <> Panic.
Proof.
  unfold Decode. pose proof (Unmarshal_no_panic (dec_struct envelope_fields) zero_envelope raw).
  destruct (Unmarshal _ _ raw) as [env|e|]; cbn; [|done..].
  destruct (env_Error env); [done|]. destruct (env_Data env) as [j|]; [|done].
  pose proof (event_type_no_panic (Some j)). destruct (event_type _) as [ty|e|]; [|done..].
  destruct (String.eqb ty "trade"); [apply decodeTrade_no_panic|].
  destruct (String.eqb ty "depthUpdate"); [apply decodeDepth_no_panic|done].
Qed.

Lemma decodeTrade_events b data now evs :
  decodeTrade b data now = Ok evs -> events_ok VenueBinance evs.
Proof.
  unfold decodeTrade. intros H. inv_res. subst evs. repeat constructor.
Qed.

Lemma decodeDepth_events b data now evs :
  (decodeDepth b data now).1 = Ok evs -> events_ok VenueBinance evs.
Proof.
  unfold decodeDepth. destruct (wrap_err _ _) as [d|e|]; [|done..].
  destruct (denseSequence _ _ _ _) as [seq b']. cbn [fst]. intros H. inv_res. subst evs.
  repeat constructor.
Qed.

Lemma binance_Decode_events b raw now evs :
  (Decode b raw now).1 = Ok evs -> events_ok VenueBinance evs.
Proof.
  unfold Decode. destruct (wrap_err _ _) as [env|e|]; [|done..].
  destruct (env_Error env); [done|].
  destruct (env_Data env) as [j|]; [|intros [= <-]; constructor].
  destruct (event_type _) as [ty|e|]; [|done..].
  destruct (String.eqb ty "trade"); [apply decodeTrade_events|].
  destruct (String.eqb ty "depthUpdate"); [apply decodeDepth_events|].
  intros [= <-]; constructor.
Qed.
End decode_lemmas.

#[export] Instance binance_lawful `{UnicodeMap} : LawfulDecoder Binance Empty_set.
Proof.
  split.
  - apply binance_Decode_no_panic.
  - intros d raw now evs. apply binance_Decode_events.
  - done.
  - done.
Qed.

(** ** Properties *)

(** C35. The dense sequence makes the detector exact on the depth stream: whatever
    the interleaving of the books, every update of a book gets the verdict its
    id range deserves, and a break of the contiguity rule is reported as a gap
    with exactly the number of update ids that were skipped. *)
Theorem depth_gaps_exact `{UnicodeMap} syms depth xs sym :
  Forall update_ok xs ->
  verdicts_at (book_key sym) (run_ops Gap.New (dense_run (NewBinance syms depth) xs)).1
  = range_run None (ranges_of sym xs).
Proof.
  intros Hxs. rewrite dense_run_verdicts; [done| |done| |done].
  - apply map_Forall_empty.
  - intros sym'. cbn. unfold Last, setSymbols; cbn. by rewrite !lookup_empty.
Qed.

#[local] Existing Instance unicode_id.

Definition depth_example : list update :=
  [("BTC-USD", (100, 105)); ("ETH-USD", (7, 9)); ("BTC-USD", (106, 110)); ("BTC-USD", (115, 120));
   ("ETH-USD", (10, 10)); ("BTC-USD", (118, 120))].

Lemma depth_gaps_exact_witness :
  verdicts_at (book_key "BTC-USD")
    (run_ops Gap.New (dense_run (NewBinance ["BTC-USD"; "ETH-USD"] 0) depth_example)).1
  = range_run None (ranges_of "BTC-USD" depth_example)
  /\ range_run None (ranges_of "BTC-USD" depth_example)
     = [(StatusFirst, 0); (StatusOK, 0); (StatusGap, 4); (StatusDuplicate, 0)].
Proof.
  split; [|vm_compute; reflexivity].
  apply depth_gaps_exact. repeat constructor; vm_compute; congruence.
Defined.

(** A partial overlap loses ids without a trace: an update that starts at or
    below the last id and ends above it is suppressed as a duplicate although
    ids [last + 1 .. u] are new, and since the cursor moves to [u] the next
    update is in order, so no gap is ever reported. *)
Theorem partial_overlap_lost `{UnicodeMap} syms depth sym first U u u2 :
  0 <= U <= first -> first < u -> u < u2 < MaxInt64 ->
  verdicts_at (book_key sym)
    (run_ops Gap.New (dense_run (NewBinance syms depth)
       [(sym, (first, first)); (sym, (U, u)); (sym, (u + 1, u2))])).1
  = [(StatusFirst, 0); (StatusDuplicate, 0); (StatusOK, 0)].
Proof.
  intros HU Hu Hu2. rewrite dense_run_verdicts; [| |done| |].
  - unfold ranges_of. cbn. rewrite String.eqb_refl. cbn. rewrite lookup_empty. cbn.
    destruct (Z.ltb_spec (first + 1) U); [lia|]. destruct (Z.eqb_spec U (first + 1)); [lia|].
    rewrite Z.max_r by lia. rewrite Z.ltb_irrefl, Z.eqb_refl. done.
  - apply map_Forall_empty.
  - intros sym'. cbn. unfold Last, setSymbols; cbn. by rewrite !lookup_empty.
  - repeat constructor; cbn; lia.
Qed.

Lemma partial_overlap_lost_witness :
  verdicts_at (book_key "BTC-USD")
    (run_ops Gap.New (dense_run (NewBinance ["BTC-USD"] 0)
       [("BTC-USD", (10, 10)); ("BTC-USD", (8, 15)); ("BTC-USD", (15 + 1, 20))])).1
  = [(StatusFirst, 0); (StatusDuplicate, 0); (StatusOK, 0)].
Proof. apply (partial_overlap_lost ["BTC-USD"] 0 "BTC-USD" 10 8 15 20); [lia|lia|int_lia]. Defined.

(** A depth frame that decodes moves the cursor of its book whether or not its
    price levels are well formed; it yields exactly one event, which carries the
    dense sequence and the levels in order, if every level has a price and a
    size, and an error otherwise. *)
Theorem decodeDepth_spec `{UnicodeMap} b j d now :
  dec_struct depth_fields zero_depth j = Some d ->
  let sym := canonFor b (bde_Symbol d) in
  let step := denseSequence b sym (bde_FirstUpdateID d) (bde_FinalUpdateID d) in
  let full lvl := negb (length lvl <? 2)%nat in
  let levels := map (fun lvl => mkLevel (mustFloat (nth 0 lvl "")) (mustFloat (nth 1 lvl ""))) in
  (decodeDepth b (Some j) now).2 = step.2
  /\ if forallb full (bde_Bids d) && forallb full (bde_Asks d)
     then exists book,
       (decodeDepth b (Some j) now).1
       = Ok [mkEvent KindBookDelta VenueBinance sym step.1 None (Some book) None]
       /\ bd_Bids book = levels (bde_Bids d) /\ bd_Asks book = levels (bde_Asks d)
       /\ bd_Sequence book = step.1 /\ bd_IsSnapshot book = false
     else exists e, (decodeDepth b (Some j) now).1 = Err e.
Proof.
  intros Hd. cbn zeta. unfold decodeDepth, UnmarshalRaw. rewrite Hd. cbn [of_option wrap_err].
  destruct (denseSequence _ _ _ _) as [seq b']. cbn [fst snd]. split; [done|].
  assert (forall ctx ls, map_res (decode_level ctx) ls
            = if forallb (fun lvl => negb (length lvl <? 2)%nat) ls
              then Ok (map (fun lvl => mkLevel (mustFloat (nth 0 lvl "")) (mustFloat (nth 1 lvl ""))) ls)
              else Err (EMsg ctx)) as Hls.
  { intros ctx ls. induction ls as [|lvl ls IH]; [done|]. cbn [map_res forallb].
    destruct lvl as [|p [|q lvl]]; [done|done|]. cbn -[mustFloat map_res].
    rewrite IH. by destruct (forallb _ ls). }
  rewrite !Hls. destruct (forallb _ (bde_Bids d)); cbn -[mustFloat]; [|eauto].
  destruct (forallb _ (bde_Asks d)); cbn -[mustFloat]; [|eauto].
  eexists. split; [reflexivity|]. done.
Qed.

Definition depth_json : json :=
  JObj [("e", JStr "depthUpdate"); ("E", JNum "12"); ("s", JStr "BTCUSDT"); ("U", JNum "101");
        ("u", JNum "107"); ("b", JArr [JArr [JStr "1.5"]]); ("a", JArr [])].

Lemma decodeDepth_spec_witness :
  bookSeq (decodeDepth (NewBinance ["BTC-USD"] 0) (Some depth_json) 5000).2 !! ("BTC-USD" : string)
  = Some (mkCursor 107 0 true)
  /\ exists e, (decodeDepth (NewBinance ["BTC-USD"] 0) (Some depth_json) 5000).1 = Err e.
Proof.
  split; [vm_compute; reflexivity|].
  exact (proj2 (decodeDepth_spec (NewBinance ["BTC-USD"] 0) depth_json
           (mkBinanceDepth "depthUpdate" 12 "BTCUSDT" 101 107 [["1.5"]] []) 5000 eq_refl)).
Defined.

(** A subscribed pair round-trips: the symbol Binance was asked for, in either
    case, comes back as the canonical pair, if no other subscribed pair maps to
    the same Binance symbol. *)
Theorem subscribed_symbol_roundtrip `{UnicodeMap} syms depth s :
  In s syms -> is_ascii s = true ->
  (forall t, In t syms -> BinanceSymbol t = BinanceSymbol s -> canonicalPair t = canonicalPair s) ->
  canonFor (NewBinance syms depth) (BinanceSymbol s) = canonicalPair s
  /\ canonFor (NewBinance syms depth) (ToLower (BinanceSymbol s)) = canonicalPair s.
Proof.
  intros Hin Hs Hinj. pose proof (BinanceSymbol_upper s Hs) as Hup.
  assert (toCanon (NewBinance syms depth) !! BinanceSymbol s = Some (canonicalPair s)) as Hl.
  { apply fold_insert_lookup; [right; eauto|done]. }
  split; apply canonFor_subscribed; [by rewrite ToUpper_upper|by rewrite ToUpper_ToLower].
Qed.

Lemma subscribed_symbol_roundtrip_witness :
  canonFor (NewBinance ["BTC-USD"; "eth/usdc"] 100) (BinanceSymbol "eth/usdc") = "ETH-USDC"
  /\ canonFor (NewBinance ["BTC-USD"; "eth/usdc"] 100) (ToLower (BinanceSymbol "eth/usdc")) = "ETH-USDC".
Proof.
  apply (subscribed_symbol_roundtrip ["BTC-USD"; "eth/usdc"] 100 "eth/usdc");
    [right; by left|reflexivity|].
  intros t [<-|[<-|[]]]; [intros [=]|done].
Defined.

(** The hypothesis is needed: BTC-USD and BTC-USDT share a Binance symbol, and
    the later subscription names the events of both. *)
Theorem symbol_collision `{UnicodeMap} depth :
  BinanceSymbol "BTC-USD" = BinanceSymbol "BTC-USDT"
  /\ canonFor (NewBinance ["BTC-USD"; "BTC-USDT"] depth) "BTCUSDT" = "BTC-USDT"
  /\ canonFor (NewBinance ["BTC-USDT"; "BTC-USD"] depth) "BTCUSDT" = "BTC-USD".
Proof. by vm_compute. Qed.

(** A symbol that was not subscribed to is split at the longest known quote
    that leaves a base, with USDT read back as USD; without one it is passed on in
    upper case. *)
Theorem fallback_longest_quote `{UnicodeMap} b v :
  toCanon b !! ToUpper v = None ->
  (exists base q, ToUpper v = base +:+ q /\ base <> "" /\ In q binanceKnownQuotes
     /\ canonFor b v = base +:+ "-" +:+ canonical_quote q
     /\ forall q' base', In q' binanceKnownQuotes -> ToUpper v = base' +:+ q' -> base' <> "" ->
          (str_len q' <= str_len q)%nat)
  \/ ((forall q base, In q binanceKnownQuotes -> ToUpper v = base +:+ q -> base = "")
      /\ canonFor b v = ToUpper v).
Proof.
  intros Hv. unfold canonFor. rewrite Hv. set (up := ToUpper v).
  assert (forall q base, up = base +:+ q -> base <> "" -> quote_fits up q = true) as Hfit.
  { intros q base -> Hb. unfold quote_fits. rewrite (proj2 (HasSuffix_spec _ _)) by eauto.
    rewrite str_len_app. apply Nat.ltb_lt. destruct base; [done|]. cbn. lia. }
  destruct (split_quote_spec up binanceKnownQuotes) as [(q1 & q & q2 & Hk & Hq & Hq1 & ->)|[Hq ->]].
  - left. pose proof Hq as [Hs Hlen%Nat.ltb_lt]%andb_true_iff.
    pose proof (suffix_split up q Hs) as Hup. eexists _, q. split; [exact Hup|].
    split; [|split; [|split; [done|]]].
    + intros Hb. rewrite Hb in Hup. rewrite Hup in Hlen. rewrite str_len_app in Hlen. cbn in Hlen. lia.
    + rewrite Hk. apply in_elt.
    + intros q' base' Hin Hup' Hb'. pose proof (Hfit q' base' Hup' Hb') as Hf.
      rewrite Hk in Hin. apply in_app_or in Hin as [Hin|[<-|Hin]]; [|done|].
      * rewrite forallb_forall in Hq1. specialize (Hq1 q' Hin). by rewrite Hf in Hq1.
      * destruct (longest_first_app q1 q q2 q') as [?|Hns]; [by rewrite <- Hk|done|done|].
        apply andb_true_iff in Hf as [Hs' _].
        destruct (Nat.le_gt_cases (str_len q') (str_len q)); [done|].
        rewrite (suffix_of_suffix up) in Hns by (done || lia). done.
  - right. split; [|done]. intros q base Hin Hup. rewrite forallb_forall in Hq.
    specialize (Hq q Hin). destruct (decide (base = "")); [done|].
    by rewrite (Hfit q base) in Hq.
Qed.

Lemma fallback_longest_quote_witness :
  let b := NewBinance ["BTC-USD"] 100 in
  (exists base q, ToUpper "solfdusd" = base +:+ q /\ base <> "" /\ In q binanceKnownQuotes
     /\ canonFor b "solfdusd" = base +:+ "-" +:+ canonical_quote q
     /\ forall q' base', In q' binanceKnownQuotes -> ToUpper "solfdusd" = base' +:+ q' ->
          base' <> "" -> (str_len q' <= str_len q)%nat)
  \/ ((forall q base, In q binanceKnownQuotes -> ToUpper "solfdusd" = base +:+ q -> base = "")
      /\ canonFor b "solfdusd" = ToUpper "solfdusd").
Proof. exact (fallback_longest_quote (NewBinance ["BTC-USD"] 100) "solfdusd" eq_refl). Defined.

(** The deprecated flag M never reaches the aggressor side: a trade decodes to
    the same event with and without it, wherever it stands in the object. *)
Theorem deprecated_flag_ignored `{UnicodeMap} b m1 m2 v now :
  decodeTrade b (Some (JObj (m1 ++ ("M", JBool v) :: m2))) now
  = decodeTrade b (Some (JObj (m1 ++ m2))) now.
Proof.
  unfold decodeTrade, UnmarshalRaw. cbn [dec_struct].
  rewrite !dec_members_app. destruct (dec_members trade_fields zero_trade m1) as [t|]; [|done].
  cbn [mbind option_bind].
  assert (dec_members trade_fields t (("M", JBool v) :: m2)
          = dec_members trade_fields
              (mkBinanceTrade (bt_EventType t) (bt_EventTimeMS t) (bt_Symbol t) (bt_TradeID t)
                 (bt_Price t) (bt_Quantity t) (bt_TradeTimeMS t) (bt_BuyerIsMaker t) v) m2) as ->
    by (by destruct t).
  match goal with |- context [dec_members trade_fields ?t' m2] =>
    pose proof (dec_members_respects t' t m2 eq_refl) as Hsame end.
  destruct (dec_members _ _ m2) as [t1|], (dec_members _ t m2) as [t2|]; [|done|done|done].
  cbn in Hsame. destruct t1, t2. injection Hsame as -> -> -> -> -> -> -> ->. done.
Qed.
