(* ===== verification/Coinbase.v ===== *)
(** * Package [internal/venue], [coinbase.go]: the Coinbase adapter

    A frame is an envelope with a per-connection sequence number and a batch of
    events; the sequence goes to the first event of the frame. *)

From S2P Require Import Prelude.
From S2P Require Import GoStrings.
From S2P Require Import GoStrconv.
From S2P Require Import GoJson.
From S2P Require Import Model.
From S2P Require Import Venue.

Local Open Scope Z_scope.

Definition VenueCoinbase : string := "coinbase".

Record Coinbase := mkCoinbase { cb_symbols : list string }.

Definition NewCoinbase (symbols : list string) : Coinbase := mkCoinbase symbols.
Definition Name (c : Coinbase) : string := VenueCoinbase.
Definition URL (c : Coinbase) : string := "wss://advanced-trade-ws.coinbase.com".

Record coinbaseSubscribe := mkSubscribe {
  sub_Type : string; sub_ProductIDs : list string; sub_Channel : string }.

Definition Subscriptions `{UnicodeMap} (c : Coinbase) (symbols : list string)
    : list coinbaseSubscribe * Coinbase :=
  let c := match symbols with [] => c | _ => mkCoinbase symbols end in
  let products := map canonicalPair (cb_symbols c) in
  ([mkSubscribe "subscribe" products "market_trades"; mkSubscribe "subscribe" products "level2"], c).

(** ** Frames *)

Record coinbaseEnvelope := mkEnvelope {
  env_Channel : string; env_Timestamp : string; env_SequenceNum : Z;
  env_Events : option json; env_Type : string; env_Message : string }.

Definition envelope_fields : fields coinbaseEnvelope :=
  [ field "channel" dec_string env_Channel (fun v '(mkEnvelope _ b c d e f) => mkEnvelope v b c d e f);
    field "timestamp" dec_string env_Timestamp (fun v '(mkEnvelope a _ c d e f) => mkEnvelope a v c d e f);
    field "sequence_num" dec_int64 env_SequenceNum
      (fun v '(mkEnvelope a b _ d e f) => mkEnvelope a b v d e f);
    field "events" dec_raw env_Events (fun v '(mkEnvelope a b c _ e f) => mkEnvelope a b c v e f);
    field "type" dec_string env_Type (fun v '(mkEnvelope a b c d _ f) => mkEnvelope a b c d v f);
    field "message" dec_string env_Message (fun v '(mkEnvelope a b c d e _) => mkEnvelope a b c d e v) ].
Definition zero_envelope : coinbaseEnvelope := mkEnvelope "" "" 0 None "" "".

Record coinbaseTrade := mkCbTrade {
  ct_TradeID : string; ct_ProductID : string; ct_Price : string; ct_Size : string;
  ct_Side : string; ct_Time : string }.
Record coinbaseTradeEvent := mkTradeEvent { te_Type : string; te_Trades : list coinbaseTrade }.

Definition trade_fields : fields coinbaseTrade :=
  [ field "trade_id" dec_string ct_TradeID (fun v '(mkCbTrade _ b c d e f) => mkCbTrade v b c d e f);
    field "product_id" dec_string ct_ProductID (fun v '(mkCbTrade a _ c d e f) => mkCbTrade a v c d e f);
    field "price" dec_string ct_Price (fun v '(mkCbTrade a b _ d e f) => mkCbTrade a b v d e f);
    field "size" dec_string ct_Size (fun v '(mkCbTrade a b c _ e f) => mkCbTrade a b c v e f);
    field "side" dec_string ct_Side (fun v '(mkCbTrade a b c d _ f) => mkCbTrade a b c d v f);
    field "time" dec_string ct_Time (fun v '(mkCbTrade a b c d e _) => mkCbTrade a b c d e v) ].
Definition trade_event_fields : fields coinbaseTradeEvent :=
  [ field "type" dec_string te_Type (fun v e => mkTradeEvent v (te_Trades e));
    field "trades" (dec_slice (mkCbTrade "" "" "" "" "" "") (dec_struct trade_fields)) te_Trades
      (fun v e => mkTradeEvent (te_Type e) v) ].

Record coinbaseUpdate := mkUpdate {
  up_Side : string; up_EventTime : string; up_PriceLevel : string; up_NewQuantity : string }.
Record coinbaseL2Event := mkL2Event {
  l2_Type : string; l2_ProductID : string; l2_Updates : list coinbaseUpdate }.

Definition update_fields : fields coinbaseUpdate :=
  [ field "side" dec_string up_Side (fun v '(mkUpdate _ b c d) => mkUpdate v b c d);
    field "event_time" dec_string up_EventTime (fun v '(mkUpdate a _ c d) => mkUpdate a v c d);
    field "price_level" dec_string up_PriceLevel (fun v '(mkUpdate a b _ d) => mkUpdate a b v d);
    field "new_quantity" dec_string up_NewQuantity (fun v '(mkUpdate a b c _) => mkUpdate a b c v) ].
Definition l2_event_fields : fields coinbaseL2Event :=
  [ field "type" dec_string l2_Type (fun v '(mkL2Event _ b c) => mkL2Event v b c);
    field "product_id" dec_string l2_ProductID (fun v '(mkL2Event a _ c) => mkL2Event a v c);
    field "updates" (dec_slice (mkUpdate "" "" "" "") (dec_struct update_fields)) l2_Updates
      (fun v '(mkL2Event a b _) => mkL2Event a b v) ].

(** ** Decode *)

Section decode.
Context `{UnicodeMap}.

(** The sequence of an event, by whether it is the first of its frame. *)
Definition seqFor (env : coinbaseEnvelope) (first : bool) : Z :=
  if first then env_SequenceNum env else NoSequence.

(** The body of the loop over trades. *)
Definition decode_trade (env : coinbaseEnvelope) (now : time) (first : bool) (t : coinbaseTrade)
    : res Event :=
  let sym := canonicalPair (ct_ProductID t) in
  price ← parseFloat_res "coinbase trade price" (ct_Price t);
  size ← parseFloat_res "coinbase trade size" (ct_Size t);
  let seq := seqFor env first in
  Ok (mkEvent KindTrade VenueCoinbase sym seq
        (Some (mkTrade VenueCoinbase sym (ct_TradeID t) price size (NormalizeSide (ct_Side t))
                 (parseRFC3339Micros (ct_Time t) now) (UnixMicro now) seq)) None None).

(** The inner loop: appends to [out] and threads [firstOfFrame]. *)
Fixpoint trades_loop (env : coinbaseEnvelope) (now : time) (ts : list coinbaseTrade)
    (first : bool) (out : list Event) : res (bool * list Event) :=
  match ts with
  | [] => Ok (first, out)
  | t :: ts' =>
      ev ← decode_trade env now first t;
      trades_loop env now ts' false (out ++ [ev])
  end.

Fixpoint events_loop (env : coinbaseEnvelope) (now : time) (evs : list coinbaseTradeEvent)
    (first : bool) (out : list Event) : res (list Event) :=
  match evs with
  | [] => Ok out
  | ev :: evs' =>
      '(first, out) ← trades_loop env now (te_Trades ev) first out;
      events_loop env now evs' first out
  end.

Definition decodeTrades (env : coinbaseEnvelope) (now : time) : res (list Event) :=
  events ← wrap_err "coinbase market_trades"
    (UnmarshalRaw (dec_slice (mkTradeEvent "" []) (dec_struct trade_event_fields)) []
       (env_Events env));
  events_loop env now events true [].

(** The loop over the updates of one book. *)
Fixpoint updates_loop (us : list coinbaseUpdate) (bids asks : list Level)
    : list Level * list Level :=
  match us with
  | [] => (bids, asks)
  | u :: us' =>
      let lvl := mkLevel (mustFloat (up_PriceLevel u)) (mustFloat (up_NewQuantity u)) in
      if String.eqb (NormalizeSide (up_Side u)) SideBuy
      then updates_loop us' (bids ++ [lvl]) asks
      else updates_loop us' bids (asks ++ [lvl])
  end.

Fixpoint l2_loop (env : coinbaseEnvelope) (now : time) (evs : list coinbaseL2Event)
    (first : bool) (out : list Event) : list Event :=
  match evs with
  | [] => out
  | ev :: evs' =>
      match l2_Updates ev with
      | [] => l2_loop env now evs' first out
      | u0 :: _ =>
          let sym := canonicalPair (l2_ProductID ev) in
          let seq := if first then env_SequenceNum env else NoSequence in
          let '(bids, asks) := updates_loop (l2_Updates ev) [] [] in
          let delta := mkBookDelta VenueCoinbase sym (String.eqb (l2_Type ev) "snapshot")
                         bids asks (parseRFC3339Micros (up_EventTime u0) now)
                         (UnixMicro now) seq in
          l2_loop env now evs' false
            (out ++ [mkEvent KindBookDelta VenueCoinbase sym seq None (Some delta) None])
      end
  end.

Definition decodeL2 (env : coinbaseEnvelope) (now : time) : res (list Event) :=
  events ← wrap_err "coinbase l2_data"
    (UnmarshalRaw (dec_slice (mkL2Event "" "" []) (dec_struct l2_event_fields)) []
       (env_Events env));
  Ok (l2_loop env now events true []).

Definition Decode (c : Coinbase) (raw : string) (now : time) : res (list Event) :=
  env ← wrap_err "coinbase envelope" (Unmarshal (dec_struct envelope_fields) zero_envelope raw);
  if String.eqb (env_Channel env) "market_trades" then decodeTrades env now
  else if String.eqb (env_Channel env) "l2_data" then decodeL2 env now
  else if existsb (String.eqb (env_Channel env)) ["subscriptions"; "heartbeats"; ""] then
    if String.eqb (env_Type env) "error" then Err (EMsg "coinbase error frame") else Ok []
  else Ok [].
End decode.

#[export] Instance coinbase_decoder `{UnicodeMap} : Decoder Coinbase coinbaseSubscribe := {|
  dec_Name := Name; dec_URL := URL; dec_Subscriptions := Subscriptions;
  dec_Decode := fun c raw now => (Decode c raw now, c) |}.

(** ** Specification

    A frame as one list: its trades (book updates) in order, the first of them
    sequenced. *)
Definition frame_seqs (seq : Z) (n : nat) : list Z :=
  match n with O => [] | S n' => seq :: repeat NoSequence n' end.

Definition is_bid (u : coinbaseUpdate) : bool := String.eqb (NormalizeSide (up_Side u)) SideBuy.
Definition level_of (u : coinbaseUpdate) : Level :=
  mkLevel (mustFloat (up_PriceLevel u)) (mustFloat (up_NewQuantity u)).

Section spec.
Context `{UnicodeMap}.

Definition trades_spec (env : coinbaseEnvelope) (now : time) (first : bool)
    (ts : list coinbaseTrade) : res (list Event) :=
  match ts with
  | [] => Ok []
  | t :: ts' =>
      e ← decode_trade env now first t;
      es ← map_res (decode_trade env now false) ts'; Ok (e :: es)
  end.

Definition delta_of (now : time) (seq : Z) (ev : coinbaseL2Event) : Event :=
  let sym := canonicalPair (l2_ProductID ev) in
  mkEvent KindBookDelta VenueCoinbase sym seq None
    (Some (mkBookDelta VenueCoinbase sym (String.eqb (l2_Type ev) "snapshot")
             (map level_of (List.filter is_bid (l2_Updates ev)))
             (map level_of (List.filter (fun u => negb (is_bid u)) (l2_Updates ev)))
             (parseRFC3339Micros (match l2_Updates ev with u :: _ => up_EventTime u | [] => "" end) now)
             (UnixMicro now) seq)) None.

Definition has_updates (ev : coinbaseL2Event) : bool :=
  match l2_Updates ev with [] => false | _ => true end.

Definition deltas_spec (env : coinbaseEnvelope) (now : time) (evs : list coinbaseL2Event)
    : list Event :=
  match List.filter has_updates evs with
  | [] => []
  | ev :: evs' => delta_of now (env_SequenceNum env) ev :: map (delta_of now NoSequence) evs'
  end.

(** ** Lemmas *)

Lemma trades_loop_spec env now ts first out :
  trades_loop env now ts first out
  = (es ← trades_spec env now first ts;
     Ok (match ts with [] => first | _ => false end, out ++ es)).
Proof.
  revert first out. induction ts as [|t ts IH]; intros first out; cbn [trades_loop trades_spec].
  { cbn. by rewrite app_nil_r. }
  destruct (decode_trade env now first t) as [ev|e|]; cbn; [|done..]. rewrite IH.
  destruct ts as [|t' ts]; cbn; [by rewrite app_nil_r|].
  destruct (decode_trade env now false t') as [ev'|e|]; cbn; [|done..].
  destruct (map_res _ ts); cbn; [|done..]. by rewrite <- (assoc_L (++)).
Qed.

Lemma trades_spec_app env now first ts ts' :
  trades_spec env now first (ts ++ ts')
  = (es ← trades_spec env now first ts;
     es' ← trades_spec env now (match ts with [] => first | _ => false end) ts'; Ok (es ++ es')).
Proof.
  destruct ts as [|t ts]; cbn; [by destruct (trades_spec env now first ts')|].
  destruct (decode_trade env now first t) as [e|e|]; cbn; [|done..].
  assert (trades_spec env now false ts' = map_res (decode_trade env now false) ts') as ->
    by (by destruct ts').
  rewrite map_res_app. destruct (map_res _ ts); cbn; [|done..]. by destruct (map_res _ ts').
Qed.

Lemma events_loop_spec env now evs first out :
  events_loop env now evs first out
  = (es ← trades_spec env now first (flat_map te_Trades evs); Ok (out ++ es)).
Proof.
  revert first out. induction evs as [|ev evs IH]; intros first out.
  { cbn. by rewrite app_nil_r. }
  cbn [events_loop flat_map]. rewrite trades_loop_spec, trades_spec_app.
  destruct (trades_spec env now first (te_Trades ev)) as [es|e|]; cbn; [|done..].
  rewrite IH. destruct (trades_spec env now _ (flat_map te_Trades evs)); cbn; [|done..].
  by rewrite <- (assoc_L (++)).
Qed.

Lemma updates_loop_spec us bids asks :
  updates_loop us bids asks
  = (bids ++ map level_of (List.filter is_bid us),
     asks ++ map level_of (List.filter (fun u => negb (is_bid u)) us)).
Proof.
  revert bids asks. induction us as [|u us IH]; intros bids asks; cbn [updates_loop].
  { cbn. by rewrite !app_nil_r. }
  cbn [List.filter]. fold (is_bid u). destruct (is_bid u); rewrite IH; cbn [negb map];
    by rewrite <- (assoc_L (++)).
Qed.

Lemma l2_loop_spec env now evs first out :
  l2_loop env now evs first out
  = out ++ match List.filter has_updates evs with
           | [] => []
           | ev :: evs' => delta_of now (if first then env_SequenceNum env else NoSequence) ev
                           :: map (delta_of now NoSequence) evs'
           end.
Proof.
  revert first out. induction evs as [|ev evs IH]; intros first out.
  { cbn. by rewrite app_nil_r. }
  cbn [l2_loop List.filter]. unfold has_updates at 1.
  destruct (l2_Updates ev) as [|u us] eqn:Hu; [by apply IH|].
  rewrite updates_loop_spec. cbn [app]. rewrite IH, <- (assoc_L (++)). f_equal. cbn [app]. f_equal.
  - unfold delta_of. by rewrite Hu.
  - destruct (List.filter has_updates evs); [done|]. cbn [map]. done.
Qed.

Lemma decode_trade_seq env now first t ev :
  decode_trade env now first t = Ok ev ->
  ev_Sequence ev = seqFor env first /\ ev_Venue ev = VenueCoinbase /\ event_wf ev.
Proof. unfold decode_trade. intros Hd. inv_res. subst ev. done. Qed.

Lemma trades_spec_seqs env now ts es :
  trades_spec env now true ts = Ok es ->
  map ev_Sequence es = frame_seqs (env_SequenceNum env) (length es)
  /\ events_ok VenueCoinbase es.
Proof.
  destruct ts as [|t ts]; cbn; [intros [= <-]; split; [done|constructor]|].
  intros (e & He & (es' & Hes & [= <-])%bind_Ok)%bind_Ok.
  apply decode_trade_seq in He as (Hs & Hv & Hw). apply map_res_Ok in Hes.
  assert (map ev_Sequence es' = repeat NoSequence (length es') /\ events_ok VenueCoinbase es')
    as [Hseq Hok].
  { induction Hes as [|t' e' ts' es'' He' _ [IH1 IH2]]; [split; [done|constructor]|].
    apply decode_trade_seq in He' as (Hs' & ? & ?). cbn. rewrite Hs', IH1. split; [done|].
    constructor; [done|exact IH2]. }
  cbn. rewrite Hs, Hseq. split; [done|]. constructor; [done|exact Hok].
Qed.

Lemma deltas_spec_seqs env now evs :
  map ev_Sequence (deltas_spec env now evs)
  = frame_seqs (env_SequenceNum env) (length (deltas_spec env now evs))
  /\ events_ok VenueCoinbase (deltas_spec env now evs).
Proof.
  unfold deltas_spec. destruct (List.filter has_updates evs) as [|ev evs']; [split; [done|constructor]|].
  cbn. assert (map ev_Sequence (map (delta_of now NoSequence) evs')
    = repeat NoSequence (length (map (delta_of now NoSequence) evs'))
    /\ events_ok VenueCoinbase (map (delta_of now NoSequence) evs')) as [-> Hok].
  { induction evs' as [|e' evs' [IH1 IH2]]; [split; [done|constructor]|].
    cbn. rewrite IH1. split; [done|]. constructor; [done|exact IH2]. }
  split; [done|]. constructor; [done|exact Hok].
Qed.

Lemma decodeTrades_spec env now :
  decodeTrades env now
  = (events ← wrap_err "coinbase market_trades"
       (UnmarshalRaw (dec_slice (mkTradeEvent "" []) (dec_struct trade_event_fields)) []
          (env_Events env));
     trades_spec env now true (flat_map te_Trades events)).
Proof.
  unfold decodeTrades. destruct (wrap_err _ _) as [events|e|]; cbn; [|done..].
  rewrite events_loop_spec. by destruct (trades_spec _ _ _ _).
Qed.

Lemma decodeL2_spec env now :
  decodeL2 env now
  = (events ← wrap_err "coinbase l2_data"
       (UnmarshalRaw (dec_slice (mkL2Event "" "" []) (dec_struct l2_event_fields)) []
          (env_Events env));
     Ok (deltas_spec env now events)).
Proof.
  unfold decodeL2. destruct (wrap_err _ _) as [events|e|]; cbn; [|done..].
  by rewrite l2_loop_spec.
Qed.

Lemma Decode_frame c raw now evs :
  Decode c raw now = Ok evs ->
  exists env, Unmarshal (dec_struct envelope_fields) zero_envelope raw = Ok env
    /\ map ev_Sequence evs = frame_seqs (env_SequenceNum env) (length evs)
    /\ events_ok VenueCoinbase evs.
Proof.
  unfold Decode. destruct (Unmarshal _ _ raw) as [env|e|]; cbn [wrap_err mbind res_bind]; [|done..].
  intros Hd. exists env. split; [done|].
  destruct (String.eqb _ "market_trades").
  { rewrite decodeTrades_spec in Hd. apply bind_Ok in Hd as (events & _ & Hd).
    by apply trades_spec_seqs in Hd. }
  destruct (String.eqb _ "l2_data").
  { rewrite decodeL2_spec in Hd. apply bind_Ok in Hd as (events & _ & [= <-]).
    apply deltas_spec_seqs. }
  destruct (existsb _ _); [destruct (String.eqb _ "error"); [done|]|].
  all: injection Hd as <-; split; [done|constructor].
Qed.

Lemma coinbase_Decode_no_panic c raw now : Decode c raw now <> Panic.
Proof.
  unfold Decode. apply bind_no_panic; [auto with tapeline|]. intros env _.
  destruct (String.eqb _ "market_trades").
  { rewrite decodeTrades_spec. apply bind_no_panic; [auto with tapeline|]. intros events _.
    assert (forall first t, decode_trade env now first t <> Panic) as Hd.
    { intros. unfold decode_trade. auto 8 with tapeline. }
    unfold trades_spec. destruct (flat_map te_Trades events) as [|t ts]; [done|].
    apply bind_no_panic; [apply Hd|]. intros e _.
    apply bind_no_panic; [apply map_res_no_panic; intros; apply Hd|done]. }
  destruct (String.eqb _ "l2_data").
  { rewrite decodeL2_spec. apply bind_no_panic; [auto with tapeline|done]. }
  destruct (existsb _ _); [destruct (String.eqb _ "error")|]; done.
Qed.
End spec.

#[export] Instance coinbase_lawful `{UnicodeMap} : LawfulDecoder Coinbase coinbaseSubscribe.
Proof.
  split.
  - intros c raw now. exact (coinbase_Decode_no_panic c raw now).
  - intros d raw now evs Hd. by apply (Decode_frame d) in Hd as (? & _ & _ & ?).
  - done.
  - done.
Qed.

(** ** Properties *)

(** One sequence number per frame: of the events a frame decodes to, the first
    carries the sequence number of the envelope and the rest are unsequenced, so
    a frame never makes its own events look like duplicates; all of them are well
    formed events of this venue. *)
Theorem coinbase_frame_sequence `{UnicodeMap} c raw now evs :
  Decode c raw now = Ok evs ->
  exists env, Unmarshal (dec_struct envelope_fields) zero_envelope raw = Ok env
    /\ map ev_Sequence evs = frame_seqs (env_SequenceNum env) (length evs)
    /\ events_ok VenueCoinbase evs.
Proof. apply Decode_frame. Qed.

#[local] Existing Instance unicode_id.

Definition trades_frame : string :=
  dq "{'channel':'market_trades','sequence_num':7,'events':[{'type':'update','trades':[
      {'trade_id':'12','product_id':'ETH-USD','price':'1260.5','size':'0.3','side':'BUY'},
      {'trade_id':'13','product_id':'ETH-USD','price':'1260.5','size':'0.1','side':'SELL'}]},
      {'trades':[{'trade_id':'14','product_id':'btc/usd','price':'2','size':'1','side':'SELL'}]}]}".

Definition trades_frame_events : list Event :=
  match Decode (NewCoinbase []) trades_frame 5000 with Ok evs => evs | _ => [] end.

Lemma coinbase_frame_sequence_witness :
  (exists env, Unmarshal (dec_struct envelope_fields) zero_envelope trades_frame = Ok env
    /\ map ev_Sequence trades_frame_events
       = frame_seqs (env_SequenceNum env) (length trades_frame_events)
    /\ events_ok VenueCoinbase trades_frame_events)
  /\ map ev_Sequence trades_frame_events = [7; -1; -1].
Proof.
  split; [|vm_compute; reflexivity].
  apply (coinbase_frame_sequence (NewCoinbase []) trades_frame 5000). vm_compute. reflexivity.
Defined.

(** A trade frame is all or nothing and keeps the order: its events are the
    trades of all its batches, one event per trade; one trade whose price or size
    is not a number rejects the whole frame. *)
Theorem coinbase_trades_in_order `{UnicodeMap} env now j events :
  env_Events env = Some j ->
  dec_slice (mkTradeEvent "" []) (dec_struct trade_event_fields) [] j = Some events ->
  let ts := flat_map te_Trades events in
  if forallb (fun t => match parseFloat (ct_Price t), parseFloat (ct_Size t) with
                       | (_, None), (_, None) => true | _, _ => false end) ts
  then exists evs, decodeTrades env now = Ok evs
    /\ map (fun e => tr_TradeID <$> ev_Trade e) evs = map (fun t => Some (ct_TradeID t)) ts
    /\ map (fun e => tr_Side <$> ev_Trade e) evs = map (fun t => Some (NormalizeSide (ct_Side t))) ts
    /\ map ev_Symbol evs = map (fun t => canonicalPair (ct_ProductID t)) ts
  else exists e, decodeTrades env now = Err e.
Proof.
  intros He Hd. cbn zeta. rewrite decodeTrades_spec, He. cbn [UnmarshalRaw]. rewrite Hd.
  cbn [of_option wrap_err mbind res_bind]. set (ts := flat_map te_Trades events).
  set (good := fun t : coinbaseTrade => _).
  assert (forall first t, if good t then exists ev, decode_trade env now first t = Ok ev
            /\ tr_TradeID <$> ev_Trade ev = Some (ct_TradeID t)
            /\ tr_Side <$> ev_Trade ev = Some (NormalizeSide (ct_Side t))
            /\ ev_Symbol ev = canonicalPair (ct_ProductID t)
          else exists e, decode_trade env now first t = Err e) as Hone.
  { intros first t. unfold good, decode_trade, parseFloat_res.
    destruct (parseFloat (ct_Price t)) as [p [ep|]]; cbn; [by eauto|].
    destruct (parseFloat (ct_Size t)) as [q [eq|]]; cbn; [by eauto|]. eexists. done. }
  clearbody good. destruct ts as [|t ts]; [by exists []|]. cbn [forallb trades_spec map].
  specialize (Hone true t) as Ht. destruct (good t); cbn [andb]; cycle 1.
  { destruct Ht as [e ->]. by exists e. }
  destruct Ht as (ev & -> & H1 & H2 & H3). cbn [mbind res_bind]. rewrite <- H1, <- H2, <- H3.
  clear t H1 H2 H3. revert ev. induction ts as [|t ts IH]; intros ev; [by exists [ev]|].
  cbn [forallb map_res map]. specialize (Hone false t) as Ht. destruct (good t); cbn [andb]; cycle 1.
  { destruct Ht as [e ->]. by exists e. }
  destruct Ht as (ev' & -> & H1 & H2 & H3). cbn [mbind res_bind]. specialize (IH ev').
  rewrite <- H1, <- H2, <- H3. destruct (forallb good ts).
  - destruct IH as (evs & IH & I1 & I2 & I3).
    destruct (map_res _ ts) as [evs'| |]; try discriminate IH. injection IH as <-.
    eexists. split; [reflexivity|]. cbn [map] in *. by rewrite I1, I2, I3.
  - destruct IH as [e IH]. destruct (map_res _ ts) as [?|?|]; try discriminate IH. by eexists.
Qed.

Definition trades_env : coinbaseEnvelope :=
  match Unmarshal (dec_struct envelope_fields) zero_envelope trades_frame with
  | Ok env => env | _ => zero_envelope end.
Definition trades_json : json := default JNull (env_Events trades_env).
Definition trades_events : list coinbaseTradeEvent :=
  default [] (dec_slice (mkTradeEvent "" []) (dec_struct trade_event_fields) [] trades_json).

Lemma coinbase_trades_in_order_witness :
  let ts := flat_map te_Trades trades_events in
  length ts = 3%nat /\
  if forallb (fun t => match parseFloat (ct_Price t), parseFloat (ct_Size t) with
                       | (_, None), (_, None) => true | _, _ => false end) ts
  then exists evs, decodeTrades trades_env 5000 = Ok evs
    /\ map (fun e => tr_TradeID <$> ev_Trade e) evs = map (fun t => Some (ct_TradeID t)) ts
    /\ map (fun e => tr_Side <$> ev_Trade e) evs = map (fun t => Some (NormalizeSide (ct_Side t))) ts
    /\ map ev_Symbol evs = map (fun t => canonicalPair (ct_ProductID t)) ts
  else exists e, decodeTrades trades_env 5000 = Err e.
Proof.
  cbv zeta. split; [vm_compute; reflexivity|].
  apply (coinbase_trades_in_order trades_env 5000 trades_json trades_events);
    vm_compute; reflexivity.
Defined.

(** A level-2 frame yields one delta per batch that has updates, and the bids
    and asks of a delta split the updates of its batch without loss and in order:
    the buy side to the bids, everything else, an unknown side too, to the asks. *)
Theorem coinbase_l2_split `{UnicodeMap} env now evs book :
  decodeL2 env now = Ok evs -> In book evs ->
  exists ev seq, book = delta_of now seq ev /\ has_updates ev = true
    /\ exists d, ev_Book book = Some d
       /\ bd_Bids d = map level_of (List.filter is_bid (l2_Updates ev))
       /\ bd_Asks d = map level_of (List.filter (fun u => negb (is_bid u)) (l2_Updates ev))
       /\ (length (bd_Bids d) + length (bd_Asks d) = length (l2_Updates ev))%nat.
Proof.
  rewrite decodeL2_spec. intros (events & _ & [= <-])%bind_Ok Hin.
  assert (exists ev seq, book = delta_of now seq ev /\ In ev (List.filter has_updates events))
    as (ev & seq & -> & [_ Hev]%filter_In).
  { unfold deltas_spec in Hin. destruct (List.filter has_updates events) as [|ev evs]; [done|].
    destruct Hin as [<-|(ev' & <- & Hin)%in_map_iff]; [by eexists _, _; split; [|left]|].
    eexists _, _. split; [done|]. by right. }
  exists ev, seq. split; [done|]. split; [done|]. eexists. split; [reflexivity|].
  split; [done|]. split; [done|]. cbn. rewrite !length_map.
  induction (l2_Updates ev) as [|u us IH]; [done|]. cbn. destruct (is_bid u); cbn; lia.
Qed.

Definition l2_frame_env : coinbaseEnvelope :=
  mkEnvelope "l2_data" "" 8 (Some (JArr [JObj [("type", JStr "update"); ("product_id", JStr "BTC-USD");
    ("updates", JArr [JObj [("side", JStr "offer"); ("price_level", JStr "2"); ("new_quantity", JStr "1")];
                      JObj [("side", JStr "bid"); ("price_level", JStr "1"); ("new_quantity", JStr "3")]])]]))
    "" "".
Definition l2_frame_events : list Event :=
  match decodeL2 l2_frame_env 5000 with Ok evs => evs | _ => [] end.
Definition l2_frame_book : Event := hd (mkEvent "" "" "" 0 None None None) l2_frame_events.

Lemma coinbase_l2_split_witness :
  exists ev seq, l2_frame_book = delta_of 5000 seq ev /\ has_updates ev = true
    /\ exists d, ev_Book l2_frame_book = Some d
       /\ bd_Bids d = map level_of (List.filter is_bid (l2_Updates ev))
       /\ bd_Asks d = map level_of (List.filter (fun u => negb (is_bid u)) (l2_Updates ev))
       /\ (length (bd_Bids d) + length (bd_Asks d) = length (l2_Updates ev))%nat.
Proof.
  apply (coinbase_l2_split l2_frame_env 5000 l2_frame_events l2_frame_book).
  - vm_compute. reflexivity.
  - vm_compute. left. reflexivity.
Defined.
