(* ===== verification/Kraken.v ===== *)
(** * Package [internal/venue], [kraken.go]: the Kraken adapter

    Pairs are written with a slash on the wire; trades are sequenced by their
    trade id, book updates are not sequenced. *)

From S2P Require Import Prelude.
From S2P Require Import GoStrings.
From S2P Require Import GoStrconv.
From S2P Require Import GoJson.
From S2P Require Import Model.
From S2P Require Import Gap.
From S2P Require Import Venue.

Local Open Scope Z_scope.

Definition VenueKraken : string := "kraken".

Record Kraken := mkKraken { kr_symbols : list string; kr_depth : Z }.

Definition NewKraken (symbols : list string) (depth : Z) : Kraken :=
  mkKraken symbols (if depth <=? 0 then 10 else depth).
Definition Name (k : Kraken) : string := VenueKraken.
Definition URL (k : Kraken) : string := "wss://ws.kraken.com/v2".

Definition KrakenSymbol `{UnicodeMap} (canonical : string) : string :=
  replace_char "-" "/" (canonicalPair canonical).

Record krakenSubParams := mkSubParams {
  kp_Channel : string; kp_Symbol : list string; kp_Depth : Z; kp_Snapshot : option bool }.
Record krakenSubscribe := mkKrSubscribe {
  ks_Method : string; ks_Params : krakenSubParams; ks_ReqID : Z }.

Definition Subscriptions `{UnicodeMap} (k : Kraken) (symbols : list string)
    : list krakenSubscribe * Kraken :=
  let k := match symbols with [] => k | _ => mkKraken symbols (kr_depth k) end in
  let pairs := map KrakenSymbol (kr_symbols k) in
  ([mkKrSubscribe "subscribe" (mkSubParams "trade" pairs 0 (Some true)) 1;
    mkKrSubscribe "subscribe" (mkSubParams "book" pairs (kr_depth k) (Some true)) 2], k).

(** ** Frames *)

Record krakenEnvelope := mkKrEnvelope {
  ke_Channel : string; ke_Type : string; ke_Data : option json; ke_Method : string;
  ke_Success : option bool; ke_Error : string }.

Definition envelope_fields : fields krakenEnvelope :=
  [ field "channel" dec_string ke_Channel (fun v '(mkKrEnvelope _ b c d e f) => mkKrEnvelope v b c d e f);
    field "type" dec_string ke_Type (fun v '(mkKrEnvelope a _ c d e f) => mkKrEnvelope a v c d e f);
    field "data" dec_raw ke_Data (fun v '(mkKrEnvelope a b _ d e f) => mkKrEnvelope a b v d e f);
    field "method" dec_string ke_Method (fun v '(mkKrEnvelope a b c _ e f) => mkKrEnvelope a b c v e f);
    field "success" (dec_ptr false dec_bool) ke_Success
      (fun v '(mkKrEnvelope a b c d _ f) => mkKrEnvelope a b c d v f);
    field "error" dec_string ke_Error (fun v '(mkKrEnvelope a b c d e _) => mkKrEnvelope a b c d e v) ].
Definition zero_envelope : krakenEnvelope := mkKrEnvelope "" "" None "" None "".

Record krakenTrade := mkKrTrade {
  kt_Symbol : string; kt_Side : string; kt_Price : float64; kt_Qty : float64;
  kt_OrdType : string; kt_TradeID : Z; kt_Timestamp : string }.

Definition trade_fields : fields krakenTrade :=
  [ field "symbol" dec_string kt_Symbol (fun v '(mkKrTrade _ b c d e f g) => mkKrTrade v b c d e f g);
    field "side" dec_string kt_Side (fun v '(mkKrTrade a _ c d e f g) => mkKrTrade a v c d e f g);
    field "price" dec_float64 kt_Price (fun v '(mkKrTrade a b _ d e f g) => mkKrTrade a b v d e f g);
    field "qty" dec_float64 kt_Qty (fun v '(mkKrTrade a b c _ e f g) => mkKrTrade a b c v e f g);
    field "ord_type" dec_string kt_OrdType (fun v '(mkKrTrade a b c d _ f g) => mkKrTrade a b c d v f g);
    field "trade_id" dec_int64 kt_TradeID (fun v '(mkKrTrade a b c d e _ g) => mkKrTrade a b c d e v g);
    field "timestamp" dec_string kt_Timestamp (fun v '(mkKrTrade a b c d e f _) => mkKrTrade a b c d e f v) ].
Definition zero_trade : krakenTrade := mkKrTrade "" "" f64_zero f64_zero "" 0 "".

Record krakenBookLevel := mkKrLevel { kl_Price : float64; kl_Qty : float64 }.
Definition level_fields : fields krakenBookLevel :=
  [ field "price" dec_float64 kl_Price (fun v l => mkKrLevel v (kl_Qty l));
    field "qty" dec_float64 kl_Qty (fun v l => mkKrLevel (kl_Price l) v) ].

Record krakenBook := mkKrBook {
  kb_Symbol : string; kb_Bids : list krakenBookLevel; kb_Asks : list krakenBookLevel;
  kb_Checksum : Z; kb_Timestamp : string }.

Definition dec_book_levels : decoder (list krakenBookLevel) :=
  dec_slice (mkKrLevel f64_zero f64_zero) (dec_struct level_fields).
Definition book_fields : fields krakenBook :=
  [ field "symbol" dec_string kb_Symbol (fun v '(mkKrBook _ b c d e) => mkKrBook v b c d e);
    field "bids" dec_book_levels kb_Bids (fun v '(mkKrBook a _ c d e) => mkKrBook a v c d e);
    field "asks" dec_book_levels kb_Asks (fun v '(mkKrBook a b _ d e) => mkKrBook a b v d e);
    field "checksum" dec_uint32 kb_Checksum (fun v '(mkKrBook a b c _ e) => mkKrBook a b c v e);
    field "timestamp" dec_string kb_Timestamp (fun v '(mkKrBook a b c d _) => mkKrBook a b c d v) ].
Definition zero_book : krakenBook := mkKrBook "" [] [] 0 "".

(** ** Decode *)

Section decode.
Context `{UnicodeMap}.

(** The body of the loop over trades. *)
Definition trade_event (now : time) (t : krakenTrade) : Event :=
  let sym := canonicalPair (kt_Symbol t) in
  mkEvent KindTrade VenueKraken sym (kt_TradeID t)
    (Some (mkTrade VenueKraken sym (FormatInt (kt_TradeID t)) (kt_Price t) (kt_Qty t)
             (NormalizeSide (kt_Side t)) (parseRFC3339Micros (kt_Timestamp t) now)
             (UnixMicro now) (kt_TradeID t))) None None.

Definition decodeTrades (env : krakenEnvelope) (now : time) : res (list Event) :=
  trades ← wrap_err "kraken trade data"
    (UnmarshalRaw (dec_slice zero_trade (dec_struct trade_fields)) [] (ke_Data env));
  Ok (map (trade_event now) trades).

Definition level_of (l : krakenBookLevel) : Level := mkLevel (kl_Price l) (kl_Qty l).

(** The body of the loop over books. *)
Definition book_event (env : krakenEnvelope) (now : time) (b : krakenBook) : Event :=
  let sym := canonicalPair (kb_Symbol b) in
  mkEvent KindBookDelta VenueKraken sym NoSequence None
    (Some (mkBookDelta VenueKraken sym (String.eqb (ke_Type env) "snapshot")
             (map level_of (kb_Bids b)) (map level_of (kb_Asks b))
             (parseRFC3339Micros (kb_Timestamp b) now) (UnixMicro now) NoSequence)) None.

Definition decodeBook (env : krakenEnvelope) (now : time) : res (list Event) :=
  books ← wrap_err "kraken book data"
    (UnmarshalRaw (dec_slice zero_book (dec_struct book_fields)) [] (ke_Data env));
  Ok (map (book_event env now) books).

Definition Decode (k : Kraken) (raw : string) (now : time) : res (list Event) :=
  env ← wrap_err "kraken envelope" (Unmarshal (dec_struct envelope_fields) zero_envelope raw);
  if negb (String.eqb (ke_Method env) "") then
    match ke_Success env with
    | Some false => Err (EMsg "kraken failed")
    | _ => Ok []
    end
  else if String.eqb (ke_Channel env) "trade" then decodeTrades env now
  else if String.eqb (ke_Channel env) "book" then decodeBook env now
  else Ok [].
End decode.

#[export] Instance kraken_decoder `{UnicodeMap} : Decoder Kraken krakenSubscribe := {|
  dec_Name := Name; dec_URL := URL; dec_Subscriptions := Subscriptions;
  dec_Decode := fun k raw now => (Decode k raw now, k) |}.

(** ** Lemmas *)

Lemma kraken_Decode_no_panic `{UnicodeMap} k raw now : Decode k raw now <> Panic.
Proof.
  unfold Decode. apply bind_no_panic; [auto with tapeline|]. intros env _.
  destruct (negb _); [by destruct (ke_Success env) as [[]|]|].
  destruct (String.eqb _ "trade"); [unfold decodeTrades|destruct (String.eqb _ "book"); [unfold decodeBook|done]].
  all: apply bind_no_panic; [auto with tapeline|done].
Qed.

Lemma Decode_cases `{UnicodeMap} k raw now evs :
  Decode k raw now = Ok evs ->
  evs = []
  \/ (exists trades, evs = map (trade_event now) trades)
  \/ (exists env books, evs = map (book_event env now) books).
Proof.
  unfold Decode. intros (env & _ & Hd)%bind_Ok. destruct (negb _).
  { destruct (ke_Success env) as [[]|]; try discriminate Hd; injection Hd as <-; by left. }
  destruct (String.eqb _ "trade"); [|destruct (String.eqb _ "book")].
  - right; left. unfold decodeTrades in Hd. apply bind_Ok in Hd as (trades & _ & [= <-]). eauto.
  - right; right. unfold decodeBook in Hd. apply bind_Ok in Hd as (books & _ & [= <-]). eauto.
  - left. by injection Hd as <-.
Qed.

Lemma kraken_Decode_events `{UnicodeMap} k raw now evs :
  Decode k raw now = Ok evs -> events_ok VenueKraken evs.
Proof.
  intros [->|[[trades ->]|(env & books & ->)]]%Decode_cases; [constructor|..].
  all: apply Forall_map, Forall_true; done.
Qed.

#[export] Instance kraken_lawful `{UnicodeMap} : LawfulDecoder Kraken krakenSubscribe.
Proof.
  split.
  - intros k raw now. exact (kraken_Decode_no_panic k raw now).
  - intros k raw now evs. exact (kraken_Decode_events k raw now evs).
  - done.
  - done.
Qed.

(** ** Properties *)

(** The pair translation round-trips: the canonical pair is read back from the
    slash form that was subscribed to, and the slash form has no dash. *)
Theorem kraken_symbol_roundtrip `{UnicodeMap} s :
  is_ascii s = true ->
  canonicalPair (KrakenSymbol s) = canonicalPair s /\ Contains (KrakenSymbol s) "-" = false.
Proof.
  intros Hs. unfold KrakenSymbol.
  assert (is_ascii (replace_char "-" "/" (canonicalPair s)) = true) as Ha.
  { pose proof (canonicalPair_is_ascii s Hs) as Hc. unfold is_ascii, replace_char in *. str_simpl.
    rewrite forallb_forall in *. intros c (x & <- & Hx)%in_map_iff.
    destruct (Ascii.eqb x "-"); [done|auto]. }
  split.
  - rewrite (canonicalPair_ascii (replace_char _ _ _)) by done.
    rewrite (canonicalPair_ascii s) by done. unfold replace_char. str_simpl.
    rewrite map_map, trim_spaces_map; [| |by apply ascii_chars_trim].
    + rewrite trim_spaces_idem, map_map. f_equal. apply map_ext. intros c.
      by destruct c as [[] [] [] [] [] [] [] []].
    + intros c Hc. by destruct c as [[] [] [] [] [] [] [] []].
  - unfold Contains, replace_char. str_simpl. apply not_true_iff_false.
    intros (c & (x & <- & Hx)%in_map_iff & He)%existsb_exists.
    destruct (Ascii.eqb_spec x "-") as [->|Hne]; [done|]. apply Ascii.eqb_eq in He. congruence.
Qed.

Lemma kraken_symbol_roundtrip_witness :
  @canonicalPair unicode_id (@KrakenSymbol unicode_id " btc_usd ") = "BTC-USD"
  /\ Contains (@KrakenSymbol unicode_id " btc_usd ") "-" = false.
Proof. exact (@kraken_symbol_roundtrip unicode_id " btc_usd " eq_refl). Defined.

(** Sequencing: a trade is sequenced by its trade id, which is also its
    identity; a book update is unsequenced, so the gap detector never judges it
    and no book frame can move a watermark. *)
Theorem kraken_sequencing `{UnicodeMap} k raw now evs e :
  Decode k raw now = Ok evs -> In e evs ->
  ev_Venue e = VenueKraken /\ event_wf e
  /\ match ev_Trade e with
     | Some t => tr_TradeID t = FormatInt (ev_Sequence e)
     | None => forall d key, Observe d key (ev_Sequence e)
                 = (mkResult key StatusUnsequenced 0 NoSequence 0, d)
     end.
Proof.
  intros Hd Hin. pose proof (kraken_Decode_events k raw now evs Hd) as Hok.
  unfold events_ok in Hok. rewrite List.Forall_forall in Hok. destruct (Hok e Hin) as [Hv Hw].
  split; [done|]. split; [done|].
  apply Decode_cases in Hd as [->|[[trades ->]|(env & books & ->)]]; [done|..].
  all: apply in_map_iff in Hin as (x & <- & _); done.
Qed.

#[local] Existing Instance unicode_id.

Definition book_frame : string :=
  dq "{'channel':'book','type':'update','data':[{'symbol':'BTC/USD','bids':[{'price':1.5,'qty':2}],
       'asks':[],'checksum':7}]}".
Definition book_frame_events : list Event :=
  match Decode (NewKraken [] 0) book_frame 5000 with Ok evs => evs | _ => [] end.
Definition book_frame_event : Event := hd (mkEvent "" "" "" 0 None None None) book_frame_events.

Lemma kraken_sequencing_witness :
  ev_Symbol book_frame_event = "BTC-USD" /\
  ev_Venue book_frame_event = VenueKraken /\ event_wf book_frame_event
  /\ match ev_Trade book_frame_event with
     | Some t => tr_TradeID t = FormatInt (ev_Sequence book_frame_event)
     | None => forall d key, Observe d key (ev_Sequence book_frame_event)
                 = (mkResult key StatusUnsequenced 0 NoSequence 0, d)
     end.
Proof.
  split; [vm_compute; reflexivity|].
  apply (kraken_sequencing (NewKraken [] 0) book_frame 5000 book_frame_events).
  - vm_compute. reflexivity.
  - vm_compute. left. reflexivity.
Defined.
