(* ===== verification/Evm.v ===== *)
(** * Package [internal/onchain]: the EVM log decoder

    A [logs] subscription of a JSON-RPC WebSocket. The decoder keeps the highest
    block seen; only the first log of a block carries a sequence. Iterating a Go
    map has no fixed order, so the order in which [NewEVM] meets the token
    addresses is an argument. *)

From S2P Require Import Prelude.
From S2P Require Import GoStrings.
From S2P Require Import GoStrconv.
From S2P Require Import GoJson.
From S2P Require Import Model.
From S2P Require Import Gap.
From S2P Require Import Venue.

Local Open Scope Z_scope.

Definition TransferTopic0 : string :=
  "0xddf252ad1be2c89b69c2b068fc378daa952ba7f163c4a11628f55a4df523b3ef".

Record Token := mkToken { tok_Symbol : string; tok_Decimals : Z }.

Definition DefaultTokens : gmap string Token :=
  list_to_map
    [("0xa0b86991c6218b36c1d19d4a2e9eb0ce3606eb48", mkToken "USDC" 6);
     ("0xdac17f958d2ee523a2206206994597c13d831ec7", mkToken "USDT" 6);
     ("0xc02aaa39b223fe8d0a0e5c4f27ead9083c756cc2", mkToken "WETH" 18);
     ("0x6b175474e89094c44da98b954eedeac495271d0f", mkToken "DAI" 18);
     ("0x833589fcd6edb6e08f4c7c32d4f71b54bda02913", mkToken "USDC" 6);
     ("0x4200000000000000000000000000000000000006", mkToken "WETH" 18)].

Record EVM := mkEVM {
  chain : string; wsURL : string; tokens : gmap string Token; addresses : list string;
  lastBlock : Z }.

(** [tokens] is [None] for a nil map; [order] is the order of the iteration over
    its keys. *)
Definition NewEVM `{UnicodeMap} (chain wsURL : string) (tokens : option (gmap string Token))
    (addresses : list string) (order : list string) : EVM :=
  let tokens := match tokens with None => DefaultTokens | Some t => t end in
  let addresses := match addresses with [] => order | _ => addresses end in
  mkEVM chain wsURL tokens (map ToLower addresses) 0.

Definition Name (e : EVM) : string := chain e.
Definition URL (e : EVM) : string := wsURL e.

Record logFilter := mkLogFilter { lf_Address : list string; lf_Topics : list string }.
Record rpcRequest := mkRpcRequest {
  rq_JSONRPC : string; rq_ID : Z; rq_Method : string; rq_Params : string * logFilter }.

Definition Subscriptions (e : EVM) (_ : list string) : list rpcRequest * EVM :=
  ([mkRpcRequest "2.0" 1 "eth_subscribe" ("logs", mkLogFilter (addresses e) [TransferTopic0])], e).

(** ** Frames *)

Record rpcError := mkRpcError { re_Code : Z; re_Message : string }.
Record rpcParams := mkRpcParams { rp_Subscription : string; rp_Result : option json }.
Record subscriptionEnvelope := mkEnvelope {
  se_Method : string; se_Params : rpcParams; se_Error : option rpcError }.

Definition params_fields : fields rpcParams :=
  [ field "subscription" dec_string rp_Subscription (fun v p => mkRpcParams v (rp_Result p));
    field "result" dec_raw rp_Result (fun v p => mkRpcParams (rp_Subscription p) v) ].
Definition error_fields : fields rpcError :=
  [ field "code" dec_int64 re_Code (fun v e => mkRpcError v (re_Message e));
    field "message" dec_string re_Message (fun v e => mkRpcError (re_Code e) v) ].
Definition envelope_fields : fields subscriptionEnvelope :=
  [ field "method" dec_string se_Method (fun v e => mkEnvelope v (se_Params e) (se_Error e));
    field "params" (dec_struct params_fields) se_Params
      (fun v e => mkEnvelope (se_Method e) v (se_Error e));
    field "error" (dec_ptr (mkRpcError 0 "") (dec_struct error_fields)) se_Error
      (fun v e => mkEnvelope (se_Method e) (se_Params e) v) ].
Definition zero_envelope : subscriptionEnvelope := mkEnvelope "" (mkRpcParams "" None) None.

Record rawLog := mkRawLog {
  rl_Address : string; rl_Topics : list string; rl_Data : string; rl_BlockNumber : string;
  rl_TxHash : string; rl_LogIndex : string; rl_Removed : bool }.

Definition log_fields : fields rawLog :=
  [ field "address" dec_string rl_Address (fun v '(mkRawLog _ b c d e f g) => mkRawLog v b c d e f g);
    field "topics" (dec_slice "" dec_string) rl_Topics
      (fun v '(mkRawLog a _ c d e f g) => mkRawLog a v c d e f g);
    field "data" dec_string rl_Data (fun v '(mkRawLog a b _ d e f g) => mkRawLog a b v d e f g);
    field "blockNumber" dec_string rl_BlockNumber
      (fun v '(mkRawLog a b c _ e f g) => mkRawLog a b c v e f g);
    field "transactionHash" dec_string rl_TxHash
      (fun v '(mkRawLog a b c d _ f g) => mkRawLog a b c d v f g);
    field "logIndex" dec_string rl_LogIndex
      (fun v '(mkRawLog a b c d e _ g) => mkRawLog a b c d e v g);
    field "removed" dec_bool rl_Removed (fun v '(mkRawLog a b c d e f _) => mkRawLog a b c d e f v) ].
Definition zero_log : rawLog := mkRawLog "" [] "" "" "" "" false.

(** ** Decode *)

(** The last 40 bytes of a topic, or all of it when it is shorter. *)
Definition topicToAddress `{UnicodeMap} (topic : string) : string :=
  let t := ToLower (TrimPrefix topic "0x") in
  if (str_len t <? 40)%nat then "0x" +:+ t
  else "0x" +:+ str_drop (str_len t - 40) t.

Definition hexToInt64 (s : string) : res Z :=
  let s := TrimPrefix (TrimPrefix s "0x") "0X" in
  if String.eqb s "" then Ok 0
  else match ParseInt s 16 with
       | inl z => Ok z
       | inr e => Err (parse_num_error e)
       end.

Section decode.
Context `{UnicodeMap}.

(** [Decode] from the parsed log on. *)
Definition decode_log (e : EVM) (l : rawLog) (now : time) : res (list Event) * EVM :=
  if rl_Removed l then (Ok [], e)
  else
    match rl_Topics l with
    | topic0 :: topic1 :: topic2 :: _ =>
        if negb (EqualFoldASCII topic0 TransferTopic0) then (Ok [], e)
        else
          match big_SetString (TrimPrefix (rl_Data l) "0x") 16 with
          | None => (Err (EMsg "evm transfer: undecodable amount"), e)
          | Some amount =>
              let addr := ToLower (rl_Address l) in
              let tok := default (mkToken "" 0) (tokens e !! addr) in
              let symbol := match tokens e !! addr with Some t => tok_Symbol t | None => addr end in
              match wrap_err "evm transfer block number" (hexToInt64 (rl_BlockNumber l)) with
              | Ok blockNum =>
                  match wrap_err "evm transfer log index" (hexToInt64 (rl_LogIndex l)) with
                  | Ok logIdx =>
                      let transfer :=
                        mkChainTransfer (chain e) addr symbol (topicToAddress topic1)
                          (topicToAddress topic2) (big_String amount) (tok_Decimals tok) blockNum
                          (wrap32 logIdx) (ToLower (rl_TxHash l)) (UnixMicro now) (UnixMicro now) in
                      let '(seq, e') :=
                        if lastBlock e <? blockNum
                        then (blockNum, mkEVM (chain e) (wsURL e) (tokens e) (addresses e) blockNum)
                        else (NoSequence, e) in
                      (Ok [mkEvent KindChainTransfer (chain e) symbol seq None None (Some transfer)], e')
                  | Err er => (Err er, e)
                  | Panic => (Panic, e)
                  end
              | Err er => (Err er, e)
              | Panic => (Panic, e)
              end
          end
    | _ => (Ok [], e)
    end.

Definition Decode (e : EVM) (raw : string) (now : time) : res (list Event) * EVM :=
  match wrap_err "evm envelope" (Unmarshal (dec_struct envelope_fields) zero_envelope raw) with
  | Ok env =>
      match se_Error env with
      | Some _ => (Err (EMsg "evm rpc error"), e)
      | None =>
          if negb (String.eqb (se_Method env) "eth_subscription") then (Ok [], e)
          else
            match wrap_err "evm log"
                    (UnmarshalRaw (dec_struct log_fields) zero_log (rp_Result (se_Params env))) with
            | Ok l => decode_log e l now
            | Err er => (Err er, e)
            | Panic => (Panic, e)
            end
      end
  | Err er => (Err er, e)
  | Panic => (Panic, e)
  end.
End decode.

#[export] Instance evm_decoder `{UnicodeMap} : Decoder EVM rpcRequest := {|
  dec_Name := Name; dec_URL := URL; dec_Subscriptions := Subscriptions; dec_Decode := Decode |}.

(** ** Specification *)

(** The [n] lower-case hexadecimal digits of [z], most significant first. *)
Definition hex_digit (d : Z) : ascii := char_of (if d <? 10 then 48 + d else 87 + d).
Fixpoint hex_chars (n : nat) (z : Z) : list ascii :=
  match n with
  | O => []
  | S n' => hex_digit (z / 16 ^ Z.of_nat n' mod 16) :: hex_chars n' (z mod 16 ^ Z.of_nat n')
  end.
Definition hex (n : nat) (z : Z) : string := "0x" +:+ unchars (hex_chars n z).

(** The decoder over a run of frames; the runner skips a frame that does not decode. *)
Fixpoint decode_run `{UnicodeMap} (e : EVM) (frames : list (string * time)) : list Event * EVM :=
  match frames with
  | [] => ([], e)
  | (raw, now) :: frames' =>
      let '(r, e1) := Decode e raw now in
      let '(evs, e2) := decode_run e1 frames' in
      (match r with Ok evs1 => evs1 | _ => [] end ++ evs, e2)
  end.

(** The sequences that a list of events carries. *)
Definition carried (evs : list Event) : list Z :=
  List.filter (fun s => 0 <=? s) (map ev_Sequence evs).

(** ** Lemmas on hexadecimal text *)

Lemma hex_digit_val d : 0 <= d < 16 -> digit_val (hex_digit d) = Some d.
Proof.
  intros Hd. assert (In d [0; 1; 2; 3; 4; 5; 6; 7; 8; 9; 10; 11; 12; 13; 14; 15]) as Hin.
  { cbn. lia. }
  repeat destruct Hin as [<-|Hin]; try done.
Qed.

Lemma length_hex_chars n z : length (hex_chars n z) = n.
Proof. revert z. induction n as [|n IH]; intros z; cbn; [done|]. by rewrite IH. Qed.

Lemma digits_val_hex n z acc :
  0 <= z < 16 ^ Z.of_nat n -> digits_val 16 acc (hex_chars n z) = Some (acc * 16 ^ Z.of_nat n + z).
Proof.
  revert z acc. induction n as [|n IH]; intros z acc Hz.
  { cbn. change (16 ^ Z.of_nat 0) with 1 in *. f_equal. lia. }
  rewrite Nat2Z.inj_succ, Z.pow_succ_r in * by lia.
  assert (0 < 16 ^ Z.of_nat n) as Hp by (apply Z.pow_pos_nonneg; lia).
  cbn [hex_chars digits_val]. rewrite hex_digit_val by (apply Z.mod_pos_bound; lia).
  assert (z / 16 ^ Z.of_nat n < 16) as Hq by (apply Z.div_lt_upper_bound; lia).
  assert (0 <= z / 16 ^ Z.of_nat n) by (apply Z.div_pos; lia).
  rewrite Z.mod_small by lia. destruct (Z.ltb_spec (z / 16 ^ Z.of_nat n) 16); [|lia].
  rewrite IH by (apply Z.mod_pos_bound; lia). f_equal.
  pose proof (Z.div_mod z (16 ^ Z.of_nat n)). lia.
Qed.

Lemma hex_chars_small k n a :
  0 <= a < 16 ^ Z.of_nat n -> hex_chars (k + n) a = repeat "0"%char k ++ hex_chars n a.
Proof.
  intros Ha. induction k as [|k IH]; [done|]. change (S k + n)%nat with (S (k + n)).
  cbn [hex_chars repeat app].
  assert (16 ^ Z.of_nat n <= 16 ^ Z.of_nat (k + n)) by (apply Z.pow_le_mono_r; lia).
  rewrite Z.div_small, (Z.mod_small a), IH by lia. done.
Qed.

Definition hex_char_ok (c : ascii) : bool := is_ascii_char c && Ascii.eqb (ascii_lower c) c.
Lemma hex_digit_ok d : 0 <= d < 16 -> hex_char_ok (hex_digit d) = true.
Proof.
  intros Hd. assert (In d [0; 1; 2; 3; 4; 5; 6; 7; 8; 9; 10; 11; 12; 13; 14; 15]) as Hin.
  { cbn. lia. }
  repeat destruct Hin as [<-|Hin]; try done.
Qed.
Lemma hex_chars_ok n z : forallb hex_char_ok (hex_chars n z) = true.
Proof.
  revert z. induction n as [|n IH]; intros z; cbn; [done|].
  by rewrite hex_digit_ok, IH by (apply Z.mod_pos_bound; lia).
Qed.

Lemma ToLower_ok `{UnicodeMap} s : forallb hex_char_ok (chars s) = true -> ToLower s = s.
Proof.
  intros Hs. rewrite forallb_forall in Hs. unfold ToLower.
  assert (is_ascii s = true) as ->.
  { unfold is_ascii. rewrite forallb_forall. intros c Hc.
    by apply Hs, andb_true_iff in Hc as [? _]. }
  apply chars_inj. str_simpl. rewrite <- (map_id (chars s)) at 2. apply map_ext_in.
  intros c Hc. by apply Hs, andb_true_iff in Hc as [_ ?%Ascii.eqb_eq].
Qed.

Lemma hex_nonempty_head n z :
  (0 < n)%nat -> exists d l, hex_chars n z = hex_digit d :: l /\ 0 <= d < 16.
Proof.
  destruct n as [|n]; [lia|]. intros _. eexists _, _. split; [reflexivity|].
  apply Z.mod_pos_bound. lia.
Qed.

Lemma split_sign_hex n z : split_sign (hex_chars n z) = (false, hex_chars n z).
Proof.
  destruct n as [|n]; [done|]. destruct (hex_nonempty_head (S n) z) as (d & l & -> & Hd); [lia|].
  assert (In d [0; 1; 2; 3; 4; 5; 6; 7; 8; 9; 10; 11; 12; 13; 14; 15]) as Hin by (cbn; lia).
  repeat destruct Hin as [<-|Hin]; try done.
Qed.

Lemma parse_nat_hex n z :
  (0 < n)%nat -> 0 <= z < 16 ^ Z.of_nat n -> parse_nat 16 (hex_chars n z) = Some z.
Proof.
  intros Hn Hz. unfold parse_nat. rewrite digits_val_hex by done.
  destruct (hex_nonempty_head n z Hn) as (d & l & -> & _). f_equal; lia.
Qed.

Lemma TrimPrefix_hex n z : TrimPrefix (hex n z) "0x" = unchars (hex_chars n z).
Proof. unfold hex. apply TrimPrefix_app. Qed.

Lemma big_SetString_hex n z :
  (0 < n)%nat -> 0 <= z < 16 ^ Z.of_nat n ->
  big_SetString (TrimPrefix (hex n z) "0x") 16 = Some z.
Proof.
  intros Hn Hz. rewrite TrimPrefix_hex. unfold big_SetString. str_simpl.
  by rewrite split_sign_hex, parse_nat_hex.
Qed.

Lemma no_upper_prefix l : forallb hex_char_ok l = true -> is_prefix (chars "0X") l = false.
Proof.
  destruct l as [|x [|y l]]; [done|cbn; by rewrite andb_false_r|].
  cbn [forallb]. intros (_ & [Hy _]%andb_true_iff)%andb_true_iff.
  cbn [chars is_prefix]. destruct (Ascii.eqb_spec "X" y) as [<-|]; [discriminate Hy|].
  cbn. by rewrite andb_false_r.
Qed.

Lemma hexToInt64_hex n z :
  (0 < n)%nat -> 0 <= z < 16 ^ Z.of_nat n -> z < two63 -> hexToInt64 (hex n z) = Ok z.
Proof.
  intros Hn Hz H63. unfold hexToInt64. rewrite TrimPrefix_hex.
  assert (TrimPrefix (unchars (hex_chars n z)) "0X" = unchars (hex_chars n z)) as ->.
  { unfold TrimPrefix, HasPrefix. str_simpl. by rewrite no_upper_prefix by apply hex_chars_ok. }
  destruct (hex_nonempty_head n z Hn) as (d & l & Hl & _).
  destruct (String.eqb_spec (unchars (hex_chars n z)) "") as [He|]; [by rewrite Hl in He|].
  unfold ParseInt. str_simpl. rewrite split_sign_hex, parse_nat_hex by done.
  by destruct (Z.leb_spec two63 z); [lia|].
Qed.

Lemma topicToAddress_hex `{UnicodeMap} a :
  0 <= a < 2 ^ 160 -> topicToAddress (hex 64 a) = hex 40 a.
Proof.
  intros Ha. unfold topicToAddress. rewrite TrimPrefix_hex.
  rewrite ToLower_ok by (str_simpl; apply hex_chars_ok).
  assert (str_len (unchars (hex_chars 64 a)) = 64%nat) as Hlen
    by (by rewrite <- length_chars, chars_unchars, length_hex_chars).
  rewrite Hlen. cbn [Nat.ltb Nat.leb Nat.sub]. unfold hex, str_drop. str_simpl.
  change (hex_chars 64 a) with (hex_chars (24 + 40) a).
  rewrite (hex_chars_small 24 40 a) by (change (16 ^ Z.of_nat 40) with (2 ^ 160); lia). done.
Qed.

(** ** Lemmas on decoding *)

(** What one call may do: at most one event, and the state moves only to a higher
    block, whose number the event carries. *)
Definition step_ok (e : EVM) (r : res (list Event)) (e' : EVM) : Prop :=
  chain e' = chain e /\
  match r with
  | Panic => False
  | Err _ | Ok [] => e' = e
  | Ok [ev] =>
      ev_Venue ev = chain e /\ event_wf ev
      /\ ((ev_Sequence ev = NoSequence /\ e' = e)
          \/ (ev_Sequence ev = lastBlock e' /\ lastBlock e < lastBlock e'))
  | Ok _ => False
  end.

Lemma hexToInt64_no_panic s : hexToInt64 s <> Panic.
Proof. unfold hexToInt64. destruct (String.eqb _ ""); [done|]. by destruct (ParseInt _ 16). Qed.

Lemma decode_log_ok `{UnicodeMap} e l now :
  step_ok e (decode_log e l now).1 (decode_log e l now).2.
Proof.
  unfold decode_log. destruct (rl_Removed l); [done|].
  destruct (rl_Topics l) as [|t0 [|t1 [|t2 ts]]]; try done.
  destruct (negb _); [done|]. destruct (big_SetString _ 16) as [amount|]; [|done].
  pose proof (hexToInt64_no_panic (rl_BlockNumber l)).
  destruct (hexToInt64 (rl_BlockNumber l)) as [blk|er|]; cbn; [|done..].
  pose proof (hexToInt64_no_panic (rl_LogIndex l)).
  destruct (hexToInt64 (rl_LogIndex l)) as [idx|er|]; cbn; [|done..].
  destruct (Z.ltb_spec (lastBlock e) blk); cbn; (split; [done|]); repeat split; auto.
Qed.

Lemma Decode_ok `{UnicodeMap} e raw now : step_ok e (Decode e raw now).1 (Decode e raw now).2.
Proof.
  unfold Decode. pose proof (Unmarshal_no_panic (dec_struct envelope_fields) zero_envelope raw).
  destruct (Unmarshal _ _ raw) as [env|er|]; cbn [wrap_err]; [|done..].
  destruct (se_Error env); [done|]. destruct (negb _); [done|].
  pose proof (UnmarshalRaw_no_panic (dec_struct log_fields) zero_log (rp_Result (se_Params env))).
  destruct (UnmarshalRaw _ _ _) as [l|er|]; cbn [wrap_err]; [|done..]. apply decode_log_ok.
Qed.

#[export] Instance evm_lawful `{UnicodeMap} : LawfulDecoder EVM rpcRequest.
Proof.
  split.
  - intros e raw now Hp. pose proof (Decode_ok e raw now) as [_ Hok].
    change ((Decode e raw now).1 = Panic) in Hp. by rewrite Hp in Hok.
  - intros e raw now evs Hd. pose proof (Decode_ok e raw now) as [_ Hok].
    change ((Decode e raw now).1 = Ok evs) in Hd. rewrite Hd in Hok.
    destruct evs as [|ev [|]]; [constructor| |done]. destruct Hok as (Hv & Hw & _).
    by repeat constructor.
  - intros e raw now. by pose proof (Decode_ok e raw now) as [Hc _].
  - done.
Qed.

Lemma carried_app evs evs' : carried (evs ++ evs') = carried evs ++ carried evs'.
Proof. unfold carried. by rewrite map_app, List.filter_app. Qed.

Lemma decode_run_blocks `{UnicodeMap} e frames :
  0 <= lastBlock e ->
  StronglySorted Z.lt (lastBlock e :: carried (decode_run e frames).1)
  /\ lastBlock (decode_run e frames).2 = List.last (carried (decode_run e frames).1) (lastBlock e)
  /\ Forall (fun ev => ev_Venue ev = chain e /\ event_wf ev) (decode_run e frames).1.
Proof.
  revert e. induction frames as [|[raw now] frames IH]; intros e He.
  { cbn. repeat constructor. }
  cbn [decode_run]. pose proof (Decode_ok e raw now) as [Hc Hok].
  destruct (Decode e raw now) as [r e1]. cbn [fst snd] in *.
  assert (0 <= lastBlock e1) as He1.
  { destruct r as [[|ev [|]]| |]; try done; try by subst e1.
    destruct Hok as (_ & _ & [[_ ->]|[_ ?]]); lia. }
  specialize (IH e1 He1). destruct (decode_run e1 frames) as [evs e2]. cbn [fst snd] in *.
  rewrite Hc in IH. destruct IH as (Hs & Hl & Hf).
  destruct r as [[|ev [|]]| |]; try done; try (subst e1; done).
  destruct Hok as (Hv & Hw & Hseq). cbn [app].
  assert (carried (ev :: evs) = (if 0 <=? ev_Sequence ev then [ev_Sequence ev] else []) ++ carried evs)
    as ->.
  { unfold carried. cbn. by destruct (0 <=? ev_Sequence ev). }
  destruct Hseq as [[-> ->]|[-> Hlt]]; [by repeat split; [..|constructor]|].
  destruct (Z.leb_spec 0 (lastBlock e1)); [|lia]. cbn [app].
  split; [|split; [|by constructor]].
  - constructor; [exact Hs|]. constructor; [done|].
    apply StronglySorted_inv in Hs as [_ Hs]. eapply Forall_impl; [exact Hs|]; cbn; lia.
  - by rewrite Hl, last_default_cons.
Qed.

Lemma decode_log_exact `{UnicodeMap} e token from to amount nb block ni idx tx now :
  0 <= from < 2 ^ 160 -> 0 <= to < 2 ^ 160 -> 0 <= amount < 2 ^ 256 ->
  (0 < nb)%nat -> 0 <= block < 16 ^ Z.of_nat nb -> block < two63 ->
  (0 < ni)%nat -> 0 <= idx < 16 ^ Z.of_nat ni -> idx < two31 ->
  exists ev transfer e',
    decode_log e (mkRawLog token [TransferTopic0; hex 64 from; hex 64 to] (hex 64 amount)
                    (hex nb block) tx (hex ni idx) false) now = (Ok [ev], e')
    /\ ev_Chain ev = Some transfer
    /\ ct_AmountRaw transfer = big_String amount
    /\ ct_FromAddr transfer = hex 40 from /\ ct_ToAddr transfer = hex 40 to
    /\ ct_BlockNumber transfer = block /\ ct_LogIndex transfer = idx
    /\ ev_Sequence ev = (if lastBlock e <? block then block else NoSequence)
    /\ lastBlock e' = Z.max (lastBlock e) block.
Proof.
  intros Hf Ht Ha Hnb Hb Hb63 Hni Hi Hi31. unfold decode_log.
  cbn [rl_Removed rl_Topics rl_Data rl_BlockNumber rl_LogIndex].
  change (negb (EqualFoldASCII TransferTopic0 TransferTopic0)) with false. cbn iota.
  rewrite big_SetString_hex by (lia || (change (16 ^ Z.of_nat 64) with (2 ^ 256); lia)).
  rewrite !hexToInt64_hex by (done || int_lia). cbn [wrap_err].
  rewrite !topicToAddress_hex by done.
  destruct (Z.ltb_spec (lastBlock e) block); eexists _, _, _;
    (split; [reflexivity|]); (split; [reflexivity|]); cbn [ct_AmountRaw ct_FromAddr ct_ToAddr
      ct_BlockNumber ct_LogIndex ev_Sequence lastBlock].
  all: rewrite wrap32_id by int_lia; repeat split; lia.
Qed.

(** ** Properties *)

(** C39. Exactness: a Transfer log whose fields are encoded the way a node encodes
    them decodes to exactly the integers it encodes, whatever the uint256 amount:
    the amount in decimal, the two 20-byte addresses from their left-padded
    topics, block and log index; the block number becomes the sequence exactly if
    the block is new. *)
Theorem evm_transfer_exact `{UnicodeMap} e token from to amount nb block ni idx tx now :
  0 <= from < 2 ^ 160 -> 0 <= to < 2 ^ 160 -> 0 <= amount < 2 ^ 256 ->
  (0 < nb)%nat -> 0 <= block < 16 ^ Z.of_nat nb -> block < two63 ->
  (0 < ni)%nat -> 0 <= idx < 16 ^ Z.of_nat ni -> idx < two31 ->
  exists ev transfer e',
    decode_log e (mkRawLog token [TransferTopic0; hex 64 from; hex 64 to] (hex 64 amount)
                    (hex nb block) tx (hex ni idx) false) now = (Ok [ev], e')
    /\ ev_Chain ev = Some transfer
    /\ ct_AmountRaw transfer = big_String amount
    /\ ct_FromAddr transfer = hex 40 from /\ ct_ToAddr transfer = hex 40 to
    /\ ct_BlockNumber transfer = block /\ ct_LogIndex transfer = idx
    /\ ev_Sequence ev = (if lastBlock e <? block then block else NoSequence)
    /\ lastBlock e' = Z.max (lastBlock e) block.
Proof. apply decode_log_exact. Qed.

#[local] Existing Instance unicode_id.

Definition evm_example : EVM := NewEVM "ethereum" "wss://node" None [] [].

Lemma evm_transfer_exact_witness :
  exists ev transfer e',
    decode_log evm_example
      (mkRawLog "0xA0b86991c6218b36c1d19D4a2e9Eb0cE3606eB48"
         [TransferTopic0; hex 64 255; hex 64 (2 ^ 160 - 1)] (hex 64 (2 ^ 256 - 1))
         (hex 7 20000000) "0xAA" (hex 2 42) false) 5000 = (Ok [ev], e')
    /\ ev_Chain ev = Some transfer
    /\ ct_AmountRaw transfer = big_String (2 ^ 256 - 1)
    /\ ct_FromAddr transfer = hex 40 255 /\ ct_ToAddr transfer = hex 40 (2 ^ 160 - 1)
    /\ ct_BlockNumber transfer = 20000000 /\ ct_LogIndex transfer = 42
    /\ ev_Sequence ev = (if lastBlock evm_example <? 20000000 then 20000000 else NoSequence)
    /\ lastBlock e' = Z.max (lastBlock evm_example) 20000000.
Proof. apply evm_transfer_exact; vm_compute; intuition (congruence || lia). Defined.

(** Block sequences: over any run of frames, well formed or not, the sequences
    that the events carry are strictly increasing and above the last block known
    before, and the last of them is the state: no block is announced twice, and
    every event of the run is a well-formed event of this chain. *)
Theorem evm_block_sequences `{UnicodeMap} e frames :
  0 <= lastBlock e ->
  StronglySorted Z.lt (lastBlock e :: carried (decode_run e frames).1)
  /\ lastBlock (decode_run e frames).2 = List.last (carried (decode_run e frames).1) (lastBlock e)
  /\ Forall (fun ev => ev_Venue ev = chain e /\ event_wf ev) (decode_run e frames).1.
Proof. apply decode_run_blocks. Qed.

(** A frame with one Transfer log of block [b]. *)
Definition transfer_frame (block : string) (removed : string) : string :=
  dq ("{'method':'eth_subscription','params':{'result':{'address':'0xdAC17F958D2ee523a2206206994597C13D831ec7',"
      +:+ "'topics':['" +:+ TransferTopic0 +:+ "','0x01','0x02'],'data':'0x64','blockNumber':'"
      +:+ block +:+ "','transactionHash':'0xAB','logIndex':'0x1','removed':" +:+ removed +:+ "}}}").

Definition evm_frames : list (string * time) :=
  [(transfer_frame "0xa" "false", 1000); (transfer_frame "0xa" "false", 2000); ("garbage", 2500);
   (transfer_frame "0x9" "false", 2700); (transfer_frame "0xc" "true", 2800);
   (transfer_frame "0xc" "false", 3000)].

Lemma evm_block_sequences_witness :
  (StronglySorted Z.lt (lastBlock evm_example :: carried (decode_run evm_example evm_frames).1)
   /\ lastBlock (decode_run evm_example evm_frames).2
      = List.last (carried (decode_run evm_example evm_frames).1) (lastBlock evm_example)
   /\ Forall (fun ev => ev_Venue ev = chain evm_example /\ event_wf ev)
        (decode_run evm_example evm_frames).1)
  /\ map ev_Sequence (decode_run evm_example evm_frames).1 = [10; -1; -1; 12].
Proof. split; [apply evm_block_sequences; vm_compute; congruence|vm_compute; reflexivity]. Defined.

(** C38. A quiet block is reported as a lost one: the subscription is filtered, so a
    block without a matching log yields no frame, and the detector reports a gap
    of one between the logs of blocks [b] and [b + 2] although nothing was missed. *)
Theorem evm_quiet_block_gap `{UnicodeMap} e token from to amount nb b ni idx tx now1 now2 key :
  0 <= from < 2 ^ 160 -> 0 <= to < 2 ^ 160 -> 0 <= amount < 2 ^ 256 ->
  (0 < nb)%nat -> b + 2 < 16 ^ Z.of_nat nb -> b + 2 < MaxInt64 ->
  (0 < ni)%nat -> 0 <= idx < 16 ^ Z.of_nat ni -> idx < two31 ->
  0 <= lastBlock e < b ->
  let log block := mkRawLog token [TransferTopic0; hex 64 from; hex 64 to] (hex 64 amount)
                     (hex nb block) tx (hex ni idx) false in
  exists ev1 ev2 e1 e2,
    decode_log e (log b) now1 = (Ok [ev1], e1)
    /\ decode_log e1 (log (b + 2)) now2 = (Ok [ev2], e2)
    /\ verdicts_at key (run_ops Gap.New [OpObserve key (ev_Sequence ev1);
                                         OpObserve key (ev_Sequence ev2)]).1
       = [(StatusFirst, 0); (StatusGap, 1)].
Proof.
  intros Hf Ht Ha Hnb Hb Hb63 Hni Hi Hi31 He log.
  destruct (decode_log_exact e token from to amount nb b ni idx tx now1) as
    (ev1 & t1 & e1 & H1 & _ & _ & _ & _ & _ & _ & Hs1 & Hl1); [done..|int_lia|int_lia|done|done|done|].
  destruct (decode_log_exact e1 token from to amount nb (b + 2) ni idx tx now2) as
    (ev2 & t2 & e2 & H2 & _ & _ & _ & _ & _ & _ & Hs2 & Hl2); [done..|int_lia|int_lia|done|done|done|].
  exists ev1, ev2, e1, e2. split; [exact H1|]. split; [exact H2|].
  rewrite Hs1, Hs2, Hl1. rewrite Z.max_r by lia.
  rewrite (proj2 (Z.ltb_lt (lastBlock e) b)), (proj2 (Z.ltb_lt b (b + 2))) by lia.
  pose proof (run_ops_stream Gap.New [OpObserve key b; OpObserve key (b + 2)] key) as Hrun.
  assert (in_bounds Gap.New) as Hnew by apply map_Forall_empty.
  specialize (Hrun Hnew). apply (f_equal fst) in Hrun; [|repeat constructor; cbn; lia].
  cbn [fst] in Hrun. rewrite <- Hrun.
  assert ([OpObserve key b; OpObserve key (b + 2)] ≫= project key = [SObserve b; SObserve (b + 2)])
    as -> by apply (project_observes key [b; b + 2]).
  assert (Last Gap.New key = None) as -> by apply lookup_empty. cbn.
  destruct (Z.ltb_spec b 0); [lia|]. destruct (Z.ltb_spec (b + 2) 0); [lia|]. cbn.
  destruct (Z.ltb_spec (b + 1) (b + 2)); [|lia]. cbn.
  replace (b + 2 - b - 1) with 1 by lia. done.
Qed.

Lemma evm_quiet_block_gap_witness :
  let log block := mkRawLog "0xAB" [TransferTopic0; hex 64 1; hex 64 2] (hex 64 100)
                     (hex 4 block) "0xCD" (hex 1 7) false in
  let key := mkKey "ethereum" "" "connection" in
  exists ev1 ev2 e1 e2,
    decode_log evm_example (log 10) 1000 = (Ok [ev1], e1)
    /\ decode_log e1 (log (10 + 2)) 2000 = (Ok [ev2], e2)
    /\ verdicts_at key (run_ops Gap.New [OpObserve key (ev_Sequence ev1);
                                         OpObserve key (ev_Sequence ev2)]).1
       = [(StatusFirst, 0); (StatusGap, 1)].
Proof.
  exact (evm_quiet_block_gap evm_example "0xAB" 1 2 100 4 10 1 7 "0xCD" 1000 2000
           (mkKey "ethereum" "" "connection")
           ltac:(lia) ltac:(lia) ltac:(lia) ltac:(lia) ltac:(reflexivity) ltac:(reflexivity)
           ltac:(lia) ltac:(cbn; lia) ltac:(reflexivity) ltac:(vm_compute; intuition congruence)).
Defined.

(** The amount is read with [big.Int.SetString], which takes a sign: data with
    a minus after the prefix decodes to a negative amount of an unsigned type. *)
Theorem evm_negative_amount :
  let log := mkRawLog "0xAB" [TransferTopic0; "0x01"; "0x02"] "0x-ff" "0x1" "" "" false in
  match (decode_log evm_example log 1000).1 with
  | Ok [ev] => ct_AmountRaw <$> ev_Chain ev
  | _ => None
  end = Some "-255".
Proof. vm_compute. reflexivity. Qed.
