(* ===== verification/Runner.v ===== *)
(** * Package [internal/venue], [venue.go]: the runner of one venue connection

    [session] and [Run] are functions of a script, what the environment answers
    at each blocking call: the dial, each write, each turn of the read loop, the
    select on the output channel, the context, the timer. They return what the
    runner did, as a trace, with the new decoder and the value returned; a script
    that ends while the runner is blocked leaves it running. *)

From S2P Require Import Prelude.
From S2P Require Import GoStrings.
From S2P Require Import GoStrconv.
From S2P Require Import Model.
From S2P Require Import Venue.
From S2P Require Import Binance.

Local Open Scope Z_scope.

(** What one turn of the read loop meets: a cancelled context, a deadline that
    cannot be set, a failed read, or a frame read at time [now]; while its events
    are sent the context may be done, after [sent] of them. *)
Inductive turn :=
  | TCtxErr (e : error)
  | TDeadlineErr (e : error)
  | TReadErr (e : error)
  | TFrame (raw : string) (now : time) (sent : option (nat * error)).

(** One session: the dial, the subscribe writes (no answer left: it succeeds), the
    turns of the read loop. *)
Record session_script := mkSession {
  ss_dial : option error; ss_writes : list (option error); ss_turns : list turn }.

(** One turn of [Run]: [ctx.Err()] is not nil, or a session, the random draw of
    the delay, and whether the context is done before the timer. *)
Inductive attempt_script :=
  | ACancelled
  | ASession (s : session_script) (rnd : float64) (cancelled_in_wait : bool).

(** What a runner does, [M] being the subscription messages. *)
Inductive emit (M : Type) :=
  | EDial
  | EWrite (m : M)
  | EOnConnect (venue : string)
  | EConnected
  | EDeadline (timeout : duration)
  | EEvent (ev : Event)
  | EClose
  | EWait (delay : duration).
Arguments EDial {M}.
Arguments EWrite {M} m.
Arguments EOnConnect {M} venue.
Arguments EConnected {M}.
Arguments EDeadline {M} timeout.
Arguments EEvent {M} ev.
Arguments EClose {M}.
Arguments EWait {M} delay.

(** [Returned None] is a nil error. *)
Inductive outcome :=
  | Running
  | Returned (err : option error).

(** [OnConnect] may act on the decoder (the reset hook of a stateful one). *)
Record Runner (D : Type) := mkRunner {
  r_Symbols : list string;
  r_Backoff : Backoff;
  r_ReadTimeout : duration;
  r_OnConnect : option (string -> D -> D);
  r_MaxAttempts : Z }.
Arguments mkRunner {D}.
Arguments r_Symbols {D}.
Arguments r_Backoff {D}.
Arguments r_ReadTimeout {D}.
Arguments r_OnConnect {D}.
Arguments r_MaxAttempts {D}.

(** The defaults [Run] fills in. *)
Definition runner_defaults {D} (r : Runner D) : Runner D :=
  mkRunner (r_Symbols r)
    (if bo_Base (r_Backoff r) =? 0 then DefaultBackoff else r_Backoff r)
    (if r_ReadTimeout r =? 0 then 45 * second else r_ReadTimeout r)
    (r_OnConnect r) (r_MaxAttempts r).

Section runner.
Context {D M : Type} `{Decoder D M}.

(** The subscribe loop: the writes done and the error of the first failed one. *)
Fixpoint write_all (subs : list M) (answers : list (option error)) : list (emit M) * option error :=
  match subs with
  | [] => ([], None)
  | m :: subs' =>
      match answers with
      | Some e :: _ => ([], Some e)
      | None :: answers' =>
          let '(tr, err) := write_all subs' answers' in (EWrite m :: tr, err)
      | [] => let '(tr, err) := write_all subs' [] in (EWrite m :: tr, err)
      end
  end.

(** The read loop. A frame that does not decode is skipped (decoders do not
    panic: [decode_no_panic]). *)
Fixpoint read_loop (r : Runner D) (d : D) (turns : list turn) : list (emit M) * D * outcome :=
  match turns with
  | [] => ([], d, Running)
  | t :: turns' =>
      match t with
      | TCtxErr e => ([], d, Returned (Some e))
      | TDeadlineErr e => ([], d, Returned (Some (EWrap "set read deadline" e)))
      | TReadErr e => ([EDeadline (r_ReadTimeout r)], d, Returned (Some (EWrap "read" e)))
      | TFrame raw now sent =>
          let '(result, d1) := dec_Decode d raw now in
          match result with
          | Ok evs =>
              match sent with
              | Some (k, e) =>
                  if (k <? length evs)%nat then
                    (EDeadline (r_ReadTimeout r) :: map EEvent (take k evs), d1, Returned (Some e))
                  else
                    let '(tr, d2, o) := read_loop r d1 turns' in
                    (EDeadline (r_ReadTimeout r) :: map EEvent evs ++ tr, d2, o)
              | None =>
                  let '(tr, d2, o) := read_loop r d1 turns' in
                  (EDeadline (r_ReadTimeout r) :: map EEvent evs ++ tr, d2, o)
              end
          | _ =>
              let '(tr, d2, o) := read_loop r d1 turns' in
              (EDeadline (r_ReadTimeout r) :: tr, d2, o)
          end
      end
  end.

(** The deferred [conn.Close]. *)
Definition closing (o : outcome) : list (emit M) :=
  match o with Running => [] | Returned _ => [EClose] end.

Definition session (r : Runner D) (d : D) (s : session_script)
    : list (emit M) * D * outcome :=
  let name := dec_Name d in
  match ss_dial s with
  | Some e => ([], d, Returned (Some e))
  | None =>
      let '(subs, d1) := dec_Subscriptions d (r_Symbols r) in
      let '(writes, err) := write_all subs (ss_writes s) in
      match err with
      | Some e => (EDial :: writes ++ [EClose], d1, Returned (Some (EWrap "subscribe" e)))
      | None =>
          let '(connect, d2) :=
            match r_OnConnect r with
            | Some f => ([EOnConnect name], f name d1)
            | None => ([], d1)
            end in
          let '(tr, d3, o) := read_loop r d2 (ss_turns s) in
          (EDial :: writes ++ connect ++ EConnected :: tr ++ closing o, d3, o)
      end
  end.

(** The loop of [Run]; [attempt] counts the sessions that ended. *)
Fixpoint run_loop (r : Runner D) (d : D) (attempt : Z) (script : list attempt_script)
    : list (emit M) * D * outcome :=
  match script with
  | [] => ([], d, Running)
  | ACancelled :: _ => ([], d, Returned None)
  | ASession s rnd cancelled :: script' =>
      let '(tr, d1, o) := session r d s in
      match o with
      | Running => (tr, d1, Running)
      | Returned None => (tr, d1, Returned None)
      | Returned (Some err) =>
          if errors_is err Canceled then (tr, d1, Returned None)
          else
            let attempt := attempt + 1 in
            if (0 <? r_MaxAttempts r) && (r_MaxAttempts r <=? attempt) then
              (tr, d1, Returned (Some (EWrap "giving up" err)))
            else
              let delay := Delay (r_Backoff r) (attempt - 1) rnd in
              if cancelled then (tr ++ [EWait delay], d1, Returned None)
              else
                let '(tr', d2, o') := run_loop r d1 attempt script' in
                (tr ++ EWait delay :: tr', d2, o')
      end
  end.

Definition Run (r : Runner D) (d : D) (script : list attempt_script)
    : list (emit M) * D * outcome :=
  run_loop (runner_defaults r) d 0 script.
End runner.

(** ** Specification *)

(** The events of a trace, in order. *)
Definition events_of {M} (tr : list (emit M)) : list Event :=
  flat_map (fun e => match e with EEvent ev => [ev] | _ => [] end) tr.

(** The life of a connection, with the decoder carried along: [Subscribing] holds the
    session's name and the subscriptions still to be written, [Reading] the events of
    the last frame still to be sent; in [Broken] a read has failed. *)
Inductive phase (D M : Type) :=
  | Idle (d : D)
  | Subscribing (name : string) (d : D) (todo : list M)
  | Announced (d : D)
  | Reading (d : D) (todo : list Event)
  | Broken (d : D).
Arguments Idle {D M} d.
Arguments Subscribing {D M} name d todo.
Arguments Announced {D M} d.
Arguments Reading {D M} d todo.
Arguments Broken {D M} d.

Definition phase_decoder {D M} (p : phase D M) : D :=
  match p with Idle d | Subscribing _ d _ | Announced d | Reading d _ | Broken d => d end.

(** The events of a frame; one that does not decode has none. *)
Definition decoded (result : res (list Event)) : list Event :=
  match result with Ok evs => evs | _ => [] end.

Section life.
Context {D M : Type} `{Decoder D M}.
Variable r : Runner D.

(** All the decoder's subscriptions are written, in order, or the connection is closed
    at one that cannot be; then the hook runs if there is one, and the connection is
    announced. Each turn of the loop sets the read deadline anew, reads at most one
    frame, and its events go out in order before the next turn; the connection can be
    closed between two of them. A failed read leaves only the close. *)
Inductive phase_step : phase D M -> emit M -> phase D M -> Prop :=
  | life_dial d subs d1 :
      dec_Subscriptions d (r_Symbols r) = (subs, d1) ->
      phase_step (Idle d) EDial (Subscribing (dec_Name d) d1 subs)
  | life_write name d m todo : phase_step (Subscribing name d (m :: todo)) (EWrite m) (Subscribing name d todo)
  | life_refused name d m todo : phase_step (Subscribing name d (m :: todo)) EClose (Idle d)
  | life_hook name d f :
      r_OnConnect r = Some f -> phase_step (Subscribing name d []) (EOnConnect name) (Announced (f name d))
  | life_connected d : phase_step (Announced d) EConnected (Reading d [])
  | life_no_hook name d :
      r_OnConnect r = None -> phase_step (Subscribing name d []) EConnected (Reading d [])
  | life_frame d raw now result d1 :
      dec_Decode d raw now = (result, d1) ->
      phase_step (Reading d []) (EDeadline (r_ReadTimeout r)) (Reading d1 (decoded result))
  | life_failed d : phase_step (Reading d []) (EDeadline (r_ReadTimeout r)) (Broken d)
  | life_event d ev todo : phase_step (Reading d (ev :: todo)) (EEvent ev) (Reading d todo)
  | life_close d todo : phase_step (Reading d todo) EClose (Idle d)
  | life_close_broken d : phase_step (Broken d) EClose (Idle d)
  | life_wait d delay : phase_step (Idle d) (EWait delay) (Idle d).

Inductive life : phase D M -> list (emit M) -> phase D M -> Prop :=
  | life_nil p : life p [] p
  | life_cons p e p1 tr p2 : phase_step p e p1 -> life p1 tr p2 -> life p (e :: tr) p2.
End life.

(** The frames of a session and what the decoder makes of them: an undecodable
    frame is skipped. *)
Fixpoint decode_frames `{Decoder D M} (d : D) (frames : list (string * time)) : list Event * D :=
  match frames with
  | [] => ([], d)
  | (raw, now) :: frames' =>
      let '(result, d1) := dec_Decode d raw now in
      let '(evs, d2) := decode_frames d1 frames' in
      (match result with Ok evs1 => evs1 ++ evs | _ => evs end, d2)
  end.

Definition frame_turn (f : string * time) : turn := TFrame f.1 f.2 None.

Definition delays_of {M} (tr : list (emit M)) : list duration :=
  flat_map (fun e => match e with EWait d => [d] | _ => [] end) tr.

(** The random draws of the sessions of a script. *)
Definition draws (script : list attempt_script) : list float64 :=
  flat_map (fun a => match a with ASession _ rnd _ => [rnd] | ACancelled => [] end) script.

(** ** Lemmas *)

Section lemmas.
Context {D M : Type} `{Dec : Decoder D M}.

Lemma life_app (r : Runner D) p tr p1 tr' p2 :
  life r p tr p1 -> life r p1 tr' p2 -> life r p (tr ++ tr') p2.
Proof. induction 1; [done|]. intros Hl. eapply life_cons; eauto. Qed.

Lemma life_one (r : Runner D) p e p1 : phase_step r p e p1 -> life r p [e] p1.
Proof. intros Hs. eapply life_cons; [done|constructor]. Qed.

Lemma events_of_app (tr tr' : list (emit M)) : events_of (tr ++ tr') = events_of tr ++ events_of tr'.
Proof. apply flat_map_app. Qed.
Lemma delays_of_app (tr tr' : list (emit M)) : delays_of (tr ++ tr') = delays_of tr ++ delays_of tr'.
Proof. apply flat_map_app. Qed.

Lemma life_events (r : Runner D) d evs todo :
  life r (Reading d (evs ++ todo)) (map EEvent evs) (Reading (M:=M) d todo).
Proof. induction evs as [|ev evs IH]; [constructor|]. eapply life_cons; [constructor|exact IH]. Qed.
Lemma events_of_events (evs : list Event) : events_of (map (EEvent (M:=M)) evs) = evs.
Proof. induction evs as [|ev evs IH]; [done|]. cbn. f_equal. exact IH. Qed.
Lemma delays_of_events (evs : list Event) : delays_of (map (EEvent (M:=M)) evs) = [].
Proof. induction evs as [|ev evs IH]; [done|]. exact IH. Qed.

Lemma write_all_trace (subs : list M) answers :
  events_of (write_all subs answers).1 = [] /\ delays_of (write_all subs answers).1 = [].
Proof.
  revert answers. induction subs as [|m subs IH]; intros answers; [done|]. cbn.
  destruct answers as [|[e|] answers]; [|done|].
  - specialize (IH []). by destruct (write_all subs []).
  - specialize (IH answers). by destruct (write_all subs answers).
Qed.

(** Without an error all the subscriptions are written; with one, some are left. *)
Lemma write_all_life (r : Runner D) name d (subs : list M) answers :
  let '(tr, err) := write_all subs answers in
  exists todo, life r (Subscribing name d subs) tr (Subscribing name d todo)
    /\ match err with None => todo = [] | Some _ => exists m rest, todo = m :: rest end.
Proof.
  revert answers. induction subs as [|m subs IH]; intros answers; [exists []; by split; [constructor|]|].
  assert (forall rest, let '(tr, err) := write_all subs rest in
    exists todo, life r (Subscribing name d (m :: subs)) (EWrite m :: tr) (Subscribing name d todo)
    /\ match err with None => todo = [] | Some _ => exists m rest, todo = m :: rest end) as Hgo.
  { intros rest. specialize (IH rest). destruct (write_all subs rest) as [tr err].
    destruct IH as (todo & Hl & Ht). exists todo. split; [eapply life_cons; [constructor|done]|done]. }
  cbn [write_all]. destruct answers as [|[e|] answers].
  - specialize (Hgo []). by destruct (write_all subs []).
  - exists (m :: subs). split; [constructor|by eexists _, _].
  - specialize (Hgo answers). by destruct (write_all subs answers).
Qed.

(** The loop stops between two turns, or where the connection can be closed. *)
Definition stops (r : Runner D) (p : phase D M) (d' : D) (o : outcome) : Prop :=
  match o with Running => p = Reading d' [] | Returned _ => phase_step r p EClose (Idle d') end.

Lemma read_loop_life (r : Runner D) d turns :
  let '(tr, d', o) := read_loop r d turns in
  exists p, life r (Reading d []) tr p /\ stops r p d' o.
Proof.
  revert d. induction turns as [|t turns IH]; intros d; [exists (Reading d []); by split; [constructor|]|].
  cbn -[Nat.ltb]. destruct t as [e|e|e|raw now sent].
  1-2: exists (Reading d []); split; [constructor|by constructor].
  { exists (Broken d). split; [apply life_one; constructor|constructor]. }
  destruct (dec_Decode d raw now) as [result d1] eqn:Hd. specialize (IH d1).
  destruct (read_loop r d1 turns) as [[tr d2] o]. destruct IH as (p & Hp & Ho).
  pose proof (life_frame r d raw now result d1 Hd) as Hf.
  assert (exists p, life r (Reading d []) (EDeadline (r_ReadTimeout r) :: map EEvent (decoded result) ++ tr) p
            /\ stops r p d2 o) as Hall.
  { exists p. split; [|done]. eapply life_cons; [exact Hf|]. eapply life_app; [|exact Hp].
    pose proof (life_events r d1 (decoded result) []) as Hl. by rewrite app_nil_r in Hl. }
  destruct result as [evs|e|]; [|exact Hall..].
  destruct sent as [[k e]|]; [|exact Hall]. destruct (k <? length evs)%nat; [|exact Hall].
  exists (Reading d1 (drop k evs)). split; [|constructor]. eapply life_cons; [exact Hf|].
  pose proof (life_events r d1 (take k evs) (drop k evs)) as Hl. by rewrite take_drop in Hl.
Qed.

Lemma read_loop_trace (r : Runner D) d turns :
  let '(tr, d', o) := read_loop r d turns in delays_of tr = [] /\ o <> Returned None.
Proof.
  revert d. induction turns as [|t turns IH]; intros d; [done|]. cbn -[Nat.ltb].
  destruct t as [e|e|e|raw now sent]; try done.
  destruct (dec_Decode d raw now) as [result d1]. specialize (IH d1).
  destruct (read_loop r d1 turns) as [[tr d2] o]. destruct IH as (Hd & Ho).
  assert (forall evs, delays_of (EDeadline (r_ReadTimeout r) :: map EEvent evs ++ tr) = []) as Hall.
  { intros evs. change (delays_of (map EEvent evs ++ tr) = []). by rewrite delays_of_app, delays_of_events. }
  destruct result as [evs|e|]; [|done..].
  destruct sent as [[k e]|]; [|by specialize (Hall evs)]. destruct (k <? length evs)%nat.
  - split; [apply delays_of_events|done].
  - by specialize (Hall evs).
Qed.

(** What a session leaves: an open connection while it runs, none once it returned. *)
Lemma session_life (r : Runner D) d s :
  let '(tr, d', o) := session r d s in
  life r (Idle d) tr (match o with Running => Reading d' [] | Returned _ => Idle d' end).
Proof.
  unfold session. destruct (ss_dial s) as [e|]; [constructor|].
  destruct (dec_Subscriptions d (r_Symbols r)) as [subs d1] eqn:Hs. apply (life_dial r) in Hs.
  pose proof (write_all_life r (dec_Name d) d1 subs (ss_writes s)) as Hw.
  destruct (write_all subs (ss_writes s)) as [writes [err|]]; destruct Hw as (todo & Hw & Ht).
  { destruct Ht as (m & rest & ->). eapply life_cons; [exact Hs|]. eapply life_app; [exact Hw|].
    apply life_one. constructor. }
  subst todo. destruct (match r_OnConnect r with Some f => _ | None => _ end) as [connect d2] eqn:Hc.
  assert (life r (Subscribing (dec_Name d) d1 []) (connect ++ [EConnected]) (Reading d2 [])) as Hconn.
  { destruct (r_OnConnect r) as [f|] eqn:Hf; injection Hc as <- <-.
    - eapply life_cons; [by constructor|]. apply life_one. constructor.
    - apply life_one. by constructor. }
  pose proof (read_loop_life r d2 (ss_turns s)) as Hl.
  destruct (read_loop r d2 (ss_turns s)) as [[tr d3] o]. destruct Hl as (p & Hp & Ho).
  eapply life_cons; [exact Hs|]. eapply life_app; [exact Hw|].
  change (EConnected :: tr ++ closing o) with ([EConnected] ++ tr ++ closing o). rewrite (assoc_L (++)).
  eapply life_app; [exact Hconn|]. eapply life_app; [exact Hp|].
  destruct o; [by rewrite Ho; constructor|by apply life_one].
Qed.

Lemma session_trace (r : Runner D) d s :
  let '(tr, d', o) := session r d s in delays_of tr = [] /\ o <> Returned None.
Proof.
  unfold session. destruct (ss_dial s) as [e|]; [done|].
  destruct (dec_Subscriptions d (r_Symbols r)) as [subs d1].
  pose proof (write_all_trace subs (ss_writes s)) as (_ & Hd).
  destruct (write_all subs (ss_writes s)) as [writes [err|]]; cbn [fst snd] in *.
  { change (delays_of (writes ++ [EClose]) = [] /\ Returned (Some (EWrap "subscribe" err)) <> Returned None).
    by rewrite delays_of_app, Hd. }
  destruct (match r_OnConnect r with Some f => _ | None => _ end) as [connect d2] eqn:Hc.
  pose proof (read_loop_trace r d2 (ss_turns s)) as Hl.
  destruct (read_loop r d2 (ss_turns s)) as [[tr d3] o]. destruct Hl as (Hdl & Ho). split; [|done].
  assert (delays_of connect = []) as Hdc by (destruct (r_OnConnect r); by injection Hc as <- _).
  change (delays_of (writes ++ connect ++ EConnected :: tr ++ closing o) = []).
  rewrite !delays_of_app, Hd, Hdc. cbn. change (delays_of (tr ++ closing o) = []).
  rewrite delays_of_app, Hdl. by destruct o.
Qed.

(** A completed session that does not end the runner leaves the connection closed. *)
Lemma run_loop_life (r : Runner D) d n script :
  let '(tr, d', o) := run_loop r d n script in
  exists p, life r (Idle d) tr p
    /\ (p = Idle d' \/ o = Running /\ p = Reading d' []).
Proof.
  revert d n. induction script as [|[|s rnd cancelled] script IH]; intros d n.
  1-2: exists (Idle d); split; [constructor|by left].
  cbn [run_loop]. pose proof (session_life r d s) as Hs. pose proof (session_trace r d s) as Ho.
  destruct (session r d s) as [[tr d1] [|[err|]]]; [exists (Reading d1 []); by auto| |by destruct Ho].
  destruct (errors_is err Canceled); [exists (Idle d1); by auto|].
  destruct (_ && _); [exists (Idle d1); by auto|]. destruct cancelled.
  { exists (Idle d1). split; [|by left]. eapply life_app; [exact Hs|]. apply life_one. constructor. }
  specialize (IH d1 (n + 1)). destruct (run_loop r d1 (n + 1) script) as [[tr' d2] o'].
  destruct IH as (p & Hp & Hfin). exists p. split; [|done]. eapply life_app; [exact Hs|].
  eapply life_cons; [constructor|exact Hp].
Qed.

Lemma run_loop_trace (r : Runner D) d n script :
  exists k, delays_of (run_loop r d n script).1.1
         = imap (fun i rnd => Delay (r_Backoff r) (n + Z.of_nat i) rnd) (take k (draws script)).
Proof.
  revert d n. induction script as [|[|s rnd cancelled] script IH]; intros d n; [by exists O..|].
  cbn [run_loop]. pose proof (session_trace r d s) as Hs. destruct (session r d s) as [[tr d1] o].
  destruct Hs as [Hd Ho]. destruct o as [|[err|]]; [by exists O| |done].
  destruct (errors_is err Canceled); [by exists O|]. destruct (_ && _); [by exists O|].
  replace (n + 1 - 1) with n by lia. destruct cancelled.
  { exists 1%nat. cbn [fst]. rewrite delays_of_app, Hd. cbn. by rewrite Z.add_0_r. }
  specialize (IH d1 (n + 1)). destruct (run_loop r d1 (n + 1) script) as [[tr' d2] o'].
  destruct IH as (k & Hk). exists (S k). cbn [fst] in *. rewrite delays_of_app, Hd. cbn.
  rewrite Z.add_0_r. change (draws (ASession s rnd false :: script)) with (rnd :: draws script).
  f_equal. change (delays_of tr' = imap (fun i x => Delay (r_Backoff r) (n + Z.of_nat (S i)) x)
    (take k (draws script))). rewrite Hk. apply imap_ext. intros i x _. f_equal. lia.
Qed.

(** With a bound, no more sessions than the bound; without one, no error. *)
Lemma run_loop_bounded (r : Runner D) d n script rest :
  0 <= n -> Z.of_nat (length script) = r_MaxAttempts r - n -> 0 < Z.of_nat (length script) ->
  run_loop r d n (script ++ rest) = run_loop r d n script.
Proof.
  intros Hn. revert d n Hn. induction script as [|a script IH]; intros d n Hn Hlen Hpos;
    [cbn in Hpos; lia|].
  cbn [app run_loop]. destruct a as [|s rnd cancelled]; [done|].
  destruct (session r d s) as [[tr d1] [|[err|]]]; try done.
  destruct (errors_is err Canceled); [done|]. cbn [length] in Hlen.
  destruct (Z.ltb_spec 0 (r_MaxAttempts r)); [|lia].
  destruct (Z.leb_spec (r_MaxAttempts r) (n + 1)); [done|]. cbn [andb].
  destruct cancelled; [done|]. by rewrite IH by lia.
Qed.

Lemma run_loop_unbounded (r : Runner D) d n script :
  r_MaxAttempts r <= 0 -> forall e, (run_loop r d n script).2 <> Returned (Some e).
Proof.
  intros Hm. revert d n. induction script as [|a script IH]; intros d n e; [done|].
  cbn [run_loop]. destruct a as [|s rnd cancelled]; [done|].
  destruct (session r d s) as [[tr d1] [|[err|]]]; try done.
  destruct (errors_is err Canceled); [done|].
  destruct (Z.ltb_spec 0 (r_MaxAttempts r)); [lia|]. cbn [andb].
  destruct cancelled; [done|]. specialize (IH d1 (n + 1) e).
  by destruct (run_loop r d1 (n + 1) script) as [[? ?] ?].
Qed.

(** A bounded runner whose sessions all fail gives up with the last error. *)
Lemma run_loop_gives_up (r : Runner D) d n script err :
  0 <= n -> Z.of_nat (length script) = r_MaxAttempts r - n -> 0 < Z.of_nat (length script) ->
  errors_is err Canceled = false ->
  Forall (fun a => exists s rnd, a = ASession s rnd false /\ ss_dial s = Some err) script ->
  (run_loop r d n script).2 = Returned (Some (EWrap "giving up" err)).
Proof.
  intros Hn Hlen Hpos Herr Hall. revert d n Hn Hlen Hpos.
  induction Hall as [|a script (s & rnd & -> & Hs) Hall IH]; intros d n Hn Hlen Hpos;
    [cbn in Hpos; lia|].
  cbn [run_loop]. unfold session. rewrite Hs, Herr. cbn [length] in Hlen.
  destruct (Z.ltb_spec 0 (r_MaxAttempts r)); [|lia].
  destruct (Z.leb_spec (r_MaxAttempts r) (n + 1)); [done|]. cbn [andb].
  specialize (IH d (n + 1)). destruct (run_loop r d (n + 1) script) as [[? ?] ?].
  apply IH; lia.
Qed.

(** The read loop over frames that are all delivered relays what they decode to. *)
Lemma read_loop_frames (r : Runner D) d frames :
  let '(tr, d', o) := read_loop r d (map frame_turn frames) in
  events_of tr = (decode_frames d frames).1 /\ d' = (decode_frames d frames).2 /\ o = Running.
Proof.
  revert d. induction frames as [|[raw now] frames IH]; intros d; [done|]. cbn [map read_loop frame_turn fst snd].
  cbn [decode_frames]. destruct (dec_Decode d raw now) as [result d1]. specialize (IH d1).
  destruct (read_loop r d1 (map frame_turn frames)) as [[tr d2] o].
  destruct (decode_frames d1 frames) as [evs d3]. cbn [fst snd] in *.
  destruct IH as (He & -> & ->). destruct result as [evs1|e|]; [|done..].
  split; [|done]. change (events_of (map EEvent evs1 ++ tr) = evs1 ++ evs).
  by rewrite events_of_app, events_of_events, He.
Qed.

Lemma write_all_ok (subs : list M) : write_all subs [] = (map EWrite subs, None).
Proof. induction subs as [|m subs IH]; [done|]. cbn. by rewrite IH. Qed.
End lemmas.

Section lawful.
Context {D M : Type} `{Law : LawfulDecoder D M}.

Definition keeps_name (r : Runner D) : Prop :=
  forall f v d, r_OnConnect r = Some f -> dec_Name (f v d) = dec_Name d.

Lemma read_loop_events_ok (r : Runner D) d turns :
  let '(tr, d', o) := read_loop r d turns in
  events_ok (dec_Name d) (events_of tr) /\ dec_Name d' = dec_Name d.
Proof.
  revert d. induction turns as [|t turns IH]; intros d; [split; [constructor|done]|].
  cbn -[Nat.ltb]. destruct t as [e|e|e|raw now sent]; try (split; [constructor|done]).
  pose proof (decode_name d raw now) as Hn. pose proof (decode_events_ok d raw now) as Hok.
  destruct (dec_Decode d raw now) as [result d1]. cbn [fst snd] in *. specialize (IH d1).
  rewrite Hn in IH. destruct (read_loop r d1 turns) as [[tr d2] o]. destruct IH as [He Hn2].
  destruct result as [evs|e|]; [|done..]. specialize (Hok evs eq_refl).
  assert (events_ok (dec_Name d) (events_of (EDeadline (r_ReadTimeout r) :: map EEvent evs ++ tr))) as Hall.
  { change (events_ok (dec_Name d) (events_of (map (EEvent (M:=M)) evs ++ tr))).
    rewrite events_of_app, events_of_events. by apply Forall_app. }
  destruct sent as [[k e]|]; [|done]. destruct (k <? length evs)%nat; [|done].
  split; [|done]. change (events_ok (dec_Name d) (events_of (map (EEvent (M:=M)) (take k evs)))).
  rewrite events_of_events. by apply Forall_take.
Qed.

Lemma session_events_ok (r : Runner D) d s :
  keeps_name r ->
  let '(tr, d', o) := session r d s in
  events_ok (dec_Name d) (events_of tr) /\ dec_Name d' = dec_Name d.
Proof.
  intros Hk. unfold session. destruct (ss_dial s); [split; [constructor|done]|].
  pose proof (subscriptions_name d (r_Symbols r)) as Hn.
  destruct (dec_Subscriptions d (r_Symbols r)) as [subs d1]. cbn [snd] in Hn.
  pose proof (write_all_trace subs (ss_writes s)) as (Hw & _).
  destruct (write_all subs (ss_writes s)) as [writes [err|]]; cbn [fst] in Hw.
  { split; [|done]. change (events_ok (dec_Name d) (events_of (writes ++ [EClose]))).
    rewrite events_of_app, Hw. constructor. }
  destruct (match r_OnConnect r with Some f => _ | None => _ end) as [connect d2] eqn:Hc.
  assert (events_of connect = [] /\ dec_Name d2 = dec_Name d) as [Hce Hn2].
  { unfold keeps_name in Hk. destruct (r_OnConnect r) as [f|]; injection Hc as <- <-; [|done].
    split; [done|]. by rewrite (Hk f _ d1 eq_refl). }
  pose proof (read_loop_events_ok r d2 (ss_turns s)) as Hl. rewrite Hn2 in Hl.
  destruct (read_loop r d2 (ss_turns s)) as [[tr d3] o]. destruct Hl as [He Hn3].
  split; [|done].
  change (events_ok (dec_Name d) (events_of (writes ++ connect ++ EConnected :: tr ++ closing o))).
  rewrite !events_of_app, Hw, Hce. cbn.
  change (events_ok (dec_Name d) (events_of (tr ++ closing o))). rewrite events_of_app.
  apply Forall_app. split; [done|]. by destruct o; constructor.
Qed.

Lemma run_loop_events_ok (r : Runner D) d n script :
  keeps_name r -> events_ok (dec_Name d) (events_of (run_loop r d n script).1.1).
Proof.
  intros Hk. revert d n. induction script as [|a script IH]; intros d n; [constructor|].
  cbn [run_loop]. destruct a as [|s rnd cancelled]; [constructor|].
  pose proof (session_events_ok r d s Hk) as Hs. destruct (session r d s) as [[tr d1] o].
  destruct Hs as [He Hn]. destruct o as [|[err|]]; [done| |done].
  destruct (errors_is err Canceled); [done|]. destruct (_ && _); [done|].
  destruct cancelled; [cbn [fst]; rewrite events_of_app; cbn; by rewrite app_nil_r|].
  specialize (IH d1 (n + 1)). rewrite Hn in IH.
  destruct (run_loop r d1 (n + 1) script) as [[tr' d2] o']. cbn [fst] in *.
  rewrite events_of_app. by apply Forall_app.
Qed.
End lawful.

(** ** Properties *)


(** Relay: on a connected session that delivers its frames, the events sent are
    those the decoder makes of the frames, in order, with the decoder's state
    carried from frame to frame; a frame that does not decode is skipped and the
    session goes on. *)
Theorem session_relays_frames `{Decoder D M} (r : Runner D) d frames :
  let d1 := (dec_Subscriptions d (r_Symbols r)).2 in
  let d2 := match r_OnConnect r with Some f => f (dec_Name d) d1 | None => d1 end in
  let '(tr, d', o) := session r d (mkSession None [] (map frame_turn frames)) in
  events_of tr = (decode_frames d2 frames).1 /\ d' = (decode_frames d2 frames).2 /\ o = Running.
Proof.
  cbv zeta. unfold session. cbn [ss_dial ss_writes ss_turns].
  destruct (dec_Subscriptions d (r_Symbols r)) as [subs d1]. rewrite write_all_ok. cbn [snd].
  assert (forall connect d2, events_of connect = [] ->
    let '(tr, d', o) :=
      (let '(tr, d3, o) := read_loop r d2 (map frame_turn frames) in
       (EDial :: map EWrite subs ++ connect ++ EConnected :: tr ++ closing o, d3, o)) in
    events_of tr = (decode_frames d2 frames).1 /\ d' = (decode_frames d2 frames).2 /\ o = Running)
    as Hgo.
  { intros connect d2 Hc. pose proof (read_loop_frames r d2 frames) as Hl.
    destruct (read_loop r d2 (map frame_turn frames)) as [[tr d3] o]. destruct Hl as (He & -> & ->).
    split; [|done]. change (events_of (map EWrite subs ++ connect ++ EConnected :: tr ++ [])
                            = (decode_frames d2 frames).1).
    rewrite !events_of_app, Hc, app_nil_r. rewrite <- He.
    assert (events_of (map (EWrite (M:=M)) subs) = []) as -> by (clear; by induction subs). done. }
  destruct (r_OnConnect r) as [f|]; by apply Hgo.
Qed.

(** Every event a runner sends, in any run, is well formed and carries the name
    of its decoder, for every decoder that keeps the promises of
    [LawfulDecoder]. *)
Theorem runner_events_well_formed `{LawfulDecoder D M} (r : Runner D) d script :
  (forall f v d', r_OnConnect r = Some f -> dec_Name (f v d') = dec_Name d') ->
  events_ok (dec_Name d) (events_of (Run r d script).1.1).
Proof. intros Hk. unfold Run. apply run_loop_events_ok. exact Hk. Qed.

#[local] Existing Instance unicode_id.

Definition example_runner (attempts : Z) : Runner Binance :=
  mkRunner ["BTC-USD"] DefaultBackoff 0 (Some (fun _ b => ResetBooks b)) attempts.
Definition example_binance : Binance := NewBinance ["BTC-USD"] 100.
Definition example_frame (id : string) : turn :=
  TFrame (dq ("{'data':{'e':'trade','E':12,'s':'BTCUSDT','t':" +:+ id
              +:+ ",'p':'16500.10','q':'0.5','T':13,'m':true}}")) 5000 None.
Definition example_script : list attempt_script :=
  [ASession (mkSession None [] [example_frame "7"; example_frame "x"; example_frame "8"; TReadErr (EMsg "eof")])
     f64_zero false;
   ASession (mkSession (Some (EMsg "refused")) [] []) f64_zero false;
   ASession (mkSession None [] [example_frame "9"]) f64_zero false].

Lemma runner_events_well_formed_witness :
  events_ok VenueBinance (events_of (Run (example_runner 0) example_binance example_script).1.1)
  /\ map ev_Sequence (events_of (Run (example_runner 0) example_binance example_script).1.1) = [7; 8; 9].
Proof.
  split; [|vm_compute; reflexivity].
  exact (@runner_events_well_formed Binance Empty_set binance_decoder binance_lawful
           (example_runner 0) example_binance example_script
           ltac:(intros f v b [= <-]; reflexivity)).
Defined.

(** The attempt bound: a bounded runner looks at no more sessions than
    [MaxAttempts] and, if none of them connects, gives up with the last error;
    without a bound it never returns an error. *)
Theorem runner_attempts `{Decoder D M} (r : Runner D) d script rest err :
  (Z.of_nat (length script) = r_MaxAttempts r -> 0 < r_MaxAttempts r ->
     Run r d (script ++ rest) = Run r d script
     /\ (errors_is err Canceled = false ->
         Forall (fun a => exists s rnd, a = ASession s rnd false /\ ss_dial s = Some err) script ->
         (Run r d (script ++ rest)).2 = Returned (Some (EWrap "giving up" err))))
  /\ (r_MaxAttempts r <= 0 -> forall e, (Run r d script).2 <> Returned (Some e)).
Proof.
  unfold Run. split.
  - intros Hl Hm.
    assert (run_loop (runner_defaults r) d 0 (script ++ rest) = run_loop (runner_defaults r) d 0 script)
      as ->.
    { apply run_loop_bounded; cbn [runner_defaults r_MaxAttempts]; lia. }
    split; [done|]. intros He Hall. apply run_loop_gives_up; cbn [runner_defaults r_MaxAttempts];
      (done || lia).
  - intros Hm. apply run_loop_unbounded. exact Hm.
Qed.

Definition failing_script : list attempt_script :=
  repeat (ASession (mkSession (Some (EMsg "refused")) [] []) f64_zero false) 3.

Lemma runner_attempts_witness :
  (Run (example_runner 3) example_binance (failing_script ++ example_script)).2
  = Returned (Some (EWrap "giving up" (EMsg "refused"))).
Proof.
  apply (proj1 (runner_attempts (example_runner 3) example_binance failing_script example_script
                  (EMsg "refused"))); [reflexivity|reflexivity|reflexivity|].
  repeat constructor; eexists _, _; split; reflexivity.
Defined.

(** The backoff never starts over: the waits of a run are the delays of attempts
    0, 1, 2, ... in a row, whatever happened in the sessions between them, so
    after a long healthy session the next reconnect waits as if every earlier
    session had failed, and [MaxAttempts] counts all disconnects of the process. *)
Theorem backoff_never_resets `{Decoder D M} (r : Runner D) d script :
  exists k, delays_of (Run r d script).1.1
    = imap (fun i rnd => Delay (r_Backoff (runner_defaults r)) (Z.of_nat i) rnd)
        (take k (draws script)).
Proof.
  unfold Run. destruct (run_loop_trace (runner_defaults r) d 0 script) as [k Hk]. exists k. exact Hk.
Qed.
