(* ===== verification/Cancel.v ===== *)
(** * Package [internal/venue], [venue.go]: stopping a runner

    A runner looks at its context before it dials, before each turn of the read loop,
    and while it sends an event. [cut] says where a run can be stopped there and what
    is left to do; [cancelled_run_is_run] shows that the stopped run is a run of the
    runner, on the answers an environment gives whose context is cancelled at that
    point. *)

From S2P Require Import Prelude.
From S2P Require Import GoStrings.
From S2P Require Import GoStrconv.
From S2P Require Import Model.
From S2P Require Import Venue.
From S2P Require Import Binance.
From S2P Require Import Runner.

Local Open Scope Z_scope.

(** What a cancelled runner still does instead of [e]: nothing before a dial; in the
    read loop the deferred [conn.Close]. [None]: it does not look at its context. *)
Definition cut {M} (e : emit M) : option (list (emit M)) :=
  match e with
  | EDial => Some []
  | EDeadline _ | EEvent _ => Some [EClose]
  | _ => None
  end.

Definition ErrCanceled : error := ESentinel Canceled.

(** ** A context that stays cancelled

    [cut] stops a runner at one look; a context stays cancelled, and the next look
    answers so too. [place] is where the cancellation finds a runner: between two
    sessions; in a session short of its read loop; or in turn [t] of a read loop that
    has done [seen]. *)
Inductive place :=
  | Between
  | Connecting (dial : option error) (writes : list (option error))
  | InTurn (writes : list (option error)) (seen : list turn) (t : turn).

(** What the environment would still send, and the answers that do not depend on the
    context. *)
Record venue_rest := mkRest {
  vr_turns : list turn; vr_rnd : float64; vr_wait : bool; vr_script : list attempt_script }.

Record halt := mkHalt { h_before : list attempt_script; h_place : place; h_rest : venue_rest }.

(** The whole script: from the cancellation on every look at the context finds it
    cancelled, whatever the venue goes on sending. *)
Definition halted (h : halt) : list attempt_script :=
  let rest := h_rest h in
  let session dial writes turns :=
    ASession (mkSession dial writes turns) (vr_rnd rest) (vr_wait rest) :: ACancelled :: vr_script rest in
  h_before h ++
  match h_place h with
  | Between => ACancelled :: vr_script rest
  | Connecting dial writes => session dial writes (TCtxErr ErrCanceled :: vr_turns rest)
  | InTurn writes seen t => session None writes (seen ++ t :: TCtxErr ErrCanceled :: vr_turns rest)
  end.

(** The part before the cancellation. *)
Definition so_far (h : halt) : list attempt_script :=
  h_before h ++
  match h_place h with
  | InTurn writes seen t => [ASession (mkSession None writes seen) (vr_rnd (h_rest h)) (vr_wait (h_rest h))]
  | _ => []
  end.

(** The actions left, in decoder state [d]: the connection is still made and subscribed
    to, or the turn is finished with the events of its frame; then it is closed. *)
Definition frame_events {D M} `{Decoder D M} (d : D) (t : turn) : nat :=
  match t with TFrame raw now _ => length (decoded (dec_Decode d raw now).1) | _ => 0 end.
Definition halt_work {D M} `{Decoder D M} (r : Runner D) (d : D) (p : place) : nat :=
  match p with
  | Between => 0
  | Connecting _ _ => length (dec_Subscriptions d (r_Symbols r)).1 + 4
  | InTurn _ _ t => frame_events d t + 3
  end.

(** ** Lemmas *)

(** An element of an append is in the first list or in the second. *)
Lemma app_split {A} (l1 l2 pre : list A) e rest : l1 ++ l2 = pre ++ e :: rest ->
  (exists r, l1 = pre ++ e :: r) \/ (exists pre2, pre = l1 ++ pre2 /\ l2 = pre2 ++ e :: rest).
Proof.
  intros Heq. apply app_eq_app in Heq as (l & [[-> Hl]|[-> Hl]]).
  - destruct l as [|x l]; [|injection Hl as -> ->; left; by exists l].
    right. exists []. by rewrite !app_nil_r.
  - right. by exists l.
Qed.

Lemma cut_not_in {M} (l : list (emit M)) pre e rest after :
  Forall (fun x => cut x = None) l -> cut e = Some after -> l <> pre ++ e :: rest.
Proof.
  intros Hl Hc ->. apply Forall_app in Hl as [_ Hl]. apply Forall_cons_1 in Hl as [Hl _]. congruence.
Qed.

(** The first part of an append cannot be stopped in: the stop is in the second. *)
Lemma cut_skip {M} (l1 l2 pre : list (emit M)) e rest after :
  Forall (fun x => cut x = None) l1 -> cut e = Some after -> l1 ++ l2 = pre ++ e :: rest ->
  exists pre2, pre = l1 ++ pre2 /\ l2 = pre2 ++ e :: rest.
Proof.
  intros Hl Hc [(r & Hr)|Hr]%app_split; [|done]. by destruct (cut_not_in _ _ _ _ _ Hl Hc Hr).
Qed.

Lemma map_split {A B} (f : A -> B) l pre e rest : map f l = pre ++ e :: rest ->
  exists j, pre = map f (take j l) /\ (j < length l)%nat.
Proof.
  revert pre. induction l as [|x l IH]; intros pre Heq; [by destruct pre|].
  destruct pre as [|y pre]; cbn in Heq; injection Heq as <- Heq.
  - exists 0%nat. cbn. split; [done|lia].
  - destruct (IH _ Heq) as (j & -> & Hj). exists (S j). cbn. split; [done|lia].
Qed.

Section cancel.
Context {D M : Type} `{Decoder D M}.

Lemma write_all_uncut (subs : list M) answers :
  Forall (fun x => cut x = None) (write_all subs answers).1.
Proof.
  revert answers. induction subs as [|m subs IH]; intros answers; cbn [write_all]; [constructor|].
  destruct answers as [|[e|] answers]; cbn; [| |]; try by constructor.
  - specialize (IH []). destruct (write_all subs []) as [tr err]. by constructor.
  - specialize (IH answers). destruct (write_all subs answers) as [tr err]. by constructor.
Qed.

(** A frame that is read: its events are sent and the loop goes on in [d1]. *)
Definition passes (r : Runner D) d raw now (evs : list Event) (d1 : D) : Prop :=
  forall turns, read_loop r d (TFrame raw now None :: turns)
  = let '(tr, d2, o) := read_loop r d1 turns in
    (EDeadline (M:=M) (r_ReadTimeout r) :: map EEvent evs ++ tr, d2, o).

(** What a turn adds to the trace: nothing, the deadline, or the deadline and the
    events of a frame, all or a part of them. *)
Lemma read_loop_turn (r : Runner D) d t turns :
  let tr := (read_loop r d (t :: turns)).1.1 in
  tr = [] \/ tr = [EDeadline (r_ReadTimeout r)]
  \/ (exists raw now evs d1, passes r d raw now evs d1
       /\ (dec_Decode d raw now = (Ok evs, d1) \/ evs = [])
       /\ tr = EDeadline (r_ReadTimeout r) :: map EEvent evs ++ (read_loop r d1 turns).1.1)
  \/ (exists raw now evs d1 k, dec_Decode d raw now = (Ok evs, d1)
       /\ tr = EDeadline (r_ReadTimeout r) :: map EEvent (take k evs)).
Proof.
  unfold passes. cbn [read_loop]. destruct t as [e|e|e|raw now sent]; [by auto..|].
  destruct (dec_Decode d raw now) as [result d1] eqn:Hd. do 2 right.
  destruct (read_loop r d1 turns) as [[tr1 d2] o1] eqn:Hl.
  destruct result as [evs|e|].
  - destruct sent as [[k e2]|]; [destruct (k <? length evs)%nat; [right; by exists raw, now, evs, d1, k|]|];
      left; exists raw, now, evs, d1; rewrite Hd, Hl; by auto.
  - left. exists raw, now, [], d1. rewrite Hd, Hl. by auto.
  - left. exists raw, now, [], d1. rewrite Hd, Hl. by auto.
Qed.

(** Stopped at an event of a frame. *)
Lemma frame_cut (r : Runner D) d raw now d1 evs k (pre : list (emit M)) e rest :
  dec_Decode d raw now = (Ok evs, d1) -> map EEvent (take k evs) = pre ++ e :: rest ->
  exists turns d2, read_loop r d turns = (EDeadline (r_ReadTimeout r) :: pre, d2, Returned (Some ErrCanceled)).
Proof.
  intros Hd (j & -> & Hj)%map_split. rewrite length_take in Hj.
  exists [TFrame raw now (Some (j, ErrCanceled))], d1. cbn [read_loop]. rewrite Hd.
  destruct (Nat.ltb_spec j (length evs)); [|lia]. by rewrite take_take, Nat.min_l by lia.
Qed.

(** Stopped in a turn, given that the later turns can be stopped in. *)
Lemma turn_cut (r : Runner D) d t turns (pre : list (emit M)) e rest :
  (forall d1 pre1, (read_loop r d1 turns).1.1 = pre1 ++ e :: rest ->
     exists turns' d2, read_loop r d1 turns' = (pre1, d2, Returned (Some ErrCanceled))) ->
  (read_loop r d (t :: turns)).1.1 = EDeadline (r_ReadTimeout r) :: pre ++ e :: rest ->
  exists turns' d2,
    read_loop r d turns' = (EDeadline (r_ReadTimeout r) :: pre, d2, Returned (Some ErrCanceled)).
Proof.
  intros IH Htr. pose proof (read_loop_turn r d t turns) as Ht. cbv zeta in Ht. rewrite Htr in Ht.
  destruct Ht as [Ht|[Ht|[(raw & now & evs & d1 & Hp & Hres & Ht)|(raw & now & evs & d1 & k & Hd & Ht)]]].
  - done.
  - injection Ht as Ht. by destruct pre.
  - injection Ht as Ht. symmetry in Ht. apply app_split in Ht as [(r1 & Ht)|(pre2 & -> & Ht)].
    + destruct Hres as [Hd| ->]; [|by destruct pre].
      apply (frame_cut r d raw now d1 evs (length evs) pre e r1 Hd). by rewrite firstn_all.
    + destruct (IH d1 pre2 Ht) as (turns' & d2 & Hl). exists (TFrame raw now None :: turns'), d2.
      rewrite Hp, Hl. done.
  - injection Ht as Ht. symmetry in Ht. by apply (frame_cut r d raw now d1 evs k pre e rest).
Qed.

Lemma read_loop_cut (r : Runner D) turns : forall d (pre : list (emit M)) e rest,
  (read_loop r d turns).1.1 = pre ++ e :: rest ->
  exists turns' d2, read_loop r d turns' = (pre, d2, Returned (Some ErrCanceled)).
Proof.
  induction turns as [|t turns IH]; intros d pre e rest Htr; [by destruct pre|].
  destruct pre as [|x pre]; [by exists [TCtxErr ErrCanceled], d|].
  assert (x = EDeadline (r_ReadTimeout r)) as ->.
  { pose proof (read_loop_turn r d t turns) as Ht. cbv zeta in Ht. rewrite Htr in Ht.
    destruct Ht as [Ht|[Ht|[(?&?&?&?&_&_&Ht)|(?&?&?&?&?&_&Ht)]]]; [done|by injection Ht..]. }
  eapply turn_cut; [|exact Htr]. intros d1 pre1 Hpre. by eapply IH.
Qed.

Lemma read_loop_no_dial (r : Runner D) d turns :
  Forall (fun y : emit M => y <> EDial) (read_loop r d turns).1.1.
Proof.
  assert (forall evs, Forall (fun y : emit M => y <> EDial) (map EEvent evs)) as Hev
    by (intros evs; apply List.Forall_map, List.Forall_forall; done).
  revert d. induction turns as [|t turns IH]; intros d; [constructor|].
  destruct (read_loop_turn r d t turns) as [->|[->|[(?&?&?&?&_&_&->)|(?&?&?&?&?&_&->)]]].
  - constructor.
  - by repeat constructor.
  - constructor; [done|]. apply Forall_app. by split.
  - by constructor.
Qed.

(** A connection that is stopped in the read loop is closed. *)
Lemma read_loop_closes (r : Runner D) d turns (pre : list (emit M)) e rest after :
  (read_loop r d turns).1.1 = pre ++ e :: rest -> cut e = Some after -> after = [EClose].
Proof.
  intros Htr Hc. pose proof (read_loop_no_dial r d turns) as Hf. rewrite Htr in Hf.
  apply Forall_app in Hf as [_ Hf]. apply Forall_cons_1 in Hf as [Hf _].
  destruct e; try done; by injection Hc as <-.
Qed.

(** A session that has dialled, stopped in its read loop. *)
Lemma session_cut (r : Runner D) d s (pre : list (emit M)) x e rest after :
  (session r d s).1.1 = (x :: pre) ++ e :: rest -> cut e = Some after ->
  exists s' d2, session r d s' = ((x :: pre) ++ after, d2, Returned (Some ErrCanceled)).
Proof.
  intros Htr Hc. unfold session in Htr. destruct (ss_dial s) as [e0|] eqn:Hdial; [done|].
  destruct (dec_Subscriptions d (r_Symbols r)) as [subs d1] eqn:Hsub.
  pose proof (write_all_uncut subs (ss_writes s)) as Hw.
  destruct (write_all subs (ss_writes s)) as [writes [e1|]] eqn:Hwr; cbn [fst] in Hw.
  { exfalso. injection Htr as _ Htr. apply (cut_not_in (writes ++ [EClose]) pre e rest after); [|done|done].
    apply Forall_app. split; [done|by repeat constructor]. }
  destruct (match r_OnConnect r with Some f => _ | None => _ end) as [connect d2] eqn:Hcon.
  assert (Forall (fun x : emit M => cut x = None) connect) as Hcn.
  { destruct (r_OnConnect r); apply pair_equal_spec in Hcon as [<- _]; by repeat constructor. }
  destruct (read_loop r d2 (ss_turns s)) as [[tr d3] o] eqn:Hrl. cbn [fst] in Htr. injection Htr as <- Htr.
  replace (writes ++ connect ++ EConnected :: tr ++ closing o)
    with ((writes ++ connect ++ [EConnected]) ++ tr ++ closing o) in Htr by (rewrite <- !(assoc_L (++)); done).
  apply (cut_skip _ _ _ _ _ after) in Htr as (pre2 & -> & Htr); [| |done].
  2: { repeat (apply Forall_app; split); [done..|by repeat constructor]. }
  apply app_split in Htr as [(r1 & Htr)|(pre3 & _ & Htr)].
  2: { destruct (cut_not_in (closing o) pre3 e rest after); [|done|done]. destruct o; by repeat constructor. }
  destruct (read_loop_cut r (ss_turns s) d2 pre2 e r1) as (turns' & d4 & Hcut); [by rewrite Hrl|].
  exists (mkSession None (ss_writes s) turns'), d4. unfold session. cbn [ss_dial ss_writes ss_turns].
  rewrite Hsub, Hwr, Hcon, Hcut. cbn [closing].
  assert (after = [EClose]) as -> by (apply (read_loop_closes r d2 (ss_turns s) pre2 e r1); [by rewrite Hrl|done]).
  do 2 f_equal. cbn [app]. f_equal. by rewrite <- !(assoc_L (++)).
Qed.

(** Before its first action a session can only be stopped at the dial. *)
Lemma session_first (r : Runner D) d s (e : emit M) rest :
  (session r d s).1.1 = e :: rest -> e = EDial.
Proof.
  unfold session. destruct (ss_dial s); [done|]. destruct (dec_Subscriptions _ _) as [subs d1].
  destruct (write_all subs (ss_writes s)) as [writes [e1|]]; [by intros [= <-]|].
  destruct (match r_OnConnect r with Some f => _ | None => _ end) as [connect d2].
  destruct (read_loop r d2 (ss_turns s)) as [[tr d3] o]. by intros [= <-].
Qed.

(** A turn of [Run]: the session, which may end the run, or the wait and what
    follows it. *)
Lemma run_loop_turn (r : Runner D) d n s rnd cancelled script :
  let tr := (run_loop r d n (ASession s rnd cancelled :: script)).1.1 in
  tr = (session r d s).1.1
  \/ (exists delay, tr = (session r d s).1.1 ++ [EWait delay])
  \/ (exists delay d1, tr = (session r d s).1.1 ++ EWait delay :: (run_loop r d1 (n + 1) script).1.1
       /\ forall script', run_loop r d n (ASession s rnd cancelled :: script')
          = let '(tr', d2, o) := run_loop r d1 (n + 1) script' in
            ((session r d s).1.1 ++ EWait delay :: tr', d2, o)).
Proof.
  cbn [run_loop]. destruct (session r d s) as [[tr d1] [|[err|]]]; cbn [fst]; [by left| |by left].
  destruct (errors_is err Canceled); [by left|]. destruct (_ && _); [by left|].
  destruct cancelled; [right; left; by eexists|]. do 2 right. exists (Delay (r_Backoff r) (n + 1 - 1) rnd), d1.
  split; [|done]. by destruct (run_loop r d1 (n + 1) script) as [[tr' d2] o].
Qed.

Lemma run_loop_cut (r : Runner D) script : forall d n (pre : list (emit M)) e rest after,
  (run_loop r d n script).1.1 = pre ++ e :: rest -> cut e = Some after ->
  exists script' d2, run_loop r d n script' = (pre ++ after, d2, Returned None).
Proof.
  induction script as [|[|s rnd cancelled] script IH]; intros d n pre e rest after Htr Hc; [by destruct pre..|].
  assert (forall tr2, (session r d s).1.1 ++ tr2 = pre ++ e :: rest ->
    (exists script' d2, run_loop r d n script' = (pre ++ after, d2, Returned None))
    \/ (exists pre2, pre = (session r d s).1.1 ++ pre2 /\ tr2 = pre2 ++ e :: rest)) as Hs.
  { intros tr2 [(r1 & Hr1)|Hr1]%app_split; [left|by right]. destruct pre as [|x pre].
    - apply session_first in Hr1 as ->. injection Hc as <-. by exists [ACancelled], d.
    - destruct (session_cut r d s pre x e r1 after Hr1 Hc) as (s' & d2 & Hcut).
      exists [ASession s' rnd false], d2. cbn [run_loop]. by rewrite Hcut. }
  destruct (run_loop_turn r d n s rnd cancelled script) as [Ht|[(delay & Ht)|(delay & d1 & Ht & Hgo)]];
    rewrite Ht in Htr.
  - rewrite <- (app_nil_r (session r d s).1.1) in Htr.
    destruct (Hs _ Htr) as [Hdone|(pre2 & _ & Hnil)]; [done|by destruct pre2].
  - destruct (Hs _ Htr) as [Hdone|(pre2 & _ & Hw)]; [done|].
    destruct pre2 as [|y pre2]; injection Hw as <- Hw; [done|by destruct pre2].
  - destruct (Hs _ Htr) as [Hdone|(pre2 & -> & Hw)]; [done|].
    destruct pre2 as [|y pre2]; injection Hw as <- Hw; [done|].
    destruct (IH _ _ _ _ _ _ Hw Hc) as (script' & d2 & Hcut).
    exists (ASession s rnd cancelled :: script'), d2. rewrite Hgo, Hcut, <- (assoc_L (++)). done.
Qed.
End cancel.

(** ** Lemmas on a context that stays cancelled *)

Section halted.
Context {D M : Type} `{Decoder D M}.
Variable r : Runner D.

Lemma read_loop_app d (seen more : list turn) :
  read_loop r d (seen ++ more)
  = let '(tr, d1, o) := read_loop r d seen in
    match o with
    | Running => let '(tr2, d2, o2) := read_loop r d1 more in (tr ++ tr2, d2, o2)
    | Returned e => (tr, d1, Returned e)
    end.
Proof.
  revert d. induction seen as [|t seen IH]; intros d; [cbn; by destruct (read_loop r d more) as [[? ?] ?]|].
  assert (forall d1 (pre : list (emit M)),
    (let '(tr, d2, o) := read_loop r d1 (seen ++ more) in (pre ++ tr, d2, o))
    = let '(tr, d2, o) := (let '(tr, d2, o) := read_loop r d1 seen in (pre ++ tr, d2, o)) in
      match o with
      | Running => let '(tr2, d3, o2) := read_loop r d2 more in (tr ++ tr2, d3, o2)
      | Returned e => (tr, d2, Returned e)
      end) as Hgo.
  { intros d1 pre. rewrite IH. destruct (read_loop r d1 seen) as [[tr d2] [|e]]; [|done].
    destruct (read_loop r d2 more) as [[tr2 d3] o2]. by rewrite (assoc_L (++)). }
  cbn [app read_loop]. destruct t as [e|e|e|raw now sent]; [done..|].
  destruct (dec_Decode d raw now) as [result d1].
  pose proof (fun evs => Hgo d1 (EDeadline (r_ReadTimeout r) :: map EEvent evs)) as Hev. cbn [app] in Hev.
  pose proof (Hgo d1 [EDeadline (r_ReadTimeout r)]) as Hnone. cbn [app] in Hnone.
  destruct result as [evs|e|]; [|exact Hnone..].
  destruct sent as [[k e]|]; [|apply Hev]. by destruct (k <? length evs)%nat.
Qed.

(** The turn in progress is the last one. *)
Lemma last_turn d t (turns : list turn) :
  exists tr d1 e, read_loop r d (t :: TCtxErr ErrCanceled :: turns) = (tr, d1, Returned (Some e))
    /\ (length tr <= S (frame_events d t))%nat.
Proof.
  cbn -[Nat.ltb decoded length]. destruct t as [e|e|e|raw now sent].
  1-2: eexists _, _, _; split; [done|cbn [length]; lia].
  { eexists _, _, _; split; [done|cbn [length]; lia]. }
  unfold frame_events. destruct (dec_Decode d raw now) as [[evs|e|] d1]; cbn [decoded fst].
  2,3: eexists _, _, _; split; [done|cbn [length]; lia].
  assert (forall evs', (length evs' <= length evs)%nat ->
    (length (EDeadline (M:=M) (r_ReadTimeout r) :: map EEvent evs') <= S (length evs))%nat) as Hlen
    by (intros evs' ?; cbn; rewrite length_map; lia).
  destruct sent as [[k e]|]; [destruct (k <? length evs)%nat|]; eexists _, _, _; (split; [reflexivity|]).
  - apply Hlen. rewrite length_take. lia.
  - rewrite app_nil_r. by apply Hlen.
  - rewrite app_nil_r. by apply Hlen.
Qed.

Lemma write_all_short (subs : list M) answers : (length (write_all subs answers).1 <= length subs)%nat.
Proof.
  revert answers. induction subs as [|m subs IH]; intros answers; [done|]. cbn [write_all].
  destruct answers as [|[e|] answers]; cbn [fst length]; [|lia|].
  - specialize (IH []). destruct (write_all subs []). cbn in *. lia.
  - specialize (IH answers). destruct (write_all subs answers). cbn in *. lia.
Qed.

(** A session that is cancelled before its read loop. *)
Lemma connecting_halts d dial writes (turns : list turn) :
  exists tr d1 e, session r d (mkSession dial writes (TCtxErr ErrCanceled :: turns)) = (tr, d1, Returned (Some e))
    /\ (length tr + (if errors_is e Canceled then 0 else 1)
        <= length (dec_Subscriptions d (r_Symbols r)).1 + 4)%nat.
Proof.
  unfold session. cbn [ss_dial ss_writes ss_turns].
  destruct dial as [e|]; [eexists _, _, _; split; [reflexivity|cbn; destruct (errors_is _ _); lia]|].
  destruct (dec_Subscriptions d (r_Symbols r)) as [subs d1]. cbn [fst].
  pose proof (write_all_short subs writes) as Hw. destruct (write_all subs writes) as [tr [e|]]; cbn [fst] in Hw.
  { eexists _, _, _; split; [reflexivity|]. cbn [length]. rewrite length_app. cbn [length].
    destruct (errors_is _ _); lia. }
  destruct (r_OnConnect r) as [f|]; cbn [read_loop]; eexists _, _, _; (split; [reflexivity|]);
    cbn [closing app length]; rewrite length_app; cbn; lia.
Qed.

(** A session that is cancelled in a turn does what it has done and finishes the turn. *)
Lemma in_turn_halts d writes seen t (turns : list turn) :
  let '(tr, d1, o) := session r d (mkSession None writes seen) in
  match o with
  | Returned e => session r d (mkSession None writes (seen ++ t :: TCtxErr ErrCanceled :: turns)) = (tr, d1, Returned e)
  | Running => exists tail d2 e,
      session r d (mkSession None writes (seen ++ t :: TCtxErr ErrCanceled :: turns))
      = (tr ++ tail, d2, Returned (Some e))
      /\ (length tail <= frame_events d1 t + 2)%nat
  end.
Proof.
  unfold session. cbn [ss_dial ss_writes ss_turns].
  destruct (dec_Subscriptions d (r_Symbols r)) as [subs d1].
  destruct (write_all subs writes) as [wtr [e|]]; [done|].
  destruct (match r_OnConnect r with Some f => _ | None => _ end) as [connect d2].
  rewrite read_loop_app. destruct (read_loop r d2 seen) as [[tr d3] [|e]]; [|done].
  destruct (last_turn d3 t turns) as (tr2 & d4 & e & -> & Hlen). cbn [closing].
  exists (tr2 ++ [EClose]), d4, e. split; [|rewrite length_app; cbn; lia].
  do 2 f_equal. cbn [app]. f_equal. by rewrite app_nil_r, <- !(assoc_L (++)).
Qed.

(** The last session: it ends, the runner looks at its context at the latest before the
    next dial, and returns. *)
Lemma run_loop_last d n s rnd wait (script : list attempt_script) tr d1 e :
  r_MaxAttempts r <= 0 -> session r d s = (tr, d1, Returned (Some e)) ->
  exists tail d2, run_loop r d n (ASession s rnd wait :: ACancelled :: script) = (tr ++ tail, d2, Returned None)
    /\ (length tail <= if errors_is e Canceled then 0 else 1)%nat.
Proof.
  intros Hm Hs. cbn [run_loop]. rewrite Hs. destruct (errors_is e Canceled).
  { exists [], d1. by rewrite app_nil_r. }
  destruct (Z.ltb_spec 0 (r_MaxAttempts r)); [lia|]. cbn [andb].
  destruct wait; eexists [_], d1; (split; [reflexivity|cbn; lia]).
Qed.

Lemma place_halts d n pl (turns : list turn) rnd wait script :
  r_MaxAttempts r <= 0 ->
  let '(tr, d1, _) := run_loop r d n (so_far (mkHalt [] pl (mkRest turns rnd wait script))) in
  exists tail d2, run_loop r d n (halted (mkHalt [] pl (mkRest turns rnd wait script))) = (tr ++ tail, d2, Returned None)
    /\ (length tail <= halt_work r d1 pl)%nat.
Proof.
  intros Hm. unfold so_far, halted. cbn [h_before h_place h_rest vr_turns vr_rnd vr_wait vr_script app].
  destruct pl as [|dial writes|writes seen t]; [by exists [], d| |].
  - cbn [run_loop halt_work]. destruct (connecting_halts d dial writes turns) as (tr & d1 & e & Hs & Hlen).
    destruct (run_loop_last d n _ rnd wait script tr d1 e Hm Hs) as (tail & d2 & Hl & Htail).
    exists (tr ++ tail), d2. split; [exact Hl|]. rewrite length_app. destruct (errors_is e Canceled); lia.
  - pose proof (in_turn_halts d writes seen t turns) as Ht. cbn [halt_work].
    pose proof (session_trace r d (mkSession None writes seen)) as Hr.
    remember (ASession (mkSession None writes (seen ++ _)) rnd wait :: ACancelled :: script) as last eqn:Hlast. cbn [run_loop].
    destruct (session r d (mkSession None writes seen)) as [[tr d1] [|[e|]]]; [| |by destruct Hr].
    + destruct Ht as (tail & d2 & e & Hs2 & Hlen). subst last.
      destruct (run_loop_last d n _ rnd wait script _ d2 e Hm Hs2) as (tail2 & d3 & -> & Htail).
      exists (tail ++ tail2), d3. rewrite <- (assoc_L (++)). split; [done|].
      rewrite length_app. destruct (errors_is e Canceled); lia.
    + subst last. cbn [run_loop]. rewrite Ht. destruct (errors_is e Canceled);
        [exists [], d1; rewrite app_nil_r; split; [done|cbn [length]; lia]|].
      destruct (Z.ltb_spec 0 (r_MaxAttempts r)); [lia|]. cbn [andb].
      destruct wait; exists [], d1; rewrite app_nil_r; (split; [done|cbn [length]; lia]).
Qed.

Lemma run_loop_halts d n h :
  r_MaxAttempts r <= 0 -> (run_loop r d n (h_before h ++ [ACancelled])).2 <> Running ->
  let '(tr, d1, _) := run_loop r d n (so_far h) in
  exists tail d2, run_loop r d n (halted h) = (tr ++ tail, d2, Returned None)
    /\ (length tail <= halt_work r d1 (h_place h))%nat.
Proof.
  intros Hm. destruct h as [before pl [turns rnd wait script]]. unfold so_far, halted.
  cbn [h_before h_place h_rest vr_turns vr_rnd vr_wait vr_script].
  revert d n. induction before as [|[|s rnd0 wait0] before IH]; intros d n Hend; cbn [app].
  - by apply place_halts.
  - exists [], d. split; [done|cbn [length]; lia].
  - cbn [app run_loop] in *. destruct (session r d s) as [[tr d1] [|[e|]]]; [done| |].
    2: { exists [], d1. rewrite app_nil_r. split; [done|cbn [length]; lia]. }
    destruct (errors_is e Canceled); [exists [], d1; rewrite app_nil_r; split; [done|cbn [length]; lia]|].
    destruct (Z.ltb_spec 0 (r_MaxAttempts r)); [lia|]. cbn [andb] in *.
    destruct wait0; [exists [], d1; rewrite app_nil_r; split; [done|cbn [length]; lia]|].
    specialize (IH d1 (n + 1)). destruct (run_loop r d1 (n + 1) (before ++ [ACancelled])) as [[? ?] ?].
    specialize (IH Hend). destruct (run_loop r d1 (n + 1) (before ++ _)) as [[tr2 d2] o2].
    destruct IH as (tail & d3 & -> & Hlen). exists tail, d3. split; [by rewrite <- (assoc_L (++))|done].
Qed.
End halted.

(** ** Properties *)

(** Cancellation. Wherever a run looks at its context, before a dial, before a turn
    of the read loop or while it sends an event, stopping it there is a run as well:
    some answers of the environment, with the context cancelled at that point, make the
    runner do exactly what it had done until then, close its connection if one is open,
    and return nil. *)
Theorem cancelled_run_is_run `{Decoder D M} (r : Runner D) d script pre e rest after :
  (Run r d script).1.1 = pre ++ e :: rest -> cut e = Some after ->
  exists script', (Run r d script').1.1 = pre ++ after /\ (Run r d script').2 = Returned None.
Proof.
  unfold Run. intros Htr Hc. destruct (run_loop_cut _ _ _ _ _ _ _ _ Htr Hc) as (script' & d2 & Hcut).
  exists script'. by rewrite Hcut.
Qed.

#[local] Existing Instance unicode_id.

(** The example run of Runner.v, stopped after its first event. *)
Definition example_trace : list (emit Empty_set) := (Run (example_runner 0) example_binance example_script).1.1.
Lemma cancelled_run_is_run_witness :
  exists script', (Run (example_runner 0) example_binance script').1.1 = take 5 example_trace ++ [EClose]
    /\ (Run (example_runner 0) example_binance script').2 = Returned None.
Proof.
  refine (cancelled_run_is_run (example_runner 0) example_binance example_script (take 5 example_trace)
            (EDeadline (45 * second)) (drop 6 example_trace) [EClose] _ _); vm_compute; reflexivity.
Defined.
