(* ===== verification/Dial.v ===== *)
(** * Package [internal/venue], [venue.go]: [GorillaDialer], the production dialer

    The WebSocket library (github.com/gorilla/websocket) is the class
    [WebsocketLib]: a dial answers with a connection or an error, and with the
    status of the HTTP response when there was one. The methods of [gorillaConn]
    are those of the library's connection. *)

From S2P Require Import Prelude.
From S2P Require Import GoStrings.
From S2P Require Import GoStrconv.
From S2P Require Import Model.
From S2P Require Import Venue.
From S2P Require Import Binance.
From S2P Require Import Runner.

Local Open Scope Z_scope.

(** The fields of [websocket.Dialer] that are set. *)
Record WsDialer := mkWsDialer {
  wd_HandshakeTimeout : duration; wd_Proxy : string; wd_ReadBufferSize : Z; wd_WriteBufferSize : Z }.

Class WebsocketLib := {
  ws_Conn : Type;
  DialContext : WsDialer -> string -> (ws_Conn + error) * option Z;
  SetReadLimit : ws_Conn -> Z -> ws_Conn;
}.

Record GorillaDialer := mkGorillaDialer { gd_HandshakeTimeout : duration }.

Section dial.
Context `{WebsocketLib}.

Definition ws_dialer (g : GorillaDialer) : WsDialer :=
  let d := mkWsDialer (gd_HandshakeTimeout g) "http.ProxyFromEnvironment" (64 * 1024) (16 * 1024) in
  if wd_HandshakeTimeout d =? 0
  then mkWsDialer (15 * second) (wd_Proxy d) (wd_ReadBufferSize d) (wd_WriteBufferSize d)
  else d.

(** The status of the response, if any, is in the text of the error. *)
Definition GorillaDialer_Dial (g : GorillaDialer) (url : string) : ws_Conn + error :=
  let '(c, resp) := DialContext (ws_dialer g) url in
  match c with
  | inr err =>
      match resp with
      | Some status => inr (EWrap ("dial (http " +:+ FormatInt status +:+ ")") err)
      | None => inr (EWrap "dial" err)
      end
  | inl c => inl (SetReadLimit c (Z.shiftl 8 20))
  end.

(** The session of a runner whose dialer is [g]. *)
Definition gorilla_session {D M} `{Decoder D M} (g : GorillaDialer) (d : D)
    (writes : list (option error)) (turns : list turn) : session_script :=
  mkSession
    (match GorillaDialer_Dial g (dec_URL d) with inl _ => None | inr e => Some e end)
    writes turns.
End dial.

(** ** Properties *)

Lemma run_loop_failed_dial {D M} `{Decoder D M} (r : Runner D) d n s e rnd cancelled rest :
  ss_dial s = Some e -> errors_is e Canceled = false ->
  ~ (0 < r_MaxAttempts r <= n + 1) ->
  run_loop r d n (ASession s rnd cancelled :: rest)
  = if cancelled then ([EWait (Delay (r_Backoff r) n rnd)], d, Returned None)
    else let '(tr, d', o) := run_loop r d (n + 1) rest in
         (EWait (Delay (r_Backoff r) n rnd) :: tr, d', o).
Proof.
  intros Hs He Hm. cbn [run_loop]. unfold session. rewrite Hs, He.
  replace (n + 1 - 1) with n by lia.
  destruct (Z.ltb_spec 0 (r_MaxAttempts r)), (Z.leb_spec (r_MaxAttempts r) (n + 1)); cbn [andb];
    try lia; by destruct cancelled.
Qed.

(** Dialling. A connection is limited to messages of 8 MiB and was asked for with a
    handshake timeout that is never zero. The error of a failed dial keeps its cause,
    with or without an HTTP response: a runner whose context was cancelled during the
    dial returns nil at once, with nothing done; any other failure is retried, after
    the first delay of the backoff and unless the wait is cancelled, as long as more
    than one attempt is allowed. *)
Theorem dial_outcomes `{WebsocketLib} {D M} `{Decoder D M} (g : GorillaDialer) (r : Runner D) d
    writes turns rnd cancelled rest :
  let s := gorilla_session g d writes turns in
  let script := ASession s rnd cancelled :: rest in
  wd_HandshakeTimeout (ws_dialer g) <> 0
  /\ match (DialContext (ws_dialer g) (dec_URL d)).1 with
     | inl c => GorillaDialer_Dial g (dec_URL d) = inl (SetReadLimit c 8388608) /\ ss_dial s = None
     | inr cause =>
         if errors_is cause Canceled then Run r d script = ([], d, Returned None)
         else r_MaxAttempts r <> 1 ->
           let delay := Delay (r_Backoff (runner_defaults r)) 0 rnd in
           Run r d script
           = if cancelled then ([EWait delay], d, Returned None)
             else let '(tr, d', o) := run_loop (runner_defaults r) d 1 rest in (EWait delay :: tr, d', o)
     end.
Proof.
  intros s script. split.
  { unfold ws_dialer. cbn [wd_HandshakeTimeout]. by destruct (Z.eqb_spec (gd_HandshakeTimeout g) 0). }
  subst script. set (r' := runner_defaults r).
  assert (r_MaxAttempts r' = r_MaxAttempts r) as Hm by done.
  unfold Run. fold r'. clearbody r'. subst s. unfold gorilla_session, GorillaDialer_Dial.
  destruct (DialContext (ws_dialer g) (dec_URL d)) as [[c|cause] resp]; cbn [fst]; [done|].
  set (e := match match resp with Some _ => _ | None => _ end with inl _ => _ | inr e => Some e end).
  assert (exists e', e = Some e' /\ errors_is e' Canceled = errors_is cause Canceled) as (e' & -> & He)
    by (subst e; destruct resp; by eexists).
  destruct (errors_is cause Canceled).
  - cbn [run_loop]. unfold session. cbn [ss_dial]. by rewrite He.
  - intros H1. rewrite (run_loop_failed_dial r' d 0 _ e'); try done. lia.
Qed.

#[local] Existing Instance unicode_id.

(** A server that refuses every dial, with an HTTP 503. *)
Definition refusing : WebsocketLib := {|
  ws_Conn := unit; DialContext _ _ := (inr (EMsg "websocket: bad handshake"), Some 503);
  SetReadLimit c _ := c |}.

Lemma dial_outcomes_witness :
  let s := @gorilla_session refusing Binance Empty_set binance_decoder (mkGorillaDialer 0) example_binance [] [] in
  Run (example_runner 3) example_binance [ASession s f64_zero false]
  = ([EWait (Delay DefaultBackoff 0 f64_zero)], example_binance, Running).
Proof.
  refine (proj2 (@dial_outcomes refusing Binance Empty_set binance_decoder (mkGorillaDialer 0)
                   (example_runner 3) example_binance [] [] f64_zero false []) _).
  by vm_compute.
Defined.
