(* ===== verification/Registry.v ===== *)
(** * Package [internal/schema]: the schema registry client

    The registry behind the network is the class [RegistryServer]: a request
    gives an error of the transport (a malformed URL, a cancelled context, a body
    that cannot be read) or a status and a body. The client caches ids and
    schemas; its two maps are guarded by one lock, and a registered id is
    immutable in the registry. *)

From S2P Require Import Prelude.
From S2P Require Import GoStrings.
From S2P Require Import GoStrconv.
From S2P Require Import GoJson.

Local Open Scope Z_scope.

Definition CompatBackward : string := "BACKWARD".
Definition CompatForward : string := "FORWARD".
Definition CompatFull : string := "FULL".
Definition CompatNone : string := "NONE".

Definition ErrNotFoundName : string := "schema registry: not found".
Definition ErrNotFound : error := ESentinel ErrNotFoundName.

(** ** HTTP *)

Record request := mkRequest {
  rq_Method : string; rq_URL : string; rq_Body : option string; rq_Accept : string;
  rq_ContentType : option string }.
Record response := mkResponse { rs_Status : Z; rs_Body : string }.

Class RegistryServer := {
  server : Type;
  serve : server -> request -> (error + response) * server;
}.

(** ** json.Marshal of the requests *)

(** [encoding/json] writes a string with the HTML characters escaped. *)
Definition hex_lower (n : Z) : ascii := char_of (if n <? 10 then 48 + n else 87 + n).
Definition escape_u00 (n : Z) : list ascii :=
  map char_of [92; 117; 48; 48] ++ [hex_lower (n / 16); hex_lower (n mod 16)].
Definition escape_ascii (c : ascii) : list ascii :=
  let n := byte_of c in
  if (n =? 34) || (n =? 92) then map char_of [92; n]
  else if n =? 8 then map char_of [92; 98]
  else if n =? 12 then map char_of [92; 102]
  else if n =? 10 then map char_of [92; 110]
  else if n =? 13 then map char_of [92; 114]
  else if n =? 9 then map char_of [92; 116]
  else if (n <? 32) || (n =? 60) || (n =? 62) || (n =? 38) then escape_u00 n
  else [c].
Fixpoint json_chars (fuel : nat) (l : list ascii) : list ascii :=
  match fuel with
  | O => []
  | S f =>
      match l with
      | [] => []
      | c :: l' =>
          if is_ascii_char c then escape_ascii c ++ json_chars f l'
          else
            match utf8_len l with
            | O => map char_of [92; 117; 102; 102; 102; 100] ++ json_chars f l'
            | k =>
                if is_prefix (map char_of [0xE2; 0x80; 0xA8]) l
                then map char_of [92; 117; 50; 48; 50; 56] ++ json_chars f (drop k l)
                else if is_prefix (map char_of [0xE2; 0x80; 0xA9]) l
                then map char_of [92; 117; 50; 48; 50; 57] ++ json_chars f (drop k l)
                else take k l ++ json_chars f (drop k l)
            end
      end
  end.
Definition json_string (s : string) : string :=
  unchars (char_of 34 :: json_chars (S (str_len s)) (chars s) ++ [char_of 34]).

(** [json.Marshal(registerRequest{...})], where [schemaType] is omitted when empty,
    and of the map with the one key [compatibility]. *)
Definition marshal_register (schemaJSON schemaType : string) : string :=
  dq "{'schema':" +:+ json_string schemaJSON
  +:+ (if String.eqb schemaType "" then "" else dq ",'schemaType':" +:+ json_string schemaType)
  +:+ "}".
Definition marshal_compat (level : string) : string :=
  dq "{'compatibility':" +:+ json_string level +:+ "}".

(** ** The client *)

Record Client := mkClient {
  baseURL : string;
  idByKey : gmap string Z;
  schemaMap : gmap Z string }.

Definition New (url : string) : Client := mkClient (TrimRight1 url "/") ∅ ∅.

Definition SubjectForTopic (topic : string) : string := topic +:+ "-value".

Definition cacheKey (subject schemaJSON : string) : string :=
  subject +:+ String (char_of 0) (GoStrings.Join (Fields schemaJSON) " ").

Record errorResponse := mkErrorResponse { er_ErrorCode : Z; er_Message : string }.
Definition errorResponse_fields : fields errorResponse :=
  [ field "error_code" dec_int64 er_ErrorCode (fun v e => mkErrorResponse v (er_Message e));
    field "message" dec_string er_Message (fun v e => mkErrorResponse (er_ErrorCode e) v) ].

(** The response structs have one field each; [A] is its type. *)
Definition id_fields : fields Z := [field "id" dec_int64 id (fun v _ => v)].
Definition schema_fields : fields string := [field "schema" dec_string id (fun v _ => v)].
Definition compat_fields : fields bool := [field "is_compatible" dec_bool id (fun v _ => v)].

Definition media_type : string := "application/vnd.schemaregistry.v1+json".
(** [io.LimitReader]: the first [n] bytes. *)
Fixpoint limit_chars (n : Z) (l : list ascii) : list ascii :=
  match l with
  | [] => []
  | c :: l' => if n <=? 0 then [] else c :: limit_chars (n - 1) l'
  end.
Definition read_all (body : string) : string := unchars (limit_chars (2 ^ 20) (chars body)).

Definition status_error (status : Z) (raw : string) : error :=
  let plain := EMsg ("registry " +:+ FormatInt status +:+ ": " +:+ TrimSpace raw) in
  match Unmarshal (dec_struct errorResponse_fields) (mkErrorResponse 0 "") raw with
  | Ok e =>
      if String.eqb (er_Message e) "" then plain
      else EMsg ("registry " +:+ FormatInt status +:+ " (code " +:+ FormatInt (er_ErrorCode e) +:+ "): "
                 +:+ er_Message e)
  | _ => plain
  end.

Section client.
Context `{RegistryServer}.

(** [Client.do]; [out] decodes the body ([None] is a nil [out]). *)
Definition do {A} (s : server) (method url : string) (body : option string)
    (zero : A) (out : option (decoder A)) : res A * server :=
  let req := mkRequest method url body media_type
               (match body with Some _ => Some media_type | None => None end) in
  let '(answer, s') := serve s req in
  (match answer with
   | inl err => Err err
   | inr resp =>
       let raw := read_all (rs_Body resp) in
       if rs_Status resp =? 404 then Err ErrNotFound
       else if (rs_Status resp <? 200) || (300 <=? rs_Status resp) then
         Err (status_error (rs_Status resp) raw)
       else match out with
            | None => Ok zero
            | Some d => Unmarshal d zero raw
            end
   end, s').

Definition Register (c : Client) (s : server) (subject schemaJSON : string)
    : res Z * Client * server :=
  let key := cacheKey subject schemaJSON in
  match idByKey c !! key with
  | Some id => (Ok id, c, s)
  | None =>
      let body := marshal_register schemaJSON "AVRO" in
      let url := baseURL c +:+ "/subjects/" +:+ subject +:+ "/versions" in
      let '(r, s') := do s "POST" url (Some body) 0 (Some (dec_struct id_fields)) in
      match r with
      | Ok id =>
          (Ok id,
           mkClient (baseURL c) (<[key := id]> (idByKey c)) (<[id := schemaJSON]> (schemaMap c)), s')
      | Err e => (Err (EWrap "register" e), c, s')
      | Panic => (Panic, c, s')
      end
  end.

Definition SchemaByID (c : Client) (s : server) (id : Z) : res string * Client * server :=
  match schemaMap c !! id with
  | Some schema => (Ok schema, c, s)
  | None =>
      let url := baseURL c +:+ "/schemas/ids/" +:+ FormatInt id in
      let '(r, s') := do s "GET" url None "" (Some (dec_struct schema_fields)) in
      match r with
      | Ok schema =>
          (Ok schema, mkClient (baseURL c) (idByKey c) (<[id := schema]> (schemaMap c)), s')
      | Err e => (Err (EWrap "fetch schema id" e), c, s')
      | Panic => (Panic, c, s')
      end
  end.

Definition CheckCompatibility (c : Client) (s : server) (subject schemaJSON : string)
    : res bool * server :=
  let body := marshal_register schemaJSON "AVRO" in
  let url := baseURL c +:+ "/compatibility/subjects/" +:+ subject +:+ "/versions/latest" in
  let '(r, s') := do s "POST" url (Some body) false (Some (dec_struct compat_fields)) in
  (match r with
   | Err e => if errors_is e ErrNotFoundName then Ok true else Err e
   | r => r
   end, s').

Definition SetCompatibility (c : Client) (s : server) (subject level : string)
    : res unit * server :=
  let url := baseURL c +:+ "/config/" +:+ subject in
  do s "PUT" url (Some (marshal_compat level)) tt None.
End client.

(** ** A run of client operations *)

Inductive client_op :=
  | OpRegister (subject schemaJSON : string)
  | OpSchemaByID (id : Z)
  | OpCheck (subject schemaJSON : string)
  | OpSetCompat (subject level : string).

Definition do_client_op `{RegistryServer} (c : Client) (s : server) (o : client_op)
    : Client * server :=
  match o with
  | OpRegister subject schemaJSON => let '(_, c', s') := Register c s subject schemaJSON in (c', s')
  | OpSchemaByID id => let '(_, c', s') := SchemaByID c s id in (c', s')
  | OpCheck subject schemaJSON => (c, (CheckCompatibility c s subject schemaJSON).2)
  | OpSetCompat subject level => (c, (SetCompatibility c s subject level).2)
  end.

Definition run_client `{RegistryServer} (c : Client) (s : server) (ops : list client_op)
    : Client * server :=
  fold_left (fun cs o => do_client_op cs.1 cs.2 o) ops (c, s).

(** ** Lemmas on JSON text *)

Lemma escape_parse c fuel acc rest :
  is_ascii_char c = true ->
  parse_str (S fuel) acc (escape_ascii c ++ rest) = parse_str fuel (c :: acc) rest.
Proof. destruct c as [[] [] [] [] [] [] [] []]; intros H; (discriminate H || reflexivity). Qed.

Lemma json_chars_parse l n fuel acc rest :
  forallb is_ascii_char l = true -> (length l <= n)%nat -> (length l < fuel)%nat ->
  parse_str fuel acc (json_chars n l ++ char_of 34 :: rest) = Some (unchars (rev acc ++ l), rest).
Proof.
  revert n fuel acc. induction l as [|c l IH]; intros n fuel acc Hl Hn Hf.
  - destruct fuel as [|fuel]; [cbn in Hf; lia|].
    rewrite app_nil_r. by destruct n.
  - destruct n as [|n]; [cbn in Hn; lia|]. destruct fuel as [|fuel]; [cbn in Hf; lia|].
    cbn [length] in *. cbn [forallb] in Hl. apply andb_true_iff in Hl as [Hc Hl].
    cbn [json_chars]. rewrite Hc, <- (assoc_L (++)), escape_parse, IH by (done || lia).
    cbn [rev]. by rewrite <- (assoc_L (++)).
Qed.

Lemma json_chars_length l n :
  forallb is_ascii_char l = true -> (length l <= n)%nat -> (length l <= length (json_chars n l))%nat.
Proof.
  revert n. induction l as [|c l IH]; intros n Hl Hn; [cbn; lia|].
  destruct n as [|n]; [cbn in Hn; lia|]. cbn [forallb] in Hl. apply andb_true_iff in Hl as [Hc Hl].
  cbn [json_chars length] in *. rewrite Hc, length_app.
  specialize (IH n Hl ltac:(lia)).
  assert (1 <= length (escape_ascii c))%nat
    by (clear; destruct c as [[] [] [] [] [] [] [] []]; vm_compute; lia). lia.
Qed.

Lemma json_string_chars s :
  chars (json_string s) = char_of 34 :: json_chars (S (str_len s)) (chars s) ++ [char_of 34].
Proof. unfold json_string. by str_simpl. Qed.

Lemma parse_value_quote f depth l :
  parse_value (S f) depth (char_of 34 :: l)
  = (parse_str (S (length l)) [] l ≫= fun '(s, r) => Some (JStr s, r)).
Proof. reflexivity. Qed.

Lemma parse_value_string f depth s rest :
  is_ascii s = true ->
  parse_value (S f) depth (chars (json_string s) ++ rest) = Some (JStr s, rest).
Proof.
  intros Hs. rewrite json_string_chars. rewrite <- app_comm_cons, <- (assoc_L (++)). cbn [app].
  rewrite parse_value_quote, json_chars_parse; [|done|by rewrite length_chars; lia|].
  - cbn. by str_simpl.
  - pose proof (json_chars_length (chars s) (S (str_len s)) Hs) as Hl.
    rewrite length_chars in *. rewrite length_app. lia.
Qed.

(** A key without a character to unescape. *)
Definition plain_key (k : list ascii) : bool :=
  forallb (fun c => is_ascii_char c && negb ((byte_of c =? 34) || (byte_of c =? 92) || (byte_of c <? 32))) k.

Lemma parse_key k fuel acc rest :
  plain_key k = true -> (length k < fuel)%nat ->
  parse_str fuel acc (k ++ char_of 34 :: rest) = Some (unchars (rev acc ++ k), rest).
Proof.
  revert fuel acc. induction k as [|c k IH]; intros fuel acc Hk Hf;
    (destruct fuel as [|fuel]; [cbn in Hf; lia|]).
  - by rewrite app_nil_r.
  - cbn [plain_key forallb] in Hk. apply andb_true_iff in Hk as [Hc Hk].
    apply andb_true_iff in Hc as [Ha [[H1 H2]%orb_false_iff H3]%negb_true_iff%orb_false_iff].
    cbn [app parse_str]. rewrite H1, H2, H3. unfold is_ascii_char in Ha. rewrite Ha.
    rewrite IH by (done || cbn in Hf; lia). cbn [rev]. by rewrite <- (assoc_L (++)).
Qed.

Lemma parse_members_quote f depth acc l :
  parse_members (S f) depth acc (char_of 34 :: l)
  = (parse_str (S (length l)) [] l ≫= fun '(k, r) =>
       match skip_ws r with
       | c :: r' =>
           if Ascii.eqb c ":" then
             parse_value f depth r' ≫= fun '(v, r2) =>
             match skip_ws r2 with
             | d :: r3 =>
                 if Ascii.eqb d "," then parse_members f depth ((k, v) :: acc) r3
                 else if Ascii.eqb d "}" then Some (rev ((k, v) :: acc), r3) else None
             | [] => None
             end
           else None
       | [] => None
       end).
Proof. reflexivity. Qed.

Lemma parse_member f depth acc k s rest sep :
  plain_key k = true -> is_ascii s = true -> is_ws sep = false ->
  parse_members (S (S f)) depth acc
    (char_of 34 :: k ++ char_of 34 :: ":"%char :: chars (json_string s) ++ sep :: rest)
  = if Ascii.eqb sep "," then parse_members (S f) depth ((unchars k, JStr s) :: acc) rest
    else if Ascii.eqb sep "}" then Some (rev ((unchars k, JStr s) :: acc), rest)
    else None.
Proof.
  intros Hk Hs Hsep. rewrite parse_members_quote.
  rewrite parse_key by (done || rewrite length_app; cbn; lia).
  cbn [mbind option_bind rev app]. change (skip_ws (":"%char :: ?l)) with (":"%char :: l).
  change (Ascii.eqb ":" ":") with true. cbn iota. rewrite parse_value_string by done.
  cbn [mbind option_bind skip_ws]. by rewrite Hsep.
Qed.

(** What the registry reads is what was to be registered. *)
Lemma marshal_register_parse schemaJSON schemaType :
  is_ascii schemaJSON = true -> is_ascii schemaType = true -> schemaType <> "" ->
  json_parse (marshal_register schemaJSON schemaType)
  = Some (JObj [("schema", JStr schemaJSON); ("schemaType", JStr schemaType)]).
Proof.
  intros Hs Ht Hne. unfold json_parse.
  set (tail := chars (json_string schemaType) ++ ["}"%char]).
  assert (chars (marshal_register schemaJSON schemaType)
    = "{"%char :: char_of 34 :: chars "schema" ++ char_of 34 :: ":"%char ::
      chars (json_string schemaJSON) ++ ","%char :: char_of 34 :: chars "schemaType" ++ char_of 34
      :: ":"%char :: tail) as ->.
  { unfold marshal_register, tail. destruct (String.eqb_spec schemaType ""); [done|].
    rewrite !chars_app, <- !(assoc_L (++)). reflexivity. }
  set (l := char_of 34 :: chars "schema" ++ _). cbn [length].
  destruct (length l) as [|n] eqn:Hl; [discriminate Hl|].
  replace (2 * S (S n))%nat with (S (S (S (S (2 * n))))) by lia.
  change (parse_value (S (S (S (S (S (2 * n)))))) 0 ("{"%char :: l))
    with (parse_members (S (S (S (S (2 * n))))) 1 [] l ≫= fun '(m, r) => Some (JObj m, r)).
  unfold l. rewrite parse_member by done. change (Ascii.eqb "," ",") with true. cbn iota.
  unfold tail. rewrite parse_member by done. reflexivity.
Qed.

(** ** Lemmas on the cache *)

(** Every cached id has its schema cached. *)
Definition cache_wf (c : Client) : Prop :=
  forall k id, idByKey c !! k = Some id -> is_Some (schemaMap c !! id).

Lemma New_wf url : cache_wf (New url).
Proof. intros k id. cbn. by rewrite lookup_empty. Qed.

(** The caches only grow. *)
Definition grows (c c' : Client) : Prop :=
  (forall k id, idByKey c !! k = Some id -> idByKey c' !! k = Some id)
  /\ (forall id, is_Some (schemaMap c !! id) -> is_Some (schemaMap c' !! id)).

Section cache.
Context `{RegistryServer}.

Lemma Register_cache c s subject schemaJSON :
  cache_wf c ->
  let '(r, c', s') := Register c s subject schemaJSON in
  cache_wf c' /\ grows c c'
  /\ (forall id, r = Ok id -> idByKey c' !! cacheKey subject schemaJSON = Some id).
Proof.
  intros Hwf. unfold Register. destruct (idByKey c !! cacheKey subject schemaJSON) as [id|] eqn:Hk.
  { split; [done|]. split; [done|]. by intros ? [= <-]. }
  destruct (do _ _ _ _ _ _) as [r s']. destruct r as [id|e|]; [|done..].
  cbn [idByKey schemaMap]. split; [|split].
  - intros k i Hi. cbn in Hi |- *. destruct (decide (i = id)) as [->|Hne].
    + by rewrite lookup_insert_eq.
    + rewrite lookup_insert_ne by done. apply (Hwf k).
      destruct (decide (cacheKey subject schemaJSON = k)) as [<-|Hkne].
      * rewrite lookup_insert_eq in Hi. congruence.
      * by rewrite lookup_insert_ne in Hi.
  - split; cbn.
    + intros k i Hi. rewrite lookup_insert_ne; [done|]. intros <-. congruence.
    + intros i Hi. destruct (decide (id = i)) as [->|Hne].
      * by rewrite lookup_insert_eq.
      * by rewrite lookup_insert_ne.
  - intros i [= <-]. by rewrite lookup_insert_eq.
Qed.

Lemma SchemaByID_cache c s id :
  cache_wf c -> let '(_, c', s') := SchemaByID c s id in cache_wf c' /\ grows c c'.
Proof.
  intros Hwf. unfold SchemaByID. destruct (schemaMap c !! id) as [j|] eqn:Hk; [done|].
  destruct (do _ _ _ _ _ _) as [r s']. destruct r as [j|e|]; [|done..].
  assert (forall i, is_Some (schemaMap c !! i) -> is_Some (<[id := j]> (schemaMap c) !! i)) as Hs.
  { intros i Hi. destruct (decide (id = i)) as [->|Hne].
    + by rewrite lookup_insert_eq.
    + by rewrite lookup_insert_ne. }
  split; [|split; [done|exact Hs]]. intros k i Hi. cbn in *. apply Hs. by apply (Hwf k).
Qed.

Lemma run_client_cache c s ops :
  cache_wf c -> cache_wf (run_client c s ops).1 /\ grows c (run_client c s ops).1.
Proof.
  revert c s. induction ops as [|o ops IH]; intros c s Hwf; [done|].
  unfold run_client. cbn [fold_left fst snd].
  assert (cache_wf (do_client_op c s o).1 /\ grows c (do_client_op c s o).1) as [Hwf1 [Hg1 Hg2]].
  { destruct o as [subject j|id|subject j|subject level]; cbn [do_client_op]; [| |done|done].
    - pose proof (Register_cache c s subject j Hwf) as Hr.
      destruct (Register c s subject j) as [[r c'] s']. by destruct Hr as (? & ? & _).
    - pose proof (SchemaByID_cache c s id Hwf) as Hr.
      by destruct (SchemaByID c s id) as [[r c'] s']. }
  destruct (do_client_op c s o) as [c1 s1]. cbn [fst] in *.
  destruct (IH c1 s1 Hwf1) as [Hwf2 [Hh1 Hh2]]. split; [exact Hwf2|]. split; auto.
Qed.
End cache.

(** A registry that answers every request with the id of its state, for runs. *)
Definition counting_registry : RegistryServer := {|
  server := Z;
  serve := fun n _ => (inr (mkResponse 200 (dq "{'id':" +:+ FormatInt n +:+ "}")), n + 1) |}.

(** A registry that knows no subject. *)
Definition empty_registry : RegistryServer := {|
  server := unit;
  serve := fun _ _ => (inr (mkResponse 404 (dq "{'error_code':40401,'message':'Subject not found.'}")), tt) |}.

(** ** Properties *)

(** The hot path makes no network call: once [Register] returned an id, then
    after any further operations of the client the same registration returns the
    same id, and [SchemaByID] a schema for it, with no request to the registry:
    its state is untouched. *)
Theorem registered_is_cached `{RegistryServer} url before s subject schemaJSON id after :
  let c := (run_client (New url) s before).1 in
  let s1 := (run_client (New url) s before).2 in
  let '(r, c1, s2) := Register c s1 subject schemaJSON in
  r = Ok id ->
  let c2 := (run_client c1 s2 after).1 in
  forall s3, Register c2 s3 subject schemaJSON = (Ok id, c2, s3)
    /\ exists j, SchemaByID c2 s3 id = (Ok j, c2, s3).
Proof.
  cbv zeta. destruct (run_client_cache (New url) s before (New_wf url)) as [Hwf _].
  pose proof (Register_cache (run_client (New url) s before).1 (run_client (New url) s before).2
    subject schemaJSON Hwf) as Hr.
  destruct (Register _ _ subject schemaJSON) as [[r c1] s2]. intros ->.
  destruct Hr as (Hwf1 & _ & Hk). specialize (Hk id eq_refl).
  destruct (run_client_cache c1 s2 after Hwf1) as [Hwf2 [Hg _]]. intros s3.
  pose proof (Hg _ _ Hk) as Hk2. split; [unfold Register; by rewrite Hk2|].
  destruct (Hwf2 _ _ Hk2) as [j Hj]. exists j. unfold SchemaByID. by rewrite Hj.
Qed.

Definition registered_example : res Z * Client * Z :=
  @Register counting_registry (New "http://r/") 41 "md.trades.v1-value" "{}".

Lemma registered_is_cached_witness :
  registered_example.1.1 = Ok 41 /\
  forall s3, @Register counting_registry registered_example.1.2 s3 "md.trades.v1-value" "{}"
             = (Ok 41, registered_example.1.2, s3)
    /\ exists j, @SchemaByID counting_registry registered_example.1.2 s3 41
                 = (Ok j, registered_example.1.2, s3).
Proof.
  split; [vm_compute; reflexivity|].
  exact (@registered_is_cached counting_registry "http://r/" [] 41 "md.trades.v1-value" "{}" 41 []
           ltac:(vm_compute; reflexivity)).
Defined.

(** A registration that is not cached posts the schema, byte for byte: the
    registry is asked once, at the versions of the subject, and the body reads
    back as exactly the schema text and the type AVRO, whatever quotes, control
    or HTML characters the text has. *)
Theorem register_request_exact `{RegistryServer} c s subject schemaJSON :
  is_ascii schemaJSON = true -> idByKey c !! cacheKey subject schemaJSON = None ->
  exists body,
    (Register c s subject schemaJSON).2
    = (serve s (mkRequest "POST" (baseURL c +:+ "/subjects/" +:+ subject +:+ "/versions")
                  (Some body) media_type (Some media_type))).2
    /\ json_parse body = Some (JObj [("schema", JStr schemaJSON); ("schemaType", JStr "AVRO")]).
Proof.
  intros Ha Hk. exists (marshal_register schemaJSON "AVRO").
  split; [|by apply marshal_register_parse].
  unfold Register. rewrite Hk. unfold do.
  destruct (serve s _) as [answer s'].
  match goal with |- context [match ?m with Ok _ => _ | Err _ => _ | Panic => _ end] => by destruct m end.
Qed.

Lemma register_request_exact_witness :
  exists body,
    (@Register counting_registry (New "http://r/") 41 "t-value" (dq "{'doc':'a <b> & \c'}")).2
    = (@serve counting_registry 41 (mkRequest "POST" ("http://r" +:+ "/subjects/" +:+ "t-value" +:+ "/versions")
                  (Some body) media_type (Some media_type))).2
    /\ json_parse body = Some (JObj [("schema", JStr (dq "{'doc':'a <b> & \c'}")); ("schemaType", JStr "AVRO")]).
Proof.
  exact (@register_request_exact counting_registry (New "http://r/") 41 "t-value"
           (dq "{'doc':'a <b> & \c'}") eq_refl eq_refl).
Defined.

(** The cache key is too coarse: it collapses white space inside string values
    too, so after one schema was registered, another one that differs from it
    only there gets its id without being sent to the registry. *)
Theorem cache_key_collision `{RegistryServer} c s subject j1 j2 id c1 s1 :
  Fields j1 = Fields j2 -> cache_wf c ->
  Register c s subject j1 = (Ok id, c1, s1) ->
  Register c1 s1 subject j2 = (Ok id, c1, s1).
Proof.
  intros Hf Hwf Hr. pose proof (Register_cache c s subject j1 Hwf) as Hc. rewrite Hr in Hc.
  destruct Hc as (_ & _ & Hk). specialize (Hk id eq_refl).
  unfold Register. unfold cacheKey in *. rewrite <- Hf. by rewrite Hk.
Qed.

Lemma cache_key_collision_witness :
  let j1 := dq "{'type':'string','default':'a b'}" in
  let j2 := dq "{'type':'string','default':'a  b'}" in
  json_parse j1 <> json_parse j2
  /\ @Register counting_registry
       (@Register counting_registry (New "http://r/") 41 "t-value" j1).1.2 42 "t-value" j2
     = (Ok 41, (@Register counting_registry (New "http://r/") 41 "t-value" j1).1.2, 42).
Proof.
  split; [vm_compute; congruence|].
  exact (@cache_key_collision counting_registry (New "http://r/") 41 "t-value"
           (dq "{'type':'string','default':'a b'}") (dq "{'type':'string','default':'a  b'}") 41
           (@Register counting_registry (New "http://r/") 41 "t-value"
              (dq "{'type':'string','default':'a b'}")).1.2 42
           ltac:(vm_compute; reflexivity) (New_wf "http://r/") ltac:(vm_compute; reflexivity)).
Defined.
