(* ===== verification/Config.v ===== *)
(** * Package [internal/config]: the settings of ingestd

    The environment is a finite map. [Load] reads it over the defaults and
    validates the result; an error value replaces the configuration, which the
    only caller drops on an error. *)

From S2P Require Import Prelude.
From S2P Require Import GoStrings.
From S2P Require Import GoStrconv.
From S2P Require Import GoTime.
From S2P Require Import Tracing.

Local Open Scope Z_scope.

Record Config := mkConfig {
  Venues : list string;
  Symbols : list string;
  KafkaBrokers : list string;
  SchemaRegistryURL : string;
  TopicTrades : string;
  TopicBook : string;
  TopicChain : string;
  MetricsAddr : string;
  LogLevel : string;
  DryRun : bool;
  BufferSize : Z;
  BatchSize : Z;
  FlushInterval : duration;
  KrakenDepth : Z;
  BinanceDepthMS : Z;
  OnchainEnabled : bool;
  OnchainChain : string;
  OnchainWSURL : string;
  OTLPEndpoint : string;
  TraceSampleRatio : float64 }.

Definition Defaults : Config :=
  mkConfig ["coinbase"; "kraken"; "binance"] ["BTC-USD"; "ETH-USD"; "SOL-USD"] ["localhost:9092"]
    "http://localhost:8081" "md.trades.v1" "md.book.v1" "md.chain.v1" ":9101" "info" false
    16384 500 (10 * millisecond) 10 100 false "ethereum" "" "" (f64 "0.01").

(** ** Reading one variable *)

Abbreviation env := (gmap string string).

Definition envStr (e : env) (key def : string) : string :=
  match e !! key with
  | Some v => if String.eqb v "" then def else v
  | None => def
  end.

Definition envList (e : env) (key : string) (def : list string) : list string :=
  match e !! key with
  | None => def
  | Some v =>
      if String.eqb (TrimSpace v) "" then def
      else List.filter (fun p => negb (String.eqb p "")) (map TrimSpace (Split v ","))
  end.

Definition envBool (e : env) (key : string) (def : bool) : bool :=
  match e !! key with
  | None => def
  | Some v =>
      if String.eqb v "" then def
      else match ParseBool v with Some b => b | None => def end
  end.

Definition envInt (e : env) (key : string) (def : Z) : res Z :=
  match e !! key with
  | None => Ok def
  | Some v =>
      if String.eqb v "" then Ok def
      else match Atoi v with
           | inl n => Ok n
           | inr _ => Err (EMsg "config: not an integer")
           end
  end.

Definition envDuration (e : env) (key : string) (def : duration) : res duration :=
  match e !! key with
  | None => Ok def
  | Some v =>
      if String.eqb v "" then Ok def
      else match ParseDuration v with
           | Some d => Ok d
           | None => Err (EMsg "config: not a duration")
           end
  end.

(** [TAPELINE_TRACE_SAMPLE_RATIO]. *)
Definition envRatio (e : env) (def : float64) : res float64 :=
  match e !! ("TAPELINE_TRACE_SAMPLE_RATIO" : string) with
  | None => Ok def
  | Some v =>
      if String.eqb v "" then Ok def
      else match ParseFloat v with
           | (r, None) => Ok r
           | (_, Some _) => Err (EMsg "config: not a number")
           end
  end.

(** ** Validate and Load *)

Definition known_venue (v : string) : bool :=
  existsb (String.eqb v) ["coinbase"; "kraken"; "binance"].

(** [if bad { return fmt.Errorf(msg) }] *)
Definition reject (bad : bool) (msg : string) : res unit := if bad then Err (EMsg msg) else Ok tt.

Definition is_empty {A} (l : list A) : bool := match l with [] => true | _ => false end.

Definition Validate (c : Config) : res unit :=
  _ ← reject (is_empty (Symbols c)) "config: no symbols configured";
  _ ← map_res (fun s => reject (negb (Contains s "-")) "config: symbol must be canonical BASE-QUOTE")
        (Symbols c);
  _ ← reject (is_empty (Venues c) && negb (OnchainEnabled c))
        "config: no venues and no on-chain source enabled";
  _ ← map_res (fun v => reject (negb (known_venue v)) "config: unknown venue") (Venues c);
  _ ← reject (negb (DryRun c) && is_empty (KafkaBrokers c))
        "config: TAPELINE_KAFKA_BROKERS is required unless TAPELINE_DRY_RUN=true";
  _ ← reject (OnchainEnabled c && String.eqb (OnchainWSURL c) "")
        "config: TAPELINE_ONCHAIN_WS_URL is required when on-chain ingestion is enabled";
  _ ← reject (BufferSize c <? 1) "config: buffer size must be positive";
  _ ← reject (BatchSize c <? 1) "config: batch size must be positive";
  _ ← reject (f64_lt (TraceSampleRatio c) f64_zero || f64_lt (f64_of_Z 1) (TraceSampleRatio c))
        "config: trace sample ratio must be in [0,1]";
  reject (negb (BinanceDepthMS c =? 100) && negb (BinanceDepthMS c =? 1000))
    "config: binance depth interval must be 100 or 1000 ms".

Definition Load (e : env) : res Config :=
  let c := Defaults in
  let venues := envList e "TAPELINE_VENUES" (Venues c) in
  let symbols := envList e "TAPELINE_SYMBOLS" (Symbols c) in
  let brokers := envList e "TAPELINE_KAFKA_BROKERS" (KafkaBrokers c) in
  let registry := envStr e "TAPELINE_SCHEMA_REGISTRY_URL" (SchemaRegistryURL c) in
  let trades := envStr e "TAPELINE_TOPIC_TRADES" (TopicTrades c) in
  let book := envStr e "TAPELINE_TOPIC_BOOK" (TopicBook c) in
  let chain := envStr e "TAPELINE_TOPIC_CHAIN" (TopicChain c) in
  let metrics := envStr e "TAPELINE_METRICS_ADDR" (MetricsAddr c) in
  let level := envStr e "TAPELINE_LOG_LEVEL" (LogLevel c) in
  let dry := envBool e "TAPELINE_DRY_RUN" (DryRun c) in
  buffer ← envInt e "TAPELINE_BUFFER_SIZE" (BufferSize c);
  batch ← envInt e "TAPELINE_BATCH_SIZE" (BatchSize c);
  flush ← envDuration e "TAPELINE_FLUSH_INTERVAL" (FlushInterval c);
  depth ← envInt e "TAPELINE_KRAKEN_DEPTH" (KrakenDepth c);
  depthMS ← envInt e "TAPELINE_BINANCE_DEPTH_MS" (BinanceDepthMS c);
  let onchain := envBool e "TAPELINE_ONCHAIN_ENABLED" (OnchainEnabled c) in
  let onchain_chain := envStr e "TAPELINE_ONCHAIN_CHAIN" (OnchainChain c) in
  let ws := envStr e "TAPELINE_ONCHAIN_WS_URL" (OnchainWSURL c) in
  let otlp := envStr e "TAPELINE_OTLP_ENDPOINT" (OTLPEndpoint c) in
  ratio ← envRatio e (TraceSampleRatio c);
  let c := mkConfig venues symbols brokers registry trades book chain metrics level dry buffer batch
             flush depth depthMS onchain onchain_chain ws otlp ratio in
  _ ← Validate c; Ok c.

(** ** Specification *)

(** What the rest of the program may assume of a configuration that passed [Validate]. It
    is no more than that: a ratio that is not a number passes ([load_accepts_nan_ratio]), and
    so do a venue listed twice and any depth of Kraken's book. *)
Record config_ok (c : Config) : Prop := {
  ok_symbols : Symbols c <> [];
  ok_symbol : Forall (fun s => Contains s "-" = true) (Symbols c);
  ok_sources : Venues c <> [] \/ OnchainEnabled c = true;
  ok_venues : Forall (fun v => v = "coinbase" \/ v = "kraken" \/ v = "binance") (Venues c);
  ok_brokers : DryRun c = true \/ KafkaBrokers c <> [];
  ok_onchain : OnchainEnabled c = true -> OnchainWSURL c <> "";
  ok_buffer : 1 <= BufferSize c;
  ok_batch : 1 <= BatchSize c;
  ok_ratio : f64_lt (TraceSampleRatio c) f64_zero = false /\ f64_lt (f64_of_Z 1) (TraceSampleRatio c) = false;
  ok_depth : BinanceDepthMS c = 100 \/ BinanceDepthMS c = 1000 }.

(** ** Lemmas *)

Lemma reject_ok b msg : reject b msg = Ok tt <-> b = false.
Proof. destruct b; split; (discriminate || done). Qed.

Lemma bind_reject {A} b msg (k : unit -> res A) a :
  (reject b msg ≫= k) = Ok a <-> b = false /\ k tt = Ok a.
Proof. destruct b; cbn; split; (discriminate || intuition discriminate || done). Qed.

Lemma bind_reject_all {A B} (f : A -> bool) msg l (k : list unit -> res B) b :
  (forall us us', k us = k us') ->
  (map_res (fun a => reject (f a) msg) l ≫= k) = Ok b
  <-> Forall (fun a => f a = false) l /\ k [] = Ok b.
Proof.
  intros Hk. assert (forall l, (exists us, map_res (fun a => reject (f a) msg) l = Ok us)
                               <-> Forall (fun a => f a = false) l) as Hl.
  { clear. induction l as [|a l IH]; [split; eauto; intros; constructor|].
    rewrite Forall_cons, <- IH. cbn. destruct (f a); cbn.
    - split; [intros [us [=]]|intros [[=] _]].
    - split; [intros [us H]; apply bind_Ok in H as (us' & -> & _); eauto|].
      intros [_ [us ->]]. cbn. eauto. }
  specialize (Hl l). destruct (map_res _ l) as [us|e|] eqn:E; cbn.
  - rewrite (Hk us []). split; [|by intros [_ ?]]. intros. split; [|done]. apply Hl. eauto.
  - split; [done|]. intros [Hf _]. apply Hl in Hf as [? [=]].
  - split; [done|]. intros [Hf _]. apply Hl in Hf as [? [=]].
Qed.

Lemma is_empty_false {A} (l : list A) : is_empty l = false <-> l <> [].
Proof. by destruct l. Qed.

Lemma known_venue_spec v : negb (known_venue v) = false <-> v = "coinbase" \/ v = "kraken" \/ v = "binance".
Proof.
  unfold known_venue. cbn. rewrite negb_false_iff, !orb_true_iff, !String.eqb_eq.
  intuition discriminate.
Qed.

Lemma Validate_iff c : Validate c = Ok tt <-> config_ok c.
Proof.
  unfold Validate. rewrite bind_reject, bind_reject_all, bind_reject, bind_reject_all, !bind_reject,
    reject_ok by done.
  rewrite !is_empty_false, !andb_false_iff, orb_false_iff, !is_empty_false, !negb_false_iff,
    !Z.ltb_ge, !Z.eqb_eq, String.eqb_neq.
  assert (forall l, Forall (fun a => negb (Contains a "-") = false) l
                    <-> Forall (fun s => Contains s "-" = true) l) as ->.
  { intros l. apply Forall_iff. intros s. by rewrite negb_false_iff. }
  assert (forall l, Forall (fun a => negb (known_venue a) = false) l
            <-> Forall (fun v => v = "coinbase" \/ v = "kraken" \/ v = "binance") l) as ->.
  { intros l. apply Forall_iff. intros v. apply known_venue_spec. }
  split.
  - intros (?&?&?&?&?&Ho&?&?&?&?). constructor; try done.
    intros Hon. destruct Ho as [?|?]; [congruence|done].
  - intros []. repeat (split; [done|]). split; [|done]. destruct (OnchainEnabled c); auto.
Qed.

Lemma lookup_nonempty (e : gmap string string) k :
  filter (fun kv => kv.2 <> "") e !! k
  = match e !! k with Some v => if String.eqb v "" then None else Some v | None => None end.
Proof.
  rewrite map_lookup_filter. destruct (e !! k) as [v|]; [|done]. cbn.
  destruct (String.eqb_spec v "") as [->|Hv]; case_guard; done.
Qed.

Lemma env_nonempty (e : gmap string string) :
  let e' := filter (fun kv => kv.2 <> "") e in
  (forall k d, envStr e' k d = envStr e k d) /\ (forall k d, envList e' k d = envList e k d)
  /\ (forall k d, envBool e' k d = envBool e k d) /\ (forall k d, envInt e' k d = envInt e k d)
  /\ (forall k d, envDuration e' k d = envDuration e k d) /\ (forall d, envRatio e' d = envRatio e d).
Proof.
  cbv zeta. unfold envStr, envList, envBool, envInt, envDuration, envRatio.
  split_and!; intros; rewrite lookup_nonempty;
    match goal with |- context [e !! ?k] => destruct (e !! k) as [v|]; [|reflexivity] end;
    destruct (String.eqb_spec v "") as [->|Hv]; try reflexivity.
  all: by apply String.eqb_neq in Hv; rewrite Hv.
Qed.

Lemma Load_ok e c : Load e = Ok c -> config_ok c.
Proof.
  unfold Load. intros H. inv_res. subst c.
  match goal with E : Validate _ = Ok ?u |- _ => destruct u; by apply Validate_iff in E end.
Qed.

(** ** Properties *)

(** A variable set to the empty string is the same as one that is not set. *)
Theorem load_empty_is_unset (e : gmap string string) : Load (filter (fun kv => kv.2 <> "") e) = Load e.
Proof.
  destruct (env_nonempty e) as (Hs & Hl & Hb & Hi & Hd & Hr). unfold Load.
  by rewrite !Hs, !Hl, !Hb, !Hi, !Hd, !Hr.
Qed.

(** The range check of the sample ratio is two comparisons, and both are false of a
    NaN: it is accepted here, and [tracing.Init] passes it on as well. *)
Theorem load_accepts_nan_ratio :
  match Load {["TAPELINE_TRACE_SAMPLE_RATIO" := "NaN"]} with
  | Ok c => TraceSampleRatio c = S754_nan /\ SamplingRatio (TraceSampleRatio c) = S754_nan
  | _ => False
  end.
Proof. vm_compute. done. Qed.

(** A boolean that cannot be parsed is silently its default, where a number is an
    error: [TAPELINE_DRY_RUN=yes] publishes to Kafka. *)
Theorem dry_run_yes_is_ignored :
  match Load {["TAPELINE_DRY_RUN" := "yes"]} with Ok c => DryRun c = false | _ => False end
  /\ is_ok (Load {["TAPELINE_BATCH_SIZE" := "many"]}) = false.
Proof. vm_compute. done. Qed.
