(* ===== verification/Settings.v ===== *)
(** * Package [internal/config]: a configuration in the environment and back

    Config.v says what [Load] makes of an environment. Here is the other direction, the
    environment an operator writes for a configuration ([env_of]: a variable for every
    field), and that [Load] reads it back. *)

From S2P Require Import Prelude.
From S2P Require Import GoStrings.
From S2P Require Import GoStrconv.
From S2P Require Import GoFmt.
From S2P Require Import GoTime.
From S2P Require Import Config.

Local Open Scope Z_scope.

(** ** The environment of a configuration *)

(** A list is its items with commas; the empty list is a comma, since an empty variable
    is one that is not set. *)
Definition list_text (l : list string) : string := match l with [] => "," | _ => GoStrings.Join l "," end.
Definition bool_text (b : bool) : string := if b then "true" else "false".
Definition duration_text (d : duration) : string := FormatInt d +:+ "ns".

Definition env_of (c : Config) (ratio : string) : env := list_to_map
  [("TAPELINE_VENUES", list_text (Venues c)); ("TAPELINE_SYMBOLS", list_text (Symbols c));
   ("TAPELINE_KAFKA_BROKERS", list_text (KafkaBrokers c));
   ("TAPELINE_SCHEMA_REGISTRY_URL", SchemaRegistryURL c);
   ("TAPELINE_TOPIC_TRADES", TopicTrades c); ("TAPELINE_TOPIC_BOOK", TopicBook c);
   ("TAPELINE_TOPIC_CHAIN", TopicChain c); ("TAPELINE_METRICS_ADDR", MetricsAddr c);
   ("TAPELINE_LOG_LEVEL", LogLevel c); ("TAPELINE_DRY_RUN", bool_text (DryRun c));
   ("TAPELINE_BUFFER_SIZE", FormatInt (BufferSize c)); ("TAPELINE_BATCH_SIZE", FormatInt (BatchSize c));
   ("TAPELINE_FLUSH_INTERVAL", duration_text (FlushInterval c));
   ("TAPELINE_KRAKEN_DEPTH", FormatInt (KrakenDepth c));
   ("TAPELINE_BINANCE_DEPTH_MS", FormatInt (BinanceDepthMS c));
   ("TAPELINE_ONCHAIN_ENABLED", bool_text (OnchainEnabled c)); ("TAPELINE_ONCHAIN_CHAIN", OnchainChain c);
   ("TAPELINE_ONCHAIN_WS_URL", OnchainWSURL c); ("TAPELINE_OTLP_ENDPOINT", OTLPEndpoint c);
   ("TAPELINE_TRACE_SAMPLE_RATIO", ratio)].

(** An item of a list: printable ASCII, without a space and without a comma. *)
Definition visible (c : ascii) : bool := (33 <=? byte_of c) && (byte_of c <? 127).
Definition item (s : string) : Prop :=
  s <> "" /\ Forall (fun c => visible c = true) (chars s) /\ ","%char ∉ chars s.

(** What an environment can say: the strings that have a default are not empty, the two
    others may be, integers are of their width, and [ratio] is a text of the ratio. *)
Record sayable (c : Config) (ratio : string) : Prop := {
  say_lists : Forall item (Venues c) /\ Forall item (Symbols c) /\ Forall item (KafkaBrokers c);
  say_strings : Forall (fun s => s <> "") [SchemaRegistryURL c; TopicTrades c; TopicBook c; TopicChain c;
                  MetricsAddr c; LogLevel c; OnchainChain c];
  say_ints : Forall int64 [BufferSize c; BatchSize c; KrakenDepth c; BinanceDepthMS c];
  say_duration : - two63 < FlushInterval c < two63;
  say_ratio : ParseFloat ratio = (TraceSampleRatio c, None) /\ ratio <> "" }.

(** ** Lemmas: lists *)

Lemma find_none seqs c l :
  forallb (fun p => match p with x :: _ => negb (visible x) | [] => false end) seqs = true ->
  visible c = true -> List.find (fun p => is_prefix p (c :: l)) seqs = None.
Proof.
  intros Hs Hc. induction seqs as [|p seqs IH]; [done|]. cbn in Hs. apply andb_true_iff in Hs as [Hp Hs].
  cbn [List.find]. destruct p as [|x p]; [done|]. cbn [is_prefix].
  destruct (Ascii.eqb_spec x c) as [->|]; [by rewrite Hc in Hp|]. by apply IH.
Qed.

Lemma trim_front_visible seqs fuel c l :
  forallb (fun p => match p with x :: _ => negb (visible x) | [] => false end) seqs = true ->
  visible c = true -> trim_front seqs fuel (c :: l) = c :: l.
Proof. intros Hs Hc. destruct fuel as [|f]; [done|]. cbn [trim_front]. by rewrite find_none. Qed.

(** White space is trimmed at the ends, which are visible. *)
Lemma TrimSpace_visible s : Forall (fun c => visible c = true) (chars s) -> TrimSpace s = s.
Proof.
  intros Hs. unfold TrimSpace. rewrite <- (unchars_chars s) at 2. f_equal.
  assert (trim_left (chars s) = chars s) as ->.
  { unfold trim_left. destruct (chars s) as [|c l]; [done|]. apply Forall_cons_1 in Hs as [Hc _].
    apply trim_front_visible; [vm_compute; reflexivity|done]. }
  unfold trim_right.
  assert (trim_front (map (@rev ascii) space_seqs) (length (chars s)) (rev (chars s)) = rev (chars s)) as ->;
    [|apply rev_involutive].
  assert (Forall (fun c => visible c = true) (rev (chars s))) as Hr by (by apply List.Forall_rev).
  destruct (rev (chars s)) as [|c l]; [by destruct (length _)|]. apply Forall_cons_1 in Hr as [Hc _].
  apply trim_front_visible; [vm_compute; reflexivity|done].
Qed.

Lemma join_visible l : Forall item l -> Forall (fun c => visible c = true) (chars (GoStrings.Join l ",")).
Proof.
  induction 1 as [|s l (_ & Hv & _) _ IH]; [constructor|]. destruct l as [|s' l]; [done|].
  change (GoStrings.Join (s :: s' :: l) ",") with (s +:+ "," +:+ GoStrings.Join (s' :: l) ","). rewrite !chars_app.
  apply Forall_app. split; [done|]. apply Forall_app. split; [by repeat constructor|exact IH].
Qed.

Lemma split_join s l : Forall item (s :: l) -> Split (GoStrings.Join (s :: l) ",") "," = s :: l.
Proof.
  unfold Split. revert s. induction l as [|s' l IH]; intros s [(_ & _ & Hc) Hl]%Forall_cons_1.
  - cbn [GoStrings.Join]. rewrite split_chars_none by done. cbn. by rewrite unchars_chars.
  - change (GoStrings.Join (s :: s' :: l) ",") with (s +:+ "," +:+ GoStrings.Join (s' :: l) ","). rewrite !chars_app.
    change (chars ",") with [","%char]. cbn [app]. rewrite split_chars_app by done. cbn [map].
    by rewrite unchars_chars, IH.
Qed.

Lemma item_filter l : Forall item l ->
  List.filter (fun p => negb (String.eqb p "")) (map TrimSpace l) = l.
Proof.
  induction 1 as [|s l (Hne & Hv & _) _ IH]; [done|]. cbn [map List.filter].
  rewrite TrimSpace_visible by done. apply String.eqb_neq in Hne. rewrite Hne. cbn. by f_equal.
Qed.

Lemma envList_text (e : env) key l d : e !! key = Some (list_text l) -> Forall item l -> envList e key d = l.
Proof.
  intros He Hl. unfold envList. rewrite He. destruct l as [|s l]; [vm_compute; reflexivity|]. unfold list_text.
  rewrite TrimSpace_visible by (by apply join_visible). rewrite split_join by done.
  destruct (String.eqb_spec (GoStrings.Join (s :: l) ",") "") as [E|_]; [|by apply item_filter].
  exfalso. apply Forall_cons_1 in Hl as [(Hne & _) _]. destruct l as [|s' l]; [done|].
  change (s +:+ ("," +:+ GoStrings.Join (s' :: l) ",") = "") in E. by destruct s.
Qed.

(** ** Lemmas: numbers *)

Lemma FormatInt_not_empty z : FormatInt z <> "".
Proof.
  destruct (Z.neg_nonneg_cases z) as [Hn|Hn]; [by rewrite (FormatInt_neg z Hn)|].
  destruct (FormatInt_nonneg z Hn) as (Hne & _ & _). intros E. by rewrite E in Hne.
Qed.

Lemma envInt_text (e : env) key n d : e !! key = Some (FormatInt n) -> int64 n -> envInt e key d = Ok n.
Proof.
  intros He Hn. unfold envInt. rewrite He. destruct (String.eqb_spec (FormatInt n) "") as [E|_];
    [by apply FormatInt_not_empty in E|]. by rewrite Atoi_FormatInt.
Qed.

Lemma envBool_text (e : env) key b d : e !! key = Some (bool_text b) -> envBool e key d = b.
Proof. intros He. unfold envBool. rewrite He. by destruct b. Qed.

Lemma envStr_text (e : env) key s d : e !! key = Some s -> s <> "" -> envStr e key d = s.
Proof. intros He Hs. unfold envStr. rewrite He. apply String.eqb_neq in Hs. by rewrite Hs. Qed.

Lemma envStr_default (e : env) key s : e !! key = Some s -> envStr e key "" = s.
Proof. intros He. unfold envStr. rewrite He. by destruct (String.eqb_spec s "") as [->|]. Qed.

Lemma is_dec_digit c : is_dec c -> digit_val c = Some (byte_of c - 48) /\ 0 <= byte_of c - 48 < 10.
Proof.
  unfold is_dec, is_digit, digit_val. intros Hc. rewrite Hc. apply andb_true_iff in Hc as [H1 H2].
  split; [done|]. lia.
Qed.

Lemma digits_val_ge l : forall y v, Forall is_dec l -> 0 <= y -> digits_val 10 y l = Some v -> y <= v.
Proof.
  induction l as [|c l IH]; intros y v Hl Hy Hv; [injection Hv as ->; lia|].
  apply Forall_cons_1 in Hl as [Hc Hl]. destruct (is_dec_digit c Hc) as [Hd Hb]. cbn [digits_val] in Hv.
  rewrite Hd in Hv. destruct (_ <? 10); [|done]. apply IH in Hv; [lia|done|lia].
Qed.

Lemma leading_int_dec l rest : forall x v, Forall is_dec l -> 0 <= x -> digits_val 10 x l = Some v -> v <= two63 ->
  match rest with c :: _ => is_digit c = false | [] => True end -> leading_int x (l ++ rest) = Some (v, rest).
Proof.
  induction l as [|c l IH]; intros x v Hl Hx Hv Hmax Hr.
  - injection Hv as ->. destruct rest as [|c rest]; [done|]. cbn. by rewrite Hr.
  - apply Forall_cons_1 in Hl as [Hc Hl]. destruct (is_dec_digit c Hc) as [Hd Hb]. cbn [digits_val] in Hv.
    rewrite Hd in Hv. destruct (Z.ltb_spec (byte_of c - 48) 10); [|done].
    pose proof (digits_val_ge l (x * 10 + (byte_of c - 48)) v Hl ltac:(lia) Hv) as Hge. cbn [app leading_int].
    unfold is_dec in Hc. rewrite Hc. assert ((two63 / 10 <? x) = false) as ->.
    { apply Z.ltb_ge. apply Z.div_le_lower_bound; lia. }
    assert ((two63 <? x * 10 + (byte_of c - 48)) = false) as -> by (apply Z.ltb_ge; lia). by apply IH; [|lia|..].
Qed.

(** A number of nanoseconds is one term. *)
Lemma duration_ns n : 0 <= n <= two63 ->
  let l := chars (FormatInt n) ++ ["n"; "s"]%char in
  duration_sum (length l) 0 l = Some n /\ split_sign l = (false, l) /\ String.eqb (unchars l) "0" = false.
Proof.
  intros Hn. cbv zeta. destruct (FormatInt_nonneg n ltac:(lia)) as (Hne & Hf & Hd).
  pose proof (leading_int_dec _ ["n"; "s"]%char 0 n Hf ltac:(lia) Hd ltac:(lia) eq_refl) as Hl.
  set (ds := chars (FormatInt n)) in *. destruct ds as [|c ds]; [done|].
  apply Forall_cons_1 in Hf as [Hc _]. destruct (dec_not_sign c Hc) as (Hm & Hp & _).
  split; [|split].
  - cbn [app length duration_sum]. cbn [app] in Hl. unfold duration_term. unfold is_dec in Hc. rewrite Hc, orb_true_r.
    cbn [negb]. rewrite Hl. cbn [mbind option_bind]. change (Ascii.eqb "n" ".") with false. cbv iota.
    assert ((length (c :: ds ++ ["n"; "s"]%char) =? length ["n"; "s"]%char)%nat = false) as ->.
    { apply Nat.eqb_neq. cbn [length]. rewrite length_app. cbn. lia. }
    cbn [negb andb]. change (span_unit ["n"; "s"]%char) with (["n"; "s"]%char, @nil ascii). cbv iota.
    change (duration_unit ["n"; "s"]%char) with (Some 1). cbn [mbind option_bind].
    rewrite Z.div_1_r, Z.mul_1_r. assert ((two63 <? n) = false) as -> by (apply Z.ltb_ge; lia).
    change (0 <? 0) with false. cbv iota. assert ((two63 <? n) = false) as -> by (apply Z.ltb_ge; lia).
    cbn [mbind option_bind]. rewrite Z.add_0_l. assert ((two63 <? n) = false) as -> by (apply Z.ltb_ge; lia).
    by destruct (length _).
  - cbn [app split_sign]. by rewrite Hm, Hp.
  - apply String.eqb_neq. intros E. apply (f_equal chars) in E. rewrite chars_unchars in E. cbn in E.
    injection E as _ E. by destruct ds.
Qed.

Lemma ParseDuration_text d : - two63 < d < two63 -> ParseDuration (duration_text d) = Some d.
Proof.
  intros Hd. unfold ParseDuration, duration_text. rewrite chars_app. change (chars "ns") with ["n"; "s"]%char.
  destruct (Z.neg_nonneg_cases d) as [Hn|Hn].
  - rewrite (FormatInt_neg d Hn), chars_app. change (chars "-") with ["-"%char]. rewrite <- (assoc_L (++)).
    cbn [app split_sign]. change (Ascii.eqb "-" "-") with true. cbv iota.
    destruct (duration_ns (- d) ltac:(lia)) as (Hs & _ & ->).
    destruct (chars (FormatInt (- d)) ++ ["n"; "s"]%char) as [|c l] eqn:E; [by destruct (chars _)|].
    rewrite Hs. cbn [mbind option_bind]. rewrite Z.opp_involutive, wrap64_id; [done|int_lia].
  - destruct (duration_ns d ltac:(lia)) as (Hs & Hsign & H0). rewrite Hsign, H0.
    destruct (chars (FormatInt d) ++ ["n"; "s"]%char) as [|c l] eqn:E; [by destruct (chars _)|].
    rewrite Hs. cbn [mbind option_bind]. by destruct (Z.ltb_spec (two63 - 1) d); [lia|].
Qed.

Lemma envDuration_text (e : env) key d def :
  e !! key = Some (duration_text d) -> - two63 < d < two63 -> envDuration e key def = Ok d.
Proof.
  intros He Hd. unfold envDuration. rewrite He.
  destruct (String.eqb_spec (duration_text d) "") as [E|_]; [|by rewrite ParseDuration_text].
  unfold duration_text in E. destruct (FormatInt d) eqn:Ef; [by apply FormatInt_not_empty in Ef|done].
Qed.

(** ** Properties *)

(** C37. A configuration survives the environment. For every configuration that an
    environment can express, whatever its fields are, [Load] reads the environment written
    for it back field for field: each variable reaches its own field and no other, lists,
    booleans, integers of either sign, durations and the ratio parse to what was printed,
    an empty list too. [Load] then returns it exactly if [Validate] accepts it, and else
    [Validate]'s error. *)
Theorem load_reads_back (c : Config) (ratio : string) :
  sayable c ratio -> Load (env_of c ratio) = (_ ← Validate c; Ok c).
Proof.
  intros [(Hv & Hs & Hb) Hstr Hint Hd [Hr Hrne]].
  rewrite !Forall_cons in Hstr. rewrite !Forall_cons in Hint. destruct Hstr as (? & ? & ? & ? & ? & ? & ? & _), Hint as (? & ? & ? & ? & _).
  unfold Load. change (OnchainWSURL Defaults) with "". change (OTLPEndpoint Defaults) with "".
  rewrite (envList_text _ _ (Venues c)) by (reflexivity || done).
  rewrite (envList_text _ _ (Symbols c)) by (reflexivity || done).
  rewrite (envList_text _ _ (KafkaBrokers c)) by (reflexivity || done).
  rewrite (envStr_text _ _ (SchemaRegistryURL c)), (envStr_text _ _ (TopicTrades c)), (envStr_text _ _ (TopicBook c)),
    (envStr_text _ _ (TopicChain c)), (envStr_text _ _ (MetricsAddr c)), (envStr_text _ _ (LogLevel c)),
    (envStr_text _ _ (OnchainChain c)), (envStr_default _ _ (OnchainWSURL c)), (envStr_default _ _ (OTLPEndpoint c))
    by (reflexivity || done).
  rewrite (envBool_text _ _ (DryRun c)), (envBool_text _ _ (OnchainEnabled c)) by reflexivity.
  rewrite (envInt_text _ "TAPELINE_BUFFER_SIZE" (BufferSize c)), (envInt_text _ "TAPELINE_BATCH_SIZE" (BatchSize c)),
    (envInt_text _ "TAPELINE_KRAKEN_DEPTH" (KrakenDepth c)),
    (envInt_text _ "TAPELINE_BINANCE_DEPTH_MS" (BinanceDepthMS c)), (envDuration_text _ _ (FlushInterval c))
    by (reflexivity || done).
  assert (forall def, envRatio (env_of c ratio) def = Ok (TraceSampleRatio c)) as ->.
  { intros def. unfold envRatio. change (env_of c ratio !! _) with (Some ratio). cbv beta iota. apply String.eqb_neq in Hrne.
    by rewrite Hrne, Hr. }
  cbn [mbind res_bind]. by destruct c.
Qed.

(** A configuration with only an on-chain source, and one that is rejected. *)
Definition chain_config : Config :=
  mkConfig [] ["BTC-USD"] ["kafka-0:9092"; "kafka-1:9092"] "http://r" "t" "b" "c" ":1" "debug" false
    1 9223372036854775807 (-5) 25 1000 true "base" "wss://node" "" (f64 "0.5").

Lemma chain_sayable : sayable chain_config "0.5".
Proof.
  split.
  - split_and!; repeat constructor; try done; intros H; by repeat (apply elem_of_cons in H as [H|H]; [discriminate H|]); apply elem_of_nil in H.
  - by repeat constructor.
  - repeat constructor; vm_compute; congruence.
  - vm_compute. done.
  - split; [vm_compute; reflexivity|done].
Qed.

Lemma load_reads_back_witness :
  Load (env_of chain_config "0.5") = Ok chain_config
  /\ env_of chain_config "0.5" !! "TAPELINE_VENUES" = Some ",".
Proof.
  split; [|vm_compute; reflexivity]. rewrite (load_reads_back chain_config "0.5" chain_sayable).
  vm_compute. reflexivity.
Defined.
