(* ===== verification/Logger.v ===== *)
(** * Command [ingestd]: the level of the logger

    [newLogger] reads the configured level with [slog.Level.UnmarshalText] of the
    standard library: a name, in any case, and an optional signed offset. *)

From S2P Require Import Prelude.
From S2P Require Import GoStrings.
From S2P Require Import GoStrconv.

Local Open Scope Z_scope.

Definition LevelDebug : Z := -4.
Definition LevelInfo : Z := 0.
Definition LevelWarn : Z := 4.
Definition LevelError : Z := 8.

(** The name before the first sign, and the rest from that sign on. *)
Fixpoint cut_sign (l : list ascii) : list ascii * list ascii :=
  match l with
  | [] => ([], [])
  | c :: l' =>
      if Ascii.eqb c "+" || Ascii.eqb c "-" then ([], l)
      else let '(a, b) := cut_sign l' in (c :: a, b)
  end.

Definition named_level `{UnicodeMap} (name : string) : option Z :=
  let n := ToUpper name in
  if String.eqb n "DEBUG" then Some LevelDebug
  else if String.eqb n "INFO" then Some LevelInfo
  else if String.eqb n "WARN" then Some LevelWarn
  else if String.eqb n "ERROR" then Some LevelError
  else None.

(** [None] is an error. *)
Definition Level_UnmarshalText `{UnicodeMap} (s : string) : option Z :=
  let '(name, signed) := cut_sign (chars s) in
  offset ← match signed with
           | [] => Some 0
           | _ => match Atoi (unchars signed) with inl z => Some z | inr _ => None end
           end;
  level ← named_level (unchars name);
  Some (wrap64 (level + offset)).

(** The minimum level of the handler; a record is written from that level on. *)
Definition newLogger `{UnicodeMap} (level : string) : Z :=
  match Level_UnmarshalText level with Some lvl => lvl | None => LevelInfo end.
Definition logger_enabled (min level : Z) : bool := min <=? level.

(** ** Properties *)

Lemma cut_sign_none l : "+"%char ∉ l -> "-"%char ∉ l -> cut_sign l = (l, []).
Proof.
  induction l as [|c l IH]; intros Hp Hm; cbn [cut_sign]; [done|].
  apply not_elem_of_cons in Hp as [Hp1 Hp2]. apply not_elem_of_cons in Hm as [Hm1 Hm2].
  destruct (Ascii.eqb_spec c "+"); [congruence|]. destruct (Ascii.eqb_spec c "-"); [congruence|].
  cbn [orb]. by rewrite IH.
Qed.

(** The level text never stops the program. A text without a sign selects the level
    it names, in any case, and Info otherwise, so errors are always logged and debug
    records only for [DEBUG]; only an offset can raise the level past the errors. *)
Theorem new_logger_levels `{UnicodeMap} (level : string) :
  "+"%char ∉ chars level -> "-"%char ∉ chars level ->
  newLogger level = default LevelInfo (named_level level)
  /\ logger_enabled (newLogger level) LevelError = true
  /\ (logger_enabled (newLogger level) LevelDebug = true <-> ToUpper level = "DEBUG").
Proof.
  intros Hp Hm. unfold newLogger, Level_UnmarshalText. rewrite (cut_sign_none _ Hp Hm).
  cbn [mbind option_bind]. rewrite unchars_chars. unfold named_level.
  destruct (String.eqb_spec (ToUpper level) "DEBUG") as [E|E];
    [|destruct (String.eqb_spec (ToUpper level) "INFO");
      [|destruct (String.eqb_spec (ToUpper level) "WARN");
        [|destruct (String.eqb_spec (ToUpper level) "ERROR")]]];
    (split; [reflexivity|]); (split; [reflexivity|]); (split; [try done; try (intros HH; discriminate HH)|done]).
Qed.

Lemma new_logger_levels_witness :
  @newLogger unicode_id "warn" = LevelWarn.
Proof.
  refine (proj1 (@new_logger_levels unicode_id "warn" _ _)); vm_compute; set_solver.
Defined.

(** An offset can silence the errors. *)
Theorem offset_silences_errors : logger_enabled (@newLogger unicode_id "ERROR+1") LevelError = false.
Proof. reflexivity. Qed.
