(* ===== verification/Ingestd.v ===== *)
(** * Command [ingestd]: startup, wiring, and the running system

    [buildDecoders], [buildEncoders], [RegisterSchemas] and the pipeline the
    command builds. Iterating a Go map has no fixed order, so a map that is
    iterated is the list of its entries in the order of the iteration.

    The running system is a transition relation [sys_step] over the fan-in channel
    and the pipeline's state: a runner sends an event or announces a connection,
    the pipeline receives or ticks, in any order. What a runner may send are the
    events of the runs of Runner.v ([sent_by]). *)

From S2P Require Import Prelude.
From S2P Require Import GoStrings.
From S2P Require Import GoStrconv.
From S2P Require Import GoJson.
From S2P Require Import Model.
From S2P Require Import Gap.
From S2P Require Import Schemas.
From S2P Require Import Encode.
From S2P Require Import Metrics.
From S2P Require Import Tracing.
From S2P Require Import Sink.
From S2P Require Import Pipeline.
From S2P Require Import Venue.
From S2P Require Import Binance.
From S2P Require Import Coinbase.
From S2P Require Import Kraken.
From S2P Require Import Evm.
From S2P Require Import Runner.
From S2P Require Import Registry.
From S2P Require Import Config.

Local Open Scope Z_scope.

(** ** Schemas *)

Definition topics_of (cfg : Config) : list (Kind * string) :=
  [(KindTrade, TopicTrades cfg); (KindBookDelta, TopicBook cfg); (KindChainTransfer, TopicChain cfg)].

Section schemas.
Context `{AvroLib} `{RegistryServer}.

(** The body of the loop of [RegisterSchemas], for one kind. *)
Definition register_kind (c : Client) (s : server) (schemasByKind : gmap Kind string)
    (kind : Kind) (topic : string) : res Encoder * Client * server * list metric :=
  match schemasByKind !! kind with
  | None => (Err (EMsg "no schema for kind"), c, s, [])
  | Some schemaJSON =>
      let subject := SubjectForTopic topic in
      let '(ok, s1) := CheckCompatibility c s subject schemaJSON in
      let checked : res unit :=
        match ok with
        | Err e => if errors_is e ErrNotFoundName then Ok tt else Err (EWrap "compatibility check" e)
        | Ok false => Err (EMsg "schema is incompatible with the registered latest version")
        | Ok true => Ok tt
        | Panic => Panic
        end in
      match checked with
      | Err e => (Err e, c, s1, [])
      | Panic => (Panic, c, s1, [])
      | Ok _ =>
          let '(id, c1, s2) := Register c s1 subject schemaJSON in
          match id with
          | Ok id =>
              (wrap_err "encoder" (NewEncoder id schemaJSON), c1, s2, [MInc SchemaRegistrations [subject]])
          | Err e => (Err e, c1, s2, [])
          | Panic => (Panic, c1, s2, [])
          end
      end
  end.

Fixpoint register_loop (c : Client) (s : server) (schemasByKind : gmap Kind string)
    (topics : list (Kind * string)) (encoders : gmap Kind Encoder)
    : res (gmap Kind Encoder) * Client * server * list metric :=
  match topics with
  | [] => (Ok encoders, c, s, [])
  | (kind, topic) :: topics' =>
      let '(enc, c1, s1, ms) := register_kind c s schemasByKind kind topic in
      match enc with
      | Ok enc =>
          let '(r, c2, s2, ms') :=
            register_loop c1 s1 schemasByKind topics' (<[kind := enc]> encoders) in
          (r, c2, s2, ms ++ ms')
      | Err e => (Err e, c1, s1, ms)
      | Panic => (Panic, c1, s1, ms)
      end
  end.

Definition RegisterSchemas (c : Client) (s : server) (topics : list (Kind * string))
    (schemasByKind : gmap Kind string) : res (gmap Kind Encoder) * Client * server * list metric :=
  register_loop c s schemasByKind topics ∅.

(** The dry-run encoders, with the placeholder id 0. *)
Fixpoint dry_run_encoders (schemas : list (Kind * string)) (encoders : gmap Kind Encoder)
    : res (gmap Kind Encoder) :=
  match schemas with
  | [] => Ok encoders
  | (kind, schemaJSON) :: schemas' =>
      enc ← wrap_err "dry-run encoder" (NewEncoder 0 schemaJSON);
      dry_run_encoders schemas' (<[kind := enc]> encoders)
  end.

(** The compatibility level of every subject; an error is only logged. *)
Definition set_compat_all (c : Client) (s : server) (topics : list (Kind * string)) : server :=
  fold_left (fun s kt => (SetCompatibility c s (SubjectForTopic kt.2) CompatFull).2) topics s.

(** [topics1] and [topics2] are the orders of the two iterations over the topics,
    [schemas] the one over the schemas. *)
Definition buildEncoders (cfg : Config) (s : server) (topics1 topics2 schemas : list (Kind * string))
    : res (gmap Kind Encoder) * server :=
  if DryRun cfg then (dry_run_encoders schemas ∅, s)
  else
    let reg := Registry.New (SchemaRegistryURL cfg) in
    let s1 := set_compat_all reg s topics1 in
    let '(r, _, s2, _) := RegisterSchemas reg s1 topics2 (list_to_map schemas) in
    (wrap_err "registering schemas" r, s2).
End schemas.

(** ** Sources *)

(** The values of the interface [venue.Decoder] the command builds. *)
Inductive source :=
  | SCoinbase (c : Coinbase)
  | SKraken (k : Kraken)
  | SBinance (b : Binance)
  | SEVM (e : EVM).

Inductive source_frame :=
  | FCoinbase (f : coinbaseSubscribe)
  | FKraken (f : krakenSubscribe)
  | FEVM (f : Evm.rpcRequest).

Section sources.
Context `{UnicodeMap}.

Definition source_name (d : source) : string :=
  match d with
  | SCoinbase c => dec_Name c | SKraken k => dec_Name k | SBinance b => dec_Name b | SEVM e => dec_Name e
  end.
Definition source_url (d : source) : string :=
  match d with
  | SCoinbase c => dec_URL c | SKraken k => dec_URL k | SBinance b => dec_URL b | SEVM e => dec_URL e
  end.
Definition source_subscriptions (d : source) (syms : list string) : list source_frame * source :=
  match d with
  | SCoinbase c => let '(fs, c') := dec_Subscriptions c syms in (map FCoinbase fs, SCoinbase c')
  | SKraken k => let '(fs, k') := dec_Subscriptions k syms in (map FKraken fs, SKraken k')
  | SBinance b => let '(fs, b') := dec_Subscriptions b syms in ([], SBinance b')
  | SEVM e => let '(fs, e') := dec_Subscriptions e syms in (map FEVM fs, SEVM e')
  end.
Definition source_decode (d : source) (raw : string) (now : time) : res (list Event) * source :=
  match d with
  | SCoinbase c => let '(r, c') := dec_Decode c raw now in (r, SCoinbase c')
  | SKraken k => let '(r, k') := dec_Decode k raw now in (r, SKraken k')
  | SBinance b => let '(r, b') := dec_Decode b raw now in (r, SBinance b')
  | SEVM e => let '(r, e') := dec_Decode e raw now in (r, SEVM e')
  end.

#[export] Instance source_decoder : Decoder source source_frame := {|
  dec_Name := source_name; dec_URL := source_url; dec_Subscriptions := source_subscriptions;
  dec_Decode := source_decode |}.

(** The switch over the configured venues: the decoders, and for each name the
    index of the decoder its reset hook belongs to. [Validate] admitted only the
    three names; another one is skipped. *)
Definition add_venue (cfg : Config) (acc : list source * gmap string nat) (v : string)
    : list source * gmap string nat :=
  let '(decoders, resetters) := acc in
  if String.eqb v "coinbase" then (decoders ++ [SCoinbase (NewCoinbase (Symbols cfg))], resetters)
  else if String.eqb v "kraken" then
    (decoders ++ [SKraken (NewKraken (Symbols cfg) (KrakenDepth cfg))], resetters)
  else if String.eqb v "binance" then
    (decoders ++ [SBinance (NewBinance (Symbols cfg) (BinanceDepthMS cfg))],
     <[VenueBinance := length decoders]> resetters)
  else acc.

(** [order] is the order in which [NewEVM] meets the default tokens. *)
Definition buildDecoders (cfg : Config) (order : list string) : list source * gmap string nat :=
  let '(decoders, resetters) := fold_left (add_venue cfg) (Venues cfg) ([], ∅) in
  (if OnchainEnabled cfg
   then decoders ++ [SEVM (NewEVM (OnchainChain cfg) (OnchainWSURL cfg) None [] order)]
   else decoders, resetters).

(** What [OnConnect] does to decoder [i]: the hook of its name, if it is its own. *)
Definition reset_source (resetters : gmap string nat) (i : nat) (name : string) (d : source) : source :=
  match resetters !! name with
  | Some j => if (i =? j)%nat then match d with SBinance b => SBinance (ResetBooks b) | d => d end else d
  | None => d
  end.

Definition source_runner (cfg : Config) (resetters : gmap string nat) (i : nat) : Runner source :=
  mkRunner (Symbols cfg) DefaultBackoff (45 * second) (Some (reset_source resetters i)) 0.
End sources.

(** ** The pipeline *)

Definition build_pipeline `{AvroLib} (cfg : Config) (encoders : gmap Kind Encoder) : Pipeline :=
  mkPipeline encoders (list_to_map (topics_of cfg)) (BatchSize cfg) (FlushInterval cfg)
    (Some (fun _ key det => Gap.Reset det key)) false 0
    (<[OnchainChain cfg := true]> (<[VenueCoinbase := true]> ∅)).

(** Kafka, or memory in a dry run. *)
Definition buildProducer `{KafkaLib} (cfg : Config) : MemoryProducer + KafkaProducer :=
  if DryRun cfg then inl NewMemoryProducer
  else
    let kcfg := DefaultConfig (KafkaBrokers cfg) in
    inr (NewKafkaProducer
           (mkWriterConfig (wc_Brokers kcfg) (wc_RequiredAcks kcfg) (BatchSize cfg)
              (wc_BatchBytes kcfg) (FlushInterval cfg) (wc_Compression kcfg) (wc_Async kcfg))).

(** ** Startup *)

(** What [run] has built when it starts its goroutines. *)
Record wiring `{AvroLib, KafkaLib} := mkWiring {
  w_cfg : Config;
  w_tracer : TracerProvider;
  w_detector : Detector;
  w_producer : MemoryProducer + KafkaProducer;
  w_decoders : list source;
  w_resetters : gmap string nat;
  w_pipeline : Pipeline }.

(** [run] up to its first goroutine: [visit1] to [visit3] order the entries of the
    maps it iterates ([topics] twice, [Current]), [tokens] those of the default
    tokens. Errors end the program before anything is published. *)
Definition startup `{AvroLib, KafkaLib, RegistryServer, UnicodeMap, OtelSDK}
    (visit1 visit2 visit3 : list (Kind * string) -> list (Kind * string)) (tokens : list string)
    (version : string) (e : env) (s : server) : res wiring * server :=
  match Load e with
  | Err err => (Err err, s)
  | Panic => (Panic, s)
  | Ok cfg =>
      match wrap_err "initialising tracing"
              (Init (mkTracingConfig (OTLPEndpoint cfg) (TraceSampleRatio cfg) version)) with
      | Err err => (Err err, s)
      | Panic => (Panic, s)
      | Ok tracer =>
          let topics := topics_of cfg in
          let '(encoders, s1) :=
            buildEncoders cfg s (visit1 topics) (visit2 topics) (visit3 Current) in
          (encoders ← encoders;
           let producer := buildProducer cfg in
           let '(decoders, resetters) := buildDecoders cfg tokens in
           if is_empty decoders then Err (EMsg "no ingestion sources configured")
           else Ok (mkWiring _ _ cfg tracer Gap.New producer decoders resetters
                      (build_pipeline cfg encoders)), s1)
      end
  end.

(** ** The running system *)

(** The channel, and the pipeline's state with the detector that the runners'
    [OnConnect] shares with it. *)
Record sys (P : Type) := mkSys { sy_queue : list Event; sy_state : state P }.
Arguments mkSys {P} _ _.
Arguments sy_queue {P} _.
Arguments sy_state {P} _.

Definition with_det {P} (st : state P) (d : Detector) : state P :=
  mkState d (s_prod st) (s_batch st) (s_stats st) (s_metrics st).

Inductive action :=
  | ASend (ev : Event)
  | AConnect (venue : string)
  | AReceive
  | ATick.

(** A send blocks while the channel is full, a receive while it is empty; the
    detector and the channel are the only things the goroutines share. *)
Inductive sys_step `{AvroLib, Otel} {P} `{Producer P} (p : Pipeline) (ctx : context) (cap : nat)
    : sys P -> action -> sys P -> Prop :=
  | step_send q st ev :
      (length q < cap)%nat -> sys_step p ctx cap (mkSys q st) (ASend ev) (mkSys (q ++ [ev]) st)
  | step_connect q st venue :
      sys_step p ctx cap (mkSys q st) (AConnect venue)
        (mkSys q (with_det st (Gap.ResetVenue (s_det st) venue)))
  | step_receive ev q st st' :
      on_event p ctx ev st = Ok st' ->
      sys_step p ctx cap (mkSys (ev :: q) st) AReceive (mkSys q st')
  | step_tick q st :
      sys_step p ctx cap (mkSys q st) ATick (mkSys q (flush p st)).

(** Executions whose sent events satisfy [good]. *)
Inductive sys_run `{AvroLib, Otel} {P} `{Producer P} (p : Pipeline) (ctx : context) (cap : nat)
    (good : Event -> Prop) : sys P -> list action -> sys P -> Prop :=
  | run_nil s : sys_run p ctx cap good s [] s
  | run_step s a s1 acts s2 :
      sys_step p ctx cap s a s1 -> (forall ev, a = ASend ev -> good ev) ->
      sys_run p ctx cap good s1 acts s2 -> sys_run p ctx cap good s (a :: acts) s2.

(** What the runners of the sources may send: the events of any run of any of them. *)
Definition sent_by `{UnicodeMap} (cfg : Config) (built : list source * gmap string nat) (ev : Event) : Prop :=
  exists i d script, built.1 !! i = Some d
    /\ ev ∈ events_of (Run (source_runner cfg built.2 i) d script).1.1.

(** ** Lemmas *)

#[export] Instance source_lawful `{UnicodeMap} : LawfulDecoder source source_frame.
Proof.
  split.
  - intros d raw now. destruct d as [c|k|b|e]; cbn.
    + exact (decode_no_panic c raw now).
    + exact (decode_no_panic k raw now).
    + pose proof (decode_no_panic b raw now) as Hn. cbn in Hn. by destruct (Binance.Decode b raw now).
    + pose proof (decode_no_panic e raw now) as Hn. cbn in Hn. by destruct (Evm.Decode e raw now).
  - intros d raw now evs. destruct d as [c|k|b|e]; cbn.
    + exact (decode_events_ok c raw now evs).
    + exact (decode_events_ok k raw now evs).
    + pose proof (decode_events_ok b raw now evs) as Hn. cbn in Hn. by destruct (Binance.Decode b raw now).
    + pose proof (decode_events_ok e raw now evs) as Hn. cbn in Hn. by destruct (Evm.Decode e raw now).
  - intros d raw now. destruct d as [c|k|b|e]; cbn; [done|done| |].
    + by destruct (Binance.Decode b raw now).
    + pose proof (decode_name e raw now) as Hn. cbn in Hn. by destruct (Evm.Decode e raw now).
  - intros d syms. by destruct d.
Qed.

Lemma sends_only (good : Event -> Prop) ev :
  good ev -> forall ev', ASend ev = ASend ev' -> good ev'.
Proof. by intros Hg ev' [= <-]. Qed.

Lemma reset_source_name `{UnicodeMap} resetters i name d :
  dec_Name (reset_source resetters i name d) = dec_Name d.
Proof. unfold reset_source. destruct (_ !! _); [|done]. destruct (_ =? _)%nat; [|done]. by destruct d. Qed.

Lemma sent_by_wf `{UnicodeMap} cfg built ev : sent_by cfg built ev -> event_wf ev.
Proof.
  intros (i & d & script & _ & Hev). unfold Run in Hev.
  assert (events_ok (dec_Name d)
            (events_of (run_loop (runner_defaults (source_runner cfg built.2 i)) d 0 script).1.1)) as Hok.
  { apply run_loop_events_ok. intros f v d' [= <-]. apply reset_source_name. }
  unfold events_ok in Hok. rewrite Forall_forall in Hok. by apply Hok.
Qed.

Section system.
Context `{AvroLib, Otel} {P : Type} `{Producer P}.
Context (p : Pipeline) (ctx : context) (cap : nat).

Lemma sys_run_inv (good : Event -> Prop) s acts s' :
  sys_run p ctx cap good s acts s' ->
  (length (sy_queue s) <= cap)%nat -> Forall good (sy_queue s) ->
  (length (sy_queue s') <= cap)%nat /\ Forall good (sy_queue s').
Proof.
  induction 1 as [s|s a s1 acts s2 Hstep Hgood Hrun IH]; intros Hl Hf; [done|].
  assert ((length (sy_queue s1) <= cap)%nat /\ Forall good (sy_queue s1)) as [Hl1 Hf1]; [|auto].
  destruct Hstep as [q st ev Hq|q st venue|ev q st st' Hev|q st]; cbn in *; [|done| |done].
  - rewrite length_app. cbn. split; [lia|]. apply Forall_app. split; [done|].
    repeat constructor. by apply Hgood.
  - apply Forall_cons_1 in Hf as [_ Hf]. split; [lia|done].
Qed.
End system.

(** The verdicts the pipeline acts on. *)
Lemma check_first `{AvroLib} (p : Pipeline) det s ev :
  Last det (sequenceKey p ev) = None -> 0 <= ev_Sequence ev ->
  checkSequence p det s ev = (false, set_last det (sequenceKey p ev) (ev_Sequence ev), s, []).
Proof.
  intros Hl Hs. unfold checkSequence, Observe. change (d_last det !! _) with (Last det (sequenceKey p ev)).
  rewrite Hl. destruct (Z.ltb_spec (ev_Sequence ev) 0); [lia|]. done.
Qed.

Lemma check_duplicate `{AvroLib} (p : Pipeline) det s ev last :
  Last det (sequenceKey p ev) = Some last -> 0 <= ev_Sequence ev <= last -> last < MaxInt64 ->
  last - ev_Sequence ev <= d_regressionTolerance det ->
  (checkSequence p det s ev).1 = (true, det, count_duplicate s).
Proof.
  intros Hl Hs Hm Ht. unfold checkSequence, Observe.
  change (d_last det !! _) with (Last det (sequenceKey p ev)). rewrite Hl.
  rewrite !wrap64_id by int_lia. split_cmp; (done || lia).
Qed.

Lemma check_gap `{AvroLib} (p : Pipeline) det s ev last f :
  p_OnResync p = Some f ->
  Last det (sequenceKey p ev) = Some last -> 0 <= last -> last + 1 < ev_Sequence ev < MaxInt64 ->
  (checkSequence p det s ev).1
  = (p_DropOnGap p,
     f (ev_Venue ev) (sequenceKey p ev) (set_last det (sequenceKey p ev) (ev_Sequence ev)),
     count_gap (ev_Sequence ev - last - 1) s).
Proof.
  intros Hf Hl H0 Hs. unfold checkSequence, Observe.
  change (d_last det !! _) with (Last det (sequenceKey p ev)). rewrite Hl.
  rewrite !wrap64_id by int_lia. split_cmp; try lia;
    cbn; rewrite Hf; by replace (ev_Sequence ev - (last + 1)) with (ev_Sequence ev - last - 1) by lia.
Qed.

Lemma sequenceKey_venue `{AvroLib} (p : Pipeline) ev : k_Venue (sequenceKey p ev) = ev_Venue ev.
Proof. unfold sequenceKey. by destruct (default _ _). Qed.

(** ** Lemmas on the sources *)

Lemma add_venues_spec `{UnicodeMap} cfg vs decoders resetters :
  Forall (fun v => v = "coinbase" \/ v = "kraken" \/ v = "binance") vs ->
  let '(ds, rs) := fold_left (add_venue cfg) vs (decoders, resetters) in
  map dec_Name ds = map dec_Name decoders ++ vs
  /\ (NoDup (map dec_Name decoders ++ vs) ->
      (forall i b, decoders !! i = Some (SBinance b) -> resetters !! VenueBinance = Some i) ->
      forall i b, ds !! i = Some (SBinance b) -> rs !! VenueBinance = Some i).
Proof.
  intros Hvs. revert decoders resetters. induction Hvs as [|v vs Hv Hvs IH]; intros decoders resetters.
  { cbn. rewrite app_nil_r. split; [done|auto]. }
  cbn [fold_left]. set (acc := add_venue cfg (decoders, resetters) v).
  assert (exists d, acc.1 = decoders ++ [d] /\ dec_Name d = v
    /\ (NoDup (map dec_Name decoders ++ v :: vs) ->
        (forall i b, decoders !! i = Some (SBinance b) -> resetters !! VenueBinance = Some i) ->
        forall i b, acc.1 !! i = Some (SBinance b) -> acc.2 !! VenueBinance = Some i)) as (d & Hd & Hn & Hacc).
  { subst acc. destruct Hv as [-> | [-> | ->]]; cbn [add_venue];
      [change (String.eqb "coinbase" "coinbase") with true
      |change (String.eqb "kraken" "coinbase") with false; change (String.eqb "kraken" "kraken") with true
      |change (String.eqb "binance" "coinbase") with false; change (String.eqb "binance" "kraken") with false;
       change (String.eqb "binance" "binance") with true]; cbn [fst snd];
      (eexists; split; [reflexivity|]; split; [reflexivity|]); intros Hnd Hr i b Hi.
    1,2: apply lookup_app_Some in Hi as [Hi|[_ Hi]]; [by apply (Hr _ b)|];
      apply list_lookup_singleton_Some in Hi as [_ Hi]; discriminate Hi.
    apply lookup_app_Some in Hi as [Hi|[Hle Hi]].
    - exfalso. apply NoDup_app in Hnd as (_ & Hnd & _). apply (Hnd "binance"); [|left].
      apply list_elem_of_lookup. exists i. by rewrite list_lookup_fmap, Hi.
    - apply list_lookup_singleton_Some in Hi as [Hi _]. rewrite lookup_insert_eq. f_equal. lia. }
  destruct acc as [ds1 rs1]. cbn [fst snd] in *. subst ds1. specialize (IH (decoders ++ [d]) rs1).
  destruct (fold_left (add_venue cfg) vs _) as [ds rs]. destruct IH as [IHn IHr].
  rewrite map_app in IHn, IHr. cbn [map] in IHn, IHr. rewrite Hn, <- (assoc_L (++)) in IHn, IHr.
  split; [done|]. intros Hnd Hr. apply IHr; [done|]. by apply Hacc.
Qed.

Section registration.
Context `{AvroLib} `{RegistryServer}.

(** What a kind that was registered has: the registry's id for its schema under the
    topic's subject, and the encoder of the two. *)
Definition registered (c : Client) (schemasByKind : gmap Kind string) (kind : Kind) (topic : string)
    (enc : Encoder) : Prop :=
  exists schemaJSON id, schemasByKind !! kind = Some schemaJSON
    /\ idByKey c !! cacheKey (SubjectForTopic topic) schemaJSON = Some id
    /\ NewEncoder id schemaJSON = Ok enc.

Lemma registered_grows c c' schemasByKind kind topic enc :
  grows c c' -> registered c schemasByKind kind topic enc -> registered c' schemasByKind kind topic enc.
Proof. intros [Hg _] (j & id & Hj & Hk & He). exists j, id. auto. Qed.

Lemma register_kind_spec c s schemasByKind kind topic :
  cache_wf c ->
  let '(r, c1, s1, ms) := register_kind c s schemasByKind kind topic in
  cache_wf c1 /\ grows c c1
  /\ (forall enc, r = Ok enc -> registered c1 schemasByKind kind topic enc
        /\ counter_total SchemaRegistrations ms = 1).
Proof.
  intros Hwf. unfold register_kind. destruct (schemasByKind !! kind) as [j|] eqn:Hj; [|done].
  destruct (CheckCompatibility _ _ _ _) as [ok s1].
  destruct (match ok with Ok _ => _ | Err _ => _ | Panic => _ end); [|done..].
  pose proof (Register_cache c s1 (SubjectForTopic topic) j Hwf) as Hr.
  destruct (Register _ _ _ _) as [[id c1] s2]. destruct Hr as (Hwf1 & Hg & Hk).
  destruct id as [id|e|]; [|done..]. split; [done|]. split; [done|].
  intros enc He%wrap_err_Ok. split; [|done]. exists j, id. auto.
Qed.

Lemma register_loop_spec c s schemasByKind topics encoders :
  cache_wf c -> NoDup topics.*1 ->
  let '(r, c', s', ms) := register_loop c s schemasByKind topics encoders in
  cache_wf c' /\ grows c c'
  /\ (forall encs, r = Ok encs ->
        counter_total SchemaRegistrations ms = Z.of_nat (length topics)
        /\ (forall kind, kind ∉ topics.*1 -> encs !! kind = encoders !! kind)
        /\ (forall kind topic, (kind, topic) ∈ topics ->
              exists enc, encs !! kind = Some enc /\ registered c' schemasByKind kind topic enc)).
Proof.
  revert c s encoders. induction topics as [|[kind topic] topics IH]; intros c s encoders Hwf Hnd.
  { cbn. split; [done|]. split; [done|]. intros encs [= <-]. split; [done|]. split; [done|].
    intros k t Hin. by apply not_elem_of_nil in Hin. }
  cbn [fmap list_fmap fst] in Hnd. apply NoDup_cons in Hnd as [Hni Hnd]. cbn [register_loop].
  pose proof (register_kind_spec c s schemasByKind kind topic Hwf) as Hk.
  destruct (register_kind _ _ _ _ _) as [[[r c1] s1] ms]. destruct Hk as (Hwf1 & Hg1 & Hr1).
  destruct r as [enc|e|]; [|done..]. destruct (Hr1 enc eq_refl) as [Hreg Hm].
  specialize (IH c1 s1 (<[kind := enc]> encoders) Hwf1 Hnd).
  destruct (register_loop c1 s1 schemasByKind topics _) as [[[r c2] s2] ms'].
  destruct IH as (Hwf2 & [Hg2 Hs2] & Hr2). split; [done|]. destruct Hg1 as [Hg1 Hs1].
  split; [split; auto|]. intros encs ->. destruct (Hr2 encs eq_refl) as (Hm' & Hout & Hin).
  rewrite counter_total_app, Hm, Hm'. split; [cbn [length]; lia|]. split.
  - intros k Hnk. cbn [fmap list_fmap fst] in Hnk. rewrite not_elem_of_cons in Hnk.
    rewrite Hout by tauto. apply lookup_insert_ne. intros <-. tauto.
  - intros k t Hkt. apply elem_of_cons in Hkt as [[= -> ->]|Hkt]; [|by apply Hin].
    exists enc. rewrite Hout, lookup_insert_eq by done. split; [done|].
    apply (registered_grows c1 c2); [by split|done].
Qed.

Lemma dry_run_encoders_spec schemas encoders encs :
  NoDup schemas.*1 -> dry_run_encoders schemas encoders = Ok encs ->
  (forall kind, kind ∉ schemas.*1 -> encs !! kind = encoders !! kind)
  /\ (forall kind schemaJSON, (kind, schemaJSON) ∈ schemas ->
        exists enc, encs !! kind = Some enc /\ NewEncoder 0 schemaJSON = Ok enc).
Proof.
  revert encoders. induction schemas as [|[k j] schemas IH]; intros encoders Hnd; cbn [dry_run_encoders].
  { intros [= <-]. split; [done|]. intros kind j Hin. by apply not_elem_of_nil in Hin. }
  intros (enc & Henc%wrap_err_Ok & Hrest)%bind_Ok. cbn [fmap list_fmap fst] in *.
  apply NoDup_cons in Hnd as [Hni Hnd]. destruct (IH _ Hnd Hrest) as [Hout Hin]. split.
  - intros kind Hk. rewrite not_elem_of_cons in Hk. rewrite Hout by tauto.
    apply lookup_insert_ne. intros <-. tauto.
  - intros kind j' Hkj. apply elem_of_cons in Hkj as [[= -> ->]|Hkj]; [|by apply Hin].
    exists enc. by rewrite Hout, lookup_insert_eq.
Qed.
End registration.

(** The orders in which the maps are visited are orders of their entries. *)
Lemma visit_spec {A} (visit : list (Kind * A) -> list (Kind * A)) l :
  visit l ≡ₚ l -> NoDup l.*1 ->
  NoDup (visit l).*1 /\ list_to_map (M := gmap Kind A) (visit l) = list_to_map l
  /\ (forall k a, (k, a) ∈ visit l <-> (k, a) ∈ l).
Proof.
  intros Hp Hnd. assert (NoDup (visit l).*1) as Hnd' by (by rewrite Hp).
  split; [done|]. split; [by apply list_to_map_proper|]. intros k a. by rewrite Hp.
Qed.

Lemma topics_of_NoDup cfg : NoDup (topics_of cfg).*1.
Proof. apply (bool_decide_eq_true_1 _). vm_compute. reflexivity. Qed.
Lemma Current_NoDup : NoDup Current.*1.
Proof. apply (bool_decide_eq_true_1 _). vm_compute. reflexivity. Qed.

(** The kinds of the events have a schema and a topic. *)
Lemma event_wf_kind ev : event_wf ev -> ev_Kind ev ∈ [KindTrade; KindBookDelta; KindChainTransfer].
Proof.
  unfold event_wf. destruct (ev_Trade ev), (ev_Book ev), (ev_Chain ev); try done;
    intros (-> & _); rewrite !elem_of_cons; auto.
Qed.

Lemma kind_configured `{AvroLib} cfg kind :
  kind ∈ [KindTrade; KindBookDelta; KindChainTransfer] ->
  exists topic schemaJSON, (kind, topic) ∈ topics_of cfg
    /\ list_to_map (M := gmap Kind string) (topics_of cfg) !! kind = Some topic
    /\ (kind, schemaJSON) ∈ Current.
Proof.
  intros Hk. unfold topics_of, Current. rewrite !elem_of_cons in Hk.
  destruct Hk as [->|[->|[->|Hk%elem_of_nil]]]; [..|done]; do 2 eexists;
    (split; [rewrite !elem_of_cons; eauto|]); (split; [reflexivity|rewrite !elem_of_cons; eauto]).
Qed.

(** The encoders of a successful [buildEncoders], in every order of its iterations. *)
Lemma buildEncoders_spec `{AvroLib, RegistryServer} cfg s topics1 topics2 schemas :
  topics2 ≡ₚ topics_of cfg -> schemas ≡ₚ Current ->
  let '(r, s') := buildEncoders cfg s topics1 topics2 schemas in
  forall encs, r = Ok encs ->
    forall kind topic schemaJSON, (kind, topic) ∈ topics_of cfg -> (kind, schemaJSON) ∈ Current ->
      exists enc id, encs !! kind = Some enc /\ NewEncoder id schemaJSON = Ok enc
        /\ (DryRun cfg = true -> id = 0).
Proof.
  intros Ht Hs. unfold buildEncoders.
  destruct (visit_spec (fun _ => topics2) (topics_of cfg) Ht (topics_of_NoDup cfg)) as (Hnt & _ & Hint).
  destruct (visit_spec (fun _ => schemas) Current Hs Current_NoDup) as (Hns & Hmap & Hins).
  destruct (DryRun cfg).
  - intros encs Hr kind topic j _ Hj. destruct (dry_run_encoders_spec _ _ _ Hns Hr) as [_ Hin].
    destruct (Hin kind j) as (enc & He & Hn); [by apply Hins|]. by exists enc, 0.
  - set (reg := Registry.New _). set (s1 := set_compat_all _ _ _). unfold RegisterSchemas.
    pose proof (register_loop_spec reg s1 (list_to_map schemas) topics2 ∅ (New_wf _) Hnt) as Hl.
    destruct (register_loop _ _ _ _ _) as [[[r c] s2] ms]. destruct Hl as (_ & _ & Hl).
    intros encs Hr%wrap_err_Ok kind topic j Hkt Hkj. destruct (Hl encs Hr) as (_ & _ & Hin).
    destruct (Hin kind topic) as (enc & He & j' & id & Hj' & _ & Hn); [by apply Hint|].
    apply (elem_of_list_to_map_1 _ _ _ Current_NoDup) in Hkj. rewrite Hmap, Hkj in Hj'.
    injection Hj' as <-. by exists enc, id.
Qed.

(** ** Properties *)

(** Startup registers everything or nothing starts: if [RegisterSchemas]
    returns encoders, every topic's kind has one, for no kind without a topic is
    there one, each frames with the id the registry gave for that kind's schema
    under the topic's subject and encodes with that very schema, in whatever
    order the topics are visited. *)
Theorem register_schemas_complete `{AvroLib} `{RegistryServer} url s topics schemasByKind :
  NoDup topics.*1 ->
  let '(r, c, s', ms) := RegisterSchemas (Registry.New url) s topics schemasByKind in
  forall encs, r = Ok encs ->
    counter_total SchemaRegistrations ms = Z.of_nat (length topics)
    /\ (forall kind, is_Some (encs !! kind) <-> kind ∈ topics.*1)
    /\ (forall kind topic, (kind, topic) ∈ topics ->
          exists enc, encs !! kind = Some enc /\ registered c schemasByKind kind topic enc).
Proof.
  intros Hnd. unfold RegisterSchemas.
  pose proof (register_loop_spec (Registry.New url) s schemasByKind topics ∅ (New_wf url) Hnd) as Hl.
  destruct (register_loop _ _ _ _ _) as [[[r c] s'] ms]. destruct Hl as (_ & _ & Hl).
  intros encs ->. destruct (Hl encs eq_refl) as (Hm & Hout & Hin). split; [done|]. split; [|done].
  intros kind. split.
  - intros Hs. destruct (decide (kind ∈ topics.*1)) as [|Hni]; [done|].
    rewrite Hout in Hs by done. rewrite lookup_empty in Hs. by destruct Hs.
  - intros [[k t] [-> Hkt]]%list_elem_of_fmap. destruct (Hin k t Hkt) as (enc & He & _). by exists enc.
Qed.

#[local] Existing Instance toy_avro.
#[local] Existing Instance no_otel.
#[local] Existing Instance unicode_id.

Definition example_topics : list (Kind * string) := [(KindBookDelta, "md.book.v1"); (KindTrade, "md.trades.v1")].
Definition example_schemas : gmap Kind string := {[KindTrade := "trade"; KindBookDelta := "book"]}.
(** A registry that finds every schema compatible and hands out ids. *)
Definition id_registry : RegistryServer := {|
  server := Z;
  serve := fun n rq =>
    if Contains (rq_URL rq) "c"%char && HasSuffix (rq_URL rq) "latest"
    then (inr (mkResponse 200 (dq "{'is_compatible':true}")), n)
    else (inr (mkResponse 200 (dq "{'id':" +:+ FormatInt n +:+ "}")), n + 1) |}.
Definition registration_example : res (gmap Kind Encoder) * Client * Z * list metric :=
  @RegisterSchemas toy_avro id_registry (Registry.New "http://r") 7 example_topics example_schemas.

Lemma register_schemas_complete_witness :
  exists encs, registration_example.1.1.1 = Ok encs
    /\ forall kind topic, (kind, topic) ∈ example_topics ->
         exists enc, encs !! kind = Some enc
           /\ registered registration_example.1.1.2 example_schemas kind topic enc.
Proof.
  destruct registration_example.1.1.1 as [encs|e|] eqn:E; [|discriminate E..].
  exists encs. split; [reflexivity|].
  refine (proj2 (proj2 (@register_schemas_complete toy_avro id_registry "http://r" 7 example_topics
                          example_schemas _ encs E))).
  apply (bool_decide_eq_true_1 _). vm_compute. reflexivity.
Defined.

(** C32. If [ingestd] starts, its configuration is valid, it has a source, it
    publishes to memory exactly in a dry run, and its pipeline frames every
    well-formed event of every kind with the embedded schema and the topic of its
    kind, unless the Avro library refuses the record: no event is lost to a
    missing encoder or topic. *)
Theorem startup_ready `{AvroLib, KafkaLib, RegistryServer, UnicodeMap, OtelSDK, Otel}
    visit1 visit2 visit3 tokens version e s w s' :
  (forall l, visit2 l ≡ₚ l) -> (forall l, visit3 l ≡ₚ l) ->
  startup visit1 visit2 visit3 tokens version e s = (Ok w, s') ->
  config_ok (w_cfg w) /\ w_decoders w <> []
  /\ (w_producer w = inl NewMemoryProducer <-> DryRun (w_cfg w) = true)
  /\ forall ctx ev, event_wf ev ->
       exists schemaJSON topic sch id,
         (ev_Kind ev, schemaJSON) ∈ Current /\ (ev_Kind ev, topic) ∈ topics_of (w_cfg w)
         /\ avro_Parse schemaJSON = Ok sch
         /\ match avro_Marshal sch (Payload ev) with
            | Ok body =>
                exists m ms, frame (w_pipeline w) ctx ev = Ok (m, ms) /\ m_Topic m = topic
                  /\ m_Key m = ev_Symbol ev
                  /\ m_Value m = MagicByte :: PutUint32 (uwrap32 id) ++ body
            | Err err => frame (w_pipeline w) ctx ev = Err (EWrap "avro marshal" err)
            | Panic => frame (w_pipeline w) ctx ev = Panic
            end.
Proof.
  intros Hv2 Hv3. unfold startup. destruct (Load e) as [cfg|err|] eqn:Hload; [|done..].
  destruct (wrap_err _ (Init _)) as [tracer|err|]; [|done..].
  pose proof (buildEncoders_spec cfg s (visit1 (topics_of cfg)) (visit2 (topics_of cfg))
                (visit3 Current) (Hv2 _) (Hv3 _)) as Hb.
  destruct (buildEncoders _ _ _ _ _) as [encoders s1]. destruct (buildDecoders cfg tokens) as [ds rs].
  intros [= Hw _]. apply bind_Ok in Hw as (encs & -> & Hw).
  destruct (is_empty ds) eqn:Hds; [done|]. injection Hw as <-. cbn [w_cfg w_decoders w_producer w_pipeline].
  split; [by eapply Load_ok|]. split; [by apply is_empty_false|]. split.
  { unfold buildProducer. by destruct (DryRun cfg). }
  intros ctx ev Hwf.
  destruct (kind_configured cfg (ev_Kind ev) (event_wf_kind ev Hwf)) as (topic & j & Ht & Hl & Hj).
  destruct (Hb encs eq_refl (ev_Kind ev) topic j Ht Hj) as (enc & id & He & Hn & _).
  destruct (frame_encoder (build_pipeline cfg encs) ctx ev id j enc topic Hwf Hn He Hl) as (sch & Hs & Hf).
  by exists j, topic, sch, id.
Qed.

(** A dry run from an environment that only asks for one. *)
Definition dry_env : env := {["TAPELINE_DRY_RUN" := "true"]}.
Definition toy_sdk : OtelSDK := {| otlp_New _ := None; resource_Merge _ _ := None |}.
Definition toy_kafka : KafkaLib := {|
  kafka_Writer := unit; new_Writer _ := tt; WriteMessages w _ := (w, None, f64_zero);
  Writer_Close w := (w, None) |}.
Definition dry_startup : res (@wiring toy_avro toy_kafka) * Z :=
  @startup toy_avro toy_kafka id_registry unicode_id toy_sdk id (@rev _) id [] "dev" dry_env 7.

Lemma startup_ready_witness :
  exists w, dry_startup.1 = Ok w /\ config_ok (w_cfg w) /\ w_decoders w <> [].
Proof.
  assert (is_ok dry_startup.1 = true) as Hok by (vm_compute; reflexivity).
  destruct dry_startup as [r s'] eqn:E. destruct r as [w|err|]; [|discriminate Hok..].
  exists w. split; [reflexivity|].
  destruct (@startup_ready toy_avro toy_kafka id_registry unicode_id toy_sdk no_otel
              id (@rev _) id [] "dev" dry_env 7 w s'
              (fun l => Permutation_sym (Permutation_rev l)) (fun l => Permutation_refl l) E)
    as (Hc & Hd & _). split; [exact Hc|exact Hd].
Defined.

(** The sources: a configuration that [Validate] accepts always has a source
    (the check after [buildDecoders] cannot fail), one per configured venue, in
    order, and the chain; and if no venue is listed twice, the [OnConnect] of the
    Binance adapter resets the books of that adapter. *)
Theorem sources_configured `{UnicodeMap} cfg order :
  config_ok cfg ->
  let '(decoders, resetters) := buildDecoders cfg order in
  decoders <> []
  /\ map dec_Name decoders = Venues cfg ++ (if OnchainEnabled cfg then [OnchainChain cfg] else [])
  /\ (NoDup (Venues cfg) -> forall i b,
        decoders !! i = Some (SBinance b) ->
        reset_source resetters i VenueBinance (SBinance b) = SBinance (ResetBooks b)).
Proof.
  intros Hok. unfold buildDecoders.
  pose proof (add_venues_spec cfg (Venues cfg) [] ∅ (ok_venues cfg Hok)) as Hv.
  destruct (fold_left _ _ _) as [ds rs]. cbn [map app] in Hv. destruct Hv as [Hn Hr].
  assert (NoDup (Venues cfg) -> forall i b, ds !! i = Some (SBinance b) -> rs !! VenueBinance = Some i)
    as Hi by (intros Hnd; apply Hr; [done|]; intros i b Hi; by rewrite lookup_nil in Hi).
  pose proof (ok_sources cfg Hok) as Hsrc. destruct (OnchainEnabled cfg).
  - split; [by destruct ds|]. split; [rewrite map_app, Hn; done|].
    intros Hnd i b Hb. apply lookup_app_Some in Hb as [Hb|[_ Hb]].
    + unfold reset_source. by rewrite (Hi Hnd i b Hb), Nat.eqb_refl.
    + apply list_lookup_singleton_Some in Hb as [_ Hb]. discriminate Hb.
  - rewrite app_nil_r. split; [|split; [done|]].
    + intros ->. cbn in Hn. destruct Hsrc as [Hsrc|[=]]. by rewrite <- Hn in Hsrc.
    + intros Hnd i b Hb. unfold reset_source. by rewrite (Hi Hnd i b Hb), Nat.eqb_refl.
Qed.

Lemma defaults_ok : config_ok Defaults.
Proof. apply Validate_iff. vm_compute. reflexivity. Qed.

Lemma sources_configured_witness :
  map dec_Name (buildDecoders Defaults []).1 = ["coinbase"; "kraken"; "binance"].
Proof. exact (proj1 (proj2 (sources_configured Defaults [] defaults_ok))). Defined.

Lemma last_binance_hook `{UnicodeMap} cfg vs : forall ds rs,
  Forall (fun v => v = "coinbase" \/ v = "kraken" \/ v = "binance") vs -> "binance" ∉ vs ->
  (fold_left (add_venue cfg) vs (ds, rs)).2 = rs.
Proof.
  induction vs as [|v vs IH]; intros ds rs Hv Hn; [done|]. apply Forall_cons_1 in Hv as [Hv Hvs].
  apply not_elem_of_cons in Hn as [Hne Hn]. cbn [fold_left].
  destruct Hv as [-> | [-> | ->]]; [| |done]; cbn [add_venue];
    [change (String.eqb "coinbase" "coinbase") with true
    |change (String.eqb "kraken" "coinbase") with false; change (String.eqb "kraken" "kraken") with true];
    cbv iota; by apply IH.
Qed.

(** With [binance] listed twice the one hook is the last adapter's: the [OnConnect] of
    an earlier one finds a hook that is not its own, and its cursors stay over a
    reconnect. *)
Theorem repeated_venue_shares_hook `{UnicodeMap} cfg order vs ws :
  config_ok cfg -> Venues cfg = vs ++ "binance" :: ws -> "binance" ∉ ws ->
  let '(decoders, resetters) := buildDecoders cfg order in
  resetters !! VenueBinance = Some (length vs)
  /\ forall i b, (i < length vs)%nat -> reset_source resetters i VenueBinance (SBinance b) = SBinance b.
Proof.
  intros Hok Hvs Hn. pose proof (ok_venues cfg Hok) as Hall. unfold buildDecoders. rewrite Hvs in Hall |- *.
  apply Forall_app in Hall as [Hv Hw]. apply Forall_cons_1 in Hw as [_ Hw]. rewrite fold_left_app.
  pose proof (add_venues_spec cfg vs [] ∅ Hv) as Hs. destruct (fold_left (add_venue cfg) vs ([], ∅)) as [ds rs].
  destruct Hs as [Hs _]. cbn [map app] in Hs. apply (f_equal length) in Hs. rewrite length_map in Hs.
  cbn [fold_left]. change (add_venue cfg (ds, rs) "binance")
    with (ds ++ [SBinance (NewBinance (Symbols cfg) (BinanceDepthMS cfg))], <[VenueBinance := length ds]> rs).
  pose proof (last_binance_hook cfg ws (ds ++ [SBinance (NewBinance (Symbols cfg) (BinanceDepthMS cfg))])
    (<[VenueBinance := length ds]> rs) Hw Hn) as Hl. destruct (fold_left (add_venue cfg) ws _) as [ds' rs'].
  cbn [snd] in Hl. subst rs'. unfold reset_source. rewrite lookup_insert_eq, Hs. split; [done|].
  intros i b Hi. apply Nat.lt_neq, Nat.eqb_neq in Hi. by rewrite Hi.
Qed.

(** The whole system: the runners of the configured sources, on whatever the
    venues send and however the connections fail, and the pipeline interleave over
    the channel. In every execution the channel never exceeds its capacity, every
    event in it is well formed, and the pipeline is never stuck: it can always
    receive the next event without a panic, however the producer behaves. *)
Theorem system_progress `{UnicodeMap, AvroLib, Otel} {P} `{Producer P} cfg encoders tokens ctx st0 acts s :
  (forall sch v, avro_Marshal sch v <> Panic) ->
  let p := with_defaults (build_pipeline cfg encoders) in
  let cap := Z.to_nat (BufferSize cfg) in
  sys_run p ctx cap (sent_by cfg (buildDecoders cfg tokens)) (mkSys [] st0) acts s ->
  (length (sy_queue s) <= cap)%nat
  /\ Forall event_wf (sy_queue s)
  /\ (sy_queue s <> [] -> exists s', sys_step p ctx cap s AReceive s').
Proof.
  intros Hm p cap Hrun. destruct (sys_run_inv p ctx cap _ _ _ _ Hrun) as [Hl Hf]; [cbn; lia|constructor|].
  apply (List.Forall_impl _ (sent_by_wf cfg _)) in Hf.
  split; [done|]. split; [done|]. destruct s as [[|ev q] st]; [done|]. intros _. cbn in Hf.
  apply Forall_cons_1 in Hf as [Hwf _].
  destruct (on_event_total p ctx ev st Hwf Hm) as [st' Hst].
  eexists. by constructor.
Qed.

Definition example_state : state MemoryProducer := initial None NewMemoryProducer.
Definition small_config : Config :=
  mkConfig ["binance"] ["BTC-USD"] ["localhost:9092"] "http://localhost:8081" "t" "b" "c" ":9101"
    "info" true 2 500 (10 * millisecond) 10 100 false "ethereum" "" "" (f64 "0.01").
(** The first event the Binance runner sends on the script of Runner.v. *)
Definition small_built : list source * gmap string nat := buildDecoders small_config [].
Definition small_source : source := SBinance (NewBinance ["BTC-USD"] 100).
Definition sent_events : list Event :=
  events_of (Run (source_runner small_config small_built.2 0) small_source example_script).1.1.
Definition sent_event : Event := List.hd (mkEvent "" "" "" 0 None None None) sent_events.
Definition small_pipeline : Pipeline := with_defaults (build_pipeline small_config ∅).

Lemma system_progress_witness :
  ev_Sequence sent_event = 7
  /\ exists s', sys_step small_pipeline ex_ctx 2 (mkSys [sent_event] example_state) AReceive s'.
Proof.
  split; [vm_compute; reflexivity|].
  refine (proj2 (proj2 (system_progress small_config ∅ [] ex_ctx example_state [ASend sent_event]
                          (mkSys [sent_event] example_state) _ _)) _).
  - intros sch v. by destruct v as [|[]|[]|[]].
  - eapply run_step; [apply (step_send _ ex_ctx 2 [] example_state sent_event); cbn; lia| |apply run_nil].
    apply sends_only. exists 0%nat, small_source, example_script.
    split; [vm_compute; reflexivity|]. change (sent_event ∈ sent_events).
    apply list_elem_of_lookup. exists 0%nat. vm_compute. reflexivity.
  - discriminate.
Defined.

(** A reconnect races with the events still in the channel: [OnConnect] resets
    the venue at once, then the pipeline receives an event of the old session and
    takes its number as the first of the stream, and an event of the new session
    whose numbers start lower is suppressed as a duplicate: it is counted as one
    and never framed. *)
Theorem reconnect_race `{AvroLib, Otel} {P} `{Producer P} (p : Pipeline) ctx cap old new (st : state P) :
  (forall sch v, avro_Marshal sch v <> Panic) -> event_wf old -> event_wf new -> (1 < cap)%nat ->
  sequenceKey p old = sequenceKey p new ->
  0 <= ev_Sequence new <= ev_Sequence old -> ev_Sequence old < MaxInt64 ->
  ev_Sequence old - ev_Sequence new <= d_regressionTolerance (s_det st) ->
  exists st1 st2,
    sys_run p ctx cap event_wf (mkSys [old] st)
      [AConnect (ev_Venue old); ASend new; AReceive; AReceive] (mkSys [] st2)
    /\ on_event p ctx old (with_det st (Gap.ResetVenue (s_det st) (ev_Venue old))) = Ok st1
    /\ on_event p ctx new st1 = Ok st2
    /\ s_batch st2 = s_batch st1 /\ s_prod st2 = s_prod st1
    /\ st_Duplicates (s_stats st2) = st_Duplicates (s_stats st1) + 1.
Proof.
  intros Hm Hwo Hwn Hcap Hkey Hseq Hmax Htol.
  set (st0 := with_det st (Gap.ResetVenue (s_det st) (ev_Venue old))).
  assert (Last (s_det st0) (sequenceKey p old) = None) as Hnone.
  { cbn [s_det st0 with_det]. rewrite Last_ResetVenue, sequenceKey_venue. by rewrite decide_True. }
  pose proof (check_first p (s_det st0) zero_stats old Hnone ltac:(lia)) as Hfirst.
  destruct (on_event_total p ctx old st0 Hwo Hm) as [st1 E1].
  pose proof (on_event_det p ctx old st0 st1 E1) as Hdet. unfold next_det in Hdet.
  rewrite Hfirst in Hdet. cbn [fst snd] in Hdet.
  pose proof (check_duplicate p (s_det st1) (count_received (s_stats st1)) new (ev_Sequence old)) as Hdup.
  rewrite Hdet, <- Hkey, Last_set_last_eq in Hdup.
  specialize (Hdup eq_refl Hseq Hmax Htol). rewrite Hkey in Hdup.
  assert (exists ms, on_event p ctx new st1
    = Ok (mkState (s_det st1) (s_prod st1) (s_batch st1) (count_duplicate (count_received (s_stats st1))) ms))
    as [ms E2].
  { unfold on_event. rewrite Hkey in Hdet. rewrite <- Hdet in Hdup.
    destruct (checkSequence p (s_det st1) _ new) as [[[dr d] stats] m2]. cbn [fst] in Hdup.
    injection Hdup as -> -> ->. by eexists. }
  exists st1, (mkState (s_det st1) (s_prod st1) (s_batch st1) (count_duplicate (count_received (s_stats st1))) ms).
  split; [|by split_and!].
  eapply run_step; [apply step_connect|done|].
  eapply run_step; [apply step_send; cbn; lia|by intros ? [= <-]|]. cbn [app].
  eapply run_step; [by apply step_receive|done|].
  eapply run_step; [by apply step_receive|done|]. apply run_nil.
Qed.

Definition book_event (seq : Z) : Event :=
  mkEvent KindBookDelta VenueBinance "BTC-USD" seq None
    (Some (mkBookDelta VenueBinance "BTC-USD" false [] [] 0 0 seq)) None.
Definition example_pipeline : Pipeline :=
  build_pipeline Defaults {[KindBookDelta := mkEncoder 7 "book" (MagicByte :: PutUint32 7)]}.

Lemma reconnect_race_witness :
  exists st1 st2,
    sys_run example_pipeline ex_ctx 16 event_wf (mkSys [book_event 5] example_state)
      [AConnect VenueBinance; ASend (book_event 0); AReceive; AReceive] (mkSys [] st2)
    /\ on_event example_pipeline ex_ctx (book_event 5)
         (with_det example_state (Gap.ResetVenue (s_det example_state) VenueBinance)) = Ok st1
    /\ on_event example_pipeline ex_ctx (book_event 0) st1 = Ok st2
    /\ s_batch st2 = s_batch st1 /\ s_prod st2 = s_prod st1
    /\ st_Duplicates (s_stats st2) = st_Duplicates (s_stats st1) + 1.
Proof.
  refine (reconnect_race example_pipeline ex_ctx 16 (book_event 5) (book_event 0) example_state
            _ _ _ _ _ _ _ _).
  - intros sch v. by destruct v as [|[]|[]|[]].
  - vm_compute. auto.
  - vm_compute. auto.
  - apply Nat.ltb_lt. vm_compute. reflexivity.
  - vm_compute. reflexivity.
  - vm_compute. intuition congruence.
  - vm_compute. reflexivity.
  - vm_compute. congruence.
Defined.

(** After a gap a replay is published twice: the resync hook of [ingestd]
    forgets the stream once a gap was seen, so the event that revealed the gap is
    taken as the first of a new stream when it is sent again, and not suppressed
    as a duplicate. *)
Theorem gap_replay_published_twice `{AvroLib, Otel} cfg encoders ctx det ev last m ms :
  Last det (sequenceKey (build_pipeline cfg encoders) ev) = Some last ->
  0 <= last -> last + 1 < ev_Sequence ev < MaxInt64 ->
  frame (build_pipeline cfg encoders) ctx ev = Ok (m, ms) ->
  framed (build_pipeline cfg encoders) ctx det [InEvent ev; InEvent ev] = [m; m].
Proof.
  intros Hl Hge Hs Hf. set (p := build_pipeline cfg encoders) in *.
  pose proof (check_gap p det zero_stats ev last _ eq_refl Hl Hge Hs) as Hg.
  cbn [framed]. unfold event_msg at 1, next_det. rewrite Hg. cbn [fst snd]. rewrite Hf.
  change (p_DropOnGap p) with false. cbn iota.
  set (d := Gap.Reset _ _). unfold event_msg.
  rewrite (check_first p d zero_stats ev); [by rewrite Hf| |lia].
  subst d. rewrite Last_Reset. by rewrite decide_True.
Qed.

Definition gap_det : Detector := set_last Gap.New (sequenceKey example_pipeline (book_event 9)) 3.
Definition gap_message : Message :=
  match frame example_pipeline ex_ctx (book_event 9) with
  | Ok (m, _) => m
  | _ => mkMessage "" "" [] 0 "" "" None
  end.

Lemma gap_replay_published_twice_witness :
  framed example_pipeline ex_ctx gap_det [InEvent (book_event 9); InEvent (book_event 9)]
  = [gap_message; gap_message].
Proof.
  refine (gap_replay_published_twice Defaults
            {[KindBookDelta := mkEncoder 7 "book" (MagicByte :: PutUint32 7)]} ex_ctx gap_det
            (book_event 9) 3 gap_message [] _ _ _ _).
  - vm_compute. reflexivity.
  - vm_compute. congruence.
  - vm_compute. intuition congruence.
  - vm_compute. reflexivity.
Defined.

Definition ack_frames : list (string * time) :=
  let trade seq := dq ("{'channel':'market_trades','sequence_num':" +:+ seq +:+
    ",'events':[{'trades':[{'trade_id':'1','product_id':'BTC-USD','price':'1','size':'1','side':'BUY'}]}]}") in
  [(trade "5", 1000); (dq "{'channel':'subscriptions','sequence_num':6,'events':[{}]}", 1001);
   (trade "7", 1002)].
Definition ack_events : list Event :=
  (@decode_frames Coinbase coinbaseSubscribe coinbase_decoder (NewCoinbase ["BTC-USD"]) ack_frames).1.

(** Coinbase numbers every message of a connection, also those that carry no
    event: a subscription acknowledgement between two trade frames uses up a
    number, the decoder returns no event for it, and the detector reports one
    missing message although every frame was received. *)
Theorem coinbase_ack_reported_as_gap :
  map ev_Sequence ack_events = [5; 7]
  /\ verdicts_at (mkKey VenueCoinbase "" "connection")
       (run_ops Gap.New (map (fun ev => OpObserve (sequenceKey example_pipeline ev) (ev_Sequence ev))
                           ack_events)).1
     = [(StatusFirst, 0); (StatusGap, 1)].
Proof. split; vm_compute; reflexivity. Qed.
