(* ===== verification/Lifecycle.v ===== *)
(** * Command [ingestd]: [run] and [main], with everything they open and log

    [run] is written in a small monad of its own: a body has effects, may push
    deferred calls, and ends early on an error; [call] runs the deferred calls, last
    one first, whatever the body returned. What happens between the start of the
    goroutines and the end of the pipeline is an [execution] (System.v and Shutdown.v
    describe those); here it is an argument. *)

From S2P Require Import Prelude.
From S2P Require Import GoStrings.
From S2P Require Import GoStrconv.
From S2P Require Import Model.
From S2P Require Import Gap.
From S2P Require Import Schemas.
From S2P Require Import Encode.
From S2P Require Import Metrics.
From S2P Require Import Tracing.
From S2P Require Import Sink.
From S2P Require Import Pipeline.
From S2P Require Import Registry.
From S2P Require Import Config.
From S2P Require Import Logger.
From S2P Require Import Ingestd.

Local Open Scope Z_scope.

(** ** Effects and deferred calls *)

(** What [run] holds: the subscription to the signals with its context, the trace
    exporter, the producer. *)
Inductive resource := RSignals | RTraces | RProducer.
Inductive goroutine := GMetrics | GRunner (i : nat).
Inductive effect :=
  | Log (level : Z) (msg : string)
  | Acquire (r : resource)
  | Release (r : resource)
  | Spawn (g : goroutine)
  | Wait.

Section lifecycle.
Context `{AvroLib, KafkaLib, RegistryServer, UnicodeMap, OtelSDK}.

Definition any_producer : Type := MemoryProducer + KafkaProducer.
Definition close_error (p : any_producer) : option error :=
  match p with inl m => (Close m).2 | inr k => (Close k).2 end.

(** A body: the variable [producer] is its state, since a deferred call reads it when it runs. *)
Definition body (A : Type) : Type :=
  option any_producer ->
  list effect * list (option any_producer -> list effect) * option any_producer * res A.

Definition ret {A} (a : A) : body A := fun p => ([], [], p, Ok a).
Definition bind {A B} (m : body A) (f : A -> body B) : body B := fun p =>
  let '(es, ds, p1, r) := m p in
  match r with
  | Ok a => let '(es', ds', p2, r') := f a p1 in (es ++ es', ds' ++ ds, p2, r')
  | Err e => (es, ds, p1, Err e)
  | Panic => (es, ds, p1, Panic)
  end.
Definition perform (es : list effect) : body unit := fun p => (es, [], p, Ok tt).
Definition defer (d : option any_producer -> list effect) : body unit := fun p => ([], [d], p, Ok tt).
Definition lift {A} (r : res A) : body A := fun p => ([], [], p, r).
Definition set_producer (q : any_producer) : body unit := fun _ => ([], [], Some q, Ok tt).

Definition call {A} (m : body A) : list effect * res A :=
  let '(es, ds, p, r) := m None in (es ++ concat (map (fun d => d p) ds), r).

Local Notation "x <~ m ;; f" := (bind m (fun x => f)) (at level 100, m at next level, right associativity).
Local Notation "m ;;; f" := (bind m (fun _ => f)) (at level 100, right associativity).

(** A log line at the configured level; lines that depend on a condition, or an error. *)
Definition log_at (min level : Z) (msg : string) : list effect :=
  if logger_enabled min level then [Log level msg] else [].
Definition when (b : bool) (lines : list effect) : list effect := if b then lines else [].
Definition log_if (err : option error) (line : list effect) : list effect :=
  match err with Some _ => line | None => [] end.

(** ** The log lines of [buildEncoders] *)

Fixpoint compat_log (min : Z) (c : Client) (s : server) (topics : list (Kind * string)) : list effect :=
  match topics with
  | [] => []
  | (_, topic) :: topics' =>
      let '(r, s') := SetCompatibility c s (SubjectForTopic topic) CompatFull in
      (if is_ok r then [] else log_at min LevelWarn "could not set compatibility level")
      ++ compat_log min c s' topics'
  end.

Definition encoders_log (min : Z) (cfg : Config) (s : server) (topics1 : list (Kind * string))
    (encoders : res (gmap Kind Encoder)) : list effect :=
  (if DryRun cfg then [] else compat_log min (Registry.New (SchemaRegistryURL cfg)) s topics1)
  ++ match encoders with
     | Ok encs =>
         if DryRun cfg
         then log_at min LevelWarn "dry run: schemas not registered, framing with placeholder id 0"
         else concat (map (fun _ => log_at min LevelInfo "schema registered") (map_to_list encs))
     | _ => []
     end.

(** ** run *)

(** What the goroutines and the pipeline did: the producer they left, the statistics,
    what the venue runners returned, what the metrics server met. *)
Record execution := mkExecution {
  x_producer : any_producer; x_stats : Stats; x_runners : list (option error); x_metrics : serve_env }.

Definition server_log (min : Z) (x : execution) : list effect :=
  concat (map (fun err => log_if err (log_at min LevelError "venue runner stopped")) (x_runners x))
  ++ match Serve (x_metrics x) with
     | Some err => log_if err (log_at min LevelError "metrics server stopped")
     | None => []
     end.

Definition stop : list effect := [Release RSignals].

(** [run] after its configuration is loaded. [flushed] is what the exporter answers at
    the end; the lines of the goroutines are put before [Wait], which they precede in
    some order. *)
Definition run_loaded (visit1 visit2 visit3 : list (Kind * string) -> list (Kind * string))
    (tokens : list string) (version : string) (cfg : Config) (s : server)
    (encoders : res (gmap Kind Encoder)) (flushed : option error) (execute : wiring -> execution)
    : body unit :=
  let min := newLogger (LogLevel cfg) in
  perform [Acquire RSignals];;; defer (fun _ => stop);;;
  perform (log_at min LevelInfo "starting ingestd");;;
  tracer <~ lift (wrap_err "initialising tracing"
                    (Init (mkTracingConfig (OTLPEndpoint cfg) (TraceSampleRatio cfg) version)));;
  perform [Acquire RTraces];;;
  defer (fun _ => Release RTraces :: log_if flushed (log_at min LevelError "flushing traces"));;;
  perform (encoders_log min cfg s (visit1 (topics_of cfg)) encoders);;;
  encoders <~ lift encoders;;
  perform (when (DryRun cfg) (log_at min LevelWarn "dry run: publishing to an in-memory sink, not Kafka"));;;
  set_producer (buildProducer cfg);;; perform [Acquire RProducer];;;
  defer (fun p => Release RProducer
           :: log_if (p ≫= close_error) (log_at min LevelError "closing producer"));;;
  perform (Spawn GMetrics :: log_at min LevelInfo "metrics listening");;;
  (let '(decoders, resetters) := buildDecoders cfg tokens in
   if is_empty decoders then lift (Err (EMsg "no ingestion sources configured"))
   else
     perform (map (fun i => Spawn (GRunner i)) (seq 0 (length decoders)));;;
     let x := execute (mkWiring _ _ cfg tracer Gap.New (buildProducer cfg) decoders resetters
                         (build_pipeline cfg encoders)) in
     set_producer (x_producer x);;;
     perform (log_at min LevelInfo "pipeline stopped" ++ stop ++ server_log min x ++ [Wait]
              ++ when (DryRun cfg)
                   (match x_producer x with
                    | inl _ => log_at min LevelInfo "dry run complete"
                    | inr _ => []
                    end))).

Definition run (visit1 visit2 visit3 : list (Kind * string) -> list (Kind * string))
    (tokens : list string) (version : string) (e : env) (s : server)
    (flushed : option error) (execute : wiring -> execution) : list effect * res unit :=
  call (cfg <~ lift (Load e);;
        let topics := topics_of cfg in
        let encoders := (buildEncoders cfg s (visit1 topics) (visit2 topics) (visit3 Current)).1 in
        run_loaded visit1 visit2 visit3 tokens version cfg s encoders flushed execute).

(** [main]: the effects and the exit code. The default logger is the configured one
    once the configuration is loaded. *)
Definition main (visit1 visit2 visit3 : list (Kind * string) -> list (Kind * string))
    (tokens : list string) (version : string) (e : env) (s : server)
    (flushed : option error) (execute : wiring -> execution) : list effect * Z :=
  let '(es, r) := run visit1 visit2 visit3 tokens version e s flushed execute in
  let min := match Load e with Ok cfg => newLogger (LogLevel cfg) | _ => LevelInfo end in
  match r with
  | Ok _ => (es, 0)
  | Err _ => (es ++ log_at min LevelError "ingestd exited with error", 1)
  | Panic => (es, 2)
  end.

(** ** Lemmas *)

Definition is_resource (e : effect) : bool :=
  match e with Acquire _ | Release _ => true | _ => false end.
Definition resources (es : list effect) : list effect := List.filter is_resource es.
Definition spawned (es : list effect) : list goroutine :=
  omap (fun e => match e with Spawn g => Some g | _ => None end) es.

(** Effects that only log. *)
Definition quiet (es : list effect) : Prop := Forall (fun e => exists l m, e = Log l m) es.

Lemma quiet_app es es' : quiet es -> quiet es' -> quiet (es ++ es').
Proof. intros. by apply Forall_app. Qed.
Lemma quiet_log min level msg : quiet (log_at min level msg).
Proof. unfold log_at. destruct logger_enabled; [|constructor]. constructor; [by eexists _, _|constructor]. Qed.
Lemma quiet_if err es : quiet es -> quiet (log_if err es).
Proof. destruct err; [done|constructor]. Qed.
Lemma quiet_when b es : quiet es -> quiet (when b es).
Proof. destruct b; [done|constructor]. Qed.
Lemma quiet_nil : quiet [].
Proof. constructor. Qed.
Lemma quiet_concat {A} (f : A -> list effect) l : (forall a, quiet (f a)) -> quiet (concat (map f l)).
Proof. intros Hf. induction l; cbn; [constructor|by apply quiet_app]. Qed.

Lemma quiet_compat min c topics : forall s, quiet (compat_log min c s topics).
Proof.
  induction topics as [|[k t] topics IH]; intros s; cbn [compat_log]; [constructor|].
  destruct (SetCompatibility _ _ _ _) as [r s']. apply quiet_app; [|apply IH].
  destruct (is_ok r); [constructor|apply quiet_log].
Qed.

Lemma quiet_encoders min cfg s topics1 encoders : quiet (encoders_log min cfg s topics1 encoders).
Proof.
  apply quiet_app; [destruct (DryRun cfg); [constructor|apply quiet_compat]|].
  destruct encoders as [encs| |]; [|constructor..]. destruct (DryRun cfg); [apply quiet_log|].
  apply quiet_concat. intros _. apply quiet_log.
Qed.

Lemma quiet_server min x : quiet (server_log min x).
Proof.
  apply quiet_app; [apply quiet_concat; intros; apply quiet_if, quiet_log|].
  destruct (Serve _) as [err|]; [apply quiet_if, quiet_log|constructor].
Qed.

Lemma resources_app es es' : resources (es ++ es') = resources es ++ resources es'.
Proof. apply List.filter_app. Qed.
Lemma resources_quiet es : quiet es -> resources es = [].
Proof. induction 1 as [|e es (l & m & ->) _ IH]; [done|exact IH]. Qed.
Lemma spawned_app es es' : spawned (es ++ es') = spawned es ++ spawned es'.
Proof. apply omap_app. Qed.
Lemma spawned_quiet es : quiet es -> spawned es = [].
Proof. induction 1 as [|e es (l & m & ->) _ IH]; [done|exact IH]. Qed.

Lemma resources_cons e es : resources (e :: es) = (if is_resource e then [e] else []) ++ resources es.
Proof. by destruct e. Qed.
Lemma spawned_cons e es :
  spawned (e :: es) = match e with Spawn g => [g] | _ => [] end ++ spawned es.
Proof. by destruct e. Qed.

Lemma resources_spawn (l : list nat) : resources (map (fun i => Spawn (GRunner i)) l) = [].
Proof. by induction l. Qed.
Lemma spawned_spawn l : spawned (map (fun i => Spawn (GRunner i)) l) = map GRunner l.
Proof. induction l as [|i l IH]; [done|]. cbn. f_equal. exact IH. Qed.
End lifecycle.

#[export] Hint Resolve quiet_app quiet_nil quiet_log quiet_if quiet_when quiet_encoders quiet_server : tapeline.

(** Computes what a trace acquires, releases and spawns. *)
Ltac trace_simpl :=
  cbn [app map concat fst snd stop];
  repeat (rewrite resources_app || rewrite spawned_app || rewrite resources_cons || rewrite spawned_cons
          || rewrite resources_spawn || rewrite spawned_spawn
          || match goal with
             | |- context [resources ?es] => rewrite (resources_quiet es) by auto with tapeline
             | |- context [spawned ?es] => rewrite (spawned_quiet es) by auto with tapeline
             end);
  cbn.

Lemma run_trace `{AvroLib, KafkaLib, RegistryServer, UnicodeMap, OtelSDK}
    visit1 visit2 visit3 tokens version e s flushed execute :
  let '(es, r) := run visit1 visit2 visit3 tokens version e s flushed execute in
  exists held, held `prefix_of` [RSignals; RTraces; RProducer]
    /\ match (startup visit1 visit2 visit3 tokens version e s).1 with
       | Ok w =>
           r = Ok tt /\ held = [RSignals; RTraces; RProducer]
           /\ exists before after, es = before ++ Wait :: after
              /\ resources before = map Acquire held ++ [Release RSignals]
              /\ resources after = map Release (reverse held)
              /\ spawned before = GMetrics :: map GRunner (seq 0 (length (w_decoders w)))
              /\ spawned after = []
       | Err err =>
           r = Err err /\ spawned es = [] /\ resources es = map Acquire held ++ map Release (reverse held)
       | Panic =>
           r = Panic /\ spawned es = [] /\ resources es = map Acquire held ++ map Release (reverse held)
       end.
Proof.
  unfold run, startup. destruct (Load e) as [cfg|err|] eqn:Hload.
  2-3: exists []; split; [apply prefix_nil|done].
  pose proof (sources_configured cfg tokens (Load_ok e cfg Hload)) as Hs.
  cbv beta iota zeta delta [run_loaded call bind perform lift defer set_producer].
  destruct (wrap_err _ (Init _)) as [tracer|err|].
  2-3: exists [RSignals]; split; [by exists [RTraces; RProducer]|]; split; [done|]; by trace_simpl.
  destruct (buildEncoders _ _ _ _ _) as [[encoders|err|] s1]. cbn [fst snd].
  2-3: exists [RSignals; RTraces]; split; [by exists [RProducer]|]; split; [done|]; by trace_simpl.
  destruct (buildDecoders cfg tokens) as [ds rs]. destruct Hs as [Hs _].
  destruct (is_empty ds) eqn:Hds; [by destruct ds|].
  exists [RSignals; RTraces; RProducer]. split; [done|]. split; [done|]. split; [done|].
  set (min := newLogger (LogLevel cfg)). set (x := execute _).
  set (enc := encoders_log _ _ _ _ _). set (dry := when (DryRun cfg) _). set (over := when (DryRun cfg) _).
  assert (quiet over) by (apply quiet_when; destruct (x_producer x); auto with tapeline).
  exists (Acquire RSignals :: log_at min LevelInfo "starting ingestd" ++ Acquire RTraces :: enc ++ dry
     ++ Acquire RProducer :: Spawn GMetrics :: log_at min LevelInfo "metrics listening"
     ++ map (fun i => Spawn (GRunner i)) (seq 0 (length ds))
     ++ log_at min LevelInfo "pipeline stopped" ++ Release RSignals :: server_log min x).
  exists (over ++ Release RProducer
     :: log_if (close_error (x_producer x)) (log_at min LevelError "closing producer")
     ++ Release RTraces :: log_if flushed (log_at min LevelError "flushing traces") ++ [Release RSignals]).
  split.
  { cbn [app map concat]. unfold stop. rewrite !app_nil_r. repeat (rewrite <- !app_assoc; cbn [app]). reflexivity. }
  subst enc dry. split_and!; trace_simpl; by rewrite ?app_nil_r.
Qed.

Lemma main_code `{AvroLib, KafkaLib, RegistryServer, UnicodeMap, OtelSDK}
    visit1 visit2 visit3 tokens version e s flushed execute :
  (main visit1 visit2 visit3 tokens version e s flushed execute).2
  = match (run visit1 visit2 visit3 tokens version e s flushed execute).2 with
    | Ok _ => 0 | Err _ => 1 | Panic => 2 end.
Proof. unfold main. by destruct (run _ _ _ _ _ _ _ _ _) as [es [[]|err|]]. Qed.

(** C38. [run] cleans up after itself on every path. It succeeds exactly if the startup
    does, and fails with the same error or panics exactly if the startup does. If it fails
    or panics it has started no goroutine, and the deferred calls, which run either way,
    release exactly what was acquired (a prefix of the signals, the trace exporter and the
    producer), each once and in reverse order. If it succeeds it starts the metrics server
    and one runner per source, stops the signals, waits for them all, and only then
    releases the producer, the exporter and the signals, in this order: the signals are
    the one resource released twice, by the call before the wait and by the deferred one.
    The exit code is 0 exactly if the startup succeeded, 1 after an error and 2 after a
    panic: losing the last batch or the traces does not change it. *)
Theorem run_cleans_up `{AvroLib, KafkaLib, RegistryServer, UnicodeMap, OtelSDK}
    visit1 visit2 visit3 tokens version e s flushed execute :
  let '(es, r) := run visit1 visit2 visit3 tokens version e s flushed execute in
  let code := (main visit1 visit2 visit3 tokens version e s flushed execute).2 in
  exists held, held `prefix_of` [RSignals; RTraces; RProducer]
    /\ match (startup visit1 visit2 visit3 tokens version e s).1 with
       | Ok w =>
           r = Ok tt /\ code = 0 /\ held = [RSignals; RTraces; RProducer]
           /\ exists before after, es = before ++ Wait :: after
              /\ resources before = map Acquire held ++ [Release RSignals]
              /\ resources after = map Release (reverse held)
              /\ spawned before = GMetrics :: map GRunner (seq 0 (length (w_decoders w)))
              /\ spawned after = []
       | Err err =>
           r = Err err /\ code = 1 /\ spawned es = [] /\ resources es = map Acquire held ++ map Release (reverse held)
       | Panic =>
           r = Panic /\ code = 2 /\ spawned es = [] /\ resources es = map Acquire held ++ map Release (reverse held)
       end.
Proof.
  pose proof (run_trace visit1 visit2 visit3 tokens version e s flushed execute) as Ht.
  pose proof (main_code visit1 visit2 visit3 tokens version e s flushed execute) as Hc.
  destruct (run _ _ _ _ _ _ _ _ _) as [es r]. destruct Ht as (held & Hp & Ht). exists held. split; [done|].
  destruct (startup _ _ _ _ _ _ _).1; destruct Ht as [-> Ht]; by rewrite Hc.
Qed.
