(* ===== verification/Observability.v ===== *)
(** * What the program reports about itself

    Every call on a Prometheus collector that the pipeline, the producers and the
    registration make is one the client library accepts ([metric_safe]); and what
    the gauge of a connection says while its runner runs. *)

From S2P Require Import Prelude.
From S2P Require Import GoStrings.
From S2P Require Import GoStrconv.
From S2P Require Import Model.
From S2P Require Import Gap.
From S2P Require Import Encode.
From S2P Require Import Metrics.
From S2P Require Import Tracing.
From S2P Require Import Sink.
From S2P Require Import Pipeline.
From S2P Require Import Venue.
From S2P Require Import Binance.
From S2P Require Import Runner.
From S2P Require Import Registry.
From S2P Require Import Ingestd.

Local Open Scope Z_scope.

Definition all_safe (ms : list metric) : Prop := Forall (fun m => metric_safe m = true) ms.

(** What the pipeline asks of a producer's reports. *)
Class SafeProducer (P : Type) `{Producer P} :=
  publish_safe : forall p msgs, all_safe (Publish p msgs).2.

(** [ConnectionUp] of a runner: set by [OnConnect], cleared by the deferred call when
    the goroutine ends. *)
Definition gauge_step {M} (up : Z) (e : emit M) : Z :=
  match e with EOnConnect _ => 1 | _ => up end.
Definition connection_up {M} (tr : list (emit M)) (o : outcome) : Z :=
  match o with Running => fold_left gauge_step tr 0 | Returned _ => 0 end.

(** ** Lemmas *)

#[export] Instance MemoryProducer_Safe : SafeProducer MemoryProducer.
Proof. intros p msgs. cbn. unfold MemoryProducer_Publish. by repeat case_match; constructor. Qed.

#[export] Instance KafkaProducer_Safe `{KafkaLib} : SafeProducer KafkaProducer.
Proof.
  intros p msgs. cbn. unfold KafkaProducer_Publish. destruct msgs as [|m0 msgs]; [constructor|].
  destruct (WriteMessages _ _) as [[w err] x]. cbn [snd]. generalize (m0 :: msgs). intros l.
  unfold all_safe. induction l as [|m l IH]; cbn; [constructor|].
  constructor; [vm_compute; reflexivity|]. constructor; [by destruct err|exact IH].
Qed.

Lemma safe_add s labels n : metric_safe (MAdd s labels 0) = true -> 0 <= n -> metric_safe (MAdd s labels n) = true.
Proof. unfold metric_safe. rewrite !andb_true_iff, !Z.leb_le. tauto. Qed.

Lemma lag_safe v k a b : all_safe (ObserveSourceLag v k a b).
Proof. unfold ObserveSourceLag. destruct (_ || _); repeat constructor. Qed.

Section safety.
Context `{AvroLib, Otel} {P : Type} `{SafeProducer P}.
Context (p : Pipeline) (ctx : context).

Lemma queue_depth_safe b : all_safe [queue_depth b].
Proof. by repeat constructor. Qed.

Lemma flush_safe (st : state P) : all_safe (s_metrics st) -> all_safe (s_metrics (flush p st)).
Proof.
  intros Hs. unfold flush. destruct (s_batch st) as [|m b]; [done|].
  pose proof (publish_safe (s_prod st) (m :: b)) as Hp.
  destruct (Publish (s_prod st) (m :: b)) as [[prod err] ms]. cbn [snd] in Hp.
  destruct err as [e|]; [destruct (Z.ltb_spec 0 (Z.of_nat (length (m :: b)) - p_MaxPendingEvents p)) as [Hlt|]|];
    unfold all_safe in *; cbn [s_metrics]; rewrite !Forall_app; repeat split;
    try done; try apply queue_depth_safe.
  constructor; [|apply queue_depth_safe]. apply safe_add; [done|lia].
Qed.

Lemma checkSequence_safe det s ev : all_safe (checkSequence p det s ev).2.
Proof.
  unfold checkSequence. destruct (Observe det _ _) as [r d].
  destruct (r_Status r); cbn [snd]; try destruct (Z.ltb_spec 0 (r_Missing r)); repeat constructor;
    apply safe_add; (done || lia).
Qed.

Lemma on_event_safe (st st' : state P) ev :
  all_safe (s_metrics st) -> on_event p ctx ev st = Ok st' -> all_safe (s_metrics st').
Proof.
  intros Hs Hev. unfold on_event in Hev.
  pose proof (checkSequence_safe (s_det st) (count_received (s_stats st)) ev) as Hc.
  destruct (checkSequence p (s_det st) (count_received (s_stats st)) ev) as [[[dr d] stats] m2].
  cbn [snd] in Hc.
  assert (all_safe (s_metrics st ++ MInc EventsReceived [ev_Venue ev; ev_Kind ev] :: m2)) as H0'.
  { apply Forall_app. split; [done|]. by constructor. }
  destruct dr; [by injection Hev as <-|].
  destruct (frame p ctx ev) as [[msg m3]|e|] eqn:Ef; [| |done]; cycle 1.
  { injection Hev as <-. apply Forall_app. split; [done|]. by repeat constructor. }
  assert (all_safe m3) as H3.
  { unfold frame in Ef. apply bind_Ok in Ef as (enc & _ & Ef). apply bind_Ok in Ef as (topic & _ & Ef).
    destruct (payload_is_nil _); [done|]. apply bind_Ok in Ef as (v & _ & Ef).
    apply bind_Ok in Ef as ([t1 t2] & _ & [= _ <-]). apply lag_safe. }
  injection Hev as <-. set (st1 := mkState _ _ _ _ _).
  assert (all_safe (s_metrics st1)) as H1'.
  { cbn [s_metrics st1]. apply Forall_app. split; [done|]. apply Forall_app. split; [done|apply queue_depth_safe]. }
  destruct (_ <=? _); [by apply flush_safe|done].
Qed.

Lemma loop_safe ins : forall (st : state P) r,
  all_safe (s_metrics st) -> loop p ctx ins st = Ok r ->
  all_safe (match r with inl st' => s_metrics st' | inr st' => s_metrics st' end).
Proof.
  induction ins as [|i ins IH]; intros st r Hs Hrun; cbn [loop] in Hrun; [by injection Hrun as <-|].
  destruct i as [ev| | |].
  - apply bind_Ok in Hrun as (st1 & Hev & Hrun). eauto using on_event_safe.
  - injection Hrun as <-. by apply flush_safe.
  - eauto using flush_safe.
  - injection Hrun as <-. unfold final_flush. pose proof (publish_safe (s_prod st) (s_batch st)) as Hp.
    destruct (Publish _ _) as [[prod err] ms]. by apply Forall_app.
Qed.
End safety.

Lemma register_loop_safe `{AvroLib, RegistryServer} c s schemasByKind topics encoders :
  all_safe (register_loop c s schemasByKind topics encoders).2.
Proof.
  revert c s encoders. induction topics as [|[kind topic] topics IH]; intros c s encoders; [constructor|].
  cbn [register_loop]. destruct (register_kind c s schemasByKind kind topic) as [[[r c1] s1] ms] eqn:E.
  assert (all_safe ms) as Hms.
  { unfold register_kind in E. destruct (schemasByKind !! kind) as [j|]; [|by injection E as _ _ _ <-; constructor].
    destruct (CheckCompatibility _ _ _ _) as [ok s2].
    destruct (match ok with Ok _ => _ | Err _ => _ | Panic => _ end); [|by injection E as _ _ _ <-; constructor..].
    destruct (Register _ _ _ _) as [[[id|e|] c2] s3]; injection E as _ _ _ <-; by repeat constructor. }
  destruct r as [enc|e|]; [|done..].
  specialize (IH c1 s1 (<[kind:=enc]> encoders)). destruct (register_loop c1 s1 _ _ _) as [[[r' c2] s2] ms'].
  by apply Forall_app.
Qed.

(** ** Properties *)

(** C34. The metrics never panic: the collectors have distinct names, so that [init]
    registers all of them, each declared metric once; and in every run, whatever
    the producer answers, and in every registration each call has the collector's
    labels, observes only histograms with growing buckets, and gives no counter a
    negative amount. *)
Theorem metrics_never_panic `{AvroLib, Otel} {P} `{SafeProducer P} `{RegistryServer} :
  (exists names, init = Ok names /\ length names = length collectors)
  /\ NoDup collectors /\ (forall s, s ∈ collectors)
  /\ (forall (p : Pipeline) det (prod : P) ctx ins r,
        Pipeline.Run p det prod ctx ins = Ok r ->
        all_safe (match r with inl st => s_metrics st | inr st => s_metrics st end))
  /\ (forall c s topics schemasByKind, all_safe (RegisterSchemas c s topics schemasByKind).2).
Proof.
  split; [eexists; split; vm_compute; reflexivity|].
  split; [apply (bool_decide_eq_true_1 _); vm_compute; reflexivity|].
  split; [intros s; unfold collectors; rewrite !elem_of_cons; destruct s; tauto|].
  split; [|intros; apply register_loop_safe].
  intros p det prod ctx ins r Hrun. eapply loop_safe; [|exact Hrun]. constructor.
Qed.

#[local] Existing Instance toy_avro.
#[local] Existing Instance no_otel.

Definition ex_state_memory : state MemoryProducer :=
  match Pipeline.Run ex_pipeline None NewMemoryProducer ex_ctx ex_inputs with
  | Ok (inl st) => st
  | _ => initial None NewMemoryProducer
  end.

Lemma metrics_never_panic_witness :
  (exists names, init = Ok names /\ length names = 14%nat) /\ all_safe (s_metrics ex_state_memory).
Proof.
  destruct (@metrics_never_panic toy_avro no_otel MemoryProducer _ _ id_registry) as ((names & Hi & Hn) & _ & _ & Hr & _).
  split; [exists names; split; [exact Hi|exact Hn]|].
  apply (Hr ex_pipeline None NewMemoryProducer ex_ctx ex_inputs (inl ex_state_memory)). vm_compute. reflexivity.
Defined.

(** The gauge of a connection does not follow the connection: the first session
    connects, loses its connection, and while the runner waits for the next attempt,
    with no connection open, [connection_up] is still 1. *)
Theorem connection_up_while_down `{Decoder D M} (r : Runner D) d f e rnd :
  r_OnConnect r = Some f -> r_MaxAttempts r <= 0 -> errors_is e Canceled = false ->
  let run := Runner.Run r d [ASession (mkSession None [] [TReadErr e]) rnd false] in
  life (runner_defaults r) (Idle d) run.1.1 (Idle run.1.2) /\ run.2 = Running /\ connection_up run.1.1 run.2 = 1.
Proof.
  intros Hf Hm He. cbv zeta. unfold Runner.Run. cbn [run_loop].
  pose proof (session_life (runner_defaults r) d (mkSession None [] [TReadErr e])) as Hl. revert Hl.
  unfold session. cbn [ss_dial ss_writes ss_turns].
  destruct (dec_Subscriptions d _) as [subs d1]. rewrite write_all_ok. cbn [r_OnConnect runner_defaults].
  rewrite Hf. cbn [read_loop]. intros Hl. rewrite errors_is_wrap, He.
  cbn [r_MaxAttempts runner_defaults]. destruct (Z.ltb_spec 0 (r_MaxAttempts r)); [lia|]. cbn [andb fst snd].
  split; [|split; [done|]].
  - eapply life_app; [exact Hl|]. apply life_one. constructor.
  - clear Hl. cbn [closing connection_up fold_left app gauge_step]. induction subs as [|m subs IH]; [done|exact IH].
Qed.
