(* ===== verification/System.v ===== *)
(** * The whole program: runners, channel, pipeline

    A [world] is what is left of every runner's trace (Runner.v: what the runner
    does on the answers of its environment), and the system of Ingestd.v. A step is
    the next action of one runner, or a step of the pipeline; the scheduler is
    free. [w_sent] is a history variable: every event sent so far, in order, with
    the index of the runner that sent it. *)

From stdpp Require Import relations.
From S2P Require Import Prelude.
From S2P Require Import GoStrings.
From S2P Require Import GoStrconv.
From S2P Require Import Model.
From S2P Require Import Gap.
From S2P Require Import Encode.
From S2P Require Import Metrics.
From S2P Require Import Tracing.
From S2P Require Import Sink.
From S2P Require Import Pipeline.
From S2P Require Import Venue.
From S2P Require Import Binance.
From S2P Require Import Runner.
From S2P Require Import Config.
From S2P Require Import Ingestd.

Local Open Scope Z_scope.

Record world (P : Type) := mkWorld {
  w_left : list (list (emit source_frame));
  w_sent : list (nat * Event);
  w_sys : sys P }.
Arguments mkWorld {P} _ _ _.
Arguments w_left {P} _.
Arguments w_sent {P} _.
Arguments w_sys {P} _.

(** What an action of a runner does to the shared state: a send, the [OnConnect]
    that resets the detector, or nothing. *)
Definition runner_action (e : emit source_frame) : option action :=
  match e with
  | EEvent ev => Some (ASend ev)
  | EOnConnect venue => Some (AConnect venue)
  | _ => None
  end.
Definition sent_events_of (i : nat) (e : emit source_frame) : list (nat * Event) :=
  match e with EEvent ev => [(i, ev)] | _ => [] end.

Section world.
Context `{AvroLib, Otel} {P : Type} `{Producer P}.
Context (p : Pipeline) (ctx : context) (cap : nat).

Inductive world_step : world P -> world P -> Prop :=
  | step_runner left sent s s' i e tr :
      left !! i = Some (e :: tr) ->
      match runner_action e with
      | Some a => sys_step p ctx cap s a s'
      | None => s' = s
      end ->
      world_step (mkWorld left sent s) (mkWorld (<[i := tr]> left) (sent ++ sent_events_of i e) s')
  | step_pipeline left sent s s' a :
      a = AReceive \/ a = ATick -> sys_step p ctx cap s a s' ->
      world_step (mkWorld left sent s) (mkWorld left sent s').

(** The same as a function of who moves: the runner [i], or the pipeline. *)
Inductive turn_of := TRunner (i : nat) | TReceive | TTick.
Definition do_action (s : sys P) (a : action) : option (sys P) :=
  match a with
  | ASend ev =>
      if (length (sy_queue s) <? cap)%nat then Some (mkSys (sy_queue s ++ [ev]) (sy_state s)) else None
  | AConnect v =>
      Some (mkSys (sy_queue s) (with_det (sy_state s) (Gap.ResetVenue (s_det (sy_state s)) v)))
  | AReceive =>
      match sy_queue s with
      | ev :: q =>
          match on_event p ctx ev (sy_state s) with Ok st => Some (mkSys q st) | _ => None end
      | [] => None
      end
  | ATick => Some (mkSys (sy_queue s) (flush p (sy_state s)))
  end.
Definition world_next (w : world P) (t : turn_of) : option (world P) :=
  match t with
  | TRunner i =>
      match w_left w !! i with
      | Some (e :: tr) =>
          s ← match runner_action e with Some a => do_action (w_sys w) a | None => Some (w_sys w) end;
          Some (mkWorld (<[i := tr]> (w_left w)) (w_sent w ++ sent_events_of i e) s)
      | _ => None
      end
  | TReceive => mkWorld (w_left w) (w_sent w) <$> do_action (w_sys w) AReceive
  | TTick => mkWorld (w_left w) (w_sent w) <$> do_action (w_sys w) ATick
  end.
Fixpoint world_exec (w : world P) (ts : list turn_of) : option (world P) :=
  match ts with [] => Some w | t :: ts' => w' ← world_next w t; world_exec w' ts' end.

(** The runners' events, of which [w_left] is what is still to come. *)
Definition sent_by_runner (i : nat) (sent : list (nat * Event)) : list Event :=
  map snd (List.filter (fun x => Nat.eqb x.1 i) sent).

(** The message an event is framed to. *)
Definition frame_message (ev : Event) : option Message :=
  match frame p ctx ev with Ok (m, _) => Some m | _ => None end.
End world.

(** The program after [startup]: every source's runner on its own environment. *)
Definition traces `{UnicodeMap} (cfg : Config) (built : list source * gmap string nat)
    (scripts : nat -> list attempt_script) : list (list (emit source_frame)) :=
  imap (fun i d => (Run (source_runner cfg built.2 i) d (scripts i)).1.1) built.1.

Definition start `{UnicodeMap} {P} (cfg : Config) (tokens : list string)
    (scripts : nat -> list attempt_script) (prod : P) : world P :=
  mkWorld (traces cfg (buildDecoders cfg tokens) scripts) [] (mkSys [] (initial None prod)).

(** ** Lemmas *)

Section executable.
Context `{AvroLib, Otel} {P : Type} `{Producer P}.
Context (p : Pipeline) (ctx : context) (cap : nat).

Lemma do_action_spec s a s' : do_action p ctx cap s a = Some s' <-> sys_step p ctx cap s a s'.
Proof.
  destruct s as [q st]. split.
  - destruct a as [ev|v| |]; unfold do_action; cbn [sy_queue sy_state].
    + destruct (Nat.ltb_spec (length q) cap); [|done]. intros [= <-]. by apply step_send.
    + intros [= <-]. apply step_connect.
    + destruct q as [|ev q]; [done|]. destruct (on_event p ctx ev st) as [st'| |] eqn:E; [|done..].
      intros [= <-]. by apply step_receive.
    + intros [= <-]. apply step_tick.
  - intros Hs. inversion Hs as [? ? ? Hq| |? ? ? ? Hev|]; subst; unfold do_action; cbn [sy_queue sy_state];
      [|done| |done].
    + by destruct (Nat.ltb_spec (length q) cap); [|lia].
    + by rewrite Hev.
Qed.

(** The function decides the relation. *)
Lemma world_next_spec w w' : world_step p ctx cap w w' <-> exists t, world_next p ctx cap w t = Some w'.
Proof.
  split.
  - destruct 1 as [left sent s s' i e tr Hi Ha | left sent s s' a Ha Hs].
    + exists (TRunner i). cbn. rewrite Hi. destruct (runner_action e); [|by subst].
      apply do_action_spec in Ha. by rewrite Ha.
    + apply do_action_spec in Hs. destruct Ha as [-> | ->]; [exists TReceive|exists TTick];
        unfold world_next; cbn [w_sys]; by rewrite Hs.
  - intros [[i| |] Ht]; destruct w as [left sent s]; cbn [world_next w_left w_sent w_sys] in Ht.
    + destruct (left !! i) as [[|e tr]|] eqn:Hi; [done| |done].
      destruct (runner_action e) as [a|] eqn:Ee.
      * destruct (do_action p ctx cap s a) as [s'|] eqn:Ea; [|done]. injection Ht as <-.
        eapply step_runner; [exact Hi|]. rewrite Ee. by apply do_action_spec.
      * injection Ht as <-. eapply step_runner; [exact Hi|]. by rewrite Ee.
    + apply fmap_Some in Ht as (s' & Ha & ->). eapply step_pipeline; [by left|]. by apply do_action_spec.
    + apply fmap_Some in Ht as (s' & Ha & ->). eapply step_pipeline; [by right|]. by apply do_action_spec.
Qed.

Lemma world_exec_rtc w ts w' : world_exec p ctx cap w ts = Some w' -> rtc (world_step p ctx cap) w w'.
Proof.
  revert w. induction ts as [|t ts IH]; intros w; cbn [world_exec]; [by intros [= <-]|].
  destruct (world_next p ctx cap w t) as [w1|] eqn:E; [|done]. intros Hx.
  eapply rtc_l; [apply world_next_spec; by exists t|by apply IH].
Qed.
End executable.

Lemma sent_by_runner_app i a b : sent_by_runner i (a ++ b) = sent_by_runner i a ++ sent_by_runner i b.
Proof. unfold sent_by_runner. by rewrite List.filter_app, map_app. Qed.

Lemma event_msg_sublist `{AvroLib, Otel} (p : Pipeline) ctx det ev :
  option_list (event_msg p ctx det ev) `sublist_of` option_list (frame_message p ctx ev).
Proof.
  unfold event_msg, frame_message. destruct (checkSequence _ _ _ _).1.1.1; [apply sublist_nil_l|].
  by destruct (frame p ctx ev) as [[]| |].
Qed.

Lemma omap_snoc {A B} (f : A -> option B) l x : omap f (l ++ [x]) = omap f l ++ option_list (f x).
Proof. rewrite omap_app. cbn. by destruct (f x). Qed.

Section reach.
Context `{AvroLib, Otel} {P : Type} `{AtomicProducer P}.
Context (p : Pipeline) (ctx : context) (cap : nat).
Context (left0 : list (list (emit source_frame))) (log0 : list Message).
Hypothesis Hpending : 0 < p_MaxPendingEvents p.

(** The invariant of every reachable world: the channel holds what was sent and not
    yet received ([rcv]); every runner's sends are a prefix of its events; and the
    pipeline is in the invariant of Pipeline.v for a selection [F] of the framed
    received events. *)
Record world_inv (w : world P) : Prop := mkWorldInv {
  wi_cap : (length (sy_queue (w_sys w)) <= cap)%nat;
  wi_len : length (w_left w) = length left0;
  wi_runner : forall i tr, left0 !! i = Some tr ->
    exists tr', w_left w !! i = Some tr'
      /\ events_of tr = sent_by_runner i (w_sent w) ++ events_of tr';
  wi_pipeline : exists rcv F pub,
    map snd (w_sent w) = rcv ++ sy_queue (w_sys w)
    /\ pipeline_inv p log0 F (sy_state (w_sys w)) pub
    /\ Z.of_nat (length (s_batch (sy_state (w_sys w)))) <= retention p
    /\ F `sublist_of` omap (frame_message p ctx) rcv
    /\ Z.of_nat (length rcv) = st_Received (s_stats (sy_state (w_sys w))) }.

Lemma with_det_inv F (st : state P) pub d :
  pipeline_inv p log0 F st pub -> pipeline_inv p log0 F (with_det st d) pub.
Proof. intros [I1 I2 I3 I4 I5 I6 I7]. by split. Qed.

Lemma flush_received (st : state P) : st_Received (s_stats (flush p st)) = st_Received (s_stats st).
Proof.
  unfold flush. destruct (s_batch st); [done|]. destruct (Publish _ _) as [[? []] ?]; [|done].
  by destruct (0 <? _).
Qed.

Lemma on_event_received (st st' : state P) ev :
  on_event p ctx ev st = Ok st' -> st_Received (s_stats st') = st_Received (s_stats st) + 1.
Proof.
  unfold on_event. destruct (checkSequence_stats p (s_det st) (count_received (s_stats st)) ev)
    as (f & -> & Hf & _). cbn in Hf.
  destruct (checkSequence p (s_det st) zero_stats ev).1.1.1; [by intros [= <-]|].
  destruct (frame p ctx ev) as [[msg m3]|e|]; [|by intros [= <-]|done].
  destruct (_ <=? _); intros [= <-]; [|done]. by rewrite flush_received.
Qed.

Lemma runner_step_prefix i e (tr0 tr' : list (emit source_frame)) sent :
  events_of tr0 = sent_by_runner i sent ++ events_of (e :: tr') ->
  events_of tr0 = sent_by_runner i (sent ++ sent_events_of i e) ++ events_of tr'.
Proof.
  intros ->. rewrite sent_by_runner_app, <- (assoc_L (++)). f_equal.
  destruct e; cbn; try done. unfold sent_by_runner. cbn. by rewrite Nat.eqb_refl.
Qed.

Lemma sent_events_other i j e : i <> j -> sent_by_runner i (sent_events_of j e) = [].
Proof.
  intros Hij. destruct e; cbn; try done. unfold sent_by_runner. cbn.
  by destruct (Nat.eqb_spec j i) as [->|].
Qed.

(** The runners' part of the invariant. *)
Lemma runner_moves (left : list (list (emit source_frame))) sent i e tr :
  left !! i = Some (e :: tr) ->
  (forall j tr0, left0 !! j = Some tr0 ->
     exists tr', left !! j = Some tr' /\ events_of tr0 = sent_by_runner j sent ++ events_of tr') ->
  forall j tr0, left0 !! j = Some tr0 ->
    exists tr', <[i := tr]> left !! j = Some tr'
      /\ events_of tr0 = sent_by_runner j (sent ++ sent_events_of i e) ++ events_of tr'.
Proof.
  intros Hi Hr j tr0 Hj. destruct (Hr j tr0 Hj) as (tr' & Hl & Hev). destruct (decide (i = j)) as [<-|Hij].
  - exists tr. rewrite Hi in Hl. injection Hl as <-.
    split; [|by apply runner_step_prefix].
    apply list_lookup_insert_eq. by eapply lookup_lt_Some.
  - exists tr'. rewrite list_lookup_insert_ne by done. split; [done|].
    by rewrite sent_by_runner_app, sent_events_other, app_nil_r by done.
Qed.

Lemma world_step_inv w w' : world_step p ctx cap w w' -> world_inv w -> world_inv w'.
Proof.
  intros Hstep [Hc Hl Hr (rcv & F & pub & Hs & Hinv & Hb & HF & Hn)].
  destruct Hstep as [left sent s s' i e tr Hi Ha | left sent s s' a Ha Hstep]; cbn in *.
  - assert (length (<[i:=tr]> left) = length left0) as Hl' by (by rewrite length_insert).
    pose proof (runner_moves _ _ _ _ _ Hi Hr) as Hr'.
    destruct (runner_action e) as [a|] eqn:Ee.
    + destruct e; try discriminate Ee; injection Ee as <-; cbn [sent_events_of] in *.
      * inversion Ha as [|q st v| |]; subst; cbn in *. split; cbn; [done|done|done|].
        exists rcv, F, pub. rewrite app_nil_r. split_and!; try done. by apply with_det_inv.
      * inversion Ha as [q st ev' Hq| | |]; subst; cbn in *. split; cbn; [rewrite length_app; cbn; lia|done|done|].
        exists rcv, F, pub. rewrite map_app, Hs, <- (assoc_L (++)). by split_and!.
    + subst s'. split; cbn; [done|done|done|]. exists rcv, F, pub.
      by destruct e; try discriminate Ee; cbn [sent_events_of]; rewrite app_nil_r.
  - destruct Ha as [-> | ->].
    + inversion Hstep as [| |ev q st st' Hev|]; subst; cbn in *.
      split; cbn; [lia|done|done|].
      destruct (on_event_inv p ctx log0 Hpending _ _ _ _ _ Hinv Hb Hev) as (_ & Hb' & pub' & Hinv').
      exists (rcv ++ [ev]), (F ++ option_list (event_msg p ctx (s_det st) ev)), pub'.
      rewrite <- (assoc_L (++)), omap_snoc, length_app. cbn [app length]. split_and!; try done.
      * apply sublist_app; [done|apply event_msg_sublist].
      * rewrite (on_event_received _ _ _ Hev). lia.
    + inversion Hstep as [| | |q st]; subst; cbn in *. split; cbn; [done|done|done|].
      destruct (flush_inv p log0 Hpending F st pub Hinv) as [pub' Hinv'].
      exists rcv, F, pub'. split_and!; try done.
      * pose proof (flush_bound p Hpending st). unfold retention. lia.
      * by rewrite flush_received.
Qed.

Lemma world_reach_inv w w' : rtc (world_step p ctx cap) w w' -> world_inv w -> world_inv w'.
Proof. induction 1; eauto using world_step_inv. Qed.
End reach.

Section wellformed.
Context `{AvroLib, Otel} {P : Type} `{Producer P}.
Context (p : Pipeline) (ctx : context) (cap : nat).
Hypothesis Hcap : (0 < cap)%nat.
Hypothesis Hmarshal : forall sch v, avro_Marshal sch v <> Panic.

(** All that is in the channel or still to come is well formed. *)
Definition world_wf (w : world P) : Prop :=
  Forall event_wf (sy_queue (w_sys w))
  /\ Forall (fun tr => Forall event_wf (events_of tr)) (w_left w).

Lemma events_of_tail {M} e (tr : list (emit M)) :
  Forall event_wf (events_of (e :: tr)) -> Forall event_wf (events_of tr).
Proof. destruct e; try done. by intros [_ Ht]%Forall_cons_1. Qed.

Lemma world_step_wf w w' : world_step p ctx cap w w' -> world_wf w -> world_wf w'.
Proof.
  intros Hstep [Hq Hl].
  destruct Hstep as [left sent s s' i e tr Hi Ha | left sent s s' a Ha Hstep]; unfold world_wf in *; cbn in *.
  - pose proof (Forall_lookup_1 _ _ _ _ Hl Hi) as Htr. split; [|apply Forall_insert; [done|exact (events_of_tail e tr Htr)]].
    destruct e; cbn in Ha; subst; try done; inversion Ha; subst; cbn in *; [done|].
    apply Forall_cons_1 in Htr as [Hev _]. apply Forall_app. by repeat constructor.
  - split; [|done]. destruct Ha as [-> | ->]; inversion Hstep; subst; cbn in *; [|done].
    by apply Forall_cons_1 in Hq as [_ Hq].
Qed.

Lemma world_reach_wf w w' : rtc (world_step p ctx cap) w w' -> world_wf w -> world_wf w'.
Proof. induction 1; eauto using world_step_wf. Qed.

(** Work left to do: sending and receiving an event are two steps. *)
Definition work (w : world P) : nat :=
  (2 * sum_list_with length (w_left w) + length (sy_queue (w_sys w)))%nat.

Lemma sum_insert {A} (l : list (list A)) i x tr :
  l !! i = Some (x :: tr) ->
  sum_list_with length l = S (sum_list_with length (<[i := tr]> l)).
Proof.
  revert i. induction l as [|y l IH]; intros [|i] Hi; cbn in *; try done.
  - by injection Hi as ->.
  - rewrite (IH _ Hi), Nat.add_succ_r. reflexivity.
Qed.

Lemma no_work (l : list (list (emit source_frame))) :
  Forall (eq []) l \/ exists i e tr, l !! i = Some (e :: tr).
Proof.
  induction l as [|[|e tr] l IH]; [by left| |right; by exists 0%nat, e, tr].
  destruct IH as [IH|(i & e & tr & Hi)]; [left; by constructor|right; by exists (S i), e, tr].
Qed.

(** A world with an empty channel can run any runner. *)
Lemma runner_can_step left sent st i e tr :
  left !! i = Some (e :: tr) ->
  exists s', world_step p ctx cap (mkWorld left sent (mkSys [] st))
               (mkWorld (<[i := tr]> left) (sent ++ sent_events_of i e) s')
    /\ (length (sy_queue s') <= 1)%nat.
Proof.
  intros Hi. destruct e as [|m|v| |t|ev| |d].
  3: { exists (mkSys [] (with_det st (Gap.ResetVenue (s_det st) v))). split; [|cbn; lia].
       eapply step_runner; [exact Hi|]. apply step_connect. }
  5: { exists (mkSys [ev] st). split; [|cbn; lia].
       eapply step_runner; [exact Hi|]. cbn. by apply (step_send p ctx cap [] st ev). }
  all: exists (mkSys [] st); (split; [|cbn; lia]); by eapply step_runner.
Qed.

(** Nothing deadlocks: from every well-formed world a schedule completes the runners'
    work and empties the channel. *)
Lemma drains n w :
  world_wf w -> (work w <= n)%nat ->
  exists w', rtc (world_step p ctx cap) w w' /\ sy_queue (w_sys w') = [] /\ Forall (eq []) (w_left w').
Proof.
  revert w. induction n as [|n IH]; intros w Hwf Hn.
  all: destruct (no_work (w_left w)) as [Hleft|(i & e & tr & Hi)];
    destruct w as [left sent [[|ev q] st]]; cbn in *; try (by exists (mkWorld left sent (mkSys [] st))).
  all: try (unfold work in Hn; cbn in Hn; lia).
  all: try (unfold work in Hn; cbn in Hn; rewrite (sum_insert _ _ _ _ Hi) in Hn; lia).
  1,3: destruct Hwf as [Hq Hl]; pose proof Hq as Hq0; apply Forall_cons_1 in Hq as [Hev Hq];
    destruct (on_event_total p ctx ev st Hev Hmarshal) as [st' Hst];
    assert (world_step p ctx cap (mkWorld left sent (mkSys (ev :: q) st)) (mkWorld left sent (mkSys q st')))
      as Hs by (eapply step_pipeline; [by left|by apply step_receive]);
    (destruct (IH (mkWorld left sent (mkSys q st'))) as (w' & Hr & Hend);
      [by split|unfold work in *; cbn in *; lia|exists w'; split; [by eapply rtc_l|done]]).
  destruct (runner_can_step left sent st i e tr Hi) as (s' & Hs & Hlen).
  destruct (IH (mkWorld (<[i:=tr]> left) (sent ++ sent_events_of i e) s')) as (w' & Hr & Hend).
  - by eapply world_step_wf.
  - unfold work in *. cbn in *. rewrite (sum_insert _ _ _ _ Hi) in Hn. lia.
  - exists w'. split; [by eapply rtc_l|done].
Qed.
End wellformed.

Lemma traces_lookup `{UnicodeMap} cfg built scripts i :
  traces cfg built scripts !! i
  = (fun d => (Run (source_runner cfg built.2 i) d (scripts i)).1.1) <$> built.1 !! i.
Proof. unfold traces. by rewrite list_lookup_imap. Qed.

Lemma start_wf `{UnicodeMap} {P} cfg tokens scripts (prod : P) : world_wf (start cfg tokens scripts prod).
Proof.
  split; [constructor|]. cbn. apply Forall_lookup. intros i tr Htr. rewrite traces_lookup in Htr.
  apply fmap_Some in Htr as (d & Hd & ->). apply Forall_forall. intros ev Hev.
  apply (sent_by_wf cfg (buildDecoders cfg tokens)). by exists i, d, (scripts i).
Qed.

Lemma start_inv `{UnicodeMap, AvroLib, Otel} {P} `{AtomicProducer P} p ctx cap cfg tokens scripts (prod : P) :
  0 < p_MaxPendingEvents p ->
  world_inv p ctx cap (traces cfg (buildDecoders cfg tokens) scripts) (plog prod)
    (start cfg tokens scripts prod).
Proof.
  intros Hpend. split; cbn; [lia|done| |].
  - intros i tr Htr. by exists tr.
  - exists [], [], []. split_and!; try done; [by apply initial_inv|]. unfold retention. lia.
Qed.

(** ** Properties *)

(** C1. End to end: in every execution of the program, whatever the venues send,
    however connections and the producer fail and whoever is scheduled, the events
    the pipeline received are a prefix of the events sent; the events each runner
    sent are a prefix, in order, of what its decoder makes of its frames; and what
    the producer has acknowledged followed by what is retained is an ordered
    selection of the framed received events, of which only counted ones are
    missing: suppressed duplicates, events that could not be framed, and drops of a
    full buffer. *)
Theorem system_delivery `{UnicodeMap, AvroLib, Otel} {P} `{AtomicProducer P}
    cfg encoders tokens scripts ctx (prod : P) w :
  let built := buildDecoders cfg tokens in
  let p := with_defaults (build_pipeline cfg encoders) in
  let st := sy_state (w_sys w) in
  rtc (world_step p ctx (Z.to_nat (BufferSize cfg))) (start cfg tokens scripts prod) w ->
  (forall i d, built.1 !! i = Some d -> exists left, w_left w !! i = Some left
     /\ events_of (Run (source_runner cfg built.2 i) d (scripts i)).1.1
        = sent_by_runner i (w_sent w) ++ events_of left)
  /\ exists received published,
       map snd (w_sent w) = received ++ sy_queue (w_sys w)
       /\ plog (s_prod st) = plog prod ++ published
       /\ published ++ s_batch st `sublist_of` omap (frame_message p ctx) received
       /\ Z.of_nat (length received)
          = st_Duplicates (s_stats st) + st_EncodeErrs (s_stats st) + st_Dropped (s_stats st)
            + Z.of_nat (length (published ++ s_batch st))
       /\ Z.of_nat (length (s_batch st)) <= retention p.
Proof.
  intros built p st Hrun. destruct (with_defaults_pos (build_pipeline cfg encoders)) as [_ Hpend].
  destruct (world_reach_inv p ctx _ _ (plog prod) Hpend _ _ Hrun (start_inv p ctx _ cfg tokens scripts prod Hpend))
    as [_ _ Hr (rcv & F & pub & Hs & Hinv & Hb & HF & Hn)].
  split.
  - intros i d Hd. apply Hr. by rewrite traces_lookup; fold built; rewrite Hd.
  - exists rcv, pub. destruct Hinv as [Hlog Hpub _ Hord Hlen Hrec _]. fold st in Hlog, Hpub, Hord, Hlen, Hrec, Hb, Hn.
    change (rejected p (s_stats st)) with (st_Duplicates (s_stats st) + 0 + st_EncodeErrs (s_stats st)) in Hrec.
    rewrite length_app. split_and!; [done|done|by etrans|lia|done].
Qed.

(** C2. No deadlock and no lost wake-up: from every reachable state a schedule
    completes every runner's work and empties the channel, so that every event of
    every runner has been received, in the runner's order. *)
Theorem system_drains `{UnicodeMap, AvroLib, Otel} {P} `{AtomicProducer P}
    cfg encoders tokens scripts ctx (prod : P) w :
  let built := buildDecoders cfg tokens in
  let p := with_defaults (build_pipeline cfg encoders) in
  let step := world_step p ctx (Z.to_nat (BufferSize cfg)) in
  (forall sch v, avro_Marshal sch v <> Panic) -> config_ok cfg ->
  rtc step (start cfg tokens scripts prod) w ->
  exists w', rtc step w w' /\ sy_queue (w_sys w') = []
    /\ st_Received (s_stats (sy_state (w_sys w'))) = Z.of_nat (length (w_sent w'))
    /\ forall i d, built.1 !! i = Some d ->
         sent_by_runner i (w_sent w') = events_of (Run (source_runner cfg built.2 i) d (scripts i)).1.1.
Proof.
  intros built p step Hm Hok Hrun. destruct (with_defaults_pos (build_pipeline cfg encoders)) as [_ Hpend].
  assert (0 < Z.to_nat (BufferSize cfg))%nat as Hcap by (pose proof (ok_buffer cfg Hok); lia).
  destruct (drains p ctx _ Hcap Hm _ w (world_reach_wf p ctx _ _ _ Hrun (start_wf cfg tokens scripts prod))
              (le_n _)) as (w' & Hrest & Hq & Hleft).
  destruct (world_reach_inv p ctx _ _ (plog prod) Hpend _ _ (transitivity (R := rtc _) Hrun Hrest)
              (start_inv p ctx _ cfg tokens scripts prod Hpend))
    as [_ _ Hr (rcv & F & pub & Hs & _ & _ & _ & Hn)].
  exists w'. split; [done|]. split; [done|]. split.
  - rewrite <- Hn, <- (length_map snd), Hs, Hq, app_nil_r. done.
  - intros i d Hd. destruct (Hr i (Run (source_runner cfg built.2 i) d (scripts i)).1.1) as (tr & Htr & Hev).
    { rewrite traces_lookup. fold built. by rewrite Hd. }
    pose proof (Forall_lookup_1 _ _ _ _ Hleft Htr) as <-. cbn in Hev. by rewrite Hev, app_nil_r.
Qed.

#[local] Existing Instance toy_avro.
#[local] Existing Instance no_otel.
#[local] Existing Instance unicode_id.

(** The dry run of one Binance source: it connects, sends one trade, and the
    pipeline receives it. *)
Definition small_scripts (_ : nat) : list attempt_script := example_script.
Definition small_start : world MemoryProducer := start small_config [] small_scripts NewMemoryProducer.
Definition small_encoders : gmap Kind Encoder :=
  {[KindTrade := mkEncoder 7 "trade" (MagicByte :: PutUint32 7)]}.
Definition small_system : Pipeline := with_defaults (build_pipeline small_config small_encoders).
Definition small_run : option (world MemoryProducer) :=
  world_exec small_system ex_ctx 2 small_start (repeat (TRunner 0) 5 ++ [TReceive; TTick]).
Definition small_world : world MemoryProducer := default small_start small_run.
Definition small_batch : list Message := plog (s_prod (sy_state (w_sys small_world))).

Lemma small_reach : rtc (world_step small_system ex_ctx 2) small_start small_world.
Proof. apply (world_exec_rtc _ _ _ _ (repeat (TRunner 0) 5 ++ [TReceive; TTick])). vm_compute. reflexivity. Qed.

Lemma system_delivery_witness :
  length small_batch = 1%nat
  /\ exists received published, map snd (w_sent small_world) = received ++ sy_queue (w_sys small_world)
       /\ small_batch = plog NewMemoryProducer ++ published.
Proof.
  split; [vm_compute; reflexivity|].
  destruct (proj2 (system_delivery small_config small_encoders [] small_scripts ex_ctx NewMemoryProducer
                     small_world small_reach)) as (rcv & pub & Hs & Hp & _).
  exists rcv, pub. split; [exact Hs|exact Hp].
Defined.

Lemma small_config_ok : config_ok small_config.
Proof. apply Validate_iff. vm_compute. reflexivity. Qed.

Lemma system_drains_witness :
  exists w', rtc (world_step small_system ex_ctx 2) small_world w'
    /\ sent_by_runner 0 (w_sent w')
       = events_of (Run (source_runner small_config small_built.2 0) small_source example_script).1.1.
Proof.
  destruct (system_drains small_config small_encoders [] small_scripts ex_ctx NewMemoryProducer small_world
              ltac:(intros sch v; by destruct v as [|[]|[]|[]]) small_config_ok small_reach)
    as (w' & Hr & _ & _ & Hev).
  exists w'. split; [exact Hr|]. apply (Hev 0%nat small_source). vm_compute. reflexivity.
Defined.
