(* ===== verification/Shutdown.v ===== *)
(** * Command [ingestd]: from the signal to the exit

    [run] after its startup: the goroutines of System.v work until a signal cancels the
    context; the pipeline takes the cancelled case of its [select], makes its last
    publish and returns; [wg.Wait] waits for the runners, each of which stops where it
    next looks at its context (Cancel.v); the deferred calls close the producer, and
    [run] returns nil. The metrics server stops with the context and is left out. *)

From stdpp Require Import relations.
From S2P Require Import Prelude.
From S2P Require Import GoStrings.
From S2P Require Import GoStrconv.
From S2P Require Import Model.
From S2P Require Import Gap.
From S2P Require Import Encode.
From S2P Require Import Metrics.
From S2P Require Import Tracing.
From S2P Require Import Sink.
From S2P Require Import Pipeline.
From S2P Require Import Venue.
From S2P Require Import Binance.
From S2P Require Import Runner.
From S2P Require Import Cancel.
From S2P Require Import Config.
From S2P Require Import Ingestd.
From S2P Require Import System.

Local Open Scope Z_scope.

(** The pipeline runs, has returned, or the process has exited. *)
Inductive stage := Working | Flushed | Exited.

Record proc (P : Type) := mkProc { pr_world : world P; pr_cancelled : bool; pr_stage : stage }.
Arguments mkProc {P} _ _ _.
Arguments pr_world {P} _.
Arguments pr_cancelled {P} _.
Arguments pr_stage {P} _.

Definition w_state {P} (w : world P) : state P := sy_state (w_sys w).
Definition with_state {P} (w : world P) (st : state P) : world P :=
  mkWorld (w_left w) (w_sent w) (mkSys (sy_queue (w_sys w)) st).
Definition with_left {P} (w : world P) (left : list (list (emit source_frame))) : world P :=
  mkWorld left (w_sent w) (w_sys w).
Definition with_prod {P} (st : state P) (prod : P) : state P :=
  mkState (s_det st) prod (s_batch st) (s_stats st) (s_metrics st).

Section proc.
Context `{AvroLib, Otel} {P : Type} `{Producer P}.
Context (p : Pipeline) (ctx : context) (cap : nat).

Inductive proc_step : proc P -> proc P -> Prop :=
  | proc_work w w' c :
      world_step p ctx cap w w' -> proc_step (mkProc w c Working) (mkProc w' c Working)
  | proc_signal w : proc_step (mkProc w false Working) (mkProc w true Working)
  | proc_cut w i e tr after s :
      s <> Exited -> w_left w !! i = Some (e :: tr) -> cut e = Some after ->
      proc_step (mkProc w true s) (mkProc (with_left w (<[i := after]> (w_left w))) true s)
  | proc_flush w :
      proc_step (mkProc w true Working) (mkProc (with_state w (final_flush (w_state w))) true Flushed)
  | proc_runner w w' i :
      world_next p ctx cap w (TRunner i) = Some w' ->
      proc_step (mkProc w true Flushed) (mkProc w' true Flushed)
  | proc_exit w prod err :
      Forall (eq []) (w_left w) -> Close (s_prod (w_state w)) = (prod, err) ->
      proc_step (mkProc w true Flushed) (mkProc (with_state w (with_prod (w_state w) prod)) true Exited).
End proc.

Definition boot `{UnicodeMap} {P} (cfg : Config) (tokens : list string)
    (scripts : nat -> list attempt_script) (prod : P) : proc P :=
  mkProc (start cfg tokens scripts prod) false Working.

(** What closing a producer keeps. *)
Class ClosingLog (P : Type) `{AtomicProducer P} := close_log : forall p, plog (Close p).1 = plog p.
#[export] Instance MemoryProducer_Closing : ClosingLog MemoryProducer.
Proof. done. Qed.

(** ** Termination *)

Section termination.
Context `{AvroLib, Otel} {P : Type} `{Producer P}.
Context (p : Pipeline) (ctx : context) (cap : nat).

(** An action counts twice, except the close of a connection. *)
Definition weight (e : emit source_frame) : nat := match e with EClose => 1 | _ => 2 end.
Definition shutdown_work (w : world P) : nat := sum_list_with (sum_list_with weight) (w_left w).

Lemma cut_lighter e tr after :
  cut e = Some after -> (sum_list_with weight after < sum_list_with weight (e :: tr))%nat.
Proof. destruct e; intros [= <-]; cbn; lia. Qed.

Lemma runner_next_spec w w' i :
  world_next p ctx cap w (TRunner i) = Some w' ->
  exists e tr d, w_left w !! i = Some (e :: tr) /\ w_left w' = <[i := tr]> (w_left w)
    /\ w_sent w' = w_sent w ++ sent_events_of i e
    /\ sy_queue (w_sys w') = sy_queue (w_sys w) ++ map snd (sent_events_of i e)
    /\ (length (sy_queue (w_sys w)) <= cap -> length (sy_queue (w_sys w')) <= cap)%nat
    /\ w_state w' = with_det (w_state w) d.
Proof.
  unfold world_next. destruct (w_left w !! i) as [[|e tr]|] eqn:Hi; [done| |done].
  assert (forall st : state P, st = with_det st (s_det st)) as Heta by (by intros []).
  intros Hn. exists e, tr. unfold w_state. destruct (runner_action e) as [[ev|v| |]|] eqn:Ea.
  - destruct e; try discriminate Ea. injection Ea as ->. unfold do_action in Hn.
    destruct (Nat.ltb_spec (length (sy_queue (w_sys w))) cap) as [Hl|Hl]; [|done].
    injection Hn as <-. exists (s_det (sy_state (w_sys w))). cbn. split_and!; try done.
    intros _. rewrite length_app. cbn. lia.
  - destruct e; try discriminate Ea. injection Hn as <-. eexists. cbn. by rewrite !app_nil_r.
  - by destruct e.
  - by destruct e.
  - injection Hn as <-. exists (s_det (sy_state (w_sys w))).
    destruct e; try discriminate Ea; cbn; rewrite !app_nil_r; by split_and!.
Qed.

(** What is not looked at by a cancelled runner is never blocked. *)
Lemma uncut_runs w i e tr :
  w_left w !! i = Some (e :: tr) -> cut e = None ->
  exists w', world_next p ctx cap w (TRunner i) = Some w'.
Proof. intros Hi Hc. unfold world_next. rewrite Hi. destruct e; try discriminate Hc; by eexists. Qed.

Lemma flushed_step w pr :
  proc_step p ctx cap (mkProc w true Flushed) pr ->
  pr_stage pr = Exited \/ (exists w', pr = mkProc w' true Flushed /\ (shutdown_work w' < shutdown_work w)%nat).
Proof.
  unfold shutdown_work. inversion 1 as [| |w0 i e tr after s Hs Hi Hc| |w0 w' i Hn|]; subst; [right|right|by left].
  - eexists. split; [reflexivity|]. cbn [with_left w_left].
    pose proof (sum_with_insert (sum_list_with weight) _ _ _ after Hi). pose proof (cut_lighter e tr after Hc). lia.
  - eexists. split; [reflexivity|]. destruct (runner_next_spec _ _ _ Hn) as (e & tr & d & Hi & -> & _).
    pose proof (sum_with_insert (sum_list_with weight) _ _ _ tr Hi) as Hsum. cbn [sum_list_with] in Hsum.
    assert (1 <= weight e)%nat by (destruct e; cbn; lia). lia.
Qed.

Lemma exited_final w pr : ~ proc_step p ctx cap (mkProc w true Exited) pr.
Proof. by inversion 1. Qed.

Lemma flushed_progress w : exists pr, proc_step p ctx cap (mkProc w true Flushed) pr.
Proof.
  destruct (no_work (w_left w)) as [Hleft|(i & e & tr & Hi)].
  - destruct (Close (s_prod (w_state w))) as [prod err] eqn:E. eexists. by eapply proc_exit.
  - destruct (cut e) as [after|] eqn:Hc; [eexists; by eapply proc_cut|].
    destruct (uncut_runs w i e tr Hi Hc) as [w' Hn]. eexists. by eapply proc_runner.
Qed.
End termination.

(** ** The runners *)

Section runners.
Context `{UnicodeMap} {P : Type} (cfg : Config) (built : list source * gmap string nat).

Definition trace_of (i : nat) (d : source) (script : list attempt_script) : list (emit source_frame) :=
  (Run (source_runner cfg built.2 i) d script).1.1.

(** The part of each trace that is over, with the events it has sent. *)
Definition consumed (scripts : nat -> list attempt_script) (left : list (list (emit source_frame)))
    (sent : list (nat * Event)) : Prop :=
  forall i d, built.1 !! i = Some d -> exists over rest,
    left !! i = Some rest /\ trace_of i d (scripts i) = over ++ rest
    /\ events_of over = sent_by_runner i sent.
Definition returning (scripts : nat -> list attempt_script) : Prop :=
  forall i d, built.1 !! i = Some d -> (Run (source_runner cfg built.2 i) d (scripts i)).2 = Returned None.

Lemma events_of_sent i (e : emit source_frame) : events_of [e] = sent_by_runner i (sent_events_of i e).
Proof. destruct e; cbn; try done. unfold sent_by_runner. cbn. by rewrite Nat.eqb_refl. Qed.

Lemma consumed_step scripts left sent i e tr :
  left !! i = Some (e :: tr) -> consumed scripts left sent ->
  consumed scripts (<[i := tr]> left) (sent ++ sent_events_of i e).
Proof.
  intros Hi Hc j d Hj. destruct (Hc j d Hj) as (over & rest & Hl & Ht & He).
  destruct (decide (i = j)) as [<-|Hij].
  - rewrite Hi in Hl. injection Hl as <-. exists (over ++ [e]), tr.
    split; [apply list_lookup_insert_eq; by eapply lookup_lt_Some|]. split.
    + by rewrite <- (assoc_L (++)).
    + by rewrite events_of_app, He, sent_by_runner_app, <- (events_of_sent i e).
  - exists over, rest. rewrite list_lookup_insert_ne by done. split_and!; try done.
    by rewrite sent_by_runner_app, sent_events_other, app_nil_r by done.
Qed.

(** A runner that is stopped is on another script. *)
Lemma consumed_cut scripts left sent i e tr after :
  left !! i = Some (e :: tr) -> cut e = Some after -> consumed scripts left sent -> returning scripts ->
  exists scripts', consumed scripts' (<[i := after]> left) sent /\ returning scripts'.
Proof.
  intros Hi Hcut Hc Hret. destruct (built.1 !! i) as [d|] eqn:Hd.
  2: { exists scripts. split; [|done]. intros j d Hj. rewrite list_lookup_insert_ne by congruence. by apply Hc. }
  destruct (Hc i d Hd) as (over & rest & Hl & Ht & He). rewrite Hi in Hl. injection Hl as <-.
  destruct (run_loop_cut _ _ _ _ _ _ _ _ Ht Hcut) as (script' & d2 & Hrun).
  exists (fun j => if decide (j = i) then script' else scripts j). split.
  - intros j d' Hj. destruct (decide (j = i)) as [->|Hij].
    + rewrite Hd in Hj. injection Hj as <-. exists over, after.
      split; [apply list_lookup_insert_eq; by eapply lookup_lt_Some|]. split; [|done].
      unfold trace_of, Run. by rewrite Hrun.
    + rewrite list_lookup_insert_ne by done. by apply Hc.
  - intros j d' Hj. destruct (decide (j = i)) as [->|Hij]; [|by apply Hret].
    rewrite Hd in Hj. injection Hj as <-. unfold Run. by rewrite Hrun.
Qed.
End runners.

(** ** The pipeline and its last publish *)

Section pipeline.
Context `{AvroLib, Otel} {P : Type} `{AtomicProducer P}.
Context (p : Pipeline) (ctx : context) (cap : nat) (log0 : list Message).
Hypothesis Hpending : 0 < p_MaxPendingEvents p.

(** While the pipeline runs: the invariant of System.v without the runners. *)
Definition working_inv (w : world P) : Prop :=
  (length (sy_queue (w_sys w)) <= cap)%nat
  /\ exists rcv F pub,
    map snd (w_sent w) = rcv ++ sy_queue (w_sys w)
    /\ pipeline_inv p log0 F (w_state w) pub
    /\ Z.of_nat (length (s_batch (w_state w))) <= retention p
    /\ F `sublist_of` omap (frame_message p ctx) rcv
    /\ Z.of_nat (length rcv) = st_Received (s_stats (w_state w)).

(** After the last publish: [unsent] messages of the batch are given up. *)
Definition flushed_inv (w : world P) : Prop :=
  (length (sy_queue (w_sys w)) <= cap)%nat
  /\ exists rcv pub unsent,
    map snd (w_sent w) = rcv ++ sy_queue (w_sys w)
    /\ plog (s_prod (w_state w)) = log0 ++ pub
    /\ pub `sublist_of` omap (frame_message p ctx) rcv
    /\ Z.of_nat (length rcv)
       = rejected p (s_stats (w_state w)) + st_Dropped (s_stats (w_state w))
         + Z.of_nat (length pub) + unsent
    /\ 0 <= unsent <= Z.max 0 (retention p)
    /\ ((forall (q : P) ms, (Publish q ms).1.2 = None) -> unsent = 0).

Lemma sent_self {M} (l : list Event) : events_of (map (EEvent (M:=M)) l) = l.
Proof. apply events_of_events. Qed.

Lemma working_step w w' : world_step p ctx cap w w' -> working_inv w -> working_inv w'.
Proof.
  intros Hs [Hc Hp].
  set (left0 := imap (fun i l => map EEvent (sent_by_runner i (w_sent w)) ++ l) (w_left w)).
  assert (world_inv p ctx cap left0 log0 w) as Hw.
  { split; [done| | |done].
    - subst left0. by rewrite length_imap.
    - intros i tr Hi. subst left0. rewrite list_lookup_imap in Hi. apply fmap_Some in Hi as (l & Hl & ->).
      exists l. split; [done|]. by rewrite events_of_app, sent_self. }
  by destruct (world_step_inv p ctx cap left0 log0 Hpending w w' Hs Hw) as [Hc' _ _ Hp'].
Qed.

Lemma working_flush w : working_inv w -> flushed_inv (with_state w (final_flush (w_state w))).
Proof.
  intros [Hc (rcv & F & pub & Hs & Hinv & Hb & HF & Hn)]. split; [done|].
  destruct Hinv as [Hlog _ _ Hord Hlen Hrec _]. cbn [with_state w_sent w_sys sy_queue w_state sy_state].
  unfold final_flush, w_state in *. set (st := sy_state (w_sys w)) in *.
  destruct (Publish (s_prod st) (s_batch st)) as [[prod' [e|]] ms] eqn:E; cbn [s_prod s_stats].
  - exists rcv, pub, (Z.of_nat (length (s_batch st))). split_and!; try done.
    + cbn. by rewrite (publish_err _ _ _ _ _ E), Hlog.
    + etrans; [|exact HF]. etrans; [|exact Hord]. by apply sublist_inserts_r.
    + destruct (0 <? length (s_batch st))%nat; unfold rejected in *; cbn; lia.
    + lia.
    + lia.
    + intros Hr. specialize (Hr (s_prod st) (s_batch st)). by rewrite E in Hr.
  - exists rcv, (pub ++ s_batch st), 0. split_and!; try done; try lia.
    + cbn. by rewrite (publish_ok _ _ _ _ E), Hlog, (assoc_L (++)).
    + by etrans.
    + rewrite length_app. unfold rejected in *; cbn. lia.
Qed.

Lemma flushed_runner w w' i :
  world_next p ctx cap w (TRunner i) = Some w' -> flushed_inv w -> flushed_inv w'.
Proof.
  intros Hn [Hc (rcv & pub & unsent & Hs & Hrest)].
  destruct (runner_next_spec p ctx cap w w' i Hn) as (e & tr & d & _ & _ & Hsent & Hq & Hcap & Hst).
  split; [auto|]. exists rcv, pub, unsent. rewrite Hst, Hsent, Hq, map_app, Hs, <- (assoc_L (++)). by split.
Qed.

Lemma flushed_close `{!ClosingLog P} w prod err :
  Close (s_prod (w_state w)) = (prod, err) -> flushed_inv w ->
  flushed_inv (with_state w (with_prod (w_state w) prod)).
Proof.
  intros Hcl [Hc (rcv & pub & unsent & Hs & Hlog & Hrest)]. split; [done|]. exists rcv, pub, unsent.
  pose proof (close_log (s_prod (w_state w))) as Hk. rewrite Hcl in Hk. cbn [fst] in Hk.
  split; [done|]. split; [cbn; by rewrite Hk|done].
Qed.
End pipeline.

(** ** The process *)

Section process.
Context `{UnicodeMap, AvroLib, Otel} {P : Type} `{ClosingLog P}.
Context (cfg : Config) (built : list source * gmap string nat) (p : Pipeline) (ctx : context) (cap : nat)
  (log0 : list Message).
Hypothesis Hpending : 0 < p_MaxPendingEvents p.

Definition proc_inv (pr : proc P) : Prop :=
  (exists scripts, consumed cfg built scripts (w_left (pr_world pr)) (w_sent (pr_world pr))
     /\ returning cfg built scripts)
  /\ match pr_stage pr with
     | Working => working_inv p ctx cap log0 (pr_world pr)
     | Flushed => flushed_inv p ctx cap log0 (pr_world pr)
     | Exited => flushed_inv p ctx cap log0 (pr_world pr) /\ Forall (eq []) (w_left (pr_world pr))
     end.

Lemma world_consumed scripts w w' :
  world_step p ctx cap w w' -> consumed cfg built scripts (w_left w) (w_sent w) ->
  consumed cfg built scripts (w_left w') (w_sent w').
Proof.
  destruct 1 as [left sent s s' i e tr Hi _|]; cbn [w_left w_sent]; [|done]. by apply consumed_step.
Qed.

Lemma proc_step_inv pr pr' : proc_step p ctx cap pr pr' -> proc_inv pr -> proc_inv pr'.
Proof.
  intros Hstep [(scripts & Hc & Hret) Hst].
  destruct Hstep as [w w' c Hw|w|w i e tr after s Hs Hi Hcut|w|w w' i Hn|w prod err Hleft Hcl];
    cbn [pr_world pr_stage] in *.
  - split; [exists scripts; split; [by eapply world_consumed|done]|by eapply working_step].
  - split; [by exists scripts|done].
  - split; [by eapply consumed_cut|]. by destruct s.
  - split; [by exists scripts|]. by apply working_flush.
  - split; [|by eapply flushed_runner]. exists scripts. split; [|done]. cbn [pr_world].
    destruct (runner_next_spec p ctx cap w w' i Hn) as (e & tr & d & Hi & -> & -> & _). by apply consumed_step.
  - split; [by exists scripts|]. split; [by eapply flushed_close|done].
Qed.

Lemma proc_reach_inv pr pr' : rtc (proc_step p ctx cap) pr pr' -> proc_inv pr -> proc_inv pr'.
Proof. induction 1; eauto using proc_step_inv. Qed.
End process.

Lemma boot_inv `{UnicodeMap, AvroLib, Otel} {P} `{ClosingLog P} p ctx cap cfg tokens scripts (prod : P) :
  0 < p_MaxPendingEvents p -> returning cfg (buildDecoders cfg tokens) scripts ->
  proc_inv cfg (buildDecoders cfg tokens) p ctx cap (plog prod) (boot cfg tokens scripts prod).
Proof.
  intros Hpend Hret. split.
  - exists scripts. split; [|done]. intros i d Hd. exists [], (trace_of cfg (buildDecoders cfg tokens) i d (scripts i)).
    split; [|done]. cbn. rewrite traces_lookup. by rewrite Hd.
  - destruct (start_inv p ctx cap cfg tokens scripts prod Hpend) as [Hc _ _ Hp]. by split.
Qed.

(** ** Bounded work after the signal *)

Section halting.
Context `{UnicodeMap, AvroLib, Otel} {P : Type} `{Producer P}.
Context (p : Pipeline) (ctx : context) (cap : nat).
Context (cfg : Config) (built : list source * gmap string nat) (halts : nat -> halt).

Definition halting_run (i : nat) (d : source) (script : list attempt_script) :=
  Run (source_runner cfg built.2 i) d script.

(** The moment of the signal: every runner has done at least what its environment had
    answered until then, and is on the script of a context that stays cancelled. *)
Definition signalled (w : world P) : Prop :=
  length (w_left w) = length built.1
  /\ forall i d, built.1 !! i = Some d ->
       (halting_run i d (h_before (halts i) ++ [ACancelled])).2 <> Running
       /\ exists over rest, w_left w !! i = Some rest
            /\ (halting_run i d (halted (halts i))).1.1 = over ++ rest
            /\ (halting_run i d (so_far (halts i))).1.1 `prefix_of` over.

(** What the runners may still do, whatever the venues go on sending. *)
Definition halting_work : nat :=
  sum_list (imap (fun i d =>
    halt_work (source_runner cfg built.2 i) (halting_run i d (so_far (halts i))).1.2 (h_place (halts i))) built.1).

Lemma weight_length (tr : list (emit source_frame)) : (sum_list_with weight tr <= 2 * length tr)%nat.
Proof. induction tr as [|e tr IH]; cbn; [lia|]. destruct e; cbn; lia. Qed.

Lemma sum_with_imap {A B} (f : A -> nat) (g : nat -> B -> nat) (l : list A) (l' : list B) :
  length l = length l' -> (forall i a b, l !! i = Some a -> l' !! i = Some b -> f a <= 2 * g i b)%nat ->
  (sum_list_with f l <= 2 * sum_list (imap g l'))%nat.
Proof.
  revert g l'. induction l as [|a l IH]; intros g [|b l'] Hlen Hle; try done. cbn.
  pose proof (Hle 0%nat a b eq_refl eq_refl).
  specialize (IH (fun i => g (S i)) l'). unfold compose in *.
  assert (sum_list_with f l <= 2 * sum_list (imap (fun i => g (S i)) l'))%nat; [|cbn in *; lia].
  apply IH; [by injection Hlen|]. intros i a' b' Ha Hb. by apply (Hle (S i)).
Qed.

Lemma halting_returns i d :
  (halting_run i d (h_before (halts i) ++ [ACancelled])).2 <> Running ->
  exists tail, (halting_run i d (halted (halts i))).1.1 = (halting_run i d (so_far (halts i))).1.1 ++ tail
    /\ (halting_run i d (halted (halts i))).2 = Returned None
    /\ (length tail <= halt_work (source_runner cfg built.2 i) (halting_run i d (so_far (halts i))).1.2
                        (h_place (halts i)))%nat.
Proof.
  unfold halting_run, Run. intros Hend.
  pose proof (run_loop_halts (runner_defaults (source_runner cfg built.2 i)) d 0 (halts i) ltac:(done) Hend) as Hh.
  destruct (run_loop _ d 0 (so_far (halts i))) as [[tr d1] o]. destruct Hh as (tail & d2 & -> & Hlen).
  exists tail. split_and!; [done..|]. cbn [fst snd]. by destruct (h_place (halts i)).
Qed.

Lemma signalled_work w : signalled w -> (shutdown_work w <= 2 * halting_work)%nat.
Proof.
  intros [Hlen Hall]. apply sum_with_imap; [done|]. intros i rest d Hi Hd.
  destruct (Hall i d Hd) as (Hend & over & rest' & Hi' & Ht & (mid & Hover)).
  rewrite Hi in Hi'. injection Hi' as <-. destruct (halting_returns i d Hend) as (tail & Htail & _ & Hle).
  rewrite Htail, Hover, <- (assoc_L (++)) in Ht. apply app_inv_head in Ht.
  pose proof (weight_length rest). assert (length rest <= length tail)%nat by (rewrite Ht, length_app; lia). lia.
Qed.

(** The work never grows. *)
Lemma work_step pr pr' :
  proc_step p ctx cap pr pr' -> (shutdown_work (pr_world pr') <= shutdown_work (pr_world pr))%nat.
Proof.
  unfold shutdown_work. destruct 1 as [w w' c Hw|w|w i e tr after s Hs Hi Hc|w|w w' i Hn|w prod err Hl Hcl];
    cbn [pr_world with_state with_left w_left]; try lia.
  - destruct Hw as [left sent s s' i e tr Hi _|]; cbn [w_left]; [|lia].
    pose proof (sum_with_insert (sum_list_with weight) _ _ _ tr Hi) as Hsum. cbn [sum_list_with] in Hsum. lia.
  - pose proof (sum_with_insert (sum_list_with weight) _ _ _ after Hi). pose proof (cut_lighter e tr after Hc). lia.
  - destruct (runner_next_spec p ctx cap _ _ _ Hn) as (e & tr & d & Hi & -> & _).
    pose proof (sum_with_insert (sum_list_with weight) _ _ _ tr Hi) as Hsum. cbn [sum_list_with] in Hsum. lia.
Qed.

Lemma work_run pr pr' :
  rtc (proc_step p ctx cap) pr pr' -> (shutdown_work (pr_world pr') <= shutdown_work (pr_world pr))%nat.
Proof. induction 1 as [|pr pr1 pr2 Hs _ IH]; [done|]. apply work_step in Hs. lia. Qed.

Lemma flushed_bound n w pr :
  nsteps (proc_step p ctx cap) n (mkProc w true Flushed) pr -> (n <= S (shutdown_work w))%nat.
Proof.
  revert w. induction n as [|n IH]; intros w Hn; [lia|]. inversion Hn as [|? ? pr1 ? Hs Hn']; subst.
  destruct (flushed_step p ctx cap w pr1 Hs) as [Hex|(w' & -> & Hlt)].
  - destruct n as [|n]; [lia|]. inversion Hn' as [|? ? ? ? Hs']; subst. by destruct Hs'; cbn in Hex.
  - specialize (IH _ Hn'). lia.
Qed.

Lemma flushed_run w pr :
  rtc (proc_step p ctx cap) (mkProc w true Flushed) pr ->
  pr_stage pr = Exited \/ exists pr', proc_step p ctx cap pr pr'.
Proof.
  intros Hr. remember (mkProc w true Flushed) as pr0 eqn:E. revert w E.
  induction Hr as [pr|pr pr1 pr2 Hs Hr IH]; intros w ->; [right; apply flushed_progress|].
  destruct (flushed_step p ctx cap w pr1 Hs) as [Hex|(w' & -> & _)]; [|by eapply IH].
  left. destruct Hr as [|pr1 pr3 pr4 Hs' _]; [done|]. by destruct Hs'; cbn in Hex.
Qed.
End halting.

(** ** Properties *)

(** C3. What a process that has exited has done. Each runner has made one complete run,
    which returned nil, and everything it sent was received or is one of the events
    left in the channel, at most its capacity: these are lost. Of the events received,
    in order, every one is published or counted (a duplicate, an encoding error, a
    drop), but for the batch of a last publish that failed; with a producer that does
    not fail there is none. *)
Theorem shutdown_delivery `{UnicodeMap, AvroLib, Otel} {P} `{ClosingLog P}
    cfg encoders tokens scripts ctx (prod : P) pr :
  let built := buildDecoders cfg tokens in
  let p := with_defaults (build_pipeline cfg encoders) in
  let cap := Z.to_nat (BufferSize cfg) in
  let w := pr_world pr in
  let stats := s_stats (w_state w) in
  returning cfg built scripts ->
  rtc (proc_step p ctx cap) (boot cfg tokens scripts prod) pr -> pr_stage pr = Exited ->
  (forall i d, built.1 !! i = Some d -> exists script,
     sent_by_runner i (w_sent w) = events_of (Run (source_runner cfg built.2 i) d script).1.1
     /\ (Run (source_runner cfg built.2 i) d script).2 = Returned None)
  /\ exists received published unsent,
       map snd (w_sent w) = received ++ sy_queue (w_sys w)
       /\ (length (sy_queue (w_sys w)) <= cap)%nat
       /\ plog (s_prod (w_state w)) = plog prod ++ published
       /\ published `sublist_of` omap (frame_message p ctx) received
       /\ Z.of_nat (length received)
          = st_Duplicates stats + st_EncodeErrs stats + st_Dropped stats
            + Z.of_nat (length published) + unsent
       /\ 0 <= unsent <= Z.max 0 (retention p)
       /\ ((forall (q : P) ms, (Publish q ms).1.2 = None) -> unsent = 0).
Proof.
  intros built p cap w stats Hret Hrun Hex.
  destruct (with_defaults_pos (build_pipeline cfg encoders)) as [_ Hpend].
  destruct (proc_reach_inv cfg built p ctx cap (plog prod) Hpend _ _ Hrun
              (boot_inv p ctx cap cfg tokens scripts prod Hpend Hret)) as [(scripts' & Hc & Hret') Hst].
  rewrite Hex in Hst. destruct Hst as [[Hcap (rcv & pub & unsent & Hs & Hlog & Hsub & Hn & Hu & Hr)] Hleft].
  split.
  - intros i d Hd. exists (scripts' i). split; [|by apply Hret'].
    destruct (Hc i d Hd) as (over & rest & Hl & Ht & He). pose proof (Forall_lookup_1 _ _ _ _ Hleft Hl) as <-.
    rewrite app_nil_r in Ht. unfold trace_of in Ht. rewrite Ht. symmetry. exact He.
  - exists rcv, pub, unsent. fold w in Hcap, Hs, Hlog, Hn. split_and!; try done; try lia.
    change (rejected p (s_stats (w_state w))) with (st_Duplicates stats + 0 + st_EncodeErrs stats) in Hn.
    fold stats in Hn. lia.
Qed.

(** C4. Shutdown ends, however much the venues would still send. Take the moment of the
    signal, each runner anywhere in its run, and from there on an environment in which
    every look at the context finds it cancelled but frames, of any number, keep coming
    and new connections could be made. Every runner's [Run] returns nil. Once the
    pipeline has made its last publish, however long it took to notice the signal, no
    schedule makes more than [1 + 2 * halting_work] steps, and [halting_work] counts only
    the subscriptions of a connection being made or the events of the one frame being
    read, and at most four more actions a runner; and, though the channel may be full, no
    schedule is stuck before the exit. *)
Theorem shutdown_terminates `{UnicodeMap, AvroLib, Otel} {P} `{Producer P} p ctx cap cfg tokens halts (w : world P) :
  let step := proc_step p ctx cap in
  let built := buildDecoders cfg tokens in
  signalled cfg built halts w ->
  (forall i d, built.1 !! i = Some d ->
     (Run (source_runner cfg built.2 i) d (halted (halts i))).2 = Returned None)
  /\ forall w', rtc step (mkProc w true Working) (mkProc w' true Flushed) ->
       (forall n pr, nsteps step n (mkProc w' true Flushed) pr -> (n <= 1 + 2 * halting_work cfg built halts)%nat)
       /\ (forall pr, rtc step (mkProc w' true Flushed) pr -> pr_stage pr = Exited \/ exists pr', step pr pr').
Proof.
  intros step built Hsig. split.
  - intros i d Hd. destruct Hsig as [_ Hall]. destruct (Hall i d Hd) as [Hend _].
    destruct (halting_returns cfg built halts i d Hend) as (tail & _ & Hret & _). exact Hret.
  - intros w' Hw. apply work_run in Hw. cbn [pr_world] in Hw. apply signalled_work in Hsig. split.
    + intros n pr Hn. apply flushed_bound in Hn. lia.
    + apply flushed_run.
Qed.

(** ** A concrete shutdown *)

Lemma proc_work_rtc `{AvroLib, Otel} {P} `{Producer P} p ctx cap c (w w' : world P) :
  rtc (world_step p ctx cap) w w' -> rtc (proc_step p ctx cap) (mkProc w c Working) (mkProc w' c Working).
Proof. induction 1; [done|]. eapply rtc_l; [by apply proc_work|done]. Qed.

#[local] Existing Instance toy_avro.
#[local] Existing Instance no_otel.
#[local] Existing Instance unicode_id.

(** The dry run of System.v, with a context that is cancelled after the first trade. *)
Definition quit_scripts (_ : nat) : list attempt_script :=
  [ASession (mkSession None [] [example_frame "7"; TCtxErr ErrCanceled]) f64_zero false].
Definition quit_start : world MemoryProducer := start small_config [] quit_scripts NewMemoryProducer.
Definition quit_world : world MemoryProducer :=
  default quit_start (world_exec small_system ex_ctx 2 quit_start (repeat (TRunner 0) 6 ++ [TReceive])).
Definition quit_flushed : world MemoryProducer := with_state quit_world (final_flush (w_state quit_world)).
Definition quit_end : proc MemoryProducer :=
  mkProc (with_state quit_flushed
            (with_prod (w_state quit_flushed) (Close (s_prod (w_state quit_flushed))).1)) true Exited.

Lemma quit_work : rtc (world_step small_system ex_ctx 2) quit_start quit_world.
Proof. apply (world_exec_rtc _ _ _ _ (repeat (TRunner 0) 6 ++ [TReceive])). vm_compute. reflexivity. Qed.

Lemma quit_idle : Forall (eq []) (w_left quit_flushed).
Proof.
  assert (forallb (fun l => bool_decide (l = [])) (w_left quit_flushed) = true) as Hl by (vm_compute; reflexivity).
  apply List.Forall_forall. intros l Hin. pose proof (proj1 (forallb_forall _ _) Hl l Hin) as Hd.
  by apply bool_decide_eq_true_1 in Hd.
Qed.

Lemma quit_reach : rtc (proc_step small_system ex_ctx 2) (boot small_config [] quit_scripts NewMemoryProducer) quit_end.
Proof.
  unfold boot. fold quit_start.
  etransitivity; [exact (proc_work_rtc small_system ex_ctx 2 false quit_start quit_world quit_work)|].
  eapply rtc_l; [apply proc_signal|]. eapply rtc_l; [apply proc_flush|]. fold quit_flushed.
  apply rtc_once. exact (proc_exit small_system ex_ctx 2 quit_flushed _ None quit_idle eq_refl).
Qed.

Lemma quit_returning : returning small_config (buildDecoders small_config []) quit_scripts.
Proof.
  intros [|i] d Hd; [|by destruct i]. injection Hd as <-. vm_compute. reflexivity.
Qed.

Lemma shutdown_delivery_witness :
  length (plog (s_prod (w_state (pr_world quit_end)))) = 1%nat
  /\ exists received published unsent,
    map snd (w_sent (pr_world quit_end)) = received ++ sy_queue (w_sys (pr_world quit_end))
    /\ plog (s_prod (w_state (pr_world quit_end))) = published
    /\ Z.of_nat (length received) = Z.of_nat (length published) + unsent.
Proof.
  split; [vm_compute; reflexivity|].
  destruct (proj2 (shutdown_delivery small_config small_encoders [] quit_scripts ex_ctx NewMemoryProducer quit_end
                     quit_returning quit_reach eq_refl)) as (rcv & pub & unsent & Hs & _ & Hl & _ & Hn & _).
  exists rcv, pub, unsent. split; [exact Hs|]. split; [exact Hl|].
  replace (st_Duplicates _ + st_EncodeErrs _ + st_Dropped _) with 0 in Hn by (vm_compute; reflexivity). exact Hn.
Defined.

(** The signal comes while the only runner reads its first frame; the venue would go on
    for ever. *)
Definition quit_halts (_ : nat) : halt :=
  mkHalt [] (InTurn [] [] (example_frame "7"))
    (mkRest (repeat (example_frame "8") 5) f64_zero false
       [ASession (mkSession None [] (repeat (example_frame "9") 5)) f64_zero false]).
Definition quit_signal : world MemoryProducer :=
  let w := start small_config [] (fun i => halted (quit_halts i)) NewMemoryProducer in
  default w (world_exec small_system ex_ctx 2 w (repeat (TRunner 0) 3)).

Lemma quit_signalled : signalled small_config (buildDecoders small_config []) quit_halts quit_signal.
Proof.
  split; [vm_compute; reflexivity|]. intros [|i] d Hd; [|by destruct i].
  injection Hd as <-. split; [by vm_compute|].
  exists (take 3 (trace_of small_config (buildDecoders small_config []) 0 (SBinance (NewBinance (Symbols small_config) (BinanceDepthMS small_config))) (halted (quit_halts 0)))).
  eexists. split; [vm_compute; reflexivity|]. split; [vm_compute; reflexivity|].
  exists []. vm_compute. reflexivity.
Qed.

Lemma shutdown_terminates_witness :
  halting_work small_config (buildDecoders small_config []) quit_halts = 4%nat
  /\ forall n pr, nsteps (proc_step small_system ex_ctx 2)
        n (mkProc (with_state quit_signal (final_flush (w_state quit_signal))) true Flushed) pr -> (n <= 9)%nat.
Proof.
  assert (halting_work small_config (buildDecoders small_config []) quit_halts = 4%nat) as Hw
    by (vm_compute; reflexivity).
  split; [exact Hw|]. intros n pr Hn.
  pose proof (proj1 (proj2 (shutdown_terminates small_system ex_ctx 2 small_config [] quit_halts quit_signal
                quit_signalled) _ (rtc_once _ _ (proc_flush _ _ _ quit_signal))) n pr Hn) as Hle.
  rewrite Hw in Hle. exact Hle.
Defined.
