(* ===== verification/GoRand.v ===== *)
(** * Package [math/rand]

    The generators of the tools. A source is a state; what it yields is not
    specified beyond the documented ranges ([LawfulRand]). *)

From S2P Require Import Prelude.
From S2P Require Import GoStrings.
From S2P Require Import GoStrconv.
From S2P Require Import Encode.

Local Open Scope Z_scope.

Class MathRand := {
  source : Type;
  NewSource : Z -> source;
  Read : source -> nat -> list byte * source;
  Intn : source -> Z -> Z * source;
  Float64 : source -> float64 * source;
}.

Class LawfulRand `{MathRand} := {
  Read_length : forall s n, length (Read s n).1 = n;
  Intn_range : forall s n, 0 < n -> 0 <= (Intn s n).1 < n;
  Float64_range : forall s,
    f64_le f64_zero (Float64 s).1 = true /\ f64_lt (Float64 s).1 (f64_of_Z 1) = true;
}.

(** The least random of them, for concrete runs. *)
Definition constant_rand : MathRand := {|
  source := unit; NewSource _ := tt; Read _ n := (repeat Byte.x2a n, tt); Intn _ _ := (0, tt);
  Float64 _ := (f64 "0.5", tt) |}.

Lemma constant_lawful : @LawfulRand constant_rand.
Proof. split; cbn; [intros; apply repeat_length|intros; lia|intros _; split; vm_compute; reflexivity]. Qed.
