(* ===== verification/Topicbench.v ===== *)
(** * Command [topicbench]: a topic per event type against one topic for all

    [produce] writes every record twice, to the topic of its type and to the
    monolith; [consume] reads a topic until it has seen enough records of the
    wanted type. What the consumer reads is a script: a message or an error per
    call of [ReadMessage]; a script that ends leaves it blocked. The clock is the
    number [elapsed]. *)

From S2P Require Import Prelude.
From S2P Require Import GoStrings.
From S2P Require Import GoStrconv.
From S2P Require Import GoFmt.
From S2P Require Import Encode.
From S2P Require Import Sink.
From S2P Require Import GoRand.

Local Open Scope Z_scope.

Record kind := mkKind { k_name : string; k_topic : string; k_bytes : nat }.
Definition kinds : list kind :=
  [mkKind "trade" "bench.trades" 120; mkKind "book" "bench.book" 900; mkKind "quote" "bench.quotes" 180].
Definition monolithTopic : string := "bench.all".
Definition typeHeader : string := "event_type".

(** ** produce *)

Definition bench_symbols : list string := ["BTC-USD"; "ETH-USD"; "SOL-USD"].
(** [symbols[i%len(symbols)]]: the index of the loop is not negative. *)
Definition symbol_at (i : nat) : string :=
  List.nth (i mod length bench_symbols) bench_symbols "".

Section bench.
Context `{KafkaLib, MathRand}.

Record pstate := mkPstate { ps_w : kafka_Writer; ps_rng : source; ps_batch : list KafkaMessage }.

(** The closure [flush]: the batch is emptied whatever the write says. *)
Definition flush_batch (st : pstate) : pstate * option error :=
  match ps_batch st with
  | [] => (st, None)
  | batch =>
      let '(w, err, _) := WriteMessages (ps_w st) batch in (mkPstate w (ps_rng st) [], err)
  end.

(** The two messages of a record. *)
Definition both_layouts (i : nat) (k : kind) (payload : list byte) : list KafkaMessage :=
  let hdr := [(typeHeader, k_name k)] in
  [mkKafkaMessage (k_topic k) (symbol_at i) payload zero_time hdr;
   mkKafkaMessage monolithTopic (symbol_at i) payload zero_time hdr].

Definition produce_record (i : nat) (st : pstate) (k : kind) : pstate * option error :=
  let '(payload, rng) := Read (ps_rng st) (k_bytes k) in
  let st := mkPstate (ps_w st) rng (ps_batch st ++ both_layouts i k payload) in
  if (1000 <=? length (ps_batch st))%nat then flush_batch st else (st, None).

(** The loop over the kinds, and the loop over the records that are left. *)
Fixpoint produce_kinds (i : nat) (st : pstate) (ks : list kind) : pstate * option error :=
  match ks with
  | [] => (st, None)
  | k :: ks' =>
      match produce_record i st k with
      | (st, None) => produce_kinds i st ks'
      | (st, Some err) => (st, Some err)
      end
  end.
Fixpoint produce_loop (n i : nat) (st : pstate) : pstate * option error :=
  match n with
  | O => flush_batch st
  | S n' =>
      match produce_kinds i st kinds with
      | (st, None) => produce_loop n' (S i) st
      | (st, Some err) => (st, Some err)
      end
  end.

Definition bench_writer (brokers : string) : kafka_Writer :=
  new_Writer (mkWriterSettings (mkWriterConfig [brokers] 1 500 0 0 "" false) "" "hash" 0 false).

(** A negative [perType] produces nothing. *)
Definition produce (brokers : string) (perType : Z) : pstate * option error :=
  produce_loop (Z.to_nat perType) 0 (mkPstate (bench_writer brokers) (NewSource 42) []).
End bench.

(** ** consume *)

Record result := mkResult { delivered : Z; useful : Z; bytesRead : Z; elapsed : duration }.

Definition payload_size (m : KafkaMessage) : Z :=
  Z.of_nat (length (km_Value m)) + Z.of_nat (str_len (km_Key m)).

(** The headers that match the filter: each one counts. *)
Definition matching (filter : string) (m : KafkaMessage) : Z :=
  Z.of_nat (length (List.filter (fun h => String.eqb h.1 typeHeader && String.eqb h.2 filter)
                      (km_Headers m))).
Definition count_useful (filter : string) (m : KafkaMessage) : Z :=
  if String.eqb filter "" then 1 else matching filter m.

Fixpoint consume_loop (filter : string) (expectUseful : Z) (took : duration)
    (reads : list (KafkaMessage + error)) (res : result) : option (result * option error) :=
  if useful res <? expectUseful then
    match reads with
    | [] => None
    | inr err :: _ => Some (res, Some err)
    | inl m :: reads' =>
        consume_loop filter expectUseful took reads'
          (mkResult (delivered res + 1) (useful res + count_useful filter m)
             (bytesRead res + payload_size m) (elapsed res))
    end
  else Some (mkResult (delivered res) (useful res) (bytesRead res) took, None).

Definition consume (filter : string) (expectUseful : Z) (took : duration)
    (reads : list (KafkaMessage + error)) : option (result * option error) :=
  consume_loop filter expectUseful took reads (mkResult 0 0 0 0).

(** ** report and main *)

(** The two ratios of the report. *)
Definition amplification (perType monolith : result) : float64 :=
  f64_div (f64_of_Z (bytesRead monolith)) (f64_of_Z (bytesRead perType)).
Definition discarded (monolith : result) : float64 :=
  f64_mul (f64_div (f64_of_Z (delivered monolith - useful monolith)) (f64_of_Z (delivered monolith)))
    (f64_of_Z 100).

(** The topic of the target: the last kind of that name; the empty string is fatal. *)
Definition wanted_topic (target : string) : string :=
  fold_left (fun w k => if String.eqb (k_name k) target then k_topic k else w) kinds "".

(** The program up to its report; [serve topic] is what reading a topic yields. A
    fatal error ends the process. *)
Definition bench `{KafkaLib, MathRand} (brokers : string) (perType : Z) (target : string)
    (serve : kafka_Writer -> string -> list (KafkaMessage + error)) (took1 took2 : duration)
    : option (res (result * result)) :=
  let '(st, err) := produce brokers perType in
  match err with
  | Some err => Some (Err (EWrap "produce" err))
  | None =>
      let wanted := wanted_topic target in
      if String.eqb wanted "" then Some (Err (EMsg "unknown target"))
      else
        '(r1, err1) ← consume "" perType took1 (serve (ps_w st) wanted);
        match err1 with
        | Some err => Some (Err (EWrap "consume per-type" err))
        | None =>
            '(r2, err2) ← consume target perType took2 (serve (ps_w st) monolithTopic);
            match err2 with
            | Some err => Some (Err (EWrap "consume monolith" err))
            | None => Some (Ok (r1, r2))
            end
        end
  end.

Definition nl : string := unchars [char_of 10].

(** The text on the standard output. *)
Definition report_text (target : string) (perType monolith : result) : string :=
  let row label (left right : string) := label +:+ pad_right 13 left +:+ " " +:+ right +:+ nl in
  nl +:+ "Topic layout: per-type vs monolith" +:+ nl
  +:+ "==================================" +:+ nl
  +:+ "consumer wants            " +:+ target +:+ " only" +:+ nl
  +:+ nl
  +:+ "                          per-type      monolith" +:+ nl
  +:+ row "records delivered         " (FormatInt (delivered perType)) (FormatInt (delivered monolith))
  +:+ row "records useful            " (FormatInt (useful perType)) (FormatInt (useful monolith))
  +:+ row "bytes fetched             " (FormatInt (bytesRead perType)) (FormatInt (bytesRead monolith))
  +:+ row "elapsed                   " (Duration_String (Duration_Round (elapsed perType) millisecond))
        (Duration_String (Duration_Round (elapsed monolith) millisecond))
  +:+ nl
  +:+ "read amplification        " +:+ FormatFixed 2 (amplification perType monolith) +:+ "x" +:+ nl
  +:+ "records discarded         " +:+ FormatFixed 1 (discarded monolith) +:+ "%" +:+ nl.

(** The entries of topicbench-results.txt, and the file. *)
Definition results_entries (target : string) (perType monolith : result) : list (string * string) :=
  [("target", target);
   ("per_type_bytes", FormatInt (bytesRead perType)); ("monolith_bytes", FormatInt (bytesRead monolith));
   ("per_type_delivered", FormatInt (delivered perType));
   ("monolith_delivered", FormatInt (delivered monolith));
   ("per_type_ms", FormatInt (Milliseconds (elapsed perType)));
   ("monolith_ms", FormatInt (Milliseconds (elapsed monolith)));
   ("read_amplification", FormatFixed 2 (amplification perType monolith));
   ("discarded_pct", FormatFixed 1 (discarded monolith))].
Definition results_file (entries : list (string * string)) : string :=
  fold_right (fun kv rest => kv.1 +:+ "=" +:+ kv.2 +:+ nl +:+ rest) "" entries.

(** What is printed and, if the file can be created, what is written to it (the
    errors of its writes are ignored and left out here). *)
Definition report (created : bool) (target : string) (perType monolith : result) : string * option string :=
  (report_text target perType monolith,
   if created then Some (results_file (results_entries target perType monolith)) else None).

(** [main], the flags parsed: what it leaves behind, or the fatal error. *)
Definition main `{KafkaLib, MathRand} (brokers : string) (perType : Z) (target : string)
    (serve : kafka_Writer -> string -> list (KafkaMessage + error)) (took1 took2 : duration)
    (created : bool) : option (res (string * option string)) :=
  r ← bench brokers perType target serve took1 took2;
  Some (match r with
        | Ok (r1, r2) => Ok (report created target r1 r2)
        | Err e => Err e
        | Panic => Panic
        end).

(** ** Specification *)

(** All the messages of a run, whatever the batches. *)
Fixpoint gen_kinds `{MathRand} (i : nat) (rng : source) (ks : list kind) : list KafkaMessage * source :=
  match ks with
  | [] => ([], rng)
  | k :: ks' =>
      let '(payload, rng1) := Read rng (k_bytes k) in
      let '(ms, rng2) := gen_kinds i rng1 ks' in
      (both_layouts i k payload ++ ms, rng2)
  end.
Fixpoint gen_loop `{MathRand} (n i : nat) (rng : source) : list KafkaMessage :=
  match n with
  | O => []
  | S n' => let '(ms, rng') := gen_kinds i rng kinds in ms ++ gen_loop n' (S i) rng'
  end.
Definition all_messages `{MathRand} (perType : Z) : list KafkaMessage :=
  gen_loop (Z.to_nat perType) 0 (NewSource 42).

Definition of_topic (t : string) (ms : list KafkaMessage) : list KafkaMessage :=
  List.filter (fun m => String.eqb (km_Topic m) t) ms.
Definition zsum {A} (f : A -> Z) (l : list A) : Z := fold_right Z.add 0 (map f l).

(** ** Lemmas on produce *)

Section produce.
Context `{WriterLog, MathRand}.

Lemma flush_batch_spec st :
  let '(st', err) := flush_batch st in
  ps_batch st' = [] /\ ps_rng st' = ps_rng st
  /\ exists part, written (ps_w st') = written (ps_w st) ++ part
     /\ part `sublist_of` ps_batch st /\ (err = None -> part = ps_batch st).
Proof.
  unfold flush_batch. destruct st as [w rng [|m b]]; cbn [ps_batch ps_w ps_rng].
  { split_and!; try done. exists []. by rewrite app_nil_r. }
  destruct (WriteMessages w (m :: b)) as [[w' [e|]] x] eqn:E; cbn [ps_batch ps_w ps_rng].
  - destruct (written_err _ _ _ _ _ E) as (part & Hs & Hw). split_and!; try done. by exists part.
  - split_and!; try done. exists (m :: b). by rewrite (written_ok _ _ _ _ E).
Qed.

(** A step of the generation from [st] to [st']: the writer's log and the batch gain
    [ms], or a failed write has lost some of them. *)
Definition gains (st : pstate) (ms : list KafkaMessage) (st' : pstate) (err : option error) : Prop :=
  exists added, written (ps_w st') = written (ps_w st) ++ added
    /\ match err with
       | None => added ++ ps_batch st' = ps_batch st ++ ms
       | Some _ => added `sublist_of` ps_batch st ++ ms
       end.

Lemma produce_record_spec i st k payload rng :
  Read (ps_rng st) (k_bytes k) = (payload, rng) ->
  let '(st', err) := produce_record i st k in
  ps_rng st' = rng /\ gains st (both_layouts i k payload) st' err.
Proof.
  intros Hr. unfold produce_record. rewrite Hr. set (st1 := mkPstate _ _ _).
  destruct (1000 <=? _)%nat; [|split; [done|]; exists []; by rewrite app_nil_r].
  pose proof (flush_batch_spec st1) as Hf. destruct (flush_batch st1) as [st' err].
  destruct Hf as (Hb & Hg & part & Hw & Hs & Hok). split; [done|]. exists part. split; [done|].
  destruct err as [e|]; [done|]. by rewrite Hb, app_nil_r, Hok.
Qed.

Lemma gains_app st ms1 st1 ms2 st2 err :
  gains st ms1 st1 None -> gains st1 ms2 st2 err -> gains st (ms1 ++ ms2) st2 err.
Proof.
  intros (a1 & Hw1 & Ha1) (a2 & Hw2 & Ha2). exists (a1 ++ a2).
  rewrite Hw2, Hw1, <- (assoc_L (++)). split; [done|].
  rewrite (assoc_L (++) (ps_batch st)), <- Ha1, <- !(assoc_L (++)). destruct err as [e|].
  - by apply sublist_app.
  - by rewrite Ha2.
Qed.

Lemma gains_err st ms1 st1 ms2 e : gains st ms1 st1 (Some e) -> gains st (ms1 ++ ms2) st1 (Some e).
Proof.
  intros (a & Hw & Ha). exists a. split; [done|]. rewrite (assoc_L (++)). by apply sublist_inserts_r.
Qed.

Lemma produce_kinds_spec i ks : forall st ms rng,
  gen_kinds i (ps_rng st) ks = (ms, rng) ->
  let '(st', err) := produce_kinds i st ks in
  gains st ms st' err /\ (err = None -> ps_rng st' = rng).
Proof.
  induction ks as [|k ks IH]; intros st ms rng Hg; cbn [gen_kinds produce_kinds] in *.
  { injection Hg as <- <-. split; [exists []; by rewrite !app_nil_r|done]. }
  destruct (Read (ps_rng st) (k_bytes k)) as [payload rng1] eqn:Er.
  destruct (gen_kinds i rng1 ks) as [ms2 rng2] eqn:Eg. apply pair_equal_spec in Hg as [<- <-].
  pose proof (produce_record_spec i st k payload rng1 Er) as Hr.
  destruct (produce_record i st k) as [st1 [e|]]; destruct Hr as [Hrng Hgain].
  { split; [by apply gains_err|done]. }
  subst rng1. specialize (IH st1 ms2 rng2 Eg). destruct (produce_kinds i st1 ks) as [st' err].
  destruct IH as [IHg IHr]. split; [by eapply gains_app|done].
Qed.

Lemma produce_loop_spec n : forall i st,
  let '(st', err) := produce_loop n i st in
  ps_batch st' = [] \/ err <> None ->
  gains st (gen_loop n i (ps_rng st)) st' err.
Proof.
  induction n as [|n IH]; intros i st; cbn [produce_loop gen_loop].
  - pose proof (flush_batch_spec st) as Hf. destruct (flush_batch st) as [st' err].
    destruct Hf as (Hb & _ & part & Hw & Hs & Hok). intros _. exists part. split; [done|].
    destruct err as [e|]; [by rewrite app_nil_r|by rewrite Hb, !app_nil_r, Hok].
  - destruct (gen_kinds i (ps_rng st) kinds) as [ms rng] eqn:Eg.
    pose proof (produce_kinds_spec i kinds st ms rng Eg) as Hk.
    destruct (produce_kinds i st kinds) as [st1 [e|]]; destruct Hk as [Hg Hr].
    { intros _. by apply gains_err. }
    specialize (IH (S i) st1). destruct (produce_loop n (S i) st1) as [st' err]. intros Hend.
    rewrite <- (Hr eq_refl). eapply gains_app; [exact Hg|by apply IH].
Qed.

Lemma produce_loop_empty n : forall i st, (produce_loop n i st).2 = None -> ps_batch (produce_loop n i st).1 = [].
Proof.
  induction n as [|n IH]; intros i st; cbn [produce_loop].
  - pose proof (flush_batch_spec st) as Hf. by destruct (flush_batch st), Hf.
  - destruct (produce_kinds i st kinds) as [st1 [e|]]; [done|apply IH].
Qed.

(** What a run has written when it returns. *)
Lemma produce_written brokers perType :
  let '(st, err) := produce brokers perType in
  match err with
  | None => written (ps_w st) = all_messages perType
  | Some _ => written (ps_w st) `sublist_of` all_messages perType
  end.
Proof.
  unfold produce. set (st0 := mkPstate _ _ _).
  pose proof (produce_loop_spec (Z.to_nat perType) 0 st0) as Hl.
  pose proof (produce_loop_empty (Z.to_nat perType) 0 st0) as He.
  destruct (produce_loop _ _ _) as [st err]. cbn [fst snd] in He. destruct err as [e|].
  - assert (Some e <> None) as Hne by done. destruct (Hl (or_intror Hne)) as (a & Hw & Ha).
    rewrite Hw. unfold st0, bench_writer. cbn [ps_w]. by rewrite written_new.
  - destruct (Hl (or_introl (He eq_refl))) as (a & Hw & Ha). rewrite He, app_nil_r in Ha by done.
    rewrite Hw. unfold st0, bench_writer. cbn [ps_w]. by rewrite written_new, Ha.
Qed.
End produce.

(** ** Sums over messages *)

Lemma zsum_app {A} (f : A -> Z) l1 l2 : zsum f (l1 ++ l2) = zsum f l1 + zsum f l2.
Proof.
  unfold zsum. induction l1 as [|x l1 IH]; cbn; [done|]. rewrite IH. lia.
Qed.
Lemma zsum_perm {A} (f : A -> Z) l1 l2 : l1 ≡ₚ l2 -> zsum f l1 = zsum f l2.
Proof. unfold zsum. induction 1; cbn; lia. Qed.
Lemma zsum_le {A} (f g : A -> Z) l : Forall (fun x => f x <= g x) l -> zsum f l <= zsum g l.
Proof. unfold zsum. induction 1; cbn; lia. Qed.
Lemma zsum_one {A} (l : list A) : zsum (fun _ => 1) l = Z.of_nat (length l).
Proof. unfold zsum. induction l; cbn [length map fold_right]; lia. Qed.
Lemma zsum_scale {A} (f : A -> Z) c l : zsum (fun x => f x * c) l = zsum f l * c.
Proof. unfold zsum. induction l; cbn; lia. Qed.
Lemma zsum_of_topic t f ms :
  zsum f (of_topic t ms) = zsum (fun m => if String.eqb (km_Topic m) t then f m else 0) ms.
Proof.
  unfold zsum, of_topic. induction ms as [|m ms IH]; cbn; [done|].
  destruct (String.eqb _ _); cbn; lia.
Qed.

(** ** Lemmas on the messages of a run *)

Section messages.
Context `{LawfulRand}.

Lemma symbol_at_len i : str_len (symbol_at i) = 7%nat.
Proof.
  unfold symbol_at. cbn [length bench_symbols]. pose proof (Nat.mod_upper_bound i 3).
  destruct (i mod 3)%nat as [|[|[|r]]]; [done..|lia].
Qed.

Lemma payload_size_both i k p m :
  m ∈ both_layouts i k p -> payload_size m = Z.of_nat (length p) + 7.
Proof.
  unfold both_layouts. rewrite !elem_of_cons. intros [->|[->|[]%elem_of_nil]];
    unfold payload_size; cbn [km_Value km_Key]; by rewrite symbol_at_len.
Qed.

(** A sum over the messages of a run, from the sum over those of one turn. *)
Lemma zsum_gen_loop f c : (forall i rng, zsum f (gen_kinds i rng kinds).1 = c) ->
  forall n i rng, zsum f (gen_loop n i rng) = Z.of_nat n * c.
Proof.
  intros Hc. induction n as [|n IH]; intros i rng; cbn [gen_loop]; [done|].
  pose proof (Hc i rng) as Ht. destruct (gen_kinds i rng kinds) as [ms rng']. cbn [fst] in Ht.
  rewrite zsum_app, IH, Nat2Z.inj_succ, Z.mul_succ_l. lia.
Qed.

(** What each message of a turn says, by kind. *)
Definition of_kind (k : kind) (m : KafkaMessage) : Prop :=
  km_Headers m = [(typeHeader, k_name k)] /\ payload_size m = Z.of_nat (k_bytes k) + 7
  /\ (km_Topic m = k_topic k \/ km_Topic m = monolithTopic).

Lemma gen_kinds_of_kind i ks : forall rng,
  Forall (fun m => Exists (fun k => of_kind k m) ks) (gen_kinds i rng ks).1.
Proof.
  induction ks as [|k ks IH]; intros rng; cbn [gen_kinds]; [by constructor|].
  pose proof (Read_length rng (k_bytes k)) as Hl. destruct (Read rng (k_bytes k)) as [p rng1].
  specialize (IH rng1). destruct (gen_kinds i rng1 ks) as [ms rng2]. cbn [fst] in *.
  apply Forall_app. split.
  - assert (forall m, m ∈ both_layouts i k p -> payload_size m = Z.of_nat (k_bytes k) + 7) as Hp
      by (intros m Hm; rewrite (payload_size_both i k p m Hm); by rewrite Hl).
    unfold both_layouts in *. repeat apply List.Forall_cons; [| |by constructor];
      apply Exists_cons_hd; (split_and!; [done|apply Hp; set_solver|by auto]).
  - eapply Forall_impl; [exact IH|]. intros m Hm. by apply Exists_cons_tl.
Qed.

Lemma gen_loop_of_kind n : forall i rng,
  Forall (fun m => Exists (fun k => of_kind k m) kinds) (gen_loop n i rng).
Proof.
  induction n as [|n IH]; intros i rng; cbn [gen_loop]; [by constructor|].
  pose proof (gen_kinds_of_kind i kinds rng) as Hk. destruct (gen_kinds i rng kinds) as [ms rng'].
  apply Forall_app. split; [exact Hk|apply IH].
Qed.

(** Counting over the six messages of a turn. *)
Definition turn_count (f : string -> string -> Z -> Z) : Z :=
  zsum (fun k => f (k_topic k) (k_name k) (Z.of_nat (k_bytes k) + 7)
               + f monolithTopic (k_name k) (Z.of_nat (k_bytes k) + 7)) kinds.

(** A sum of a function of topic, type and size over the messages of a run. *)
Lemma zsum_messages (g : string -> string -> Z -> Z) perType :
  zsum (fun m => g (km_Topic m) (List.hd ("", "") (km_Headers m)).2 (payload_size m))
    (all_messages perType)
  = Z.max 0 perType * turn_count g.
Proof.
  unfold all_messages. rewrite zsum_gen_loop with (c := turn_count g); [f_equal; lia|].
  intros i rng. unfold turn_count. revert rng.
  induction kinds as [|k ks IH]; intros rng; cbn [gen_kinds]; [done|].
  pose proof (Read_length rng (k_bytes k)) as Hl. destruct (Read rng (k_bytes k)) as [p rng1].
  specialize (IH rng1). destruct (gen_kinds i rng1 ks) as [ms rng2]. cbn [fst] in *.
  pose proof (payload_size_both i k p) as Hp. rewrite Hl in Hp.
  rewrite zsum_app, IH. unfold both_layouts in *. unfold zsum. cbn [map fold_right].
  rewrite !Hp by set_solver. cbn [km_Topic km_Headers List.hd snd]. lia.
Qed.
End messages.

(** ** Lemmas on consume *)

(** With enough wanted messages ahead, each counted at most once, the consumer stops
    after a prefix that holds exactly the expected number. *)
Lemma consume_prefix filter expect took ms : forall r,
  Forall (fun m => 0 <= count_useful filter m <= 1) ms ->
  useful r <= expect <= useful r + zsum (count_useful filter) ms ->
  exists pre suf, ms = pre ++ suf
    /\ useful r + zsum (count_useful filter) pre = expect
    /\ consume_loop filter expect took (map inl ms) r
       = Some (mkResult (delivered r + Z.of_nat (length pre)) expect
                 (bytesRead r + zsum payload_size pre) took, None).
Proof.
  induction ms as [|m ms IH]; intros r Hf Hr; cbn [map consume_loop].
  - change (zsum _ []) with 0 in Hr. exists [], []. destruct (Z.ltb_spec (useful r) expect); [lia|].
    change (zsum _ []) with 0. cbn [length]. rewrite !Z.add_0_r. by replace expect with (useful r) by lia.
  - destruct (Z.ltb_spec (useful r) expect) as [Hlt|Hge].
    + apply Forall_cons_1 in Hf as [Hm Hf]. change (zsum ?f (m :: ms)) with (f m + zsum f ms) in Hr.
      destruct (IH (mkResult (delivered r + 1) (useful r + count_useful filter m)
                      (bytesRead r + payload_size m) (elapsed r)) Hf) as (pre & suf & -> & Hu & Hc).
      { cbn [useful]. lia. }
      exists (m :: pre), suf. cbn [useful delivered bytesRead] in *.
      change (zsum ?f (m :: pre)) with (f m + zsum f pre). cbn [length].
      split; [done|]. split; [lia|]. rewrite Hc. do 3 f_equal; lia.
    + exists [], (m :: ms). change (zsum _ []) with 0. cbn [length]. rewrite !Z.add_0_r.
      by replace expect with (useful r) by lia.
Qed.

(** The total over a topic of a run's messages. *)
Lemma topic_total `{LawfulRand} t c perType :
  zsum (fun m => if String.eqb (km_Topic m) t then c else 0) (all_messages perType)
  = Z.max 0 perType * turn_count (fun t' _ _ => if String.eqb t' t then c else 0).
Proof. exact (zsum_messages (fun t' _ _ => if String.eqb t' t then c else 0) perType). Qed.

Lemma topic_bytes `{LawfulRand} t perType :
  zsum payload_size (of_topic t (all_messages perType))
  = Z.max 0 perType * turn_count (fun t' _ s => if String.eqb t' t then s else 0).
Proof.
  rewrite zsum_of_topic.
  exact (zsum_messages (fun t' _ s => if String.eqb t' t then s else 0) perType).
Qed.

Lemma topic_length `{LawfulRand} t perType :
  Z.of_nat (length (of_topic t (all_messages perType)))
  = Z.max 0 perType * turn_count (fun t' _ _ => if String.eqb t' t then 1 else 0).
Proof. by rewrite <- zsum_one, zsum_of_topic, topic_total. Qed.

(** The messages of a topic, with what [of_kind] says of each. *)
Lemma of_topic_of_kind `{LawfulRand} t perType ms : ms ≡ₚ of_topic t (all_messages perType) ->
  Forall (fun m => km_Topic m = t /\ Exists (fun k => of_kind k m) kinds) ms.
Proof.
  intros Hp. rewrite Hp. apply List.Forall_forall. intros m [Hm Ht]%List.filter_In. split.
  - by apply String.eqb_eq.
  - by apply (proj1 (List.Forall_forall _ _) (gen_loop_of_kind (Z.to_nat perType) 0 (NewSource 42))).
Qed.

Lemma matching_kind k t m : of_kind k m -> matching t m = if String.eqb (k_name k) t then 1 else 0.
Proof.
  intros (Hh & _). unfold matching. rewrite Hh. cbn [List.filter fst snd].
  rewrite String.eqb_refl. cbn [andb]. by destruct (String.eqb _ _).
Qed.

Lemma monolith_matching `{LawfulRand} t perType :
  zsum (matching t) (of_topic monolithTopic (all_messages perType))
  = Z.max 0 perType
    * turn_count (fun t' e _ => if String.eqb t' monolithTopic then if String.eqb e t then 1 else 0 else 0).
Proof.
  rewrite zsum_of_topic, <- (zsum_messages
    (fun t' e _ => if String.eqb t' monolithTopic then if String.eqb e t then 1 else 0 else 0)).
  unfold zsum. f_equal. apply map_ext_in. intros m Hm. destruct (String.eqb _ _); [|done].
  assert (Exists (fun k => of_kind k m) kinds) as Hk.
  { by apply (proj1 (List.Forall_forall _ _) (gen_loop_of_kind (Z.to_nat perType) 0 (NewSource 42))). }
  apply List.Exists_exists in Hk as (k & _ & Hk). rewrite (matching_kind k t m Hk).
  destruct Hk as (-> & _). done.
Qed.

(** ** The comparison *)

(** Case analysis on the kind. *)
Ltac each_kind H := repeat (apply elem_of_cons in H as [->|H]); try (by apply elem_of_nil in H).

(** What consuming the topic of a kind returns: as many messages as were asked for,
    all wanted. *)
Lemma consume_own_topic `{LawfulRand} k perType took ms :
  k ∈ kinds -> ms ≡ₚ of_topic (k_topic k) (all_messages perType) ->
  let n := Z.max 0 perType in
  exists e, consume "" perType took (map inl ms)
    = Some (mkResult n n (n * (Z.of_nat (k_bytes k) + 7)) e, None).
Proof.
  intros Hk Hp n. unfold consume.
  assert (Z.of_nat (length ms) = n) as Hlen.
  { rewrite Hp, topic_length. subst n. each_kind Hk; cbn; lia. }
  assert (zsum payload_size ms = n * (Z.of_nat (k_bytes k) + 7)) as Hsz.
  { rewrite (zsum_perm _ _ _ Hp), topic_bytes. subst n. each_kind Hk; cbn; lia. }
  destruct (Z.lt_ge_cases perType 0) as [Hneg|Hpos].
  { subst n. rewrite Z.max_l by lia. destruct (map inl ms); cbn; (destruct (Z.ltb_spec 0 perType); [lia|]);
      by eexists. }
  assert (forall l, zsum (count_useful "") l = Z.of_nat (length l)) as Hcnt by (intros; apply zsum_one).
  destruct (consume_prefix "" perType took ms (mkResult 0 0 0 0)) as (pre & suf & -> & Hu & Hc).
  { apply List.Forall_forall. intros m _. cbn. lia. }
  { cbn [useful]. rewrite Hcnt. lia. }
  rewrite Hcnt in Hu. cbn [useful delivered bytesRead] in *.
  assert (suf = []) as ->. { apply length_zero_iff_nil. rewrite length_app in Hlen. lia. }
  rewrite app_nil_r in Hsz, Hc. rewrite app_nil_r, Hc, Hsz. exists took. do 3 f_equal; lia.
Qed.

(** A message of the monolith counts once when it is wanted, and is as large as its
    kind says. *)
Lemma monolith_message k m : k ∈ kinds -> Exists (fun k => of_kind k m) kinds ->
  0 <= count_useful (k_name k) m <= 1
  /\ count_useful (k_name k) m * (Z.of_nat (k_bytes k) + 7) <= payload_size m
  /\ 0 <= payload_size m.
Proof.
  intros Hk (k' & Hin%list_elem_of_In & Hx)%List.Exists_exists.
  assert (count_useful (k_name k) m = if String.eqb (k_name k') (k_name k) then 1 else 0) as ->.
  { rewrite <- (matching_kind k' _ m Hx). unfold count_useful.
    destruct (String.eqb_spec (k_name k) ""); [|done]. each_kind Hk; done. }
  destruct Hx as (_ & -> & _). each_kind Hk; each_kind Hin; cbn; lia.
Qed.

Lemma monolith_totals `{LawfulRand} k perType ms :
  k ∈ kinds -> ms ≡ₚ of_topic monolithTopic (all_messages perType) ->
  let n := Z.max 0 perType in
  Z.of_nat (length ms) = 3 * n /\ zsum payload_size ms = n * 1221
  /\ zsum (count_useful (k_name k)) ms = n.
Proof.
  intros Hk Hp n. split_and!.
  - rewrite Hp, topic_length. subst n. cbn. lia.
  - rewrite (zsum_perm _ _ _ Hp), topic_bytes. subst n. cbn. lia.
  - rewrite (zsum_perm _ _ _ Hp). transitivity (zsum (matching (k_name k)) (of_topic monolithTopic (all_messages perType))).
    { unfold zsum. f_equal. apply map_ext_in. intros m _. unfold count_useful.
      destruct (String.eqb_spec (k_name k) ""); [|done]. each_kind Hk; done. }
    rewrite monolith_matching. subst n. each_kind Hk; cbn; lia.
Qed.

(** What consuming the monolith returns: the same wanted messages among up to three
    times as many. *)
Lemma consume_monolith `{LawfulRand} k perType took ms :
  k ∈ kinds -> ms ≡ₚ of_topic monolithTopic (all_messages perType) ->
  let n := Z.max 0 perType in
  exists r, consume (k_name k) perType took (map inl ms) = Some (r, None)
    /\ useful r = n /\ n <= delivered r <= 3 * n
    /\ n * (Z.of_nat (k_bytes k) + 7) <= bytesRead r <= n * 1221.
Proof.
  intros Hk Hp n. unfold consume.
  destruct (monolith_totals k perType ms Hk Hp) as (Hlen & Hsz & Huse). fold n in Hlen, Hsz, Huse.
  destruct (Z.lt_ge_cases perType 0) as [Hneg|Hpos].
  { assert (n = 0) as -> by (subst n; lia). exists (mkResult 0 0 0 took).
    destruct (map inl ms); cbn; (destruct (Z.ltb_spec 0 perType); [lia|]); (split; [done|lia]). }
  assert (Forall (fun m => Exists (fun k => of_kind k m) kinds) ms) as Hm.
  { eapply List.Forall_impl; [|exact (of_topic_of_kind _ _ _ Hp)]. by intros m [_ Hx]. }
  pose proof (fun m Hx => monolith_message k m Hk Hx) as Hb.
  destruct (consume_prefix (k_name k) perType took ms (mkResult 0 0 0 0)) as (pre & suf & -> & Hu & Hc).
  { eapply List.Forall_impl; [|exact Hm]. intros m Hx. apply (Hb m Hx). }
  { cbn [useful]. lia. }
  apply Forall_app in Hm as [Hmp Hms]. cbn [useful delivered bytesRead] in *.
  eexists. split; [exact Hc|]. cbn [useful delivered bytesRead].
  assert (zsum (count_useful (k_name k)) pre <= zsum (fun _ => 1) pre) as Hle.
  { apply zsum_le. eapply List.Forall_impl; [|exact Hmp]. intros m Hx. apply (Hb m Hx). }
  assert (zsum (fun m => count_useful (k_name k) m * (Z.of_nat (k_bytes k) + 7)) pre
          <= zsum payload_size pre) as Hlow.
  { apply zsum_le. eapply List.Forall_impl; [|exact Hmp]. intros m Hx. apply (Hb m Hx). }
  assert (zsum (fun _ => 1 * 0) suf <= zsum payload_size suf) as Hhigh.
  { apply zsum_le. eapply List.Forall_impl; [|exact Hms]. intros m Hx. apply (Hb m Hx). }
  rewrite zsum_scale in Hlow, Hhigh. rewrite zsum_one in Hle. rewrite zsum_app in Hsz.
  rewrite length_app in Hlen. replace (zsum (count_useful (k_name k)) pre) with n in * by lia. lia.
Qed.

(** The measurement is of the layout alone. When producing succeeds, with whatever
    batches the writer made of it, the topic of each event type holds the requested
    number of records, and they are the records of that type in the monolith: the same
    keys, payloads and headers in the same order. When a write fails, nothing but
    records of the run has been written. *)
Theorem same_records_both_layouts `{LawfulRand, WriterLog} (brokers : string) (perType : Z) :
  let '(st, err) := produce brokers perType in
  let record m := (km_Key m, km_Value m, km_Headers m) in
  match err with
  | None =>
      forall k, k ∈ kinds ->
      let own := of_topic (k_topic k) (written (ps_w st)) in
      let all := of_topic monolithTopic (written (ps_w st)) in
      Z.of_nat (length own) = Z.max 0 perType
      /\ map record own = map record (List.filter (fun m => 0 <? matching (k_name k) m) all)
  | Some _ => written (ps_w st) `sublist_of` all_messages perType
  end.
Proof.
  pose proof (produce_written brokers perType) as Hw.
  destruct (produce brokers perType) as [st [e|]]; [done|]. cbn zeta. rewrite Hw.
  intros k Hk. split; [rewrite topic_length; each_kind Hk; cbn; lia|].
  unfold all_messages. generalize (NewSource 42) as rng, 0%nat as i.
  induction (Z.to_nat perType) as [|n IH]; intros rng i; cbn [gen_loop]; [done|].
  destruct (gen_kinds i rng kinds) as [ms rng'] eqn:E. unfold of_topic in *.
  rewrite !List.filter_app, !map_app, IH. f_equal. cbn [gen_kinds kinds] in E.
  repeat (destruct (Read _ _) as [? ?]). apply pair_equal_spec in E as [<- _].
  each_kind Hk; reflexivity.
Qed.

(** When producing succeeds and each topic is served in full, in any order, the
    benchmark ends: on the topic of its type the consumer receives exactly the
    requested number [n] of records; on the monolith it also finds its [n] records,
    after receiving at most [3 n], and fetches at least as many bytes (never more than
    [1221 n]). With nothing requested both ratios of the report are NaN. *)
Theorem read_amplification `{LawfulRand, WriterLog} (brokers : string) (perType : Z) (k : kind)
    (serve : kafka_Writer -> string -> list (KafkaMessage + error)) (took1 took2 : duration) :
  k ∈ kinds -> (produce brokers perType).2 = None ->
  (forall w t, exists ms, serve w t = map inl ms /\ ms ≡ₚ of_topic t (written w)) ->
  let n := Z.max 0 perType in
  exists r1 r2, bench brokers perType (k_name k) serve took1 took2 = Some (Ok (r1, r2))
    /\ useful r1 = n /\ delivered r1 = n /\ bytesRead r1 = n * (Z.of_nat (k_bytes k) + 7)
    /\ useful r2 = n /\ n <= delivered r2 <= 3 * n /\ bytesRead r1 <= bytesRead r2 <= n * 1221
    /\ (n = 0 -> amplification r1 r2 = S754_nan /\ discarded r2 = S754_nan).
Proof.
  intros Hk Hp Hserve n. unfold bench. pose proof (produce_written brokers perType) as Hw.
  destruct (produce brokers perType) as [st err]. cbn in Hp. subst err.
  assert (wanted_topic (k_name k) = k_topic k) as -> by (each_kind Hk; done).
  assert (String.eqb (k_topic k) "" = false) as -> by (each_kind Hk; done).
  destruct (Hserve (ps_w st) (k_topic k)) as (ms1 & -> & Hm1).
  destruct (Hserve (ps_w st) monolithTopic) as (ms2 & -> & Hm2). rewrite Hw in Hm1, Hm2.
  destruct (consume_own_topic k perType took1 ms1 Hk Hm1) as [e ->]. cbn [mbind option_bind].
  destruct (consume_monolith k perType took2 ms2 Hk Hm2) as (r2 & -> & Hu & Hd & Hb).
  fold n in Hu, Hd, Hb |- *. eexists _, r2. cbn [mbind option_bind useful delivered bytesRead].
  do 4 (split; [done|]). split; [done|]. split; [done|]. split; [exact Hb|]. intros Hn.
  unfold amplification, discarded. cbn [bytesRead]. rewrite Hu, Hn in *.
  replace (bytesRead r2) with 0 by lia. replace (delivered r2) with 0 by lia. by vm_compute.
Qed.

Definition serve_log (w : @kafka_Writer log_kafka) (t : string) : list (KafkaMessage + error) :=
  map inl (of_topic t w).

Lemma read_amplification_witness :
  exists r1 r2,
  @bench log_kafka constant_rand "b:9092" 2 "trade" serve_log 5 7 = Some (Ok (r1, r2))
  /\ useful r1 = 2 /\ delivered r1 = 2 /\ bytesRead r1 = 2 * 127
  /\ useful r2 = 2 /\ 2 <= delivered r2 <= 3 * 2 /\ bytesRead r1 <= bytesRead r2 <= 2 * 1221
  /\ (2 = 0 -> amplification r1 r2 = S754_nan /\ discarded r2 = S754_nan).
Proof.
  refine (@read_amplification constant_rand constant_lawful log_kafka log_writer "b:9092" 2
            (mkKind "trade" "bench.trades" 120) serve_log 5 7 _ _ _).
  - apply list_elem_of_here.
  - vm_compute. reflexivity.
  - intros w t. exists (of_topic t w). split; reflexivity.
Defined.

Lemma same_records_both_layouts_witness :
  let '(st, err) := @produce log_kafka constant_rand "b:9092" 2 in
  let record m := (km_Key m, km_Value m, km_Headers m) in
  match err with
  | None =>
      forall k, k ∈ kinds ->
      let own := of_topic (k_topic k) (@written log_kafka log_writer (ps_w st)) in
      let all := of_topic monolithTopic (@written log_kafka log_writer (ps_w st)) in
      Z.of_nat (length own) = Z.max 0 2
      /\ map record own = map record (List.filter (fun m => 0 <? matching (k_name k) m) all)
  | Some _ => @written log_kafka log_writer (ps_w st) `sublist_of` @all_messages constant_rand 2
  end.
Proof. exact (@same_records_both_layouts constant_rand constant_lawful log_kafka log_writer "b:9092" 2). Defined.

(** ** The results file *)

(** A script that reads the file: its lines, each cut at the first [=]. *)
Definition read_results (file : string) : list (list string) :=
  map (fun line => SplitN2 line "="%char) (Split file (char_of 10)).

Lemma FormatFixed_one_line prec x : one_line (FormatFixed prec x).
Proof.
  assert (forall n, one_line (fixed prec n)) as Hfix.
  { intros n. unfold fixed. destruct prec as [|p]; [apply FormatInt_one_line|].
    do 2 (apply one_line_app; [first [apply FormatInt_one_line|by apply no_char]|]).
    apply dec_one_line, zero_pad_dec, FormatInt_nonneg, Z.mod_pos_bound, Z.pow_pos_nonneg; lia. }
  destruct x as [s|[]| |s m e]; cbn [FormatFixed]; try (by apply no_char).
  all: (apply one_line_app; [destruct s; by apply no_char|apply Hfix]).
Qed.

Lemma read_results_file entries :
  Forall (fun kv => one_line kv.1 /\ "="%char ∉ chars kv.1 /\ one_line kv.2) entries ->
  read_results (results_file entries) = (map (fun kv => [kv.1; kv.2]) entries) ++ [[""]].
Proof.
  unfold read_results, Split. induction 1 as [|[k v] l (Hk & Heq & Hv) _ IH]; [done|].
  cbn [results_file fold_right fst snd] in *. fold (results_file l) in *.
  rewrite !chars_app. change (chars nl) with [char_of 10]. change (chars "=") with ["="%char].
  rewrite (assoc_L (++)), (assoc_L (++) _ (chars v)). cbn [app]. rewrite split_chars_app.
  - cbn [map]. rewrite IH. cbn [map app]. f_equal. unfold SplitN2. rewrite chars_unchars, <- (assoc_L (++)).
    cbn [app]. rewrite cut_chars_app by done. by rewrite !unchars_chars.
  - rewrite !elem_of_app, list_elem_of_singleton. intros [[H|H]|H]; [by apply Hk|discriminate H|by apply Hv].
Qed.

(** [n] units of [10^-prec] are nearest to [m * 2^e]. *)
Definition nearest (prec m e n : Z) : Prop :=
  if 0 <=? e then n = m * 2 ^ e * 10 ^ prec
  else 2 * Z.abs (2 ^ (- e) * n - m * 10 ^ prec) <= 2 ^ (- e).

Lemma FormatFixed_nearest prec s m e : (0 < prec)%nat ->
  exists n, read_fixed (FormatFixed prec (S754_finite s m e)) = Some (s, n)
    /\ nearest (Z.of_nat prec) (Z.pos m) e n.
Proof.
  intros Hp. set (p := Z.of_nat prec). exists (scaled p (Z.pos m) e).
  assert (0 <= scaled p (Z.pos m) e) as Hn.
  { unfold scaled. destruct (Z.leb_spec 0 e); [pose proof (Z.pow_nonneg 2 e); pose proof (Z.pow_nonneg 10 p); nia|].
    pose proof (Z.pow_nonneg 10 p). pose proof (Z.pow_pos_nonneg 2 (- e)). unfold round_half_even.
    pose proof (Z.div_pos (Z.pos m * 10 ^ p) (2 ^ (- e))).
    destruct (_ <? _); [lia|]. destruct (_ <? _); [lia|]. destruct (Z.even _); lia. }
  split; [by apply read_fixed_spec|]. unfold nearest, scaled.
  destruct (Z.leb_spec 0 e); [done|]. apply round_half_even_spec, Z.pow_pos_nonneg; lia.
Qed.

(** C40. The results file is read back: splitting it into lines and each line at its
    first [=] gives the nine entries in order, the counts and the milliseconds parse
    to exactly the figures of the run, and the two ratios, where they are finite, are
    within half a unit of their last digit (0.005 and 0.05) of the computed doubles. *)
Theorem results_read_back (target : string) (r1 r2 : result) file :
  one_line target ->
  Forall int64 [bytesRead r1; bytesRead r2; delivered r1; delivered r2; elapsed r1; elapsed r2] ->
  (report true target r1 r2).2 = Some file ->
  exists b1 b2 d1 d2 t1 t2 amp pct,
    read_results file =
      [["target"; target]; ["per_type_bytes"; b1]; ["monolith_bytes"; b2];
       ["per_type_delivered"; d1]; ["monolith_delivered"; d2];
       ["per_type_ms"; t1]; ["monolith_ms"; t2]; ["read_amplification"; amp]; ["discarded_pct"; pct]; [""]]
    /\ Atoi b1 = inl (bytesRead r1) /\ Atoi b2 = inl (bytesRead r2)
    /\ Atoi d1 = inl (delivered r1) /\ Atoi d2 = inl (delivered r2)
    /\ Atoi t1 = inl (Z.quot (elapsed r1) 1000000) /\ Atoi t2 = inl (Z.quot (elapsed r2) 1000000)
    /\ (forall s m e, amplification r1 r2 = S754_finite s m e ->
        exists n, read_fixed amp = Some (s, n) /\ nearest 2 (Z.pos m) e n)
    /\ (forall s m e, discarded r2 = S754_finite s m e ->
        exists n, read_fixed pct = Some (s, n) /\ nearest 1 (Z.pos m) e n).
Proof.
  intros Ht Hf Hr. assert (file = results_file (results_entries target r1 r2)) as ->
    by (symmetry; by apply (inj Some)).
  clear Hr. repeat (apply Forall_cons_1 in Hf as [? Hf]).
  eexists _, _, _, _, _, _, _, _. split.
  { rewrite read_results_file; [reflexivity|]. repeat constructor; cbn [fst snd];
      first [apply FormatInt_one_line|apply FormatFixed_one_line|by apply no_char|done]. }
  assert (forall d, int64 d -> int64 (Milliseconds d)) as Hms.
  { intros d Hd. unfold Milliseconds, millisecond. destruct (Z.neg_nonneg_cases d).
    - pose proof (Z.quot_opp_l d 1000000). rewrite Z.quot_div_nonneg in * by lia.
      pose proof (Z.div_pos (- d) 1000000). pose proof (Z.div_le_upper_bound (- d) 1000000 (- d)). int_lia.
    - rewrite Z.quot_div_nonneg by lia. pose proof (Z.div_pos d 1000000).
      pose proof (Z.div_le_upper_bound d 1000000 d). int_lia. }
  do 4 (split; [by apply Atoi_FormatInt|]).
  do 2 (split; [by apply Atoi_FormatInt, Hms|]).
  split; intros s m e Hx; rewrite Hx; by apply FormatFixed_nearest; lia.
Qed.

Definition sample_own : result := mkResult 3 3 381 1500000.
Definition sample_all : result := mkResult 9 3 3663 2750000.

Lemma results_read_back_witness :
  exists b1 b2 d1 d2 t1 t2 amp pct,
    read_results (results_file (results_entries "trade" sample_own sample_all)) =
      [["target"; "trade"]; ["per_type_bytes"; b1]; ["monolith_bytes"; b2];
       ["per_type_delivered"; d1]; ["monolith_delivered"; d2];
       ["per_type_ms"; t1]; ["monolith_ms"; t2]; ["read_amplification"; amp]; ["discarded_pct"; pct]; [""]]
    /\ Atoi b1 = inl 381 /\ Atoi b2 = inl 3663 /\ Atoi d1 = inl 3 /\ Atoi d2 = inl 9
    /\ Atoi t1 = inl (Z.quot 1500000 1000000) /\ Atoi t2 = inl (Z.quot 2750000 1000000)
    /\ (forall s m e, amplification sample_own sample_all = S754_finite s m e ->
        exists n, read_fixed amp = Some (s, n) /\ nearest 2 (Z.pos m) e n)
    /\ (forall s m e, discarded sample_all = S754_finite s m e ->
        exists n, read_fixed pct = Some (s, n) /\ nearest 1 (Z.pos m) e n).
Proof.
  refine (results_read_back "trade" sample_own sample_all _ _ _ eq_refl).
  - by apply no_char.
  - repeat (constructor; [unfold int64, two63; vm_compute; intuition congruence|]). constructor.
Defined.

(** The figures that run prints. *)
Example sample_report :
  map (fun kv => kv.2) (results_entries "trade" sample_own sample_all)
  = ["trade"; "381"; "3663"; "3"; "9"; "1"; "2"; "9.61"; "66.7"].
Proof. vm_compute. reflexivity. Qed.
