(* ===== verification/Quotegen.v ===== *)
(** * Command [quotegen]: synthetic market data onto a topic

    [startup] is [main] up to the loop; [step] is one turn of the loop, for the case
    its [select] takes: the interrupt, the deadline, or a tick with the clock's
    microseconds. The generator of package [math/rand] is a state ([MathRand]), the
    writer is the Kafka library's ([KafkaLib]), and [GeneratorAvro] marshals the
    three structs. The float operations are those of Go without fused
    multiply-add, as on amd64. *)

From S2P Require Import Prelude.
From S2P Require Import GoStrings.
From S2P Require Import GoStrconv.
From S2P Require Import Model.
From S2P Require Import Schemas.
From S2P Require Import Encode.
From S2P Require Import Sink.
From S2P Require Import GoRand.

Local Open Scope Z_scope.

(** ** The records *)

Module Quotegen.
Record level := mkLevel { Price : float64; Size : float64 }.
Record bookDelta := mkBookDelta {
  bd_Venue : string; bd_Symbol : string; bd_IsSnapshot : bool; bd_Bids : list level;
  bd_Asks : list level; bd_EventTimeUS : Z; bd_IngestTimeUS : Z; bd_Sequence : Z }.
Record trade := mkTrade {
  t_Venue : string; t_Symbol : string; t_TradeID : string; t_Price : float64; t_Size : float64;
  t_Side : string; t_EventTimeUS : Z; t_IngestTimeUS : Z; t_Sequence : Z }.
Record quote := mkQuote {
  q_Venue : string; q_Symbol : string; q_BidPrice : float64; q_BidSize : float64;
  q_AskPrice : float64; q_AskSize : float64; q_Mid : float64; q_SpreadBps : float64;
  q_Imbalance : float64; q_EventTimeUS : Z; q_EmitTimeUS : Z }.
Inductive record := RBook (d : bookDelta) | RTrade (t : trade) | RQuote (q : quote).

(** The [avro] tags. *)
Definition level_tags : go_type := GoStruct [("price", GoFloat64); ("size", GoFloat64)].
Definition bookDelta_tags : go_type :=
  GoStruct
    [("venue", GoString); ("symbol", GoString); ("is_snapshot", GoBool); ("bids", GoSlice level_tags);
     ("asks", GoSlice level_tags); ("event_time_us", GoInt64); ("ingest_time_us", GoInt64);
     ("sequence", GoInt64)].
Definition trade_tags : go_type :=
  GoStruct
    [("venue", GoString); ("symbol", GoString); ("trade_id", GoString); ("price", GoFloat64);
     ("size", GoFloat64); ("side", GoString); ("event_time_us", GoInt64);
     ("ingest_time_us", GoInt64); ("sequence", GoInt64)].
Definition quote_tags : go_type :=
  GoStruct
    [("venue", GoString); ("symbol", GoString); ("bid_price", GoFloat64); ("bid_size", GoFloat64);
     ("ask_price", GoFloat64); ("ask_size", GoFloat64); ("mid", GoFloat64);
     ("spread_bps", GoFloat64); ("imbalance", GoFloat64); ("event_time_us", GoInt64);
     ("emit_time_us", GoInt64)].
Definition tags_of (r : record) : go_type :=
  match r with RBook _ => bookDelta_tags | RTrade _ => trade_tags | RQuote _ => quote_tags end.

(** The library of github.com/hamba/avro, for these records. *)
Class GeneratorAvro := {
  ga_schema : Type;
  ga_Parse : string -> res ga_schema;
  ga_Marshal : ga_schema -> record -> res (list byte);
}.

(** ** Rounding *)

(** [math.Round]: the nearest integer, halves away from zero. *)
Definition round_half_away (m k : Z) : Z := (m + 2 ^ (k - 1)) / 2 ^ k.
Definition math_Round (x : float64) : float64 :=
  match x with
  | S754_finite s m e =>
      if 0 <=? e then x else f64_sign s (f64_of_Z (round_half_away (Z.pos m) (- e)))
  | _ => x
  end.
Definition round2 (v : float64) : float64 := f64_div (math_Round (f64_mul v (f64_of_Z 100))) (f64_of_Z 100).

(** ** main, up to the loop *)

Record flags := mkFlags {
  fl_brokers : string; fl_topic : string; fl_schemaID : Z; fl_rate : Z; fl_dur : duration;
  fl_schemaPath : string; fl_kind : string }.
Definition default_flags : flags :=
  mkFlags "localhost:9092" "md.quotes.v1" 0 500 (60 * second)
    "stream/src/main/resources/avro/quote.v1.avsc" "quote".

Definition wire_header (schemaID : Z) : list byte := Byte.x00 :: PutUint32 (uwrap32 schemaID).

Definition generator_writer (f : flags) : WriterSettings :=
  mkWriterSettings (mkWriterConfig [fl_brokers f] 1 200 0 (5 * millisecond) "" false)
    (fl_topic f) "hash" 0 false.

(** The ticker's period: the division by a zero rate panics, as does [NewTicker] for a
    period that is not positive. *)
Definition tick_period (rate : Z) : res duration :=
  if rate =? 0 then Panic
  else let d := Z.quot second rate in if d <=? 0 then Panic else Ok d.

Section generator.
Context `{GeneratorAvro, MathRand, KafkaLib}.

Record generator := mkGenerator {
  g_kind : string; g_schema : ga_schema; g_header : list byte; g_period : duration }.

(** [Err] is [log.Fatal]. *)
Definition startup (read_file : string -> res string) (f : flags) : res (generator * kafka_Writer) :=
  if fl_schemaID f =? 0 then Err (EMsg "-schema-id is required; register the quote schema first")
  else
    schemaJSON ← wrap_err "reading quote schema" (read_file (fl_schemaPath f));
    schema ← wrap_err "parsing quote schema" (ga_Parse schemaJSON);
    period ← tick_period (fl_rate f);
    Ok (mkGenerator (fl_kind f) schema (wire_header (fl_schemaID f)) period,
        new_Writer (generator_writer f)).

(** ** A record *)

Definition symbols : list string := ["BTC-USD"; "ETH-USD"; "SOL-USD"].
Definition venues : list string := ["coinbase"; "kraken"; "binance"].
Definition base : gmap string float64 :=
  <["BTC-USD" := f64_of_Z 64000]> (<["ETH-USD" := f64_of_Z 3100]> {["SOL-USD" := f64_of_Z 140]}).

(** What the generator carries from a record to the next. *)
Record gen := mkGen {
  gn_rng : source; gn_sent : Z; gn_seeded : gset string; gn_lastMid : gmap string float64 }.

(** [l[rand.Intn(len(l))]]. *)
Definition pick (rng : source) (l : list string) : res (string * source) :=
  let '(n, rng) := Intn rng (Z.of_nat (length l)) in
  match l !! Z.to_nat n with
  | Some s => if n <? 0 then Panic else Ok (s, rng)
  | None => Panic
  end.

(** [1 + rand.Float64()]. *)
Definition rand_size (rng : source) : float64 * source :=
  let '(u, rng) := Float64 rng in (f64_add (f64_of_Z 1) u, rng).

(** The distance of the level [i] from the mid. *)
Definition level_offset (spread : float64) (i : nat) : float64 :=
  f64_mul spread (f64_of_Z (Z.of_nat i + 1)).

(** The five turns of the loop that appends a bid and an ask. *)
Fixpoint add_levels (n i : nat) (mid spread : float64) (rng : source) (bids asks : list level)
    : list level * list level * source :=
  match n with
  | O => (bids, asks, rng)
  | S n' =>
      let '(s1, rng) := rand_size rng in
      let bids := bids ++ [mkLevel (round2 (f64_sub mid (level_offset spread i))) s1] in
      let '(s2, rng) := rand_size rng in
      let asks := asks ++ [mkLevel (round2 (f64_add mid (level_offset spread i))) s2] in
      add_levels n' (S i) mid spread rng bids asks
  end.

(** The levels that would clear the previous touch. *)
Definition clear_bids (prev spread : float64) : list level :=
  map (fun i => mkLevel (round2 (f64_sub prev (level_offset spread i))) f64_zero) (seq 0 5).
Definition clear_asks (prev spread : float64) : list level :=
  map (fun i => mkLevel (round2 (f64_add prev (level_offset spread i))) f64_zero) (seq 0 5).

Definition book_record (st : gen) (rng : source) (ven sym : string) (mid spread : float64) (now : Z)
    : record * gen :=
  let seq := gn_sent st in
  let key := ven +:+ "|" +:+ sym in
  let isSnap := true in
  let '(bids, asks, rng) := add_levels 5 0 mid spread rng [] [] in
  let '(bids, asks) :=
    if negb isSnap then
      match gn_lastMid st !! key with
      | Some prev => (bids ++ clear_bids prev spread, asks ++ clear_asks prev spread)
      | None => (bids, asks)
      end
    else (bids, asks) in
  (RBook (mkBookDelta ven sym isSnap bids asks now now seq),
   mkGen rng (gn_sent st) ({[key]} ∪ gn_seeded st) (<[key := mid]> (gn_lastMid st))).

Definition trade_record (st : gen) (rng : source) (ven sym : string) (mid : float64) (now : Z)
    : record * gen :=
  let '(n, rng) := Intn rng 2 in
  let side := if n =? 0 then "SELL" else "BUY" in
  let '(u, rng) := Float64 rng in
  (RTrade (mkTrade ven sym (ven +:+ "-" +:+ FormatInt (gn_sent st)) (round2 mid)
             (f64_add (f64 "0.01") u) side now now (gn_sent st)),
   mkGen rng (gn_sent st) (gn_seeded st) (gn_lastMid st)).

Definition quote_record (st : gen) (rng : source) (ven sym : string) (mid spread : float64) (now : Z)
    : record * gen :=
  let half := f64_div spread (f64_of_Z 2) in
  let '(bsz, rng) := rand_size rng in
  let '(asz, rng) := rand_size rng in
  let '(u, rng) := Float64 rng in
  (RQuote (mkQuote ven sym (f64_sub mid half) bsz (f64_add mid half) asz mid
             (f64_mul (f64_div spread mid) (f64_of_Z 10000))
             (f64_mul (f64_sub u (f64 "0.5")) (f64_of_Z 2)) now now),
   mkGen rng (gn_sent st) (gn_seeded st) (gn_lastMid st)).

(** The case of the ticker, up to the record. *)
Definition next_record (kind : string) (st : gen) (now : Z) : res (string * record * gen) :=
  '(sym, rng) ← pick (gn_rng st) symbols;
  '(ven, rng) ← pick rng venues;
  let '(u, rng) := Float64 rng in
  let mid := f64_mul (default f64_zero (base !! sym))
               (f64_add (f64_of_Z 1) (f64_mul (f64_sub u (f64 "0.5")) (f64 "0.001"))) in
  let spread := f64_mul mid (f64 "0.0001") in
  let '(r, st) :=
    if String.eqb kind "book" then book_record st rng ven sym mid spread now
    else if String.eqb kind "trade" then trade_record st rng ven sym mid now
    else quote_record st rng ven sym mid spread now in
  Ok (sym, r, st).

Definition marshal_context (r : record) : string :=
  match r with RBook _ => "marshal book delta" | RTrade _ => "marshal trade" | RQuote _ => "marshal" end.

(** The record as a message; counting it in [sent]. *)
Definition next_message (g : generator) (st : gen) (now : Z) : res (KafkaMessage * gen) :=
  '(sym, r, st) ← next_record (g_kind g) st now;
  payload ← wrap_err (marshal_context r) (ga_Marshal (g_schema g) r);
  Ok (mkKafkaMessage "" sym (g_header g ++ payload) zero_time [],
      mkGen (gn_rng st) (gn_sent st + 1) (gn_seeded st) (gn_lastMid st)).

(** ** The loop *)

(** [gs_log] is what [log.Printf] has printed. *)
Record gstate := mkGstate {
  gs_w : kafka_Writer; gs_gen : gen; gs_batch : list KafkaMessage; gs_log : list error }.
Definition gen0 (rng : source) : gen := mkGen rng 0 ∅ ∅.
Definition gstate0 (w : kafka_Writer) (rng : source) : gstate := mkGstate w (gen0 rng) [] [].

(** Appending to the batch: a full one is written, and emptied even when that fails. *)
Definition enqueue (st : gstate) (m : KafkaMessage) (gn : gen) : gstate :=
  let batch := gs_batch st ++ [m] in
  if (200 <=? length batch)%nat then
    let '(w, err, _) := WriteMessages (gs_w st) batch in
    mkGstate w gn [] (match err with Some e => gs_log st ++ [EWrap "write" e] | None => gs_log st end)
  else mkGstate (gs_w st) gn batch (gs_log st).

Inductive event := Interrupt | Deadline | Tick (now : Z).

(** [Exited] is [log.Fatalf]; [Returned] carries the number printed. *)
Inductive outcome :=
  | Running (st : gstate)
  | Returned (st : gstate) (printed : Z)
  | Exited (st : gstate) (e : error)
  | Crashed.

Definition step (g : generator) (st : gstate) (ev : event) : outcome :=
  match ev with
  | Interrupt => Returned st (gn_sent (gs_gen st))
  | Deadline =>
      let w := match gs_batch st with
               | [] => gs_w st
               | batch => (WriteMessages (gs_w st) batch).1.1
               end in
      Returned (mkGstate w (gs_gen st) (gs_batch st) (gs_log st)) (gn_sent (gs_gen st))
  | Tick now =>
      match next_message g (gs_gen st) now with
      | Ok (m, gn) => Running (enqueue st m gn)
      | Err e => Exited st e
      | Panic => Crashed
      end
  end.

(** The loop over the events, until it returns. *)
Fixpoint loop (g : generator) (st : gstate) (evs : list event) : outcome :=
  match evs with
  | [] => Running st
  | ev :: evs' =>
      match step g st ev with
      | Running st' => loop g st' evs'
      | o => o
      end
  end.
End generator.

(** ** Specification *)

Section specification.
Context `{GeneratorAvro, MathRand}.

(** The messages of the ticks [nows], whatever is written when. *)
Fixpoint messages (g : generator) (st : gen) (nows : list Z) : res (list KafkaMessage * gen) :=
  match nows with
  | [] => Ok ([], st)
  | now :: nows' =>
      '(m, st) ← next_message g st now;
      '(ms, st) ← messages g st nows';
      Ok (m :: ms, st)
  end.

(** What a record says: its kind, its number [i], and, for a book, that it is a
    snapshot of five levels on each side. *)
Definition record_ok (kind sym : string) (i : Z) (r : record) : Prop :=
  match r with
  | RBook d => kind = "book" /\ bd_Venue d ∈ venues /\ bd_Symbol d = sym /\ bd_IsSnapshot d = true
      /\ length (bd_Bids d) = 5%nat /\ length (bd_Asks d) = 5%nat /\ bd_Sequence d = i
  | RTrade t => kind = "trade" /\ t_Venue t ∈ venues /\ t_Symbol t = sym /\ t_Sequence t = i
      /\ t_TradeID t = t_Venue t +:+ "-" +:+ FormatInt i /\ (t_Side t = "BUY" \/ t_Side t = "SELL")
  | RQuote q => kind <> "book" /\ kind <> "trade" /\ q_Venue q ∈ venues /\ q_Symbol q = sym
      /\ exists spread, q_BidPrice q = f64_sub (q_Mid q) (f64_div spread (f64_of_Z 2))
           /\ q_AskPrice q = f64_add (q_Mid q) (f64_div spread (f64_of_Z 2))
  end.
Definition message_ok (g : generator) (i : Z) (m : KafkaMessage) : Prop :=
  exists r payload, km_Key m ∈ symbols /\ record_ok (g_kind g) (km_Key m) i r
    /\ ga_Marshal (g_schema g) r = Ok payload /\ km_Value m = g_header g ++ payload.

(** The struct a kind marshals. *)
Definition kind_tags (kind : string) : go_type :=
  if String.eqb kind "book" then bookDelta_tags
  else if String.eqb kind "trade" then trade_tags else quote_tags.
End specification.

(** ** Lemmas on the records *)

Lemma add_levels_length `{MathRand} n : forall i mid spread rng bids asks,
  let '(bids', asks', _) := add_levels n i mid spread rng bids asks in
  length bids' = (length bids + n)%nat /\ length asks' = (length asks + n)%nat.
Proof.
  induction n as [|n IH]; intros *; cbn [add_levels]; [lia|].
  destruct (rand_size rng) as [s1 rng1]. destruct (rand_size rng1) as [s2 rng2].
  match goal with |- context [add_levels n ?i ?m ?s ?r ?b ?a] => specialize (IH i m s r b a) end.
  destruct (add_levels _ _ _ _ _ _ _) as [[b a] r]. rewrite !length_app in IH. cbn [length] in IH. lia.
Qed.

Section records.
Context `{GeneratorAvro, LawfulRand}.

Lemma pick_ok rng l : l <> [] -> exists s rng', pick rng l = Ok (s, rng') /\ s ∈ l.
Proof.
  intros Hl. unfold pick. destruct l as [|x l]; [done|].
  pose proof (Intn_range rng (Z.of_nat (length (x :: l)))) as Hr. cbn [length] in *.
  destruct (Intn _ _) as [n rng']. cbn [fst] in Hr.
  destruct (lookup_lt_is_Some_2 (x :: l) (Z.to_nat n)) as [s Hs]; [cbn; lia|].
  rewrite Hs. destruct (Z.ltb_spec n 0); [lia|]. exists s, rng'. split; [done|].
  by eapply list_elem_of_lookup_2.
Qed.

Lemma next_record_ok kind st now : exists sym r st',
  next_record kind st now = Ok (sym, r, st') /\ sym ∈ symbols /\ gn_sent st' = gn_sent st
  /\ record_ok kind sym (gn_sent st) r /\ tags_of r = kind_tags kind.
Proof.
  unfold next_record. destruct (pick_ok (gn_rng st) symbols) as (sym & rng1 & -> & Hsym); [done|].
  cbn [mbind res_bind]. destruct (pick_ok rng1 venues) as (ven & rng2 & -> & Hven); [done|].
  cbn [mbind res_bind]. destruct (Float64 rng2) as [u rng3]. unfold kind_tags.
  set (mid := f64_mul _ _). set (spread := f64_mul mid _). clearbody mid spread.
  destruct (String.eqb_spec kind "book") as [Hb|Hb]; [|destruct (String.eqb_spec kind "trade") as [Ht|Ht]].
  - unfold book_record. pose proof (add_levels_length 5 0 mid spread rng3 [] []) as Hl.
    destruct (add_levels 5 _ _ _ _ _ _) as [[bids asks] rng4]. cbn [negb]. do 3 eexists. split; [reflexivity|].
    cbn in *. by destruct Hl as [-> ->].
  - unfold trade_record. destruct (Intn rng3 2) as [n rng4]. destruct (Float64 rng4) as [v rng5].
    do 3 eexists. split; [reflexivity|]. cbn. split_and!; try done. destruct (n =? 0); auto.
  - unfold quote_record. destruct (rand_size rng3) as [s1 rng4]. destruct (rand_size rng4) as [s2 rng5].
    destruct (Float64 rng5) as [v rng6]. do 3 eexists. split; [reflexivity|]. cbn. split_and!; try done.
    by exists spread.
Qed.

(** A turn of the generator: a well-formed message, or the marshalling error. *)
Lemma next_message_ok g st now :
  match next_message g st now with
  | Ok (m, st') => message_ok g (gn_sent st) m /\ gn_sent st' = gn_sent st + 1
  | Err _ => exists r, tags_of r = kind_tags (g_kind g) /\ forall p, ga_Marshal (g_schema g) r <> Ok p
  | Panic => exists r, tags_of r = kind_tags (g_kind g) /\ ga_Marshal (g_schema g) r = Panic
  end.
Proof.
  unfold next_message. destruct (next_record_ok (g_kind g) st now) as (sym & r & st1 & -> & Hs & Hn & Hr & Ht).
  cbn [mbind res_bind]. destruct (ga_Marshal (g_schema g) r) as [p|e|] eqn:E; cbn [wrap_err mbind res_bind].
  - cbn [gn_sent]. rewrite Hn. split; [|done]. by exists r, p.
  - exists r. split; [done|]. intros p. by rewrite E.
  - by exists r.
Qed.

Lemma messages_ok g nows : forall st ms st', messages g st nows = Ok (ms, st') ->
  length ms = length nows /\ gn_sent st' = gn_sent st + Z.of_nat (length nows)
  /\ forall i m, ms !! i = Some m -> message_ok g (gn_sent st + Z.of_nat i) m.
Proof.
  induction nows as [|now nows IH]; intros st ms st' Hm; cbn [messages] in Hm.
  { injection Hm as <- <-. split_and!; [done|cbn; lia|done]. }
  apply bind_Ok in Hm as ([m st1] & Hm1 & Hm). apply bind_Ok in Hm as ([ms2 st2] & Hm2 & Hm).
  injection Hm as <- <-. pose proof (next_message_ok g st now) as Hn. rewrite Hm1 in Hn.
  destruct Hn as [Hok Hs]. destruct (IH _ _ _ Hm2) as (Hl & Hs2 & Hi). rewrite Hs in *.
  split_and!; [cbn; lia|cbn [length]; lia|]. intros [|i] m' Hlook.
  - injection Hlook as <-. by rewrite Z.add_0_r.
  - specialize (Hi i m' Hlook). by replace (gn_sent st + Z.of_nat (S i)) with (gn_sent st + 1 + Z.of_nat i) by lia.
Qed.
End records.

(** ** Lemmas on the loop *)

Section loop.
Context `{GeneratorAvro, MathRand, WriterLog}.

Lemma loop_app g evs1 evs2 : forall st st', loop g st evs1 = Running st' ->
  loop g st (evs1 ++ evs2) = loop g st' evs2.
Proof.
  induction evs1 as [|ev evs1 IH]; intros st st' Hl; cbn [loop app] in *; [by injection Hl as ->|].
  destruct (step g st ev); try done. by apply IH.
Qed.

(** From [st], where the batch is not full, to [st'] the messages [ms] have arrived:
    [full] has left in batches of 200, [added] is what of it was written. *)
Definition flows (st : gstate) (ms : list KafkaMessage) (st' : gstate) : Prop :=
  exists full added errs,
    gs_batch st ++ ms = full ++ gs_batch st' /\ (exists c, length full = 200 * c)%nat
    /\ written (gs_w st') = written (gs_w st) ++ added /\ added `sublist_of` full
    /\ gs_log st' = gs_log st ++ errs /\ (errs = [] -> added = full)
    /\ (length (gs_batch st') < 200)%nat.

Lemma flows_refl st : (length (gs_batch st) < 200)%nat -> flows st [] st.
Proof.
  intros Hl. exists [], [], []. rewrite !app_nil_r. split_and!; try done. by exists 0%nat.
Qed.

Lemma flows_trans st1 ms1 st2 ms2 st3 : flows st1 ms1 st2 -> flows st2 ms2 st3 -> flows st1 (ms1 ++ ms2) st3.
Proof.
  intros (f1 & a1 & e1 & Hb1 & [c1 Hc1] & Hw1 & Hs1 & Hl1 & Ho1 & _)
    (f2 & a2 & e2 & Hb2 & [c2 Hc2] & Hw2 & Hs2 & Hl2 & Ho2 & Hlen).
  exists (f1 ++ f2), (a1 ++ a2), (e1 ++ e2). split_and!.
  - by rewrite (assoc_L (++)), Hb1, <- !(assoc_L (++)), Hb2.
  - exists (c1 + c2)%nat. rewrite length_app. lia.
  - by rewrite Hw2, Hw1, (assoc_L (++)).
  - by apply sublist_app.
  - by rewrite Hl2, Hl1, (assoc_L (++)).
  - intros [E1 E2]%app_eq_nil. by rewrite (Ho1 E1), (Ho2 E2).
  - done.
Qed.

Lemma enqueue_flows st m gn : (length (gs_batch st) < 200)%nat ->
  flows st [m] (enqueue st m gn) /\ gs_gen (enqueue st m gn) = gn.
Proof.
  intros Hl. unfold enqueue. destruct (Nat.leb_spec 200 (length (gs_batch st ++ [m]))) as [Hf|Hf].
  - destruct (WriteMessages _ _) as [[w [e|]] x] eqn:E; split; try done.
    + destruct (written_err _ _ _ _ _ E) as (part & Hs & Hw).
      exists (gs_batch st ++ [m]), part, [EWrap "write" e]. cbn [gs_batch gs_w gs_log].
      rewrite length_app in *. cbn [length] in *. rewrite app_nil_r.
      split_and!; try done; [exists 1%nat; lia|lia].
    + exists (gs_batch st ++ [m]), (gs_batch st ++ [m]), []. cbn [gs_batch gs_w gs_log].
      rewrite length_app in *. cbn [length] in *. rewrite !app_nil_r.
      split_and!; try done; [exists 1%nat; lia|by apply written_ok in E|lia].
  - split; [|done]. exists [], [], []. cbn [gs_batch gs_w gs_log]. rewrite !app_nil_r.
    split_and!; try done. by exists 0%nat.
Qed.

Lemma loop_ticks g nows : forall st ms gn', (length (gs_batch st) < 200)%nat ->
  messages g (gs_gen st) nows = Ok (ms, gn') ->
  exists st', loop g st (map Tick nows) = Running st' /\ gs_gen st' = gn' /\ flows st ms st'.
Proof.
  induction nows as [|now nows IH]; intros st ms gn' Hl Hm; cbn [messages map loop step] in *.
  { injection Hm as <- <-. exists st. split_and!; [done..|by apply flows_refl]. }
  apply bind_Ok in Hm as ([m gn1] & Hm1 & Hm). apply bind_Ok in Hm as ([ms2 gn2] & Hm2 & Hm).
  injection Hm as <- <-. rewrite Hm1. destruct (enqueue_flows st m gn1 Hl) as [Hf Hg].
  assert (Hl' : (length (gs_batch (enqueue st m gn1)) < 200)%nat).
  { by destruct Hf as (? & ? & ? & _ & _ & _ & _ & _ & _ & Hl'). }
  rewrite <- Hg in Hm2. destruct (IH _ _ _ Hl' Hm2) as (st' & Hrun & Hgen & Hf').
  exists st'. split_and!; [done..|]. by apply (flows_trans st [m] (enqueue st m gn1)).
Qed.

(** Nothing waits at first: the flow is the cut at the last multiple of 200. *)
Lemma flows_cut w rng ms st : flows (gstate0 w rng) ms st ->
  let cut := (200 * (length ms / 200))%nat in
  gs_batch st = drop cut ms
  /\ exists added, written (gs_w st) = written w ++ added /\ added `sublist_of` take cut ms
     /\ (gs_log st = [] -> added = take cut ms).
Proof.
  intros (full & added & errs & Hb & [c Hc] & Hw & Hs & Hl & Ho & Hlen) cut.
  cbn [gstate0 gs_batch gs_w gs_log app] in *.
  assert (cut = length full) as ->.
  { unfold cut. rewrite Hb, length_app, Hc.
    rewrite (Nat.mul_comm 200 c), Nat.div_add_l by lia. rewrite (Nat.div_small (length (gs_batch st))) by lia. lia. }
  rewrite Hb, drop_app_length, take_app_length. split; [done|]. exists added.
  split_and!; try done. by rewrite Hl.
Qed.
End loop.

Lemma pick_sent `{GeneratorAvro, MathRand} kind st now sym r st' :
  next_record kind st now = Ok (sym, r, st') -> gn_sent st' = gn_sent st.
Proof.
  unfold next_record. intros ([s rng1] & _ & Hn)%bind_Ok. apply bind_Ok in Hn as ([v rng2] & _ & Hn).
  destruct (Float64 rng2) as [u rng3]. unfold book_record, trade_record, quote_record in Hn.
  repeat case_match; try (injection Hn as <- <- <-); by subst; simplify_eq.
Qed.

Lemma messages_sent `{GeneratorAvro, MathRand} g nows : forall st ms st',
  messages g st nows = Ok (ms, st') -> gn_sent st' = gn_sent st + Z.of_nat (length ms).
Proof.
  induction nows as [|now nows IH]; intros st ms st' Hm; cbn [messages] in Hm.
  { injection Hm as <- <-. cbn. lia. }
  apply bind_Ok in Hm as ([m st1] & Hm1 & Hm). apply bind_Ok in Hm as ([ms2 st2] & Hm2 & Hm).
  injection Hm as <- <-. rewrite (IH _ _ _ Hm2). unfold next_message in Hm1.
  apply bind_Ok in Hm1 as ([[sym r] st3] & Hr & Hm1). apply bind_Ok in Hm1 as (p & _ & Hm1).
  injection Hm1 as _ <-. cbn [gn_sent length]. rewrite (pick_sent _ _ _ _ _ _ Hr). lia.
Qed.

Lemma reliable_log `{GeneratorAvro, MathRand, KafkaLib} g :
  (forall w kms, (WriteMessages w kms).1.2 = None) ->
  forall nows st st', loop g st (map Tick nows) = Running st' -> gs_log st' = gs_log st.
Proof.
  intros Hr. induction nows as [|now nows IH]; intros st st' Hl; cbn [map loop] in Hl; [by injection Hl as <-|].
  cbn [step] in Hl. destruct (next_message g (gs_gen st) now) as [[m gn]|e|]; [|done..].
  rewrite (IH _ _ Hl). unfold enqueue. destruct (200 <=? _)%nat; [|done].
  specialize (Hr (gs_w st) (gs_batch st ++ [m])). by destruct (WriteMessages _ _) as [[w [e|]] x].
Qed.

(** What [startup] returns. *)
Lemma startup_inv `{GeneratorAvro, KafkaLib} read_file f g w :
  startup read_file f = Ok (g, w) ->
  g_kind g = fl_kind f /\ g_header g = wire_header (fl_schemaID f) /\ w = new_Writer (generator_writer f)
  /\ tick_period (fl_rate f) = Ok (g_period g)
  /\ exists text, read_file (fl_schemaPath f) = Ok text /\ ga_Parse text = Ok (g_schema g).
Proof.
  unfold startup. destruct (fl_schemaID f =? 0); [done|].
  intros (text & Ht%wrap_err_Ok & Hf)%bind_Ok. apply bind_Ok in Hf as (schema & Hs%wrap_err_Ok & Hf).
  apply bind_Ok in Hf as (period & Hp & Hf). injection Hf as <- <-. split_and!; try done. by exists text.
Qed.

(** The last write, at the deadline. *)
Lemma deadline_flushes `{GeneratorAvro, MathRand, WriterLog} g st :
  exists st' last, step g st Deadline = Returned st' (gn_sent (gs_gen st))
    /\ gs_log st' = gs_log st /\ written (gs_w st') = written (gs_w st) ++ last
    /\ last `sublist_of` gs_batch st
    /\ ((forall w kms, (WriteMessages w kms).1.2 = None) -> last = gs_batch st).
Proof.
  cbn [step]. destruct (gs_batch st) as [|m b] eqn:Eb.
  { eexists _, []. split; [reflexivity|]. rewrite app_nil_r. by split_and!. }
  destruct (WriteMessages (gs_w st) (m :: b)) as [[w [e|]] x] eqn:E; cbn [fst]; eexists.
  - destruct (written_err _ _ _ _ _ E) as (part & Hs & Hw). exists part. split; [reflexivity|].
    split_and!; try done. intros Hr. specialize (Hr (gs_w st) (m :: b)). by rewrite E in Hr.
  - exists (m :: b). split; [reflexivity|]. split_and!; try done. by apply written_ok in E.
Qed.

(** Delivery of the generator. After [n] ticks [n] messages have been generated and
    those before the last multiple of 200 have left in batches: nothing else has been
    written, and all of them have when no error was printed. The interrupt returns
    there and prints [n], although the messages after the cut are never written; the
    deadline writes them, again prints [n], and prints no error of that last write.
    With a broker that acknowledges everything a run that ends at its deadline has
    written exactly its messages, in order. *)
Theorem generator_delivery `{GeneratorAvro, MathRand, WriterLog} read_file f g w rng nows ms gn :
  startup read_file f = Ok (g, w) -> messages g (gen0 rng) nows = Ok (ms, gn) ->
  let n := Z.of_nat (length ms) in let cut := (200 * (length ms / 200))%nat in
  let reliable := forall w kms, (WriteMessages w kms).1.2 = None in
  exists st, loop g (gstate0 w rng) (map Tick nows) = Running st
    /\ written (gs_w st) `sublist_of` take cut ms
    /\ (gs_log st = [] \/ reliable -> written (gs_w st) = take cut ms)
    /\ loop g (gstate0 w rng) (map Tick nows ++ [Interrupt]) = Returned st n
    /\ exists st', loop g (gstate0 w rng) (map Tick nows ++ [Deadline]) = Returned st' n
      /\ gs_log st' = gs_log st
      /\ (exists last, written (gs_w st') = written (gs_w st) ++ last /\ last `sublist_of` drop cut ms)
      /\ (reliable -> written (gs_w st') = ms).
Proof.
  intros (_ & _ & -> & _)%startup_inv Hm n cut reliable. set (w := new_Writer _).
  destruct (loop_ticks g nows (gstate0 w rng) ms gn) as (st & Hrun & Hgen & Hf); [cbn; lia|done|].
  destruct (flows_cut _ _ _ _ Hf) as (Hb & added & Hw & Hs & Ho). fold cut in Hb, Hs, Ho.
  unfold w in Hw. rewrite written_new in Hw. cbn [app] in Hw. subst added.
  assert (Hrel : gs_log st = [] \/ reliable -> written (gs_w st) = take cut ms).
  { intros [Hl|Hr]; apply Ho; [done|]. by apply (reliable_log g Hr) in Hrun. }
  pose proof (messages_sent _ _ _ _ _ Hm) as Hsent. change (gn_sent gn = n) in Hsent.
  exists st. split; [done|]. split; [done|]. split; [done|]. rewrite !(loop_app g _ _ _ _ Hrun).
  split; [cbn [loop step]; by rewrite Hgen, Hsent|].
  destruct (deadline_flushes g st) as (st' & last & Hstep & Hlog & Hw' & Hs' & Hr'). rewrite Hb in Hs', Hr'.
  exists st'. cbn [loop]. rewrite Hstep, Hgen, Hsent. split_and!; [done..|by exists last|].
  intros Hr. by rewrite Hw', Hrel, Hr', take_drop by auto.
Qed.

(** What the generator sends. If the schema marshals the struct of the kind, every
    tick yields a message and [sent] counts them; each is framed under the schema id
    (mod 2^32) the flag gives, so that [SplitHeader] returns its payload; its key is
    its symbol, and the record numbered [i] says [i]: a book is a snapshot of five
    bids and five asks whatever came before, a trade is identified by its venue and
    number, and every kind but [book] and [trade] is a quote around its mid. *)
Theorem generated_records `{GeneratorAvro, LawfulRand, KafkaLib} read_file f g w rng nows :
  startup read_file f = Ok (g, w) ->
  (forall r, tags_of r = kind_tags (fl_kind f) -> exists p, ga_Marshal (g_schema g) r = Ok p) ->
  exists ms gn, messages g (gen0 rng) nows = Ok (ms, gn)
    /\ length ms = length nows /\ gn_sent gn = Z.of_nat (length nows)
    /\ forall i m, ms !! i = Some m ->
       km_Key m ∈ symbols
       /\ exists r payload, record_ok (fl_kind f) (km_Key m) (Z.of_nat i) r
          /\ ga_Marshal (g_schema g) r = Ok payload
          /\ SplitHeader (km_Value m) = Ok (uwrap32 (fl_schemaID f), payload).
Proof.
  intros (Hk & Hh & _)%startup_inv Hmar. rewrite <- Hk in *.
  assert (forall st, exists ms gn, messages g st nows = Ok (ms, gn)) as Htot.
  { clear rng. induction nows as [|now nows IH]; intros st; cbn [messages]; [by do 2 eexists|].
    pose proof (next_message_ok g st now) as Hn. destruct (next_message g st now) as [[m st1]|e|].
    - cbn [mbind res_bind]. destruct (IH st1) as (ms & gn & ->). cbn [mbind res_bind]. by do 2 eexists.
    - destruct Hn as (r & Hr & Hp). destruct (Hmar r Hr) as [p Hp']. by destruct (Hp p).
    - destruct Hn as (r & Hr & Hp). destruct (Hmar r Hr) as [p Hp']. by rewrite Hp' in Hp. }
  destruct (Htot (gen0 rng)) as (ms & gn & Hm). destruct (messages_ok _ _ _ _ _ Hm) as (Hl & Hs & Hi).
  exists ms, gn. split_and!; [done..|]. intros i m Hlook.
  destruct (Hi i m Hlook) as (r & payload & Hsym & Hr & Hp & Hv). split; [done|]. exists r, payload.
  split_and!; [done..|]. rewrite Hv, Hh. apply (SplitHeader_frame (uwrap32 _)). by apply Z.mod_pos_bound.
Qed.

(** ** The start, the schemas *)

Lemma tick_period_spec rate :
  if (1 <=? rate) && (rate <=? second)
  then exists d, tick_period rate = Ok d /\ 1 <= d /\ rate * d <= second < rate * (d + 1)
  else tick_period rate = Panic.
Proof.
  unfold tick_period, second. destruct (Z.leb_spec 1 rate) as [H1|H1]; cbn [andb].
  - assert (Z.quot 1000000000 rate = 1000000000 / rate) as -> by (apply Z.quot_div_nonneg; lia).
    pose proof (Z.mul_div_le 1000000000 rate). pose proof (Z.mul_succ_div_gt 1000000000 rate).
    destruct (Z.eqb_spec rate 0); [lia|].
    destruct (Z.leb_spec rate 1000000000) as [H2|H2]; destruct (Z.leb_spec (1000000000 / rate) 0) as [Hd|Hd].
    + nia.
    + exists (1000000000 / rate). split; [done|]. nia.
    + done.
    + rewrite Z.div_small in Hd; lia.
  - destruct (Z.eqb_spec rate 0); [done|].
    assert (Z.quot 1000000000 rate <= 0) as Hq.
    { replace rate with (- - rate) by lia. rewrite Z.quot_opp_r by lia.
      assert (0 <= Z.quot 1000000000 (- rate)) by (apply Z.quot_pos; lia). lia. }
    by destruct (Z.leb_spec (Z.quot 1000000000 rate) 0); [|lia].
Qed.

(** With a schema that reads and parses, the generator refuses to start without a
    schema id, starts for the rates from one record a second to one a nanosecond, with
    a period that is the whole number of nanoseconds of [1 s / rate], and panics for
    every other rate, zero and the negative ones included. *)
Theorem startup_rates `{GeneratorAvro, KafkaLib} read_file f text schema :
  read_file (fl_schemaPath f) = Ok text -> ga_Parse text = Ok schema ->
  if fl_schemaID f =? 0
  then startup read_file f = Err (EMsg "-schema-id is required; register the quote schema first")
  else if (1 <=? fl_rate f) && (fl_rate f <=? second)
  then exists g w, startup read_file f = Ok (g, w)
       /\ 1 <= g_period g /\ fl_rate f * g_period g <= second < fl_rate f * (g_period g + 1)
  else startup read_file f = Panic.
Proof.
  intros Ht Hs. unfold startup. destruct (fl_schemaID f =? 0); [done|].
  rewrite Ht. cbn [wrap_err mbind res_bind]. rewrite Hs. cbn [wrap_err mbind res_bind].
  pose proof (tick_period_spec (fl_rate f)) as Hp. destruct ((1 <=? _) && _).
  - destruct Hp as (d & -> & Hd). by do 2 eexists.
  - by rewrite Hp.
Qed.

(** [round_half_away] is the nearest integer to [m / 2^k]. *)
Lemma round_half_away_nearest m k : 1 <= k -> 2 * Z.abs (round_half_away m k * 2 ^ k - m) <= 2 ^ k.
Proof.
  intros Hk. unfold round_half_away.
  assert (2 ^ k = 2 * 2 ^ (k - 1)) as E by (rewrite <- Z.pow_succ_r by lia; f_equal; lia).
  assert (0 < 2 ^ (k - 1)) by (apply Z.pow_pos_nonneg; lia). rewrite E in *.
  pose proof (Z.mul_div_le (m + 2 ^ (k - 1)) (2 * 2 ^ (k - 1))).
  pose proof (Z.mul_succ_div_gt (m + 2 ^ (k - 1)) (2 * 2 ^ (k - 1))). nia.
Qed.

(** The quote schema, which the flag's default names. *)
Definition QuoteV1 : string := dq
"{
  'type': 'record',
  'name': 'Quote',
  'namespace': 'io.tapeline.md',
  'doc': 'Top of book plus derived microstructure statistics, emitted by the book job.',
  'fields': [
    { 'name': 'venue', 'type': 'string' },
    { 'name': 'symbol', 'type': 'string' },
    { 'name': 'bid_price', 'type': 'double' },
    { 'name': 'bid_size', 'type': 'double' },
    { 'name': 'ask_price', 'type': 'double' },
    { 'name': 'ask_size', 'type': 'double' },
    { 'name': 'mid', 'type': 'double' },
    { 'name': 'spread_bps', 'type': 'double' },
    { 'name': 'imbalance', 'type': 'double', 'doc': '(bidQty - askQty) / (bidQty + askQty) over the top levels' },
    { 'name': 'event_time_us', 'type': 'long' },
    { 'name': 'emit_time_us', 'type': 'long' }
  ]
}
".

(** The kinds with the schema their topic carries. *)
Definition kind_schemas : list (string * string) :=
  [("quote", QuoteV1); ("trade", TradeV1); ("book", BookDeltaV1)].

(** The generator stands in for the feeds: the structs of its trades and books have
    the fields of the ingest's, and each of its three structs fits the schema of its
    kind and no other, so a kind with another kind's schema (the default one is that
    of the quotes) does not marshal. *)
Theorem generator_structs_fit :
  trade_tags = Trade_tags /\ bookDelta_tags = BookDelta_tags
  /\ forall kind text, (kind, text) ∈ kind_schemas ->
     exists t, read_schema text = Some t
       /\ forall kind', kind' ∈ map fst kind_schemas ->
          fits (declared 8 t) 8 (kind_tags kind') t = String.eqb kind kind'.
Proof.
  split; [reflexivity|]. split; [reflexivity|]. intros kind text Hin.
  assert (forall kind', kind' ∈ map fst kind_schemas -> kind' = "quote" \/ kind' = "trade" \/ kind' = "book")
    as Hk by (intros kind'; cbn; rewrite !elem_of_cons, elem_of_nil; tauto).
  unfold kind_schemas in Hin. rewrite !elem_of_cons in Hin.
  destruct Hin as [[= -> ->]|[[= -> ->]|[[= -> ->]|Hin%elem_of_nil]]]; [..|done];
    (eexists; split; [vm_compute; reflexivity|]);
    intros kind' [-> | [-> | ->]]%Hk; vm_compute; reflexivity.
Qed.

(** ** A concrete generator: the schemas are read, a struct that fits is its symbol. *)

Definition symbol_of (r : record) : string :=
  match r with RBook d => bd_Symbol d | RTrade t => t_Symbol t | RQuote q => q_Symbol q end.
Definition reading_avro : GeneratorAvro := {|
  ga_schema := avro_type;
  ga_Parse text := match read_schema text with Some t => Ok t | None => Err (EMsg "avro: parse") end;
  ga_Marshal t r :=
    if fits (declared 8 t) 8 (tags_of r) t
    then Ok (map Ascii.byte_of_ascii (chars (symbol_of r))) else Err (EMsg "avro: unsupported") |}.
Definition book_flags : flags :=
  mkFlags "b:9092" "md.book.v1" 7 400 second "book.avsc" "book".
Definition book_file (path : string) : res string := Ok BookDeltaV1.

Definition book_generator : @generator reading_avro :=
  match @startup reading_avro log_kafka book_file book_flags with
  | Ok (g, _) => g
  | _ => @mkGenerator reading_avro "" (TName "") [] 0
  end.
Definition book_run (nows : list Z) : list KafkaMessage * @gen constant_rand :=
  match @messages reading_avro constant_rand book_generator (@gen0 constant_rand tt) nows with
  | Ok r => r
  | _ => ([], @gen0 constant_rand tt)
  end.
Definition book_ticks : list Z := [1; 2; 3].

Lemma startup_rates_witness :
  book_file (fl_schemaPath book_flags) = Ok BookDeltaV1
  /\ exists g w, @startup reading_avro log_kafka book_file book_flags = Ok (g, w)
       /\ 1 <= g_period g /\ fl_rate book_flags * g_period g <= second < fl_rate book_flags * (g_period g + 1).
Proof.
  split; [reflexivity|].
  refine (@startup_rates reading_avro log_kafka book_file book_flags BookDeltaV1
            (g_schema book_generator) _ _); [reflexivity|vm_compute; reflexivity].
Defined.

Lemma generated_records_witness :
  exists ms gn, @messages reading_avro constant_rand book_generator (@gen0 constant_rand tt) book_ticks = Ok (ms, gn)
    /\ length ms = length book_ticks /\ gn_sent gn = Z.of_nat (length book_ticks)
    /\ forall i m, ms !! i = Some m ->
       km_Key m ∈ symbols
       /\ exists r payload, record_ok "book" (km_Key m) (Z.of_nat i) r
          /\ @ga_Marshal reading_avro (g_schema book_generator) r = Ok payload
          /\ SplitHeader (km_Value m) = Ok (uwrap32 7, payload).
Proof.
  refine (@generated_records reading_avro constant_rand constant_lawful log_kafka
            book_file book_flags book_generator [] tt book_ticks _ _).
  - vm_cast_no_check (eq_refl (@startup reading_avro log_kafka book_file book_flags)).
  - intros r Hr. change (kind_tags (fl_kind book_flags)) with bookDelta_tags in Hr.
    exists (map Ascii.byte_of_ascii (chars (symbol_of r))). cbn [ga_Marshal reading_avro]. rewrite Hr.
    assert (fits (declared 8 (g_schema book_generator)) 8 bookDelta_tags (g_schema book_generator) = true)
      as -> by (vm_compute; reflexivity).
    reflexivity.
Defined.

Definition book_start : @gstate constant_rand log_kafka := @gstate0 constant_rand log_kafka [] tt.

Lemma generator_delivery_witness :
  let ms := (book_run book_ticks).1 in
  let n := Z.of_nat (length ms) in let cut := (200 * (length ms / 200))%nat in
  let reliable := forall w kms, (@WriteMessages log_kafka w kms).1.2 = None in
  exists st, @loop reading_avro constant_rand log_kafka book_generator book_start (map Tick book_ticks) = Running st
    /\ @written log_kafka log_writer (gs_w st) `sublist_of` take cut ms
    /\ (gs_log st = [] \/ reliable -> @written log_kafka log_writer (gs_w st) = take cut ms)
    /\ @loop reading_avro constant_rand log_kafka book_generator book_start (map Tick book_ticks ++ [Interrupt]) = Returned st n
    /\ exists st', @loop reading_avro constant_rand log_kafka book_generator book_start (map Tick book_ticks ++ [Deadline]) = Returned st' n
      /\ gs_log st' = gs_log st
      /\ (exists last, @written log_kafka log_writer (gs_w st') = @written log_kafka log_writer (gs_w st) ++ last
                       /\ last `sublist_of` drop cut ms)
      /\ (reliable -> @written log_kafka log_writer (gs_w st') = ms).
Proof.
  refine (@generator_delivery reading_avro constant_rand log_kafka log_writer book_file book_flags
            book_generator [] tt book_ticks (book_run book_ticks).1 (book_run book_ticks).2 _ _).
  - vm_cast_no_check (eq_refl (@startup reading_avro log_kafka book_file book_flags)).
  - vm_cast_no_check (eq_refl (@messages reading_avro constant_rand book_generator (@gen0 constant_rand tt) book_ticks)).
Defined.
End Quotegen.
