(* ===== verification/TreeMap.v ===== *)
(** * Ordered maps and doubles of the JVM

    Scala's [TreeMap] as its entries in the order of its [Ordering], over any total
    comparison ([TotalCompare]); [java.lang.Double.compare], the total order of
    [Ordering.Double.TotalOrdering], and its reverse. *)

From S2P Require Import Prelude.
From S2P Require Import GoStrings.
From S2P Require Import GoStrconv.

(** ** Total comparisons *)

Class TotalCompare {K} (cmp : K -> K -> comparison) := {
  cmp_eq : forall x y, cmp x y = Eq -> x = y;
  cmp_opp : forall x y, cmp y x = CompOpp (cmp x y);
  cmp_trans : forall x y z, cmp x y = Lt -> cmp y z = Lt -> cmp x z = Lt;
}.

#[export] Hint Extern 0 (TotalCompare _) => typeclasses eauto : core.

(** ** The map *)

Section treemap.
Context {K V : Type} (cmp : K -> K -> comparison).

Fixpoint updated (k : K) (v : V) (m : list (K * V)) : list (K * V) :=
  match m with
  | [] => [(k, v)]
  | (k', v') :: m' =>
      match cmp k k' with
      | Lt => (k, v) :: m
      | Eq => (k, v) :: m'
      | Gt => (k', v') :: updated k v m'
      end
  end.

Fixpoint removed (k : K) (m : list (K * V)) : list (K * V) :=
  match m with
  | [] => []
  | (k', v') :: m' =>
      match cmp k k' with
      | Lt => m
      | Eq => m'
      | Gt => (k', v') :: removed k m'
      end
  end.

Fixpoint get (k : K) (m : list (K * V)) : option V :=
  match m with
  | [] => None
  | (k', v') :: m' => match cmp k k' with Eq => Some v' | _ => get k m' end
  end.

(** The invariant of the tree: strictly increasing keys. *)
Definition before (a b : K * V) : Prop := cmp a.1 b.1 = Lt.
Definition ordered (m : list (K * V)) : Prop := StronglySorted before m.

(** ** What a prefix is made of *)

Lemma take_updated n k v m : take n (updated k v m) = take n (updated k v (take n m)).
Proof.
  revert n. induction m as [|[k' v'] m IH]; intros [|n]; [done..|].
  cbn [take updated]. destruct (cmp k k'); cbn [take]; f_equal.
  - by rewrite take_take, Nat.min_id.
  - destruct n; cbn [take]; [done|]. f_equal. by rewrite take_take, (Nat.min_l n (S n)) by lia.
  - apply IH.
Qed.

Lemma take_removed n k m : take n (removed k m) = take n (removed k (take (S n) m)).
Proof.
  revert n. induction m as [|[k' v'] m IH]; intros n; [by rewrite take_nil|].
  cbn [take removed]. destruct (cmp k k').
  - by rewrite take_take, Nat.min_id.
  - destruct n; cbn [take]; [done|]. f_equal. by rewrite take_take, (Nat.min_l n (S n)) by lia.
  - destruct n; cbn [take]; [done|]. f_equal. apply IH.
Qed.

(** ** Maps over a total order *)

Context `{!TotalCompare cmp}.

Lemma cmp_refl k : cmp k k = Eq.
Proof. pose proof (cmp_opp k k) as Ho. by destruct (cmp k k). Qed.
Lemma cmp_gt x y : cmp x y = Gt -> cmp y x = Lt.
Proof. intros E. by rewrite cmp_opp, E. Qed.

Lemma updated_forall (P : K * V -> Prop) k v m : P (k, v) -> Forall P m -> Forall P (updated k v m).
Proof.
  intros Hk. induction 1 as [|[k' v'] m Hp Hm IH]; cbn [updated]; [by repeat constructor|].
  destruct (cmp k k'); by repeat constructor.
Qed.
Lemma removed_forall (P : K * V -> Prop) k m : Forall P m -> Forall P (removed k m).
Proof.
  induction 1 as [|[k' v'] m Hp Hm IH]; cbn [removed]; [done|].
  destruct (cmp k k'); by repeat constructor.
Qed.

Lemma updated_ordered k v m : ordered m -> ordered (updated k v m).
Proof.
  unfold ordered. induction 1 as [|[k' v'] m Hm IH Hf]; cbn [updated]; [by repeat constructor|].
  destruct (cmp k k') eqn:E.
  - apply cmp_eq in E as ->. by constructor.
  - constructor; [by constructor|]. constructor; [done|].
    eapply List.Forall_impl; [|exact Hf]. intros [a b] Ha. unfold before in *. cbn in *. by eapply cmp_trans.
  - constructor; [done|]. apply updated_forall; [by apply cmp_gt|done].
Qed.

Lemma removed_ordered k m : ordered m -> ordered (removed k m).
Proof.
  unfold ordered. induction 1 as [|[k' v'] m Hm IH Hf]; cbn [removed]; [constructor|].
  destruct (cmp k k'); [done|by constructor|]. constructor; [done|]. by apply removed_forall.
Qed.

Lemma take_ordered n m : ordered m -> ordered (take n m).
Proof.
  unfold ordered. intros Hm. revert n. induction Hm as [|a m Hm IH Hf]; intros [|n]; cbn; try constructor.
  - apply IH.
  - by apply Forall_take.
Qed.

(** Keys before the first are not there. *)
Lemma get_before k m : Forall (fun kv => cmp k kv.1 = Lt) m -> get k m = None.
Proof. induction 1 as [|[k' v'] m Hk _ IH]; cbn in *; [done|]. by rewrite Hk. Qed.

Lemma ordered_after k k' v' m : ordered ((k', v') :: m) -> cmp k k' = Lt ->
  Forall (fun kv => cmp k kv.1 = Lt) ((k', v') :: m).
Proof.
  intros Ho Hk. constructor; [done|]. apply StronglySorted_inv in Ho as [_ Hf].
  eapply List.Forall_impl; [|exact Hf]. intros a Ha. unfold before in Ha. cbn in Ha. by eapply cmp_trans.
Qed.

Lemma get_updated k v m j : ordered m ->
  get j (updated k v m) = match cmp j k with Eq => Some v | _ => get j m end.
Proof.
  intros Ho. induction Ho as [|[k' v'] m Hm IH Hf]; cbn [updated get]; [done|].
  destruct (cmp k k') eqn:E; cbn [get].
  - apply cmp_eq in E as ->. by destruct (cmp j k').
  - done.
  - destruct (cmp j k') eqn:Ej; [|by rewrite IH..]. apply cmp_eq in Ej as ->.
    by rewrite cmp_opp, E.
Qed.

Lemma get_removed k m j : ordered m ->
  get j (removed k m) = match cmp j k with Eq => None | _ => get j m end.
Proof.
  intros Ho. induction Ho as [|[k' v'] m Hm IH Hf]; cbn [removed get]; [by destruct (cmp j k)|].
  assert (ordered ((k', v') :: m)) as Ho' by (by constructor).
  destruct (cmp k k') eqn:E; cbn [get].
  - apply cmp_eq in E as ->. destruct (cmp j k') eqn:Ej; [|done..]. apply cmp_eq in Ej as ->. by apply get_before.
  - destruct (cmp j k) eqn:Ej; [|done..]. apply cmp_eq in Ej as ->. rewrite E.
    apply get_before. eapply List.Forall_impl; [|exact Hf]. intros a Ha. unfold before in Ha.
    cbn in Ha. by eapply cmp_trans.
  - destruct (cmp j k') eqn:Ej; [|by rewrite IH..]. apply cmp_eq in Ej as ->. by rewrite cmp_opp, E.
Qed.

(** A map is what it contains. *)
Lemma ordered_ext m1 m2 : ordered m1 -> ordered m2 -> (forall k, get k m1 = get k m2) -> m1 = m2.
Proof.
  intros H1. revert m2. induction H1 as [|[k1 v1] m1 Hm1 IH Hf1]; intros [|[k2 v2] m2] H2 Hg.
  - done.
  - specialize (Hg k2). cbn in Hg. by rewrite cmp_refl in Hg.
  - specialize (Hg k1). cbn in Hg. by rewrite cmp_refl in Hg.
  - pose proof (StronglySorted_inv H2) as [Hm2 Hf2].
    assert (ordered ((k1, v1) :: m1)) as Ho1 by (by constructor).
    pose proof (Hg k1) as E1. pose proof (Hg k2) as E2. cbn [get] in E1, E2. rewrite cmp_refl in E1, E2.
    destruct (cmp k1 k2) eqn:E.
    + apply cmp_eq in E as <-. injection E1 as ->. f_equal. apply IH; [done|]. intros k.
      specialize (Hg k). cbn [get] in Hg. destruct (cmp k k1) eqn:Ek; [|done..].
      apply cmp_eq in Ek as ->. rewrite !get_before by done. done.
    + pose proof (ordered_after k1 k2 v2 m2 H2 E) as Hb. apply Forall_cons_1 in Hb as [_ Hb].
      by rewrite get_before in E1.
    + pose proof (ordered_after k2 k1 v1 m1 Ho1 (cmp_gt _ _ E)) as Hb. apply Forall_cons_1 in Hb as [_ Hb].
      rewrite (cmp_gt _ _ E) in E2. by rewrite get_before in E2.
Qed.

(** Entries that are added in order are appended. *)
Lemma updated_last k v m : Forall (fun kv => cmp kv.1 k = Lt) m -> updated k v m = m ++ [(k, v)].
Proof.
  induction 1 as [|[k' v'] m Hk _ IH]; cbn [updated app]; [done|]. cbn in Hk.
  rewrite cmp_opp, Hk. cbn. by rewrite IH.
Qed.

Lemma rebuild m : forall acc, ordered (acc ++ m) ->
  fold_left (fun acc kv => updated kv.1 kv.2 acc) m acc = acc ++ m.
Proof.
  induction m as [|[k v] m IH]; intros acc Ho; cbn [fold_left fst snd]; [by rewrite app_nil_r|].
  rewrite updated_last.
  - rewrite IH; [by rewrite <- (assoc_L (++))|]. by rewrite <- (assoc_L (++)).
  - clear IH. unfold ordered in Ho. induction acc as [|a acc IH]; [constructor|].
    apply StronglySorted_inv in Ho as [Ho Hf]. constructor; [|by apply IH].
    apply Forall_app in Hf as [_ Hf]. apply Forall_cons_1 in Hf as [Ha _]. exact Ha.
Qed.
End treemap.

(** ** java.lang.Double.compare *)

(** [-0.0] is below [0.0], and [NaN] above everything. *)
Definition double_compare (x y : float64) : comparison :=
  if f64_lt x y then Lt
  else if f64_lt y x then Gt
  else match x, y with
       | S754_zero sx, S754_zero sy => if Bool.eqb sx sy then Eq else if sx then Lt else Gt
       | S754_nan, S754_nan => Eq
       | S754_nan, _ => Gt
       | _, S754_nan => Lt
       | _, _ => Eq
       end.
Definition reverse_compare (x y : float64) : comparison := double_compare y x.

(** The place of a double in the order: its class, exponent and mantissa. *)
Definition double_key (x : float64) : Z * Z * Z :=
  match x with
  | S754_infinity true => (-2, 0, 0)
  | S754_finite true m e => (-1, - e, - Z.pos m)
  | S754_zero true => (0, 0, 0)
  | S754_zero false => (1, 0, 0)
  | S754_finite false m e => (2, e, Z.pos m)
  | S754_infinity false => (3, 0, 0)
  | S754_nan => (4, 0, 0)
  end%Z.

Definition key_compare (a b : Z * Z * Z) : comparison :=
  match (a.1.1 ?= b.1.1)%Z with
  | Eq => match (a.1.2 ?= b.1.2)%Z with Eq => (a.2 ?= b.2)%Z | c => c end
  | c => c
  end.

Lemma double_compare_key x y : double_compare x y = key_compare (double_key x) (double_key y).
Proof.
  unfold double_compare, f64_lt, SFltb, key_compare.
  destruct x as [[]|[]| |[] mx ex], y as [[]|[]| |[] my ey]; cbn; try reflexivity.
  - change (- Z.pos mx ?= - Z.pos my)%Z with (CompOpp (Pos.compare mx my)).
    replace (- ex ?= - ey)%Z with (ey ?= ex)%Z by (by rewrite Z.compare_opp).
    rewrite (Z.compare_antisym ex ey).
    change (PosDef.Pos.compare_cont Eq mx my) with (Pos.compare mx my).
    change (PosDef.Pos.compare_cont Eq my mx) with (Pos.compare my mx). rewrite (Pos.compare_antisym mx my).
    destruct (ex ?= ey)%Z; cbn; try reflexivity. by destruct (Pos.compare mx my).
  - rewrite (Z.compare_antisym ex ey). change (Z.pos mx ?= Z.pos my)%Z with (Pos.compare mx my).
    change (PosDef.Pos.compare_cont Eq mx my) with (Pos.compare mx my).
    change (PosDef.Pos.compare_cont Eq my mx) with (Pos.compare my mx). rewrite (Pos.compare_antisym mx my).
    destruct (ex ?= ey)%Z; cbn; try reflexivity. by destruct (Pos.compare mx my).
Qed.

Lemma double_key_inj x y : double_key x = double_key y -> x = y.
Proof.
  destruct x as [[]|[]| |[] mx ex], y as [[]|[]| |[] my ey]; cbn; intros E; try discriminate E; try reflexivity.
  - injection E as E1 E2. f_equal; lia.
  - injection E as -> ->. reflexivity.
Qed.

Lemma key_compare_opp a b : key_compare b a = CompOpp (key_compare a b).
Proof.
  unfold key_compare. rewrite (Z.compare_antisym a.1.1), (Z.compare_antisym a.1.2), (Z.compare_antisym a.2).
  by destruct (a.1.1 ?= b.1.1)%Z, (a.1.2 ?= b.1.2)%Z.
Qed.
Lemma key_compare_eq a b : key_compare a b = Eq -> a = b.
Proof.
  unfold key_compare. destruct a as [[a1 a2] a3], b as [[b1 b2] b3]. cbn.
  destruct (Z.compare_spec a1 b1), (Z.compare_spec a2 b2); try done. intros ->%Z.compare_eq. by subst.
Qed.
Lemma key_compare_lt a b : key_compare a b = Lt <->
  (a.1.1 < b.1.1 \/ (a.1.1 = b.1.1 /\ (a.1.2 < b.1.2 \/ (a.1.2 = b.1.2 /\ a.2 < b.2))))%Z.
Proof.
  unfold key_compare. rewrite <- !Z.compare_lt_iff.
  destruct (Z.compare_spec a.1.1 b.1.1), (Z.compare_spec a.1.2 b.1.2), (Z.compare_spec a.2 b.2);
    split; intros; try done; try lia; intuition (try discriminate; try lia).
Qed.

#[export] Instance double_compare_total : TotalCompare double_compare.
Proof.
  split; intros x y; rewrite ?double_compare_key.
  - intros E%key_compare_eq. by apply double_key_inj.
  - apply key_compare_opp.
  - intros z. rewrite !double_compare_key, !key_compare_lt. lia.
Qed.

#[export] Instance reverse_compare_total : TotalCompare reverse_compare.
Proof.
  unfold reverse_compare. split.
  - intros x y E. by apply cmp_eq in E as ->.
  - intros x y. apply cmp_opp.
  - intros x y z H1 H2. by eapply cmp_trans.
Qed.

(** [java.lang.Math.max] and [min]: a NaN prevails, and [-0.0] is below [0.0]. *)
Definition is_nan (x : float64) : bool := match x with S754_nan => true | _ => false end.
Definition math_max (x y : float64) : float64 :=
  if is_nan x || is_nan y then S754_nan else match double_compare x y with Lt => y | _ => x end.
Definition math_min (x y : float64) : float64 :=
  if is_nan x || is_nan y then S754_nan else match double_compare y x with Lt => y | _ => x end.
