(* ===== verification/OrderBook.v ===== *)
(** * Stream tier: the order book

    src/stream/src/main/scala/io/tapeline/stream/book/OrderBook.scala and the classes
    of model/Events.scala it uses. A [TreeMap] is the list of its entries in book order
    (TreeMap.v), an array is a list, a [Long] is a [Z], and an exception is [Err]. *)

From S2P Require Import Prelude.
From S2P Require Import GoStrings.
From S2P Require Import GoStrconv.
From S2P Require Import TreeMap.

Local Open Scope Z_scope.

(** ** Events *)

Record Level := mkLevel { price : float64; size : float64 }.

Record BookDelta := mkBookDelta {
  bd_venue : string; bd_symbol : string; isSnapshot : bool;
  bd_bidPrices : list float64; bd_bidSizes : list float64;
  bd_askPrices : list float64; bd_askSizes : list float64;
  bd_eventTimeUs : Z; bd_ingestTimeUs : Z; bd_sequence : Z }.

(** The loop up to the shorter array. *)
Definition levels (prices sizes : list float64) : list Level := zip_with mkLevel prices sizes.
Definition delta_bids (d : BookDelta) : list Level := levels (bd_bidPrices d) (bd_bidSizes d).
Definition delta_asks (d : BookDelta) : list Level := levels (bd_askPrices d) (bd_askSizes d).

Definition fromLevels (venue symbol : string) (snapshot : bool) (bids asks : list Level)
    (eventTimeUs ingestTimeUs sequence : Z) : BookDelta :=
  mkBookDelta venue symbol snapshot (map price bids) (map size bids) (map price asks) (map size asks)
    eventTimeUs ingestTimeUs sequence.

Record Quote := mkQuote {
  q_venue : string; q_symbol : string;
  bidPrice : float64; bidSize : float64; askPrice : float64; askSize : float64;
  q_imbalance : float64; q_eventTimeUs : Z; q_emitTimeUs : Z }.

Definition two : float64 := f64_of_Z 2.
Definition quote_mid (q : Quote) : float64 := f64_div (f64_add (bidPrice q) (askPrice q)) two.
Definition spreadBps (q : Quote) : float64 :=
  let m := quote_mid q in
  if f64_le m f64_zero || f64_le (bidPrice q) f64_zero || f64_le (askPrice q) f64_zero then S754_nan
  else f64_mul (f64_div (f64_sub (askPrice q) (bidPrice q)) m) (f64_of_Z 10000).
Definition isValid (q : Quote) : bool :=
  f64_lt f64_zero (bidPrice q) && f64_lt f64_zero (askPrice q) && f64_le (bidPrice q) (askPrice q).

(** ** The book *)

Definition side : Type := list (float64 * float64).
Definition BidOrdering : float64 -> float64 -> comparison := reverse_compare.
Definition AskOrdering : float64 -> float64 -> comparison := double_compare.

Record OrderBook := mkOrderBook {
  bids : side; asks : side; lastSequence : Z; lastEventTimeUs : Z }.

Definition empty_book : OrderBook := mkOrderBook [] [] (-1) 0.

Definition is_positive (s : float64) : bool := f64_lt f64_zero s.

(** A snapshot's side: its positive levels. A patch: a level is set or removed. *)
Definition buildSide (ord : float64 -> float64 -> comparison) (ls : list Level) : side :=
  fold_left (fun acc l => if is_positive (size l) then updated ord (price l) (size l) acc else acc) ls [].
Definition patchSide (ord : float64 -> float64 -> comparison) (s : side) (ls : list Level) : side :=
  fold_left (fun acc l => if is_positive (size l) then updated ord (price l) (size l) acc
                          else removed ord (price l) acc) ls s.

Definition apply (b : OrderBook) (d : BookDelta) : OrderBook :=
  if isSnapshot d
  then mkOrderBook (buildSide BidOrdering (delta_bids d)) (buildSide AskOrdering (delta_asks d))
         (bd_sequence d) (bd_eventTimeUs d)
  else mkOrderBook (patchSide BidOrdering (bids b) (delta_bids d))
         (patchSide AskOrdering (asks b) (delta_asks d)) (bd_sequence d) (bd_eventTimeUs d).

(** [require]. *)
Definition require (b : bool) (msg : string) : res unit := if b then Ok tt else Err (EMsg msg).

Definition trim (b : OrderBook) (maxDepth : Z) : res OrderBook :=
  _ ← require (0 <? maxDepth) "maxDepth must be positive";
  let n := Z.to_nat maxDepth in
  Ok (if (length (bids b) <=? n)%nat && (length (asks b) <=? n)%nat then b
      else mkOrderBook (take n (bids b)) (take n (asks b)) (lastSequence b) (lastEventTimeUs b)).

Definition best (s : side) : option Level :=
  match s with (p, v) :: _ => Some (mkLevel p v) | [] => None end.
Definition bestBid (b : OrderBook) : option Level := best (bids b).
Definition bestAsk (b : OrderBook) : option Level := best (asks b).

Definition book_isEmpty (b : OrderBook) : bool :=
  match bids b, asks b with [], _ | _, [] => true | _, _ => false end.

(** [best bid >= best ask]. *)
Definition isCrossed (b : OrderBook) : bool :=
  match bids b, asks b with
  | (bp, _) :: _, (ap, _) :: _ => f64_le ap bp
  | _, _ => false
  end.

Definition mid (b : OrderBook) : option float64 :=
  match bids b, asks b with
  | (bp, _) :: _, (ap, _) :: _ => Some (f64_div (f64_add bp ap) two)
  | _, _ => None
  end.

Definition total_size (s : side) : float64 := fold_left f64_add (map snd s) f64_zero.
Definition imbalance (b : OrderBook) (depth : Z) : res float64 :=
  _ ← require (0 <? depth) "depth must be positive";
  let bidQty := total_size (take (Z.to_nat depth) (bids b)) in
  let askQty := total_size (take (Z.to_nat depth) (asks b)) in
  let total := f64_add bidQty askQty in
  Ok (if f64_le total f64_zero then f64_zero else f64_div (f64_sub bidQty askQty) total).

Definition top (n : Z) (s : side) : list Level := map (fun kv => mkLevel kv.1 kv.2) (take (Z.to_nat n) s).
Definition topBids (b : OrderBook) (n : Z) : list Level := top n (bids b).
Definition topAsks (b : OrderBook) (n : Z) : list Level := top n (asks b).
Definition depth (b : OrderBook) : nat * nat := (length (bids b), length (asks b)).

Definition toQuote (b : OrderBook) (venue symbol : string) (emitTimeUs imbalanceDepth : Z)
    : res (option Quote) :=
  match bestBid b, bestAsk b with
  | Some bid, Some ask =>
      imb ← imbalance b imbalanceDepth;
      Ok (Some (mkQuote venue symbol (price bid) (size bid) (price ask) (size ask) imb
                  (lastEventTimeUs b) emitTimeUs))
  | _, _ => Ok None
  end.

(** ** The checkpoint *)

Record BookSnapshot := mkBookSnapshot {
  sn_bidPrices : list float64; sn_bidSizes : list float64;
  sn_askPrices : list float64; sn_askSizes : list float64;
  sn_lastSequence : Z; sn_lastEventTimeUs : Z }.

Definition empty_snapshot : BookSnapshot := mkBookSnapshot [] [] [] [] (-1) 0.

Definition toSnapshot (b : OrderBook) : BookSnapshot :=
  mkBookSnapshot (map fst (bids b)) (map snd (bids b)) (map fst (asks b)) (map snd (asks b))
    (lastSequence b) (lastEventTimeUs b).

(** The loop over both arrays. *)
Fixpoint build_arrays (ord : float64 -> float64 -> comparison) (prices sizes : list float64) (acc : side)
    : side :=
  match prices, sizes with
  | p :: prices', s :: sizes' =>
      build_arrays ord prices' sizes' (if is_positive s then updated ord p s acc else acc)
  | _, _ => acc
  end.
Definition buildSideArrays (prices sizes : list float64) (ord : float64 -> float64 -> comparison) : side :=
  build_arrays ord prices sizes [].

Definition fromSnapshot (s : BookSnapshot) : OrderBook :=
  mkOrderBook (buildSideArrays (sn_bidPrices s) (sn_bidSizes s) BidOrdering)
    (buildSideArrays (sn_askPrices s) (sn_askSizes s) AskOrdering)
    (sn_lastSequence s) (sn_lastEventTimeUs s).

Definition snapshot_bids (s : BookSnapshot) : list Level := levels (sn_bidPrices s) (sn_bidSizes s).
Definition snapshot_asks (s : BookSnapshot) : list Level := levels (sn_askPrices s) (sn_askSizes s).

(** ** Specification

    What a history of deltas says of a price: its last positive size, unless a later
    update removed it. *)

Section spec.
Context (ord : float64 -> float64 -> comparison).

Definition latest (p : float64) (ls : list Level) (o : option float64) : option float64 :=
  fold_left (fun o l => match ord p (price l) with
                        | Eq => if is_positive (size l) then Some (size l) else None
                        | _ => o
                        end) ls o.
(** In a snapshot a level without a positive size is skipped, not removed. *)
Definition latest_positive (p : float64) (ls : list Level) : option float64 :=
  latest p (List.filter (fun l => is_positive (size l)) ls) None.
Definition history (sel : BookDelta -> list Level) (ds : list BookDelta) (p : float64) : option float64 :=
  fold_left (fun o d => if isSnapshot d then latest_positive p (sel d) else latest p (sel d) o) ds None.

Definition good (s : side) : Prop := ordered ord s /\ Forall (fun kv => is_positive kv.2 = true) s.

(** The side lists exactly the prices of [f], best first. *)
Definition lists_exactly (s : side) (f : float64 -> option float64) : Prop :=
  good s /\ (forall p, get ord p s = f p)
  /\ (forall p v, best s = Some (mkLevel p v) <-> f p = Some v /\ forall p' v', f p' = Some v' -> ord p p' <> Gt).

(** The updates that remove. *)
Definition removals (ls : list Level) : nat := length (List.filter (fun l => negb (is_positive (size l))) ls).
End spec.

Definition book_ok (b : OrderBook) : Prop := good BidOrdering (bids b) /\ good AskOrdering (asks b).

(** The book of all deltas, and the one that is trimmed after each. *)
Definition full_book (ds : list BookDelta) : OrderBook := fold_left apply ds empty_book.
Definition trimmed_book (maxDepth : Z) (ds : list BookDelta) : res OrderBook :=
  fold_left (fun r d => b ← r; trim (apply b d) maxDepth) ds (Ok empty_book).

(** The removals on a side since the last snapshot. *)
Definition erased (sel : BookDelta -> list Level) (ds : list BookDelta) : nat :=
  fold_left (fun n d => if isSnapshot d then 0 else n + removals (sel d))%nat ds 0%nat.

(** ** Lemmas on a side *)

Section side.
Context (ord : float64 -> float64 -> comparison) `{!TotalCompare ord}.

Lemma buildSide_patch ls : buildSide ord ls = patchSide ord [] (List.filter (fun l => is_positive (size l)) ls).
Proof.
  unfold buildSide, patchSide. generalize (@nil (float64 * float64)) as acc.
  induction ls as [|l ls IH]; intros acc; cbn [fold_left List.filter]; [done|].
  destruct (is_positive (size l)) eqn:E; cbn [fold_left]; [rewrite E|]; apply IH.
Qed.

Lemma good_nil : good ord [].
Proof. split; constructor. Qed.

Lemma patchSide_good ls : forall s, good ord s -> good ord (patchSide ord s ls).
Proof.
  induction ls as [|l ls IH]; intros s [Ho Hp]; cbn; [done|]. apply IH.
  destruct (is_positive (size l)) eqn:E.
  - split; [by apply updated_ordered|by apply updated_forall].
  - split; [by apply removed_ordered|by apply removed_forall].
Qed.

Lemma patchSide_get p ls : forall s, good ord s -> get ord p (patchSide ord s ls) = latest ord p ls (get ord p s).
Proof.
  induction ls as [|l ls IH]; intros s Hs; [done|].
  assert (good ord (patchSide ord s [l])) as Hl by (by apply patchSide_good).
  change (patchSide ord s (l :: ls)) with (patchSide ord (patchSide ord s [l]) ls).
  rewrite IH by done. unfold latest. cbn [fold_left patchSide]. f_equal.
  destruct Hs as [Ho _]. destruct (is_positive (size l)); [by rewrite get_updated|by rewrite get_removed].
Qed.

Lemma take_good n s : good ord s -> good ord (take n s).
Proof. intros [Ho Hp]. split; [by apply take_ordered|by apply Forall_take]. Qed.

Lemma get_in (s : side) p v : ordered ord s -> get ord p s = Some v <-> (p, v) ∈ s.
Proof.
  induction 1 as [|[k w] s Hs IH Hf]; cbn [get]; [split; [done|by intros ?%elem_of_nil]|].
  rewrite elem_of_cons. destruct (ord p k) eqn:E.
  - apply cmp_eq in E as ->. split; [intros [= ->]; by left|]. intros [[= ->]|Hin]; [done|].
    rewrite List.Forall_forall in Hf. apply list_elem_of_In, Hf in Hin. unfold before in Hin. cbn in Hin.
    by rewrite cmp_refl in Hin.
  - rewrite IH. split; [by right|]. intros [[= -> ->]|]; [by rewrite cmp_refl in E|done].
  - rewrite IH. split; [by right|]. intros [[= -> ->]|]; [by rewrite cmp_refl in E|done].
Qed.

Lemma good_lists s f : good ord s -> (forall p, get ord p s = f p) -> lists_exactly ord s f.
Proof.
  intros Hs Hg. split; [done|]. split; [done|]. intros p v. rewrite <- Hg. setoid_rewrite <- Hg.
  destruct Hs as [Ho _]. destruct s as [|[k w] s]; cbn [best get].
  { split; [done|]. by intros [[=] _]. }
  pose proof (StronglySorted_inv Ho) as [_ Hf]. rewrite List.Forall_forall in Hf. split.
  - intros [= <- <-]. split; [by rewrite cmp_refl|]. intros p' v'. destruct (ord p' k) eqn:E.
    + apply cmp_eq in E as ->. by rewrite cmp_refl.
    + intros Hin%get_in; [|by apply StronglySorted_inv in Ho as [? _]].
      apply list_elem_of_In, Hf in Hin. unfold before in Hin. cbn in Hin. by rewrite Hin.
    + by rewrite (cmp_gt _ _ _ E).
  - intros [Hp Hmin]. destruct (ord p k) eqn:E.
    + apply cmp_eq in E as ->. by injection Hp as ->.
    + apply get_in in Hp; [|by apply StronglySorted_inv in Ho as [? _]].
      apply list_elem_of_In, Hf in Hp. unfold before in Hp. cbn in Hp. by rewrite cmp_opp, E in Hp.
    + specialize (Hmin k w). rewrite (cmp_refl ord) in Hmin. by destruct Hmin.
Qed.

(** A prefix survives a patch, but for one level per removal. *)
Lemma patch_prefix ls : forall n s t, take n s = take n t ->
  take (n - removals ls) (patchSide ord s ls) = take (n - removals ls) (patchSide ord t ls).
Proof.
  induction ls as [|l ls IH]; intros n s t Hst; cbn; [by rewrite Nat.sub_0_r|].
  unfold removals. cbn [List.filter]. destruct (is_positive (size l)) eqn:E; cbn [negb length].
  - apply IH. by rewrite take_updated, Hst, <- take_updated.
  - destruct n as [|n]; [done|]. cbn [Nat.sub]. apply IH.
    by rewrite take_removed, Hst, <- take_removed.
Qed.

Lemma build_arrays_rebuild s : good ord s -> buildSideArrays (map fst s) (map snd s) ord = s.
Proof.
  intros [Ho Hp]. unfold buildSideArrays. rewrite <- (rebuild ord s []) at 3 by done.
  clear Ho. generalize (@nil (float64 * float64)) as acc. induction Hp as [|[k v] s Hv _ IH]; intros acc; cbn; [done|].
  cbn in Hv. rewrite Hv. apply IH.
Qed.
End side.

(** ** Lemmas on the book *)

Lemma bid_total : TotalCompare BidOrdering.
Proof. exact reverse_compare_total. Qed.
Lemma ask_total : TotalCompare AskOrdering.
Proof. exact double_compare_total. Qed.
#[export] Existing Instances bid_total ask_total.

Lemma full_book_snoc ds d : full_book (ds ++ [d]) = apply (full_book ds) d.
Proof. unfold full_book. by rewrite fold_left_app. Qed.
Lemma trimmed_book_snoc maxDepth ds d :
  trimmed_book maxDepth (ds ++ [d]) = (b ← trimmed_book maxDepth ds; trim (apply b d) maxDepth).
Proof. unfold trimmed_book. by rewrite fold_left_app. Qed.
Lemma erased_snoc sel ds d :
  erased sel (ds ++ [d]) = if isSnapshot d then 0%nat else (erased sel ds + removals (sel d))%nat.
Proof. unfold erased. by rewrite fold_left_app. Qed.

Lemma trim_ok b maxDepth : 0 < maxDepth -> exists b', trim b maxDepth = Ok b'
  /\ bids b' = take (Z.to_nat maxDepth) (bids b) /\ asks b' = take (Z.to_nat maxDepth) (asks b)
  /\ lastSequence b' = lastSequence b /\ lastEventTimeUs b' = lastEventTimeUs b.
Proof.
  intros Hd. unfold trim, require. destruct (Z.ltb_spec 0 maxDepth); [|lia]. cbn [mbind res_bind].
  eexists. split; [reflexivity|]. destruct (Nat.leb_spec (length (bids b)) (Z.to_nat maxDepth)),
    (Nat.leb_spec (length (asks b)) (Z.to_nat maxDepth)); cbn [andb bids asks]; [|done..].
  by rewrite !take_ge by done.
Qed.

Section step.
Context (ord : float64 -> float64 -> comparison) `{!TotalCompare ord}.

(** What one delta does to a side. *)
Definition next_side (s : side) (d : BookDelta) (ls : list Level) : side :=
  if isSnapshot d then buildSide ord ls else patchSide ord s ls.

Lemma next_good s d ls : good ord s -> good ord (next_side s d ls).
Proof.
  intros Hs. unfold next_side. destruct (isSnapshot d); [rewrite buildSide_patch|]; apply patchSide_good; auto.
  apply good_nil.
Qed.

Lemma next_get s d ls (o : float64 -> option float64) : good ord s -> (forall p, get ord p s = o p) ->
  forall p, get ord p (next_side s d ls) = if isSnapshot d then latest_positive ord p ls else latest ord p ls (o p).
Proof.
  intros Hs Ho p. unfold next_side. destruct (isSnapshot d); [|by rewrite patchSide_get, Ho].
  rewrite buildSide_patch, patchSide_get by (try done; apply good_nil). done.
Qed.

(** The prefix a trimmed side shares with the full one, after [n] removals. *)
Lemma next_prefix D n s t d ls :
  take (D - n) s = take (D - n) t ->
  let n' := if isSnapshot d then 0%nat else (n + removals ls)%nat in
  take (D - n') (take D (next_side s d ls)) = take (D - n') (next_side t d ls).
Proof.
  intros Hst n'. subst n'. rewrite take_take, Nat.min_l by lia. unfold next_side.
  destruct (isSnapshot d); [done|]. rewrite Nat.sub_add_distr. by apply patch_prefix.
Qed.
End step.

Lemma apply_bids b d : bids (apply b d) = next_side BidOrdering (bids b) d (delta_bids d).
Proof. unfold apply, next_side. by destruct (isSnapshot d). Qed.
Lemma apply_asks b d : asks (apply b d) = next_side AskOrdering (asks b) d (delta_asks d).
Proof. unfold apply, next_side. by destruct (isSnapshot d). Qed.

Lemma full_book_good ds : book_ok (full_book ds).
Proof.
  induction ds as [|d ds IH] using rev_ind; [split; apply good_nil|].
  rewrite full_book_snoc. destruct IH as [Hb Ha].
  split; [rewrite apply_bids|rewrite apply_asks]; by apply next_good.
Qed.

Lemma prefix_le {A} k n (s t : list A) : (k <= n)%nat -> take n s = take n t -> take k s = take k t.
Proof. intros Hk H. by rewrite <- (Nat.min_l k n Hk), <- !take_take, H. Qed.

Lemma trimmed_book_inv maxDepth ds : 0 < maxDepth ->
  let D := Z.to_nat maxDepth in
  exists b, trimmed_book maxDepth ds = Ok b /\ book_ok b
    /\ (length (bids b) <= D /\ length (asks b) <= D)%nat
    /\ (take (D - erased delta_bids ds) (bids b) = take (D - erased delta_bids ds) (bids (full_book ds)))
    /\ (take (D - erased delta_asks ds) (asks b) = take (D - erased delta_asks ds) (asks (full_book ds)))
    /\ lastSequence b = lastSequence (full_book ds) /\ lastEventTimeUs b = lastEventTimeUs (full_book ds).
Proof.
  intros Hd D. induction ds as [|d ds (b & Hb & [Hgb Hga] & _ & Hpb & Hpa & _)] using rev_ind.
  { exists empty_book. split_and!; try done; try (cbn; lia). split; apply good_nil. }
  rewrite trimmed_book_snoc, Hb, full_book_snoc, !erased_snoc. cbn [mbind res_bind].
  destruct (trim_ok (apply b d) maxDepth Hd) as (b' & -> & Hbb & Hba & Hs & Ht). fold D in Hbb, Hba.
  exists b'. rewrite Hs, Ht, Hbb, Hba. split; [done|].
  split. { unfold book_ok. rewrite Hbb, Hba, apply_bids, apply_asks. split; apply take_good, next_good; done. }
  split. { rewrite !length_take. lia. }
  rewrite !apply_bids, !apply_asks. split; [by apply next_prefix|]. split; [by apply next_prefix|].
  unfold apply. by destruct (isSnapshot d).
Qed.

Lemma snapshot_id b : book_ok b -> fromSnapshot (toSnapshot b) = b.
Proof.
  intros [Hb Ha]. unfold fromSnapshot, toSnapshot.
  cbn [sn_bidPrices sn_bidSizes sn_askPrices sn_askSizes sn_lastSequence sn_lastEventTimeUs].
  rewrite !build_arrays_rebuild by done. by destruct b.
Qed.

(** A shared prefix shows the same top of the book. *)
Lemma same_top b f k : lastEventTimeUs b = lastEventTimeUs f ->
  take (S k) (bids b) = take (S k) (bids f) -> take (S k) (asks b) = take (S k) (asks f) ->
  isCrossed b = isCrossed f
  /\ forall venue symbol now, toQuote b venue symbol now (Z.of_nat (S k)) = toQuote f venue symbol now (Z.of_nat (S k)).
Proof.
  destruct f as [fb fa fs ft], b as [bb ba bs bt]. cbn [bids asks lastEventTimeUs]. intros -> Hkb Hka. split.
  - unfold isCrossed. cbn. destruct bb as [|[]], fb as [|[]]; cbn in Hkb; try discriminate Hkb; [done|].
    injection Hkb as -> -> Hkb. destruct ba as [|[]], fa as [|[]]; cbn in Hka; try discriminate Hka; [done|].
    by injection Hka as -> -> Hka.
  - intros venue symbol now. unfold toQuote, bestBid, bestAsk, imbalance. rewrite Nat2Z.id. cbn [bids asks] in *.
    destruct bb as [|[]], fb as [|[]]; cbn in Hkb; try discriminate Hkb; [done|].
    destruct ba as [|[]], fa as [|[]]; cbn in Hka; try discriminate Hka; [by injection Hkb as -> -> Hkb|].
    injection Hkb as -> -> Hkb. injection Hka as -> -> Hka. cbn. by rewrite Hkb, Hka.
Qed.

Lemma trimmed_top maxDepth ds b k : 0 < maxDepth -> trimmed_book maxDepth ds = Ok b ->
  (k + Nat.max (erased delta_bids ds) (erased delta_asks ds) <= Z.to_nat maxDepth)%nat ->
  take k (bids b) = take k (bids (full_book ds)) /\ take k (asks b) = take k (asks (full_book ds))
  /\ ((0 < k)%nat -> isCrossed b = isCrossed (full_book ds)
      /\ forall venue symbol now, toQuote b venue symbol now (Z.of_nat k)
                                = toQuote (full_book ds) venue symbol now (Z.of_nat k)).
Proof.
  intros Hd Hb Hk. destruct (trimmed_book_inv maxDepth ds Hd) as (b' & Hb' & _ & _ & Hpb & Hpa & _ & Ht).
  assert (b' = b) as -> by congruence.
  assert (take k (bids b) = take k (bids (full_book ds))) as Hkb by (eapply prefix_le; [|exact Hpb]; lia).
  assert (take k (asks b) = take k (asks (full_book ds))) as Hka by (eapply prefix_le; [|exact Hpa]; lia).
  split; [done|]. split; [done|]. intros Hk0. destruct k as [|k]; [lia|]. by apply same_top.
Qed.

(** ** Properties *)

(** C13. The book is exact. After any history of deltas each side lists, best first and
    each price once, exactly the prices whose latest update since the last snapshot has
    a positive size, with that size; the best level is the highest such bid and the
    lowest such ask; the sequence and the time are those of the last delta. Zero, negative
    and NaN sizes remove a price, except in a snapshot, where they are skipped. *)
Theorem full_book_exact (ds : list BookDelta) :
  let b := full_book ds in
  lists_exactly BidOrdering (bids b) (history BidOrdering delta_bids ds)
  /\ lists_exactly AskOrdering (asks b) (history AskOrdering delta_asks ds)
  /\ (lastSequence b, lastEventTimeUs b)
     = match list.last ds with Some d => (bd_sequence d, bd_eventTimeUs d) | None => (-1, 0) end.
Proof.
  cbn zeta. assert (forall (ds : list BookDelta),
    (forall p, get BidOrdering p (bids (full_book ds)) = history BidOrdering delta_bids ds p)
    /\ (forall p, get AskOrdering p (asks (full_book ds)) = history AskOrdering delta_asks ds p)) as Hget.
  { clear ds. intros ds. induction ds as [|d ds [IHb IHa]] using rev_ind; [done|].
    destruct (full_book_good ds) as [Hb Ha]. rewrite full_book_snoc, apply_bids, apply_asks. unfold history.
    split; intros p; rewrite fold_left_app; cbn [fold_left].
    - by rewrite (next_get BidOrdering _ _ _ (history BidOrdering delta_bids ds)).
    - by rewrite (next_get AskOrdering _ _ _ (history AskOrdering delta_asks ds)). }
  destruct (full_book_good ds) as [Hb Ha], (Hget ds) as [Gb Ga].
  split; [by apply good_lists|]. split; [by apply good_lists|].
  destruct ds as [|d ds _] using rev_ind; [done|]. rewrite full_book_snoc, last_snoc.
  unfold apply. by destruct (isSnapshot d).
Qed.

(** C14. What trimming costs. The book that is cut to [maxDepth] levels a side after every
    delta never exceeds them, survives a checkpoint unchanged, and its top [k] levels,
    whether it is crossed, and the quote with the imbalance over [k] levels are those of
    the full book as long as [k] plus the number of removals on a side since the last
    snapshot is at most [maxDepth]. *)
Theorem trimmed_book_exact (maxDepth : Z) (ds : list BookDelta) :
  0 < maxDepth ->
  exists b, trimmed_book maxDepth ds = Ok b
    /\ book_ok b /\ fromSnapshot (toSnapshot b) = b
    /\ Z.of_nat (length (bids b)) <= maxDepth /\ Z.of_nat (length (asks b)) <= maxDepth
    /\ forall k, (k + Nat.max (erased delta_bids ds) (erased delta_asks ds) <= Z.to_nat maxDepth)%nat ->
         take k (bids b) = take k (bids (full_book ds)) /\ take k (asks b) = take k (asks (full_book ds))
         /\ ((0 < k)%nat -> isCrossed b = isCrossed (full_book ds)
             /\ forall venue symbol now, toQuote b venue symbol now (Z.of_nat k)
                                       = toQuote (full_book ds) venue symbol now (Z.of_nat k)).
Proof.
  intros Hd. destruct (trimmed_book_inv maxDepth ds Hd) as (b & Hb & Hok & [Hlb Hla] & Hpb & Hpa & Hs & Ht).
  exists b. split; [done|]. split; [done|]. split; [by apply snapshot_id|]. split; [lia|]. split; [lia|].
  intros k Hk. by apply (trimmed_top maxDepth).
Qed.

Definition delta (snapshot : bool) (bs as' : list Level) (sequence : Z) : BookDelta :=
  fromLevels "coinbase" "BTC-USD" snapshot bs as' 0 0 sequence.
Definition level (p s : Z) : Level := mkLevel (f64_of_Z p) (f64_of_Z s).
Definition sample_history : list BookDelta :=
  [delta true [level 100 1; level 99 2; level 98 3] [level 101 1] 1; delta false [level 100 0] [] 2].

Lemma trimmed_book_exact_witness :
  exists b, trimmed_book 2 sample_history = Ok b
    /\ book_ok b /\ fromSnapshot (toSnapshot b) = b
    /\ Z.of_nat (length (bids b)) <= 2 /\ Z.of_nat (length (asks b)) <= 2
    /\ forall k, (k + Nat.max (erased delta_bids sample_history) (erased delta_asks sample_history) <= Z.to_nat 2)%nat ->
         take k (bids b) = take k (bids (full_book sample_history))
         /\ take k (asks b) = take k (asks (full_book sample_history))
         /\ ((0 < k)%nat -> isCrossed b = isCrossed (full_book sample_history)
             /\ forall venue symbol now, toQuote b venue symbol now (Z.of_nat k)
                                       = toQuote (full_book sample_history) venue symbol now (Z.of_nat k)).
Proof. exact (trimmed_book_exact 2 sample_history ltac:(lia)). Defined.

(** The bound is tight: after as many removals as the book is deep the best bid of the
    trimmed book is a price below a bid it has forgotten. *)
Theorem trim_forgets_best :
  let ds := [delta true [level 100 1; level 99 1; level 98 1] [level 101 1] 1;
             delta false [level 100 0; level 99 0; level 97 1] [] 2] in
  erased delta_bids ds = 2%nat
  /\ (b ← trimmed_book 2 ds; Ok (bestBid b)) = Ok (Some (level 97 1))
  /\ bestBid (full_book ds) = Some (level 98 1).
Proof. vm_compute. auto. Qed.
