(* ===== verification/BookFunction.v ===== *)
(** * Stream tier: the keyed book operator

    src/stream/src/main/scala/io/tapeline/stream/functions/BookFunction.scala. Flink
    calls [processElement] for every delta and [onTimer] for every pending timer that is
    due, each with the state of the key; timers are a set of keys and timestamps. An
    execution is the sequence of those calls ([op_run]); the processing time and the
    wall clock of each call are part of it. *)

From S2P Require Import Prelude.
From S2P Require Import GoStrings.
From S2P Require Import GoStrconv.
From S2P Require Import TreeMap.
From S2P Require Import OrderBook.

Local Open Scope Z_scope.

Definition keyOf (d : BookDelta) : string := bd_venue d +:+ "|" +:+ bd_symbol d.

(** [StringOps.split]: trailing empty parts are dropped, unless nothing was split. *)
Fixpoint drop_empty_tail (l : list string) : list string :=
  match l with
  | [] => []
  | s :: l' =>
      match drop_empty_tail l' with
      | [] => if String.eqb s "" then [] else [s]
      | t => s :: t
      end
  end.
Definition scala_split (s : string) (c : ascii) : list string :=
  match Split s c with
  | [_] => [s]
  | parts => drop_empty_tail parts
  end.

(** ** The operator *)

Record counters := mkCounters {
  crossed_books : Z; snapshots_applied : Z; quotes_emitted : Z; quotes_suppressed : Z }.
Record key_state := mkKeyState { bookState : option BookSnapshot; lastEmitted : option Quote }.
Definition no_state : key_state := mkKeyState None None.

Record operator := mkOperator {
  op_keys : gmap string key_state; op_timers : gset (string * Z); op_counters : counters }.

Definition new_operator : operator := mkOperator ∅ ∅ (mkCounters 0 0 0 0).
Definition state_of (o : operator) (key : string) : key_state := default no_state (op_keys o !! key).

Definition count_crossed (b : bool) (c : counters) : counters :=
  mkCounters (if b then crossed_books c + 1 else crossed_books c) (snapshots_applied c) (quotes_emitted c)
    (quotes_suppressed c).
Definition count_snapshot (b : bool) (c : counters) : counters :=
  mkCounters (crossed_books c) (if b then snapshots_applied c + 1 else snapshots_applied c) (quotes_emitted c)
    (quotes_suppressed c).
Definition count_emitted (c : counters) : counters :=
  mkCounters (crossed_books c) (snapshots_applied c) (quotes_emitted c + 1) (quotes_suppressed c).
Definition count_suppressed (c : counters) : counters :=
  mkCounters (crossed_books c) (snapshots_applied c) (quotes_emitted c) (quotes_suppressed c + 1).

(** The equality of the case class: doubles by [==]. *)
Definition f64_eqb (x y : float64) : bool := SFeqb x y.
Definition quote_eqb (a b : Quote) : bool :=
  String.eqb (q_venue a) (q_venue b) && String.eqb (q_symbol a) (q_symbol b)
  && f64_eqb (bidPrice a) (bidPrice b) && f64_eqb (bidSize a) (bidSize b)
  && f64_eqb (askPrice a) (askPrice b) && f64_eqb (askSize a) (askSize b)
  && f64_eqb (q_imbalance a) (q_imbalance b)
  && (q_eventTimeUs a =? q_eventTimeUs b) && (q_emitTimeUs a =? q_emitTimeUs b).
Definition with_emit_time (q : Quote) (t : Z) : Quote :=
  mkQuote (q_venue q) (q_symbol q) (bidPrice q) (bidSize q) (askPrice q) (askSize q) (q_imbalance q)
    (q_eventTimeUs q) t.

(** [previous] is the same quote but for its emit time. *)
Definition unchanged (previous : option Quote) (q : Quote) : bool :=
  match previous with
  | Some p => quote_eqb p (with_emit_time q (q_emitTimeUs p))
  | None => false
  end.

Section operator.
Context (maxDepth imbalanceDepth emitIntervalMs : Z).

(** The next point of the grid. Java divides towards zero. *)
Definition nextTick (now : Z) : Z := wrap64 (wrap64 (Z.quot now emitIntervalMs + 1) * emitIntervalMs).
Definition registered (key : string) (now : Z) (o : operator) : operator :=
  mkOperator (op_keys o) ({[(key, nextTick now)]} ∪ op_timers o) (op_counters o).
Definition armTimer (key : string) (now : Z) (o : operator) : res operator :=
  if emitIntervalMs =? 0 then Err (EMsg "/ by zero") else Ok (registered key now o).

Definition set_state (key : string) (ks : key_state) (c : counters) (o : operator) : operator :=
  mkOperator (<[key := ks]> (op_keys o)) (op_timers o) c.
Definition set_counters (c : counters) (o : operator) : operator := mkOperator (op_keys o) (op_timers o) c.

Definition processElement (d : BookDelta) (now : Z) (o : operator) : res operator :=
  let key := keyOf d in
  let ks := state_of o key in
  let current := match bookState ks with Some s => fromSnapshot s | None => empty_book end in
  updated ← trim (apply current d) maxDepth;
  let c := count_crossed (isCrossed updated) (count_snapshot (isSnapshot d) (op_counters o)) in
  armTimer key now (set_state key (mkKeyState (Some (toSnapshot updated)) (lastEmitted ks)) c o).

(** The body of [onTimer] once the timer is re-armed: what is collected, with the key it
    is collected for. [wall] is [System.currentTimeMillis]. *)
Definition emit (key : string) (wall : Z) (o : operator) : res (operator * list (string * Quote)) :=
  let ks := state_of o key in
  let suppressed := set_counters (count_suppressed (op_counters o)) o in
  match bookState ks with
  | None => Ok (o, [])
  | Some snapshot =>
      let book := fromSnapshot snapshot in
      if isCrossed book then Ok (suppressed, [])
      else match scala_split key "|"%char with
           | [venue; symbol] =>
               quote ← toQuote book venue symbol (wrap64 (wall * 1000)) imbalanceDepth;
               match quote with
               | Some q =>
                   if isValid q then
                     if unchanged (lastEmitted ks) q then Ok (suppressed, [])
                     else Ok (set_state key (mkKeyState (bookState ks) (Some q))
                                (count_emitted (op_counters o)) o, [(key, q)])
                   else Ok (o, [])
               | None => Ok (o, [])
               end
           | _ => Ok (o, [])
           end
  end.

(** Flink removes the timer before it calls [onTimer]. *)
Definition onTimer (key : string) (ts now wall : Z) (o : operator) : res (operator * list (string * Quote)) :=
  let o := mkOperator (op_keys o) (op_timers o ∖ {[(key, ts)]}) (op_counters o) in
  o ← armTimer key now o; emit key wall o.

(** ** Executions *)

Inductive op_input :=
  | InDelta (d : BookDelta) (now : Z)
  | InTimer (key : string) (ts now wall : Z).

(** One call; a timer fires only if it is pending and due. *)
Definition op_step (o : operator) (i : op_input) : res (operator * list (string * Quote)) :=
  match i with
  | InDelta d now => o' ← processElement d now o; Ok (o', [])
  | InTimer key ts now wall =>
      if bool_decide ((key, ts) ∈ op_timers o) && (ts <=? now) then onTimer key ts now wall o
      else Err (EMsg "no such timer")
  end.

Fixpoint op_run_from (o : operator) (ins : list op_input) : res (operator * list (string * Quote)) :=
  match ins with
  | [] => Ok (o, [])
  | i :: ins' =>
      '(o1, out1) ← op_step o i;
      '(o2, out2) ← op_run_from o1 ins';
      Ok (o2, out1 ++ out2)
  end.
Definition op_run : list op_input -> res (operator * list (string * Quote)) := op_run_from new_operator.

(** The deltas of a key. *)
Definition deltas_of (key : string) (ins : list op_input) : list BookDelta :=
  omap (fun i => match i with
                 | InDelta d _ => if String.eqb (keyOf d) key then Some d else None
                 | InTimer _ _ _ _ => None
                 end) ins.
End operator.


(** ** Lemmas: doubles and the key *)

Lemma SFcompare_eq_sym x y : SFcompare x y = Some Eq -> SFcompare y x = Some Eq.
Proof.
  destruct x as [[]|[]| |[] mx ex], y as [[]|[]| |[] my ey]; cbn; intros E; try discriminate E; try reflexivity.
  - destruct (Z.compare_spec ex ey) as [->|?|?]; try discriminate E. rewrite Z.compare_refl.
    change (PosDef.Pos.compare_cont Eq mx my) with (Pos.compare mx my) in E.
    change (PosDef.Pos.compare_cont Eq my mx) with (Pos.compare my mx).
    destruct (Pos.compare_spec mx my) as [->|?|?]; try discriminate E. by rewrite Pos.compare_refl.
  - destruct (Z.compare_spec ex ey) as [->|?|?]; try discriminate E. rewrite Z.compare_refl.
    change (PosDef.Pos.compare_cont Eq mx my) with (Pos.compare mx my) in E.
    change (PosDef.Pos.compare_cont Eq my mx) with (Pos.compare my mx).
    destruct (Pos.compare_spec mx my) as [->|?|?]; try discriminate E. by rewrite Pos.compare_refl.
Qed.

(** At most, but not the other way round, is below. *)
Lemma f64_le_lt x y : f64_le x y = true -> f64_le y x = false -> f64_lt x y = true.
Proof.
  unfold f64_le, f64_lt, SFleb, SFltb. intros H1 H2.
  destruct (SFcompare x y) as [[]|] eqn:E; try done. by rewrite (SFcompare_eq_sym _ _ E) in H2.
Qed.

(** The key of a delta splits into its venue and symbol. *)
Lemma split_keyOf d : "|"%char ∉ chars (bd_venue d) -> "|"%char ∉ chars (bd_symbol d) -> bd_symbol d <> "" ->
  scala_split (keyOf d) "|" = [bd_venue d; bd_symbol d].
Proof.
  intros Hv Hs Hne. unfold scala_split, Split, keyOf. rewrite !chars_app. change (chars "|") with ["|"%char].
  cbn [app]. rewrite split_chars_app, split_chars_none by done. cbn [map]. rewrite !unchars_chars.
  cbn [drop_empty_tail]. destruct (String.eqb_spec (bd_symbol d) ""); [done|reflexivity].
Qed.

(** ** Lemmas: executions *)

Section executions.
Context (maxDepth imbalanceDepth emitIntervalMs : Z) (Hdepth : 0 < maxDepth) (Himb : 0 < imbalanceDepth).

Local Abbreviation step := (op_step maxDepth imbalanceDepth emitIntervalMs).
Local Abbreviation run := (op_run maxDepth imbalanceDepth emitIntervalMs).

Lemma op_run_snoc ins i :
  run (ins ++ [i]) = ('(o, out) ← run ins; '(o', out') ← step o i; Ok (o', out ++ out')).
Proof.
  unfold op_run. generalize new_operator as o0.
  induction ins as [|j ins IH]; intros o0; cbn [app op_run_from mbind res_bind].
  - destruct (step o0 i) as [[o1 out1]| |]; cbn; [|done..]. by rewrite app_nil_r.
  - destruct (step o0 j) as [[o1 out1]| |]; cbn [mbind res_bind]; [|done..]. rewrite IH.
    destruct (op_run_from _ _ _ o1 ins) as [[o2 out2]| |]; cbn [mbind res_bind]; [|done..].
    destruct (step o2 i) as [[o3 out3]| |]; cbn [mbind res_bind]; [|done..]. by rewrite (assoc_L (++)).
Qed.

Lemma deltas_of_snoc key ins i :
  deltas_of key (ins ++ [i])
  = deltas_of key ins ++ match i with InDelta d _ => if String.eqb (keyOf d) key then [d] else [] | _ => [] end.
Proof.
  unfold deltas_of. rewrite omap_app. destruct i as [d now|]; cbn; [|done]. by destruct (String.eqb _ _).
Qed.

(** The stored book of a key is the trimmed book of its deltas. *)
Definition stored (ins : list op_input) (key : string) : option BookSnapshot :=
  match deltas_of key ins with
  | [] => None
  | ds => match trimmed_book maxDepth ds with Ok b => Some (toSnapshot b) | _ => None end
  end.

Lemma stored_current ins key b :
  trimmed_book maxDepth (deltas_of key ins) = Ok b ->
  match stored ins key with Some s => fromSnapshot s | None => empty_book end = b.
Proof.
  intros Hb. destruct (trimmed_book_inv maxDepth (deltas_of key ins) Hdepth) as (b' & Hb' & Hok & _).
  assert (b' = b) as -> by congruence. unfold stored.
  destruct (deltas_of key ins) eqn:E; [by injection Hb|]. rewrite Hb. by apply snapshot_id.
Qed.

Lemma stored_snoc_delta ins d now : exists b,
  trim (apply (match stored ins (keyOf d) with Some s => fromSnapshot s | None => empty_book end) d) maxDepth = Ok b
  /\ stored (ins ++ [InDelta d now]) (keyOf d) = Some (toSnapshot b).
Proof.
  destruct (trimmed_book_inv maxDepth (deltas_of (keyOf d) ins) Hdepth) as (b0 & Hb0 & _).
  rewrite (stored_current _ _ _ Hb0).
  destruct (trim_ok (apply b0 d) maxDepth Hdepth) as (b & Hb & _). exists b. split; [done|].
  assert (trimmed_book maxDepth (deltas_of (keyOf d) (ins ++ [InDelta d now])) = Ok b) as Hb1.
  { rewrite deltas_of_snoc, String.eqb_refl, trimmed_book_snoc, Hb0. exact Hb. }
  unfold stored. destruct (deltas_of (keyOf d) (ins ++ [InDelta d now])) eqn:E; [|by rewrite Hb1].
  rewrite deltas_of_snoc, String.eqb_refl in E. by apply app_nil in E as [_ E].
Qed.

Lemma stored_snoc_other ins i key :
  (forall d now, i = InDelta d now -> keyOf d <> key) -> stored (ins ++ [i]) key = stored ins key.
Proof.
  intros Hi. unfold stored. rewrite deltas_of_snoc. destruct i as [d now|]; [|by rewrite app_nil_r].
  destruct (String.eqb_spec (keyOf d) key) as [E|_]; [by destruct (Hi d now)|]. by rewrite app_nil_r.
Qed.

Lemma toQuote_ok b venue symbol now :
  exists o, toQuote b venue symbol now imbalanceDepth = Ok o
    /\ forall q, o = Some q -> q_venue q = venue /\ q_symbol q = symbol /\ q_emitTimeUs q = now.
Proof.
  unfold toQuote, imbalance, require. destruct (bestBid b), (bestAsk b); try by eexists.
  destruct (Z.ltb_spec 0 imbalanceDepth); [|lia]. eexists. split; [reflexivity|]. by intros q [= <-].
Qed.

(** A quote of a book that may be collected. *)
Definition quote_of (b : OrderBook) (key : string) (q : Quote) : Prop :=
  isCrossed b = false /\ isValid q = true /\ scala_split key "|" = [q_venue q; q_symbol q]
  /\ toQuote b (q_venue q) (q_symbol q) (q_emitTimeUs q) imbalanceDepth = Ok (Some q).

(** The prices of a quote are those [isCrossed] looks at. *)
Lemma quote_prices b venue symbol now q :
  isCrossed b = false -> toQuote b venue symbol now imbalanceDepth = Ok (Some q) ->
  f64_le (askPrice q) (bidPrice q) = false.
Proof.
  unfold isCrossed, toQuote, bestBid, bestAsk. intros Hc Hq.
  destruct (bids b) as [|[bp bs] bl]; [done|]. destruct (asks b) as [|[ap as'] al]; [done|].
  cbn [best] in Hq. destruct (imbalance b imbalanceDepth); [|done..]. by injection Hq as <-.
Qed.

(** What one call of [onTimer] collects, by the state of the key. *)
Definition collects (key : string) (ks : key_state) (out : list (string * Quote)) (last : option Quote) : Prop :=
  (out = [] /\ last = lastEmitted ks)
  \/ exists s q, bookState ks = Some s /\ out = [(key, q)] /\ last = Some q
     /\ quote_of (fromSnapshot s) key q /\ unchanged (lastEmitted ks) q = false.

Lemma state_of_set key ks c o k :
  state_of (set_state key ks c o) k = if decide (k = key) then ks else state_of o k.
Proof.
  unfold state_of. cbn. destruct (decide (k = key)) as [->|Hk]; [by rewrite lookup_insert_eq|].
  by rewrite lookup_insert_ne.
Qed.

Lemma emit_spec key wall o : exists o' out,
  emit imbalanceDepth key wall o = Ok (o', out) /\ op_timers o' = op_timers o
  /\ (forall k, bookState (state_of o' k) = bookState (state_of o k))
  /\ (forall k, k <> key -> lastEmitted (state_of o' k) = lastEmitted (state_of o k))
  /\ collects key (state_of o key) out (lastEmitted (state_of o' key)).
Proof.
  assert (forall c, exists o' out, Ok (set_counters c o, @nil (string * Quote)) = Ok (o', out)
    /\ op_timers o' = op_timers o
    /\ (forall k, bookState (state_of o' k) = bookState (state_of o k))
    /\ (forall k, k <> key -> lastEmitted (state_of o' k) = lastEmitted (state_of o k))
    /\ collects key (state_of o key) out (lastEmitted (state_of o' key))) as Hquiet.
  { intros c. eexists _, _. split; [reflexivity|]. do 3 (split; [done|]). by left. }
  assert (set_counters (op_counters o) o = o) as Hsame by (by destruct o).
  unfold emit. pose proof (Hquiet (op_counters o)) as Hnone. rewrite Hsame in Hnone.
  destruct (bookState (state_of o key)) as [s|] eqn:Hs; [|exact Hnone].
  destruct (isCrossed (fromSnapshot s)) eqn:Hc; [apply Hquiet|].
  destruct (scala_split key "|") as [|v [|sym [|x l]]] eqn:Hk; [exact Hnone..| |exact Hnone].
  destruct (toQuote_ok (fromSnapshot s) v sym (wrap64 (wall * 1000))) as (oq & Hq & Hfields).
  rewrite Hq. cbn [mbind res_bind]. destruct oq as [q|]; [|exact Hnone].
  destruct (isValid q) eqn:Hv; [|exact Hnone].
  destruct (unchanged (lastEmitted (state_of o key)) q) eqn:Hu; [apply Hquiet|].
  destruct (Hfields q eq_refl) as (<- & <- & Hnow). eexists _, _. split; [reflexivity|]. split; [done|].
  split; [|split].
  - intros k. rewrite state_of_set. by destruct (decide (k = key)) as [->|].
  - intros k Hne. rewrite state_of_set. by rewrite decide_False.
  - right. exists s, q. rewrite state_of_set, decide_True by done. split_and!; try done.
    unfold quote_of. by rewrite Hnow.
Qed.
(** The quotes collected for a key. *)
Definition quotes_of (key : string) (outs : list (string * Quote)) : list Quote :=
  omap (fun kq => if String.eqb kq.1 key then Some kq.2 else None) outs.

Lemma quotes_of_app key a b : quotes_of key (a ++ b) = quotes_of key a ++ quotes_of key b.
Proof. apply omap_app. Qed.

Definition changing (qs : list Quote) : Prop :=
  forall i p q, qs !! i = Some p -> qs !! S i = Some q -> unchanged (Some p) q = false.

Lemma changing_snoc qs q : changing qs -> unchanged (last qs) q = false -> changing (qs ++ [q]).
Proof.
  intros Hc Hq i a b Ha Hb. pose proof (lookup_lt_Some _ _ _ Hb) as Hl. rewrite length_app in Hl. cbn in Hl.
  rewrite lookup_app_l in Ha by lia. destruct (Nat.eq_dec (S i) (length qs)) as [E|E].
  - rewrite lookup_app_r, E, Nat.sub_diag in Hb by lia. injection Hb as <-.
    rewrite last_lookup, <- E in Hq. cbn in Hq. by rewrite Ha in Hq.
  - rewrite lookup_app_l in Hb by lia. by eapply Hc.
Qed.

(** The invariant of an execution. *)
Record op_inv (ins : list op_input) (o : operator) (outs : list (string * Quote)) : Prop := {
  inv_stored : forall key, bookState (state_of o key) = stored ins key;
  inv_quotes : forall key q, (key, q) ∈ outs -> exists pre post b,
    ins = pre ++ post /\ trimmed_book maxDepth (deltas_of key pre) = Ok b /\ quote_of b key q;
  inv_last : forall key, last (quotes_of key outs) = lastEmitted (state_of o key);
  inv_changing : forall key, changing (quotes_of key outs);
}.

Lemma stored_some ins key s : stored ins key = Some s ->
  trimmed_book maxDepth (deltas_of key ins) = Ok (fromSnapshot s).
Proof.
  intros Hs. destruct (trimmed_book_inv maxDepth (deltas_of key ins) Hdepth) as (b & Hb & _).
  pose proof (stored_current _ _ _ Hb) as Hc. rewrite Hs in Hc. by rewrite Hc.
Qed.

Lemma quotes_before ins i (outs : list (string * Quote)) key q :
  (forall key q, (key, q) ∈ outs -> exists pre post b,
    ins = pre ++ post /\ trimmed_book maxDepth (deltas_of key pre) = Ok b /\ quote_of b key q) ->
  (key, q) ∈ outs -> exists pre post b,
    ins ++ [i] = pre ++ post /\ trimmed_book maxDepth (deltas_of key pre) = Ok b /\ quote_of b key q.
Proof.
  intros Hq Hin. destruct (Hq key q Hin) as (pre & post & b & -> & Hb). exists pre, (post ++ [i]), b.
  by rewrite (assoc_L (++)).
Qed.

(** An interval of zero lets no call succeed. *)
Lemma step_interval o i r : step o i = Ok r -> emitIntervalMs <> 0.
Proof.
  intros H ->. destruct i as [d now|key ts now wall]; cbn [op_step] in H; revert H.
  - unfold processElement. by destruct (trim _ _).
  - by destruct (bool_decide _ && _).
Qed.

Lemma run_interval ins i r : run ins = Ok r -> i ∈ ins -> emitIntervalMs <> 0.
Proof.
  destruct ins as [|i0 ins]; [by intros _ ?%elem_of_nil|]. intros Hr _. cbn [op_run op_run_from] in Hr.
  apply bind_Ok in Hr as (x & Hr & _). by eapply step_interval.
Qed.

Lemma delta_step ins o outs d now : emitIntervalMs <> 0 -> op_inv ins o outs -> exists o',
  step o (InDelta d now) = Ok (o', []) /\ op_inv (ins ++ [InDelta d now]) o' outs
  /\ op_timers o' = {[(keyOf d, nextTick emitIntervalMs now)]} ∪ op_timers o.
Proof.
  intros Hi0 [Hs Hq Hl Hc]. destruct (stored_snoc_delta ins d now) as (b & Hb & Hn).
  cbn [op_step]. unfold processElement. rewrite Hs, Hb. cbn [mbind res_bind]. unfold armTimer.
  rewrite (proj2 (Z.eqb_neq _ _) Hi0). cbn [mbind res_bind]. eexists. split; [reflexivity|].
  split; [|done]. set (o1 := set_state _ _ _ _). change (state_of (registered _ _ _ o1)) with (state_of o1).
  split; [| |intros key; change (state_of (registered _ _ _ o1)) with (state_of o1)|done].
  - intros key. change (state_of (registered _ _ _ o1)) with (state_of o1). subst o1. rewrite state_of_set.
    destruct (decide (key = keyOf d)) as [->|Hk]; [done|]. rewrite Hs, stored_snoc_other; [done|].
    by intros d' now' [= <- _] E.
  - intros key q. by apply quotes_before.
  - subst o1. rewrite state_of_set, Hl. by destruct (decide (key = keyOf d)) as [->|].
Qed.

Lemma timer_step ins o outs key ts now wall :
  emitIntervalMs <> 0 -> op_inv ins o outs -> (key, ts) ∈ op_timers o -> ts <= now -> exists o' out,
  step o (InTimer key ts now wall) = Ok (o', out) /\ op_inv (ins ++ [InTimer key ts now wall]) o' (outs ++ out)
  /\ op_timers o' = {[(key, nextTick emitIntervalMs now)]} ∪ op_timers o ∖ {[(key, ts)]}.
Proof.
  intros Hi0 [Hs Hq Hl Hc] Hin Hdue. cbn [op_step]. rewrite bool_decide_eq_true_2 by done.
  destruct (Z.leb_spec ts now); [|lia]. cbn [andb]. unfold onTimer, armTimer.
  rewrite (proj2 (Z.eqb_neq _ _) Hi0). cbn [mbind res_bind]. set (o1 := registered _ _ _ _). destruct (emit_spec key wall o1) as (o' & out & -> & Ht & Hbook & Hlast & Hcol).
  change (state_of o1) with (state_of o) in *. exists o', out. split; [done|]. split; [|by rewrite Ht].
  assert (forall k, k <> key -> quotes_of k out = []) as Hother.
  { intros k Hk. destruct Hcol as [[-> _]|(s & q & _ & -> & _)]; [done|]. cbn.
    by destruct (String.eqb_spec key k). }
  split.
  - intros k. by rewrite Hbook, Hs, stored_snoc_other.
  - intros k q. rewrite elem_of_app. intros [Hin'|Hin']; [by eapply quotes_before|].
    destruct Hcol as [[-> _]|(s & q' & Hst & -> & _ & Hof & _)]; [by apply elem_of_nil in Hin'|].
    apply list_elem_of_singleton in Hin' as [= -> ->]. rewrite Hs in Hst.
    exists ins, [InTimer key ts now wall], (fromSnapshot s). split; [done|]. split; [|done]. by apply stored_some.
  - intros k. rewrite quotes_of_app. destruct (decide (k = key)) as [->|Hk].
    + destruct Hcol as [[-> ->]|(s & q & _ & -> & -> & _)]; cbn; [by rewrite app_nil_r, Hl|].
      rewrite String.eqb_refl. by rewrite last_snoc.
    + by rewrite Hother, app_nil_r, Hl, Hlast.
  - intros k. rewrite quotes_of_app. destruct (decide (k = key)) as [->|Hk].
    + destruct Hcol as [[-> _]|(s & q & _ & -> & _ & _ & Hu)]; cbn; [by rewrite app_nil_r|].
      rewrite String.eqb_refl. apply changing_snoc; [done|]. by rewrite Hl.
    + by rewrite Hother, app_nil_r.
Qed.

Lemma run_inv ins o outs : run ins = Ok (o, outs) -> op_inv ins o outs.
Proof.
  revert o outs. induction ins as [|i ins IH] using rev_ind; intros o outs.
  { intros [= <- <-]. split; [done| |done|done]. intros key q Hin. by apply elem_of_nil in Hin. }
  rewrite op_run_snoc. destruct (run ins) as [[o1 out1]| |]; [|done..]. cbn [mbind res_bind].
  specialize (IH o1 out1 eq_refl). destruct (step o1 i) as [[o2 out2]|e|] eqn:Es; [|done..].
  pose proof (step_interval _ _ _ Es) as Hi0. rewrite <- Es. clear Es o2 out2. destruct i as [d now|key ts now wall].
  - destruct (delta_step ins o1 out1 d now Hi0 IH) as (o' & -> & Hinv & _). cbn [mbind res_bind].
    intros [= <- <-]. by rewrite app_nil_r.
  - destruct (bool_decide ((key, ts) ∈ op_timers o1) && (ts <=? now)) eqn:E.
    + apply andb_true_iff in E as [E1%bool_decide_eq_true E2%Z.leb_le].
      destruct (timer_step ins o1 out1 key ts now wall Hi0 IH E1 E2) as (o' & out & -> & Hinv & _). cbn [mbind res_bind].
      by intros [= <- <-].
    + cbn [op_step]. by rewrite E.
Qed.
End executions.

(** ** Properties *)

(** C10. The operator is one trimmed book per key. Whatever the order in which the deltas of
    different keys and the timers interleave, the state of a key is the checkpoint of the
    trimmed book of its own deltas; every quote it collects is the quote of that book at
    some moment of the execution, with a positive bid strictly below the ask, and of the
    full book of all its deltas while the removals since the last snapshot fit the spare
    depth; and no quote repeats the one before it for its key. *)
Theorem operator_refines_books maxDepth imbalanceDepth emitIntervalMs ins o outs :
  0 < maxDepth -> 0 < imbalanceDepth ->
  op_run maxDepth imbalanceDepth emitIntervalMs ins = Ok (o, outs) ->
  (forall key, match deltas_of key ins with
               | [] => bookState (state_of o key) = None
               | ds => exists b, trimmed_book maxDepth ds = Ok b /\ bookState (state_of o key) = Some (toSnapshot b)
               end)
  /\ (forall key q, (key, q) ∈ outs -> exists pre post b,
        ins = pre ++ post /\ trimmed_book maxDepth (deltas_of key pre) = Ok b
        /\ toQuote b (q_venue q) (q_symbol q) (q_emitTimeUs q) imbalanceDepth = Ok (Some q)
        /\ scala_split key "|" = [q_venue q; q_symbol q]
        /\ f64_lt f64_zero (bidPrice q) = true /\ f64_lt (bidPrice q) (askPrice q) = true
        /\ let ds := deltas_of key pre in
           (imbalanceDepth + Z.max (Z.of_nat (erased delta_bids ds)) (Z.of_nat (erased delta_asks ds)) <= maxDepth ->
            toQuote (full_book ds) (q_venue q) (q_symbol q) (q_emitTimeUs q) imbalanceDepth = Ok (Some q)))
  /\ (forall key i p q, quotes_of key outs !! i = Some p -> quotes_of key outs !! S i = Some q ->
        quote_eqb p (with_emit_time q (q_emitTimeUs p)) = false).
Proof.
  intros Hd Hi Hrun. destruct (run_inv maxDepth imbalanceDepth emitIntervalMs Hd Hi ins o outs Hrun) as [Hs Hq _ Hc].
  split; [|split; [|exact Hc]].
  - intros key. rewrite Hs. unfold stored.
    destruct (trimmed_book_inv maxDepth (deltas_of key ins) Hd) as (b & Hb & _).
    destruct (deltas_of key ins); [done|]. exists b. by rewrite Hb.
  - intros key q Hin. destruct (Hq key q Hin) as (pre & post & b & Hpre & Hb & Hcr & Hv & Hk & Hto).
    exists pre, post, b. do 4 (split; [done|]). unfold isValid in Hv.
    apply andb_true_iff in Hv as [Hv Hle]. apply andb_true_iff in Hv as [Hv _]. split; [done|].
    split; [apply f64_le_lt; [done|]; by eapply quote_prices|]. cbn zeta. intros Hroom. rewrite <- Hto. symmetry.
    rewrite <- (Z2Nat.id imbalanceDepth) by lia.
    apply (trimmed_top maxDepth (deltas_of key pre) b (Z.to_nat imbalanceDepth)); [done|done|lia|lia].
Qed.

Definition sample_inputs : list op_input :=
  [InDelta (delta true [level 100 1; level 99 2] [level 101 1] 1) 1;
   InDelta (delta false [level 100 3] [] 2) 2;
   InTimer "coinbase|BTC-USD" 100 101 1000].
Definition sample_run : res (operator * list (string * Quote)) := op_run 50 5 100 sample_inputs.

Lemma operator_refines_books_witness :
  exists o outs, sample_run = Ok (o, outs)
  /\ map (fun kq => (bidPrice kq.2, bidSize kq.2)) outs = [(f64_of_Z 100, f64_of_Z 3)]
  /\ exists b, trimmed_book 50 (deltas_of "coinbase|BTC-USD" sample_inputs) = Ok b
       /\ bookState (state_of o "coinbase|BTC-USD") = Some (toSnapshot b).
Proof.
  assert (match sample_run with
          | Ok (_, outs) => map (fun kq => (bidPrice kq.2, bidSize kq.2)) outs = [(f64_of_Z 100, f64_of_Z 3)]
          | _ => False
          end) as Hq by (vm_compute; reflexivity).
  destruct sample_run as [[o outs]|e|] eqn:E; [|destruct Hq..].
  exists o, outs. split; [reflexivity|]. split; [exact Hq|].
  exact (proj1 (operator_refines_books 50 5 100 sample_inputs o outs ltac:(lia) ltac:(lia) E) "coinbase|BTC-USD").
Defined.

(** ** Timers *)

Section timers.
Context (maxDepth imbalanceDepth emitIntervalMs : Z) (Hdepth : 0 < maxDepth) (Himb : 0 < imbalanceDepth).

(** The processing time of a call. *)
Definition input_time (i : op_input) : Z := match i with InDelta _ now | InTimer _ _ now _ => now end.

Lemma nextTick_grid now : 0 < emitIntervalMs -> 0 <= now -> now + emitIntervalMs < two63 ->
  now < nextTick emitIntervalMs now <= now + emitIntervalMs
  /\ nextTick emitIntervalMs now mod emitIntervalMs = 0.
Proof.
  intros Hi Hn Hb. unfold nextTick. rewrite Z.quot_div_nonneg by lia.
  pose proof (Z.div_mod now emitIntervalMs). pose proof (Z.mod_pos_bound now emitIntervalMs Hi).
  pose proof (Z.div_pos now emitIntervalMs Hn Hi).
  rewrite (wrap64_id (now / emitIntervalMs + 1)) by (unfold int64, two63 in *; nia).
  rewrite wrap64_id by (unfold int64, two63 in *; nia).
  split; [nia|]. apply Z.mod_mul. lia.
Qed.

(** One call adds a timer for its key, and removes at most one of that key. *)
Lemma step_timers ins o1 out1 i : op_inv maxDepth imbalanceDepth ins o1 out1 ->
  exists key cut, (forall d now, i = InDelta d now -> key = keyOf d)
    /\ (forall o' out, op_step maxDepth imbalanceDepth emitIntervalMs o1 i = Ok (o', out) ->
        op_timers o' = {[(key, nextTick emitIntervalMs (input_time i))]} ∪ op_timers o1 ∖ cut)
    /\ forall k ts, (k, ts) ∈ cut -> k = key.
Proof.
  intros Hinv. destruct i as [d now|key ts now wall].
  - exists (keyOf d), ∅. split; [by intros d' now' [= <- _]|]. split; [|set_solver]. intros o' out Hs.
    destruct (delta_step maxDepth imbalanceDepth emitIntervalMs Hdepth ins o1 out1 d now (step_interval _ _ _ _ _ _ Hs) Hinv) as (o2 & E & _ & Ht).
    assert (o2 = o') as -> by congruence. rewrite Ht. cbn [input_time]. by rewrite difference_empty_L.
  - exists key, {[(key, ts)]}. split; [done|]. split; [|by intros k t [= -> _]%elem_of_singleton].
    intros o' out Hs. pose proof Hs as Hs'.
    cbn [op_step] in Hs. destruct (bool_decide _ && _) eqn:E; [|done].
    apply andb_true_iff in E as [E1%bool_decide_eq_true E2%Z.leb_le].
    destruct (timer_step maxDepth imbalanceDepth emitIntervalMs Hdepth Himb ins o1 out1 key ts now wall (step_interval _ _ _ _ _ _ Hs') Hinv E1 E2)
      as (o2 & out2 & E & _ & Ht).
    assert (o2 = o') as -> by congruence. exact Ht.
Qed.

Lemma run_timers ins : forall o outs, op_run maxDepth imbalanceDepth emitIntervalMs ins = Ok (o, outs) ->
  (forall d now, InDelta d now ∈ ins -> exists ts, (keyOf d, ts) ∈ op_timers o)
  /\ (forall key ts, (key, ts) ∈ op_timers o -> exists i, i ∈ ins /\ ts = nextTick emitIntervalMs (input_time i)).
Proof.
  induction ins as [|i ins IH] using rev_ind; intros o outs.
  { intros [= <- <-]. split; [by intros d now ?%elem_of_nil|]. intros key ts Hin. by apply elem_of_empty in Hin. }
  rewrite op_run_snoc. destruct (op_run _ _ _ ins) as [[o1 out1]| |] eqn:Hrun; [|done..]. cbn [mbind res_bind].
  destruct (IH o1 out1 eq_refl) as [Hp Hg].
  pose proof (run_inv maxDepth imbalanceDepth emitIntervalMs Hdepth Himb ins o1 out1 Hrun) as Hinv.
  destruct (step_timers ins o1 out1 i Hinv) as (key & cut & Hkey & Hstep & Hcut).
  destruct (op_step _ _ _ o1 i) as [[o2 out2]| |]; cbn [mbind res_bind]; [|done..]. intros [= <- <-].
  rewrite (Hstep o2 out2 eq_refl). split.
  - intros d now. rewrite elem_of_app, list_elem_of_singleton. intros Hin.
    destruct (decide (keyOf d = key)) as [->|Hne].
    { eexists. by apply elem_of_union_l, elem_of_singleton. }
    destruct Hin as [Hin| <-]; [|by destruct Hne; symmetry; eapply Hkey].
    destruct (Hp d now Hin) as (ts & Hts). exists ts. apply elem_of_union_r, elem_of_difference. split; [done|].
    intros Hc. by apply Hne, Hcut with ts.
  - intros k ts [[= -> ->]%elem_of_singleton|[Hin _]%elem_of_difference]%elem_of_union.
    + exists i. split; [|done]. apply elem_of_app. right. by apply list_elem_of_singleton.
    + destruct (Hg k ts Hin) as (j & Hj & Ht). exists j. split; [|done]. apply elem_of_app. by left.
Qed.
End timers.

(** C11. No symbol falls silent. A key that has received a delta always has a pending
    timer; whenever that timer is due, firing it succeeds and leaves the next one
    pending, on the grid of the interval, later than the clock by at most one interval.
    Every pending timer is the grid point after the time of some call, so a key has at
    most one timer per interval, however many deltas it receives. *)
Theorem operator_never_mute maxDepth imbalanceDepth emitIntervalMs ins o outs :
  0 < maxDepth -> 0 < imbalanceDepth ->
  op_run maxDepth imbalanceDepth emitIntervalMs ins = Ok (o, outs) ->
  (forall d at', InDelta d at' ∈ ins -> exists ts, (keyOf d, ts) ∈ op_timers o
     /\ forall now wall, ts <= now -> exists o' out,
          op_step maxDepth imbalanceDepth emitIntervalMs o (InTimer (keyOf d) ts now wall) = Ok (o', out)
          /\ (keyOf d, nextTick emitIntervalMs now) ∈ op_timers o'
          /\ (0 < emitIntervalMs -> 0 <= now -> now + emitIntervalMs < two63 ->
              now < nextTick emitIntervalMs now <= now + emitIntervalMs
              /\ nextTick emitIntervalMs now mod emitIntervalMs = 0))
  /\ (forall key ts, (key, ts) ∈ op_timers o ->
       exists i, i ∈ ins /\ ts = nextTick emitIntervalMs (input_time i)).
Proof.
  intros Hd Hi Hrun. destruct (run_timers maxDepth imbalanceDepth emitIntervalMs Hd Hi ins o outs Hrun) as [Hp Hg].
  split; [|exact Hg]. intros d at' Hin. destruct (Hp d at' Hin) as (ts & Hts). exists ts. split; [done|].
  intros now wall Hdue. pose proof (run_inv maxDepth imbalanceDepth emitIntervalMs Hd Hi ins o outs Hrun) as Hinv.
  pose proof (run_interval _ _ _ _ _ _ Hrun Hin) as Hi0.
  destruct (timer_step maxDepth imbalanceDepth emitIntervalMs Hd Hi ins o outs (keyOf d) ts now wall Hi0 Hinv Hts Hdue)
    as (o' & out & E & _ & Ht).
  exists o', out. split; [done|]. split; [|by apply nextTick_grid].
  rewrite Ht. by apply elem_of_union_l, elem_of_singleton.
Qed.

Lemma operator_never_mute_witness :
  exists o outs, sample_run = Ok (o, outs) /\ exists ts, ("coinbase|BTC-USD", ts) ∈ op_timers o.
Proof.
  assert (is_ok sample_run = true) as Hok by (vm_compute; reflexivity).
  destruct sample_run as [[o outs]|e|] eqn:E; [|discriminate Hok..].
  exists o, outs. split; [reflexivity|].
  destruct (proj1 (operator_never_mute 50 5 100 sample_inputs o outs ltac:(lia) ltac:(lia) E)
              (delta true [level 100 1; level 99 2] [level 101 1] 1) 1) as (ts & Hts & _).
  - apply list_elem_of_here.
  - exists ts. exact Hts.
Defined.

(** A delta that does not touch the top of the book republishes the same prices and
    sizes: the comparison includes the event time, which every delta moves. *)
Theorem unmoved_top_republished :
  let far := mkBookDelta "coinbase" "BTC-USD" false [f64_of_Z 90] [f64_of_Z 1] [] [] 5 5 2 in
  (r ← op_run 50 1 100 [InDelta (delta true [level 100 1] [level 101 1] 1) 1; InTimer "coinbase|BTC-USD" 100 101 7;
                        InDelta far 150; InTimer "coinbase|BTC-USD" 200 201 8];
   Ok (map (fun kq => (bidPrice kq.2, bidSize kq.2, askPrice kq.2, askSize kq.2, q_imbalance kq.2)) r.2))
  = Ok (let top := (f64_of_Z 100, f64_of_Z 1, f64_of_Z 101, f64_of_Z 1, f64_zero) in [top; top]).
Proof. vm_compute. reflexivity. Qed.

(** With an interval of zero the first delta is a division by zero; nothing is kept. *)
Theorem zero_interval_fails maxDepth d now o : 0 < maxDepth ->
  processElement maxDepth 0 d now o = Err (EMsg "/ by zero").
Proof.
  intros Hd. unfold processElement. destruct (trim_ok (apply match bookState (state_of o (keyOf d)) with
    | Some s => fromSnapshot s | None => empty_book end d) maxDepth Hd) as (b & -> & _). reflexivity.
Qed.
Lemma zero_interval_fails_witness :
  processElement 50 0 (delta true [level 100 1] [level 101 1] 1) 1 new_operator = Err (EMsg "/ by zero").
Proof. apply (zero_interval_fails 50). lia. Defined.
