(* ===== verification/Aggregates.v ===== *)
(** * Stream tier: trade bars

    src/stream/src/main/scala/io/tapeline/stream: [Trade] and [WindowBar] of
    model/Events.scala, stats/Aggregates.scala, functions/TradeWindow.scala and what
    functions/Mappers.scala adds for trades. Flink adds every trade to the accumulator of
    its key and window in the order of arrival and calls [process] once when the window
    fires; [bars] is the outcome for a sequence of trades none of which is late. *)

From S2P Require Import Prelude.
From S2P Require Import GoStrings.
From S2P Require Import GoStrconv.
From S2P Require Import TreeMap.
From S2P Require Import OrderBook.
From S2P Require Import BookFunction.

Local Open Scope Z_scope.

(** ** Trades and bars *)

Record Trade := mkTrade {
  t_venue : string; t_symbol : string; t_tradeId : string; t_price : float64; t_size : float64;
  t_side : string; t_eventTimeUs : Z; t_ingestTimeUs : Z; t_sequence : Z }.
Definition trade_notional (t : Trade) : float64 := f64_mul (t_price t) (t_size t).
Definition isBuy (t : Trade) : bool := String.eqb (t_side t) "BUY".

Record WindowBar := mkWindowBar {
  w_venue : string; w_symbol : string; w_windowStartUs : Z; w_windowEndUs : Z;
  w_open : float64; w_high : float64; w_low : float64; w_close : float64;
  w_volume : float64; w_vwap : float64; w_tradeCount : Z }.

(** ** TradeAggregate *)

Record TradeAggregate := mkAggregate {
  open : float64; high : float64; low : float64; close : float64; volume : float64; notional : float64;
  count : Z; firstEventTimeUs : Z; a_lastEventTimeUs : Z }.

Definition Double_MaxValue : float64 := S754_finite false 9007199254740991 971.
Definition empty : TradeAggregate :=
  mkAggregate f64_zero (SFopp Double_MaxValue) Double_MaxValue f64_zero f64_zero f64_zero 0 MaxInt64 (- two63).

Definition add (a : TradeAggregate) (t : Trade) : TradeAggregate :=
  if count a =? 0
  then mkAggregate (t_price t) (t_price t) (t_price t) (t_price t) (t_size t) (trade_notional t) 1
         (t_eventTimeUs t) (t_eventTimeUs t)
  else mkAggregate
         (if t_eventTimeUs t <? firstEventTimeUs a then t_price t else open a)
         (math_max (high a) (t_price t)) (math_min (low a) (t_price t))
         (if a_lastEventTimeUs a <=? t_eventTimeUs t then t_price t else close a)
         (f64_add (volume a) (t_size t)) (f64_add (notional a) (trade_notional t)) (count a + 1)
         (Z.min (firstEventTimeUs a) (t_eventTimeUs t)) (Z.max (a_lastEventTimeUs a) (t_eventTimeUs t)).

Definition merge (a other : TradeAggregate) : TradeAggregate :=
  if count a =? 0 then other
  else if count other =? 0 then a
  else mkAggregate
         (if firstEventTimeUs other <? firstEventTimeUs a then open other else open a)
         (math_max (high a) (high other)) (math_min (low a) (low other))
         (if a_lastEventTimeUs a <? a_lastEventTimeUs other then close other else close a)
         (f64_add (volume a) (volume other)) (f64_add (notional a) (notional other)) (count a + count other)
         (Z.min (firstEventTimeUs a) (firstEventTimeUs other)) (Z.max (a_lastEventTimeUs a) (a_lastEventTimeUs other)).

Definition vwap (a : TradeAggregate) : float64 :=
  if f64_le (volume a) f64_zero then S754_nan else f64_div (notional a) (volume a).

Definition toBar (a : TradeAggregate) (venue symbol : string) (windowStartUs windowEndUs : Z) : WindowBar :=
  mkWindowBar venue symbol windowStartUs windowEndUs (open a) (high a) (low a) (close a) (volume a) (vwap a) (count a).

Definition fold (trades : list Trade) : TradeAggregate := fold_left add trades empty.

(** ** Windows *)

Definition trade_key (t : Trade) : string := t_venue t +:+ "|" +:+ t_symbol t.
(** [ValidTradeFilter] and [TradeTimestampAssigner]. *)
Definition valid_trade (t : Trade) : bool :=
  (0 <? t_eventTimeUs t) && f64_lt f64_zero (t_price t) && f64_le f64_zero (t_size t)
  && negb (String.eqb (t_symbol t) "").
Definition timestamp_ms (t : Trade) : Z := Z.quot (t_eventTimeUs t) 1000.

Section windows.
Context (windowSeconds : Z).

(** [TumblingEventTimeWindows]: the window that holds a timestamp. *)
Definition window_size : Z := windowSeconds * 1000.
Definition window_start (ms : Z) : Z := ms - ms mod window_size.
Definition window_of (t : Trade) : string * Z := (trade_key t, window_start (timestamp_ms t)).

(** The accumulators. *)
Definition add_trade (m : gmap (string * Z) TradeAggregate) (t : Trade) : gmap (string * Z) TradeAggregate :=
  <[window_of t := add (default empty (m !! window_of t)) t]> m.
Definition accumulate (trades : list Trade) : gmap (string * Z) TradeAggregate :=
  fold_left add_trade (List.filter valid_trade trades) ∅.

(** [TradeBarWindowFunction.process]. *)
Definition process (key : string) (start : Z) (agg : TradeAggregate) : option WindowBar :=
  if count agg =? 0 then None
  else
    let '(venue, symbol) :=
      match scala_split key "|" with [venue; symbol] => (venue, symbol) | _ => ("unknown", key) end in
    Some (toBar agg venue symbol (wrap64 (start * 1000)) (wrap64 ((start + window_size) * 1000))).

Definition bars (trades : list Trade) : gmap (string * Z) WindowBar :=
  map_imap (fun k agg => process k.1 k.2 agg) (accumulate trades).
End windows.

(** ** Lemmas: the best of a list *)

Section best.
Context {A : Type} (cmp : A -> A -> comparison) `{!TotalCompare cmp}.

Definition pick (acc x : A) : A := match cmp x acc with Lt => x | _ => acc end.

(** A member that no other is before. *)
Definition best_of (m : A) (l : list A) : Prop := m ∈ l /\ forall x, x ∈ l -> cmp x m <> Lt.

Lemma cmp_not_lt_trans x y z : cmp x y <> Lt -> cmp y z <> Lt -> cmp x z <> Lt.
Proof.
  intros Hxy Hyz Hxz. destruct (cmp y x) eqn:E.
  - by apply cmp_eq in E as ->.
  - by destruct (Hyz (cmp_trans _ _ _ E Hxz)).
  - by rewrite (cmp_opp y x), E in Hxy.
Qed.

Lemma pick_spec a b : cmp a (pick a b) <> Lt /\ cmp b (pick a b) <> Lt /\ (pick a b = a \/ pick a b = b).
Proof.
  unfold pick. destruct (cmp b a) eqn:E; rewrite ?(cmp_refl cmp), ?E, ?(cmp_opp b a), ?E; auto.
Qed.

Lemma fold_pick l : forall a, best_of (fold_left pick l a) (a :: l).
Proof.
  induction l as [|b l IH]; intros a; cbn [fold_left].
  - split; [apply list_elem_of_here|]. intros x Hx%list_elem_of_singleton. subst. by rewrite (cmp_refl cmp).
  - destruct (IH (pick a b)) as [Hin Hbest], (pick_spec a b) as (Ha & Hb & Hp).
    pose proof (Hbest (pick a b) (list_elem_of_here _ _)) as Hpm. split.
    + apply elem_of_cons in Hin as [->|Hin]; [|by do 2 (apply elem_of_cons; right)].
      destruct Hp as [-> | ->]; [apply list_elem_of_here|]. apply elem_of_cons. right. apply list_elem_of_here.
    + intros x [->|[->|Hx]%elem_of_cons]%elem_of_cons; [by eapply cmp_not_lt_trans..|].
      apply Hbest. by apply elem_of_cons; right.
Qed.

Lemma best_of_unique m m' l l' : l ≡ₚ l' -> best_of m l -> best_of m' l' -> m = m'.
Proof.
  intros Hp [Hm Hb] [Hm' Hb']. rewrite Hp in Hm. rewrite <- Hp in Hm'.
  specialize (Hb m' Hm'). specialize (Hb' m Hm). apply cmp_eq.
  destruct (cmp m m') eqn:E; [done..|]. by rewrite (cmp_opp m m'), E in Hb.
Qed.

Lemma fold_pick_perm l l' a a' : a :: l ≡ₚ a' :: l' -> fold_left pick l a = fold_left pick l' a'.
Proof. intros Hp. eapply best_of_unique; [exact Hp|apply fold_pick..]. Qed.
End best.

(** [math_max] is the later of the two in the order of the doubles, in which NaN is last;
    [math_min] the earlier one in an order in which NaN comes first. *)
Definition nan_first (x y : float64) : comparison :=
  match is_nan x, is_nan y with
  | true, true => Eq
  | true, false => Lt
  | false, true => Gt
  | false, false => double_compare x y
  end.

#[export] Instance nan_first_total : TotalCompare nan_first.
Proof.
  assert (forall x, is_nan x = true -> x = S754_nan) as Hnan by (by intros []).
  unfold nan_first. split.
  - intros x y. destruct (is_nan x) eqn:Ex, (is_nan y) eqn:Ey; try done; [|by apply cmp_eq].
    intros _. by rewrite (Hnan x), (Hnan y).
  - intros x y. destruct (is_nan x), (is_nan y); try done. by apply cmp_opp.
  - intros x y z. destruct (is_nan x), (is_nan y), (is_nan z); try done. by apply cmp_trans.
Qed.

Lemma math_max_pick x y : math_max x y = pick reverse_compare x y.
Proof.
  unfold math_max, pick, reverse_compare. destruct x, y; try reflexivity; cbn [is_nan orb].
  all: destruct (double_compare _ _) eqn:E; try reflexivity.
Qed.
Lemma math_min_pick x y : math_min x y = pick nan_first x y.
Proof. unfold math_min, pick, nan_first. destruct (is_nan x) eqn:Ex, (is_nan y) eqn:Ey; cbn [orb]; try done; by destruct x, y. Qed.

(** ** Lemmas: an aggregate *)

(** The first arrival among the earliest trades, and the last among the latest. *)
Definition earliest (t : Trade) (ts : list Trade) : Trade :=
  fold_left (fun a x => if t_eventTimeUs x <? t_eventTimeUs a then x else a) ts t.
Definition latest_trade (t : Trade) (ts : list Trade) : Trade :=
  fold_left (fun a x => if t_eventTimeUs a <=? t_eventTimeUs x then x else a) ts t.

Lemma fold_snoc ts t : fold (ts ++ [t]) = add (fold ts) t.
Proof. unfold fold. by rewrite fold_left_app. Qed.

(** What the accumulator holds. *)
Lemma fold_cons t ts : fold (t :: ts) =
  mkAggregate (t_price (earliest t ts))
    (fold_left math_max (map t_price ts) (t_price t)) (fold_left math_min (map t_price ts) (t_price t))
    (t_price (latest_trade t ts))
    (fold_left f64_add (map t_size ts) (t_size t)) (fold_left f64_add (map trade_notional ts) (trade_notional t))
    (Z.of_nat (length (t :: ts))) (t_eventTimeUs (earliest t ts)) (t_eventTimeUs (latest_trade t ts)).
Proof.
  induction ts as [|x ts IH] using rev_ind; [done|].
  rewrite app_comm_cons, fold_snoc, IH. unfold add, earliest, latest_trade. cbn [count].
  destruct (Z.eqb_spec (Z.of_nat (length (t :: ts))) 0) as [E|_]; [cbn in E; lia|].
  cbn [open high low close volume notional count firstEventTimeUs a_lastEventTimeUs].
  rewrite !map_app, !fold_left_app, length_app. cbn [map fold_left length].
  fold (earliest t ts) (latest_trade t ts). f_equal.
  - by destruct (_ <? _).
  - by destruct (_ <=? _).
  - lia.
  - destruct (Z.ltb_spec (t_eventTimeUs x) (t_eventTimeUs (earliest t ts))); lia.
  - destruct (Z.leb_spec (t_eventTimeUs (latest_trade t ts)) (t_eventTimeUs x)); lia.
Qed.

Lemma earliest_split ts : forall t, exists pre post, t :: ts = pre ++ earliest t ts :: post
  /\ Forall (fun x => t_eventTimeUs (earliest t ts) < t_eventTimeUs x) pre
  /\ Forall (fun x => t_eventTimeUs (earliest t ts) <= t_eventTimeUs x) post.
Proof.
  induction ts as [|x ts IH] using rev_ind; intros t; [by exists [], []|].
  destruct (IH t) as (pre & post & E & Hpre & Hpost). unfold earliest. rewrite fold_left_app. cbn [fold_left].
  fold (earliest t ts). set (e := earliest t ts) in *.
  destruct (Z.ltb_spec (t_eventTimeUs x) (t_eventTimeUs e)) as [Hx|Hx].
  - exists (t :: ts), []. split; [done|]. split; [|done]. rewrite E. apply Forall_app. split.
    + eapply Forall_impl; [exact Hpre|]. cbn. lia.
    + constructor; [done|]. eapply Forall_impl; [exact Hpost|]. cbn. lia.
  - exists pre, (post ++ [x]). split; [by rewrite app_comm_cons, E, <- app_assoc|]. split; [done|].
    apply Forall_app. split; [done|]. by repeat constructor.
Qed.

Lemma latest_split ts : forall t, exists pre post, t :: ts = pre ++ latest_trade t ts :: post
  /\ Forall (fun x => t_eventTimeUs x <= t_eventTimeUs (latest_trade t ts)) pre
  /\ Forall (fun x => t_eventTimeUs x < t_eventTimeUs (latest_trade t ts)) post.
Proof.
  induction ts as [|x ts IH] using rev_ind; intros t; [by exists [], []|].
  destruct (IH t) as (pre & post & E & Hpre & Hpost). unfold latest_trade. rewrite fold_left_app. cbn [fold_left].
  fold (latest_trade t ts). set (e := latest_trade t ts) in *.
  destruct (Z.leb_spec (t_eventTimeUs e) (t_eventTimeUs x)) as [Hx|Hx].
  - exists (t :: ts), []. split; [done|]. split; [|done]. rewrite E. apply Forall_app. split.
    + eapply Forall_impl; [exact Hpre|]. cbn. lia.
    + constructor; [done|]. eapply Forall_impl; [exact Hpost|]. cbn. lia.
  - exists pre, (post ++ [x]). split; [by rewrite app_comm_cons, E, <- app_assoc|]. split; [done|].
    apply Forall_app. split; [done|]. by repeat constructor.
Qed.

Lemma fold_max_pick l : forall a, fold_left math_max l a = fold_left (pick reverse_compare) l a.
Proof. induction l as [|x l IH]; intros a; [done|]. cbn. by rewrite math_max_pick, IH. Qed.
Lemma fold_min_pick l : forall a, fold_left math_min l a = fold_left (pick nan_first) l a.
Proof. induction l as [|x l IH]; intros a; [done|]. cbn. by rewrite math_min_pick, IH. Qed.

(** ** Lemmas: windows *)

Section windows.
Context (windowSeconds : Z).

Definition in_window (k : string * Z) (ts : list Trade) : list Trade :=
  filter (fun t => valid_trade t = true /\ window_of windowSeconds t = k) ts.

Lemma in_window_snoc k ts t : in_window k (ts ++ [t]) =
  in_window k ts ++ if decide (valid_trade t = true /\ window_of windowSeconds t = k) then [t] else [].
Proof. unfold in_window. rewrite filter_app, filter_cons. by destruct (decide _). Qed.

Lemma accumulate_lookup ts k : accumulate windowSeconds ts !! k =
  match in_window k ts with [] => None | l => Some (fold l) end.
Proof.
  induction ts as [|t ts IH] using rev_ind; [done|].
  unfold accumulate. rewrite List.filter_app, fold_left_app. fold (accumulate windowSeconds ts).
  rewrite in_window_snoc. cbn [List.filter]. destruct (valid_trade t) eqn:Hv; cbn [fold_left].
  - unfold add_trade. destruct (decide (window_of windowSeconds t = k)) as [<-|Hk].
    + rewrite lookup_insert_eq, IH. destruct (decide _) as [_|[]]; [|done].
      destruct (in_window (window_of windowSeconds t) ts) as [|y l]; [done|].
      cbn [app default]. by rewrite (app_comm_cons l [t] y), fold_snoc.
    + rewrite lookup_insert_ne, IH by done. destruct (decide _) as [[_ ?]|_]; [done|]. by rewrite app_nil_r.
  - rewrite IH. destruct (decide _) as [[? _]|_]; [done|]. by rewrite app_nil_r.
Qed.

Lemma in_window_perm k ts ts' : ts ≡ₚ ts' -> in_window k ts ≡ₚ in_window k ts'.
Proof. intros Hp. unfold in_window. by rewrite Hp. Qed.
End windows.

(** ** Lemmas: aggregates of parts *)

Lemma fold_pick_app {A} (cmp : A -> A -> comparison) `{!TotalCompare cmp} l l' a a' :
  fold_left (pick cmp) (l ++ a' :: l') a = pick cmp (fold_left (pick cmp) l a) (fold_left (pick cmp) l' a').
Proof.
  apply (best_of_unique cmp _ _ ((a :: l) ++ a' :: l') ((a :: l) ++ a' :: l')); [done|apply (fold_pick cmp)|].
  destruct (fold_pick cmp l a) as [H1 B1], (fold_pick cmp l' a') as [H2 B2].
  set (m1 := fold_left (pick cmp) l a) in *. set (m2 := fold_left (pick cmp) l' a') in *.
  destruct (pick_spec cmp m1 m2) as (P1 & P2 & P). split.
  - apply elem_of_app. destruct P as [-> | ->]; [by left|by right].
  - intros x [Hx|Hx]%elem_of_app; [apply (cmp_not_lt_trans cmp _ m1)|apply (cmp_not_lt_trans cmp _ m2)]; auto.
Qed.

Lemma earliest_app ts us t u : earliest t (ts ++ u :: us) =
  if t_eventTimeUs (earliest u us) <? t_eventTimeUs (earliest t ts) then earliest u us else earliest t ts.
Proof.
  induction us as [|x us IH] using rev_ind; [unfold earliest; by rewrite fold_left_app|].
  unfold earliest in *. rewrite app_comm_cons, app_assoc, fold_left_app, IH, fold_left_app. cbn [fold_left].
  set (e := fold_left _ ts t). set (f := fold_left _ us u).
  destruct (Z.ltb_spec (t_eventTimeUs f) (t_eventTimeUs e)).
  - destruct (Z.ltb_spec (t_eventTimeUs x) (t_eventTimeUs f)).
    + destruct (Z.ltb_spec (t_eventTimeUs x) (t_eventTimeUs e)); [done|lia].
    + by destruct (Z.ltb_spec (t_eventTimeUs f) (t_eventTimeUs e)); [|lia].
  - destruct (Z.ltb_spec (t_eventTimeUs x) (t_eventTimeUs f)); [done|].
    destruct (Z.ltb_spec (t_eventTimeUs x) (t_eventTimeUs e)); [lia|].
    by destruct (Z.ltb_spec (t_eventTimeUs f) (t_eventTimeUs e)); [lia|].
Qed.

Lemma latest_app ts us t u : latest_trade t (ts ++ u :: us) =
  if t_eventTimeUs (latest_trade t ts) <=? t_eventTimeUs (latest_trade u us) then latest_trade u us else latest_trade t ts.
Proof.
  induction us as [|x us IH] using rev_ind; [unfold latest_trade; by rewrite fold_left_app|].
  unfold latest_trade in *. rewrite app_comm_cons, app_assoc, fold_left_app, IH, fold_left_app. cbn [fold_left].
  set (e := fold_left _ ts t). set (f := fold_left _ us u).
  destruct (Z.leb_spec (t_eventTimeUs e) (t_eventTimeUs f)).
  - destruct (Z.leb_spec (t_eventTimeUs f) (t_eventTimeUs x)).
    + destruct (Z.leb_spec (t_eventTimeUs e) (t_eventTimeUs x)); [done|lia].
    + by destruct (Z.leb_spec (t_eventTimeUs e) (t_eventTimeUs f)); [|lia].
  - destruct (Z.leb_spec (t_eventTimeUs f) (t_eventTimeUs x)); [done|].
    destruct (Z.leb_spec (t_eventTimeUs e) (t_eventTimeUs x)); [lia|].
    by destruct (Z.leb_spec (t_eventTimeUs e) (t_eventTimeUs f)); [lia|].
Qed.

(** The sum of doubles from the left. *)
Definition sum_doubles (l : list float64) : float64 :=
  match l with [] => f64_zero | x :: l' => fold_left f64_add l' x end.

Lemma aggregate_facts t ts : count (fold (t :: ts)) = Z.of_nat (length (t :: ts))
  /\ volume (fold (t :: ts)) = sum_doubles (map t_size (t :: ts))
  /\ notional (fold (t :: ts)) = sum_doubles (map trade_notional (t :: ts)).
Proof. by rewrite fold_cons. Qed.

(** ** Properties *)

(** A bar is exact. The aggregate of trades in any order of arrival counts them, spans
    their event times, opens at the first arrival among the earliest and closes at the
    last among the latest, its high and low are prices of the window that no other is above
    or below (with a NaN if there is one), and volume and notional are the sums in the
    order of arrival. *)
Theorem aggregate_exact (t : Trade) (ts : list Trade) :
  let all := t :: ts in
  let a := fold all in
  count a = Z.of_nat (length all)
  /\ (exists pre x post, all = pre ++ x :: post /\ open a = t_price x /\ firstEventTimeUs a = t_eventTimeUs x
        /\ Forall (fun y => t_eventTimeUs x < t_eventTimeUs y) pre
        /\ Forall (fun y => t_eventTimeUs x <= t_eventTimeUs y) post)
  /\ (exists pre x post, all = pre ++ x :: post /\ close a = t_price x /\ a_lastEventTimeUs a = t_eventTimeUs x
        /\ Forall (fun y => t_eventTimeUs y <= t_eventTimeUs x) pre
        /\ Forall (fun y => t_eventTimeUs y < t_eventTimeUs x) post)
  /\ best_of reverse_compare (high a) (map t_price all) /\ best_of nan_first (low a) (map t_price all)
  /\ volume a = sum_doubles (map t_size all) /\ notional a = sum_doubles (map trade_notional all).
Proof.
  cbn zeta. rewrite fold_cons. split; [done|].
  split; [destruct (earliest_split ts t) as (pre & post & ? & ? & ?); by exists pre, (earliest t ts), post|].
  split; [destruct (latest_split ts t) as (pre & post & ? & ? & ?); by exists pre, (latest_trade t ts), post|].
  cbn [high low volume notional map sum_doubles]. rewrite fold_max_pick, fold_min_pick.
  split; [apply (fold_pick reverse_compare)|]. split; [apply (fold_pick nan_first)|done].
Qed.

(** What the two aggregates share when only the order of the sums differs. *)
Definition same_but_sums (a b : TradeAggregate) : Prop :=
  (open a, high a, low a, close a) = (open b, high b, low b, close b)
  /\ (count a, firstEventTimeUs a, a_lastEventTimeUs a) = (count b, firstEventTimeUs b, a_lastEventTimeUs b).

(** Aggregates of parts. The empty aggregate is the identity of [merge], and merging the
    aggregates of two parts gives the aggregate of the whole but for the order in which
    volume and notional are summed, provided the parts do not end at the same event time
    or do so at the same price. *)
Theorem merge_of_parts (t : Trade) (ts : list Trade) (u : Trade) (us : list Trade) :
  let a := fold (t :: ts) in
  let b := fold (u :: us) in
  merge a empty = a /\ merge empty a = a
  /\ (a_lastEventTimeUs a <> a_lastEventTimeUs b \/ close a = close b ->
      same_but_sums (merge a b) (fold ((t :: ts) ++ u :: us)))
  /\ volume (merge a b) = f64_add (volume a) (volume b) /\ notional (merge a b) = f64_add (notional a) (notional b).
Proof.
  cbn zeta. cbn [app]. rewrite !fold_cons. unfold merge. cbn [count empty]. change (0 =? 0) with true.
  assert (forall (x : Trade) l, (Z.of_nat (length (x :: l)) =? 0) = false) as Hn
    by (intros; apply Z.eqb_neq; cbn; lia).
  rewrite !Hn. cbn iota. split; [done|]. split; [done|].
  cbn [volume notional a_lastEventTimeUs close open high low firstEventTimeUs]. split; [|done].
  intros Htie. unfold same_but_sums. cbn [open high low close count firstEventTimeUs a_lastEventTimeUs].
  rewrite !map_app. cbn [map].
  rewrite !fold_max_pick, !fold_min_pick, math_max_pick, math_min_pick, !fold_pick_app, earliest_app, latest_app by typeclasses eauto.
  set (e := earliest t ts). set (f := earliest u us). set (l := latest_trade t ts) in *. set (m := latest_trade u us) in *.
  split; f_equal.
  - f_equal. f_equal. by destruct (_ <? _).
  - destruct (Z.ltb_spec (t_eventTimeUs l) (t_eventTimeUs m)), (Z.leb_spec (t_eventTimeUs l) (t_eventTimeUs m)); try lia; try done.
    destruct Htie as [?|?]; [lia|done].
  - f_equal; [cbn [length]; rewrite length_app; cbn [length]; lia|]. destruct (Z.ltb_spec (t_eventTimeUs f) (t_eventTimeUs e)); lia.
  - destruct (Z.leb_spec (t_eventTimeUs l) (t_eventTimeUs m)); lia.
Qed.

(** The bars agree on everything but the two figures that depend on the order of a sum. *)
Definition same_bar (b b' : WindowBar) : Prop :=
  (w_venue b, w_symbol b, w_windowStartUs b, w_windowEndUs b)
    = (w_venue b', w_symbol b', w_windowStartUs b', w_windowEndUs b')
  /\ (w_open b, w_high b, w_low b, w_close b, w_tradeCount b)
    = (w_open b', w_high b', w_low b', w_close b', w_tradeCount b').

(** Trades of one window at the same event time have the same price. *)
Definition unambiguous (l : list Trade) : Prop :=
  forall t t', t ∈ l -> t' ∈ l -> t_eventTimeUs t = t_eventTimeUs t' -> t_price t = t_price t'.

Lemma earliest_min t ts : earliest t ts ∈ t :: ts /\ forall x, x ∈ t :: ts -> t_eventTimeUs (earliest t ts) <= t_eventTimeUs x.
Proof.
  destruct (earliest_split ts t) as (pre & post & E & Hpre & Hpost). rewrite Forall_forall in Hpre, Hpost.
  set (e := earliest t ts) in *. clearbody e. rewrite E. split; [apply elem_of_app; right; apply list_elem_of_here|].
  intros x [Hx|[->|Hx]%elem_of_cons]%elem_of_app; [specialize (Hpre x Hx)|done|by apply Hpost]. lia.
Qed.
Lemma latest_max t ts : latest_trade t ts ∈ t :: ts /\ forall x, x ∈ t :: ts -> t_eventTimeUs x <= t_eventTimeUs (latest_trade t ts).
Proof.
  destruct (latest_split ts t) as (pre & post & E & Hpre & Hpost). rewrite Forall_forall in Hpre, Hpost.
  set (e := latest_trade t ts) in *. clearbody e. rewrite E. split; [apply elem_of_app; right; apply list_elem_of_here|].
  intros x [Hx|[->|Hx]%elem_of_cons]%elem_of_app; [by apply Hpre|done|specialize (Hpost x Hx)]. lia.
Qed.

Lemma fold_perm l l' : l ≡ₚ l' -> unambiguous l -> same_but_sums (fold l) (fold l').
Proof.
  intros Hp Hu. destruct l as [|t ts], l' as [|t' ts'];
    [done|by apply Permutation_nil_cons in Hp|symmetry in Hp; by apply Permutation_nil_cons in Hp|].
  destruct (earliest_min t ts) as [He Hmin], (earliest_min t' ts') as [He' Hmin'].
  destruct (latest_max t ts) as [Hl Hmax], (latest_max t' ts') as [Hl' Hmax'].
  rewrite <- Hp in He', Hl'. setoid_rewrite <- Hp in Hmin'. setoid_rewrite <- Hp in Hmax'.
  assert (t_eventTimeUs (earliest t ts) = t_eventTimeUs (earliest t' ts')) as Ee by (apply Z.le_antisymm; auto).
  assert (t_eventTimeUs (latest_trade t ts) = t_eventTimeUs (latest_trade t' ts')) as El by (apply Z.le_antisymm; auto).
  assert (t_price t :: map t_price ts ≡ₚ t_price t' :: map t_price ts') as Hpp by (by rewrite <- !map_cons, Hp).
  rewrite !fold_cons. unfold same_but_sums. cbn [open high low close count firstEventTimeUs a_lastEventTimeUs].
  rewrite !fold_max_pick, !fold_min_pick, (fold_pick_perm reverse_compare _ _ _ _ Hpp),
    (fold_pick_perm nan_first _ _ _ _ Hpp), (Hu _ _ He He' Ee), (Hu _ _ Hl Hl' El), Ee, El.
  by rewrite (Permutation_length Hp).
Qed.

(** What a window's bar depends on: its trades, in any order. *)
Lemma same_window_bars windowSeconds (ts ts' : list Trade) k :
  in_window windowSeconds k ts ≡ₚ in_window windowSeconds k ts' -> unambiguous (in_window windowSeconds k ts) ->
  match bars windowSeconds ts !! k, bars windowSeconds ts' !! k with
  | Some b, Some b' =>
      same_bar b b' /\ w_tradeCount b = Z.of_nat (length (in_window windowSeconds k ts))
      /\ in_window windowSeconds k ts <> []
      /\ w_volume b = sum_doubles (map t_size (in_window windowSeconds k ts))
      /\ w_volume b' = sum_doubles (map t_size (in_window windowSeconds k ts'))
      /\ map t_size (in_window windowSeconds k ts) ≡ₚ map t_size (in_window windowSeconds k ts')
  | None, None => in_window windowSeconds k ts = []
  | _, _ => False
  end.
Proof.
  intros Hpk Hu. unfold bars. rewrite !map_lookup_imap, !accumulate_lookup.
  set (l := in_window windowSeconds k ts) in *. set (l' := in_window windowSeconds k ts') in *.
  pose proof (fold_perm l l' Hpk Hu) as [Ho Hc].
  destruct l as [|x l], l' as [|x' l'];
    [done|by apply Permutation_nil_cons in Hpk|symmetry in Hpk; by apply Permutation_nil_cons in Hpk|].
  destruct (aggregate_facts x l) as (Hcount & Hv & _), (aggregate_facts x' l') as (Hcount' & Hv' & _).
  cbn [mbind option_bind]. unfold process.
  assert (forall n, (Z.of_nat (S n) =? 0) = false) as Hn by (intros; apply Z.eqb_neq; lia).
  rewrite Hcount, Hcount'. cbn [length]. rewrite !Hn. cbn iota.
  destruct (match scala_split k.1 "|" with [] => _ | _ => _ end) as [venue symbol].
  set (a := fold (x :: l)) in *. set (a' := fold (x' :: l')) in *. clearbody a a'.
  unfold toBar, same_bar. cbn. injection Ho as -> -> -> ->. injection Hc as Hc _ _. rewrite Hc, Hv, Hv'.
  split; [done|]. split; [by rewrite <- Hc, Hcount|]. split; [done|]. do 2 (split; [done|]).
  change (map t_size (x :: l) ≡ₚ map t_size (x' :: l')). by rewrite Hpk.
Qed.

(** Volume and VWAP are sums of doubles in the order of arrival, which can show in them
    ([sum_order_visible]). *)
Definition sums_of (l : list Trade) (b : WindowBar) : Prop :=
  let volume := sum_doubles (map t_size l) in
  w_volume b = volume
  /\ w_vwap b = (if f64_le volume f64_zero then S754_nan else f64_div (sum_doubles (map trade_notional l)) volume).

Lemma bars_sums windowSeconds ts k b :
  bars windowSeconds ts !! k = Some b -> sums_of (in_window windowSeconds k ts) b.
Proof.
  unfold bars. rewrite map_lookup_imap, accumulate_lookup.
  destruct (in_window windowSeconds k ts) as [|x l]; [done|]. cbn [mbind option_bind]. unfold process.
  destruct (aggregate_facts x l) as (Hcount & Hv & Hn). rewrite Hcount.
  destruct (_ =? 0); [done|]. destruct (match scala_split k.1 "|" with [] => _ | _ => _ end) as [venue symbol].
  intros [= <-]. unfold sums_of, toBar, vwap. cbn [w_volume w_vwap]. by rewrite Hv, Hn.
Qed.

(** A replay gives the same bars. For any two orders of arrival of the same trades, none
    of them late, the same windows have a bar, and the bars agree in venue, symbol, bounds,
    open, high, low, close and count, if no window has two prices at one event time; each
    valid trade is in exactly one of them; volume and notional sum the same figures, in
    the order of arrival. *)
Theorem replay_same_bars windowSeconds (ts ts' : list Trade) :
  ts ≡ₚ ts' ->
  (forall k, unambiguous (in_window windowSeconds k ts)) ->
  forall k, match bars windowSeconds ts !! k, bars windowSeconds ts' !! k with
            | Some b, Some b' =>
                same_bar b b' /\ w_tradeCount b = Z.of_nat (length (in_window windowSeconds k ts))
                /\ in_window windowSeconds k ts <> []
                /\ w_volume b = sum_doubles (map t_size (in_window windowSeconds k ts))
                /\ w_volume b' = sum_doubles (map t_size (in_window windowSeconds k ts'))
                /\ map t_size (in_window windowSeconds k ts) ≡ₚ map t_size (in_window windowSeconds k ts')
            | None, None => in_window windowSeconds k ts = []
            | _, _ => False
            end.
Proof. intros Hp Hu k. apply same_window_bars; [by apply in_window_perm|apply Hu]. Qed.

(** A bar holds the trades of its bounds, which are in microseconds. *)
Theorem window_bounds windowSeconds k (ts : list Trade) b t :
  0 < windowSeconds -> bars windowSeconds ts !! k = Some b -> t ∈ in_window windowSeconds k ts ->
  t_eventTimeUs t + windowSeconds * 1000000 < two63 ->
  w_windowStartUs b <= t_eventTimeUs t < w_windowEndUs b
  /\ w_windowEndUs b = w_windowStartUs b + windowSeconds * 1000000
  /\ w_windowStartUs b mod (windowSeconds * 1000000) = 0.
Proof.
  intros Hs Hb Ht Hbound. unfold bars in Hb. rewrite map_lookup_imap in Hb.
  destruct (accumulate windowSeconds ts !! k) as [agg|]; [|done]. cbn [mbind option_bind] in Hb.
  apply list_elem_of_filter in Ht as [[Hv <-] _]. unfold valid_trade in Hv. rewrite !andb_true_iff in Hv.
  destruct Hv as [[[Hpos%Z.ltb_lt _] _] _]. unfold process in Hb. destruct (count agg =? 0); [done|].
  destruct (match scala_split _ "|" with [] => _ | _ => _ end) as [venue symbol]. injection Hb as <-.
  cbn [toBar w_windowStartUs w_windowEndUs window_of fst snd]. unfold window_start, window_size, timestamp_ms.
  rewrite Z.quot_div_nonneg by lia. set (time := t_eventTimeUs t) in *.
  pose proof (Z.div_mod time 1000 ltac:(lia)). pose proof (Z.mod_pos_bound time 1000 ltac:(lia)).
  set (ms := time / 1000) in *. assert (0 <= ms) by (apply Z.div_pos; lia).
  pose proof (Z.div_mod ms (windowSeconds * 1000) ltac:(lia)) as Hd.
  pose proof (Z.mod_pos_bound ms (windowSeconds * 1000) ltac:(lia)).
  assert (0 <= ms / (windowSeconds * 1000)) as Hq by (apply Z.div_pos; lia).
  replace (ms - ms mod (windowSeconds * 1000)) with (windowSeconds * 1000 * (ms / (windowSeconds * 1000))) by lia.
  set (q := ms / (windowSeconds * 1000)) in *.
  rewrite !wrap64_id by (unfold int64, two63 in *; nia). split; [nia|]. split; [lia|].
  replace (windowSeconds * 1000 * q * 1000) with (q * (windowSeconds * 1000000)) by lia. apply Z.mod_mul. lia.
Qed.

(** ** Examples *)

Definition trade (p s time : Z) : Trade :=
  mkTrade "coinbase" "BTC-USD" "t" (f64_of_Z p) (f64_of_Z s) "BUY" time time 1.
Definition sample_trades : list Trade := [trade 150 1 5000; trade 100 1 1000; trade 200 1 9000; trade 175 1 1005000].

Lemma sample_unambiguous : unambiguous sample_trades.
Proof.
  intros t t' Ht Ht' E. unfold sample_trades in Ht, Ht'. rewrite !elem_of_cons, elem_of_nil in Ht, Ht'.
  destruct Ht as [->|[->|[->|[->|[]]]]], Ht' as [->|[->|[->|[->|[]]]]];
    match goal with |- ?p = ?p => reflexivity | _ => vm_compute in E; discriminate E end.
Qed.

Definition sample_figures (b : WindowBar) : float64 * float64 * Z := (w_open b, w_close b, w_tradeCount b).

Lemma replay_same_bars_witness :
  match bars 1 sample_trades !! ("coinbase|BTC-USD", 0), bars 1 (rev sample_trades) !! ("coinbase|BTC-USD", 0) with
  | Some b, Some b' => same_bar b b'
  | None, None => False
  | _, _ => False
  end
  /\ sample_figures <$> (bars 1 sample_trades !! ("coinbase|BTC-USD", 0)) = Some (f64_of_Z 100, f64_of_Z 200, 3).
Proof.
  assert (forall k, unambiguous (in_window 1 k sample_trades)) as Hu.
  { intros k t t' Ht Ht'. apply list_elem_of_filter in Ht as [_ Ht], Ht' as [_ Ht']. by apply sample_unambiguous. }
  assert (sample_figures <$> (bars 1 sample_trades !! ("coinbase|BTC-USD", 0)) = Some (f64_of_Z 100, f64_of_Z 200, 3))
    as Hb by (vm_compute; reflexivity).
  split; [|exact Hb].
  pose proof (replay_same_bars 1 sample_trades (rev sample_trades) (Permutation_rev _) Hu ("coinbase|BTC-USD", 0)) as Hr.
  revert Hr Hb. generalize (bars 1 sample_trades !! ("coinbase|BTC-USD", 0)).
  generalize (bars 1 (rev sample_trades) !! ("coinbase|BTC-USD", 0)).
  intros [b'|] [b|] Hr Hb; [apply Hr|exact Hr|exact Hr|discriminate Hb].
Defined.

(** The condition is needed: with two trades at one event time the close is the price of
    the one that arrives last, and [merge] prefers its left argument. *)
Theorem tie_changes_close :
  let a := trade 100 1 1000 in
  let b := trade 200 1 1000 in
  close (fold [a; b]) = f64_of_Z 200 /\ close (fold [b; a]) = f64_of_Z 100
  /\ close (merge (fold [a]) (fold [b])) = f64_of_Z 100 /\ close (merge (fold [b]) (fold [a])) = f64_of_Z 200.
Proof. vm_compute. auto. Qed.

(** And the order of the sums is visible, without any tie. *)
Theorem sum_order_visible :
  let t size time := mkTrade "coinbase" "BTC-USD" "t" (f64_of_Z 1) size "BUY" time time 1 in
  let a := t (f64 "0.1") 1000 in let b := t (f64 "0.2") 2000 in let c := t (f64 "0.3") 3000 in
  volume (fold [a; b; c]) <> volume (fold [c; b; a])
  /\ merge (merge (fold [a]) (fold [b])) (fold [c]) <> merge (fold [a]) (merge (fold [b]) (fold [c])).
Proof. split; intros E; apply (f_equal (fun x => x)) in E; vm_compute in E; discriminate E. Qed.
