(* ===== verification/Divergence.v ===== *)
(** * Stream tier: divergence between venues

    src/stream/src/main/scala/io/tapeline/stream: stats/RollingStats.scala,
    divergence/Divergence.scala, [DivergenceEvent] of model/Events.scala and the keyed
    operator of functions/DivergenceFunction.scala. Flink calls [processElement] for every
    quote with the state of its symbol; an execution is the sequence of quotes. A Scala
    map is [gmap]; where it is iterated, the order of its values is an argument. Venues
    are compared as ASCII text. *)

From S2P Require Import Prelude.
From S2P Require Import GoStrings.
From S2P Require Import GoStrconv.
From S2P Require Import TreeMap.
From S2P Require Import OrderBook.
From stdpp Require Import sorting.

Local Open Scope Z_scope.

(** ** RollingStats *)

Record RollingStats := mkStats { capacity : Z; values : list float64; sum : float64; sumSq : float64 }.

(** [RollingStats.empty], with the [require] of the constructor; a copy keeps the capacity. *)
Definition newStats (c : Z) : res RollingStats :=
  _ ← require (1 <? c) "capacity must be at least 2"; Ok (mkStats c [] f64_zero f64_zero).

Definition stats_count (s : RollingStats) : Z := Z.of_nat (length (values s)).
Definition isFull (s : RollingStats) : bool := capacity s <=? stats_count s.

Definition stats_add (s : RollingStats) (x : float64) : RollingStats :=
  if is_nan x || is_inf x then s
  else if stats_count s <? capacity s
  then mkStats (capacity s) (values s ++ [x]) (f64_add (sum s) x) (f64_add (sumSq s) (f64_mul x x))
  else match values s with
       | evicted :: tail =>
           mkStats (capacity s) (tail ++ [x]) (f64_add (f64_sub (sum s) evicted) x)
             (f64_add (f64_sub (sumSq s) (f64_mul evicted evicted)) (f64_mul x x))
       | [] => s   (* not reached: the capacity is positive *)
       end.

Definition mean (s : RollingStats) : float64 :=
  match values s with [] => S754_nan | _ => f64_div (sum s) (f64_of_Z (stats_count s)) end.

Definition f64_sqrt : float64 -> float64 := SFsqrt 53 1024.
Definition stddev (s : RollingStats) : float64 :=
  let n := stats_count s in
  if n <? 2 then S754_nan
  else
    let variance :=
      f64_div (f64_sub (sumSq s) (f64_div (f64_mul (sum s) (sum s)) (f64_of_Z n))) (f64_of_Z (n - 1)) in
    if f64_le variance f64_zero then f64_zero else f64_sqrt variance.

Definition zscore (s : RollingStats) (x : float64) : float64 :=
  let sd := stddev s in
  if is_nan sd then S754_nan
  else if SFeqb sd f64_zero then f64_zero
  else f64_div (f64_sub x (mean s)) sd.

Definition isWarm (s : RollingStats) (minObservations : Z) : bool := minObservations <=? stats_count s.

(** ** Divergence *)

Record Config := mkConfig {
  minDivergenceBps : float64; minZscore : float64; baselineWindow : Z; minObservations : Z; maxQuoteAgeUs : Z }.
Definition default_config : Config := mkConfig (f64_of_Z 5) (f64_of_Z 3) 600 30 5000000.

Abbreviation Baselines := (gmap (string * string) RollingStats).

Definition observe (byPair : Baselines) (pair : string * string) (bps : float64) (window : Z) : res Baselines :=
  stats ← match byPair !! pair with Some s => Ok s | None => newStats window end;
  Ok (<[pair := stats_add stats bps]> byPair).

Definition divergenceBps (a b : Quote) : float64 :=
  let midA := quote_mid a in
  let midB := quote_mid b in
  let reference := f64_div (f64_add midA midB) two in
  if f64_le reference f64_zero then S754_nan
  else f64_mul (f64_div (f64_sub midB midA) reference) (f64_of_Z 10000).

Definition canonicalPair (v1 v2 : string) : string * string :=
  if bool_decide (String.le v1 v2) then (v1, v2) else (v2, v1).

Record DivergenceEvent := mkDivergenceEvent {
  d_symbol : string; d_venueA : string; d_venueB : string; d_priceA : float64; d_priceB : float64;
  d_divergenceBps : float64; d_zscore : float64; d_windowStartUs : Z; d_eventTimeUs : Z }.

Definition is_fresh (cfg : Config) (nowUs : Z) (q : Quote) : bool :=
  isValid q && (wrap64 (nowUs - q_eventTimeUs q) <=? maxQuoteAgeUs cfg).
Definition venue_le (a b : Quote) : Prop := String.le (q_venue a) (q_venue b).
#[export] Instance venue_le_dec : RelDecision venue_le.
Proof. intros a b. unfold venue_le. apply _. Defined.

(** [quotes] are the values of the map in the order of its iteration. *)
Definition fresh_quotes (cfg : Config) (nowUs : Z) (quotes : list Quote) : list Quote :=
  merge_sort venue_le (List.filter (is_fresh cfg nowUs) quotes).

(** [(i, j)] with [i < j], in the order of [i] and then of [j]. *)
Fixpoint pairs_of (l : list Quote) : list (Quote * Quote) :=
  match l with
  | [] => []
  | a :: l' => map (pair a) l' ++ pairs_of l'
  end.

Section evaluate.
Context (cfg : Config) (symbol : string).

(** The body of [foldLeft]. *)
Definition eval_pair (acc : list DivergenceEvent * Baselines) (ab : Quote * Quote)
    : res (list DivergenceEvent * Baselines) :=
  let '(events, baselines) := acc in
  let '(a, b) := ab in
  let bps := divergenceBps a b in
  if is_nan bps then Ok acc
  else
    let pair := canonicalPair (q_venue a) (q_venue b) in
    let prior := baselines !! pair in
    let z := match prior with Some s => zscore s bps | None => S754_nan end in
    let warm := match prior with Some s => isWarm s (minObservations cfg) | None => false end in
    updated ← observe baselines pair bps (baselineWindow cfg);
    let fires := warm && f64_le (minDivergenceBps cfg) (SFabs bps) && negb (is_nan z)
                 && f64_le (minZscore cfg) (SFabs z) in
    Ok (if fires
        then (events ++ [mkDivergenceEvent symbol (q_venue a) (q_venue b) (quote_mid a) (quote_mid b) bps z
                           (Z.min (q_eventTimeUs a) (q_eventTimeUs b)) (Z.max (q_eventTimeUs a) (q_eventTimeUs b))],
              updated)
        else (events, updated)).

Fixpoint eval_pairs (acc : list DivergenceEvent * Baselines) (l : list (Quote * Quote))
    : res (list DivergenceEvent * Baselines) :=
  match l with
  | [] => Ok acc
  | ab :: l' => acc' ← eval_pair acc ab; eval_pairs acc' l'
  end.

Definition evaluate (quotes : list Quote) (baselines : Baselines) (nowUs : Z)
    : res (list DivergenceEvent * Baselines) :=
  let fresh := fresh_quotes cfg nowUs quotes in
  if (length fresh <? 2)%nat then Ok ([], baselines) else eval_pairs ([], baselines) (pairs_of fresh).
End evaluate.

(** ** DivergenceFunction *)

Record div_state := mkDivState { latestByVenue : gmap string Quote; st_baselines : option Baselines }.
Definition no_div_state : div_state := mkDivState ∅ None.
Record div_counters := mkDivCounters { evaluations : Z; alertsEmitted : Z }.
Record div_operator := mkDivOperator { div_keys : gmap string div_state; div_counts : div_counters }.
Definition new_div_operator : div_operator := mkDivOperator ∅ (mkDivCounters 0 0).
Definition div_state_of (o : div_operator) (key : string) : div_state := default no_div_state (div_keys o !! key).

(** The quotes of the map state, in some order. *)
Definition map_quotes (m : gmap string Quote) : list Quote := map snd (map_to_list m).

Definition processQuote (cfg : Config) (quote : Quote) (o : div_operator) : res (div_operator * list DivergenceEvent) :=
  let key := q_symbol quote in
  let st := div_state_of o key in
  let late := match latestByVenue st !! q_venue quote with
              | Some existing => q_eventTimeUs quote <? q_eventTimeUs existing
              | None => false
              end in
  if late then Ok (o, [])
  else
    let latest := <[q_venue quote := quote]> (latestByVenue st) in
    '(events, bl) ← evaluate cfg key (map_quotes latest) (default ∅ (st_baselines st)) (q_eventTimeUs quote);
    Ok (mkDivOperator (<[key := mkDivState latest (Some bl)]> (div_keys o))
          (mkDivCounters (evaluations (div_counts o) + 1) (alertsEmitted (div_counts o) + Z.of_nat (length events))),
        events).

Fixpoint div_run_from (cfg : Config) (o : div_operator) (ins : list Quote) : res (div_operator * list DivergenceEvent) :=
  match ins with
  | [] => Ok (o, [])
  | q :: ins' =>
      '(o1, out1) ← processQuote cfg q o;
      '(o2, out2) ← div_run_from cfg o1 ins';
      Ok (o2, out1 ++ out2)
  end.
Definition div_run (cfg : Config) : list Quote -> res (div_operator * list DivergenceEvent) :=
  div_run_from cfg new_div_operator.

(** ** Specification *)

Section spec.
Context (cfg : Config).

Definition finite (x : float64) : bool := negb (is_nan x || is_inf x).

(** The latest quote of a venue: the greatest event time, and of those the last arrival. *)
Definition newer (o : option Quote) (q : Quote) : option Quote :=
  match o with
  | Some p => if q_eventTimeUs q <? q_eventTimeUs p then Some p else Some q
  | None => Some q
  end.
Definition latest_of (symbol venue : string) (ins : list Quote) : option Quote :=
  fold_left (fun o q => if String.eqb (q_symbol q) symbol && String.eqb (q_venue q) venue then newer o q else o) ins None.

(** A quote that is not late. *)
Definition accepted (pre : list Quote) (q : Quote) : bool :=
  match latest_of (q_symbol q) (q_venue q) pre with
  | Some p => q_eventTimeUs p <=? q_eventTimeUs q
  | None => true
  end.

(** Whether two quotes raise an alert against what the pair has shown before. *)
Definition judge (symbol : string) (prior : option RollingStats) (a b : Quote) : option DivergenceEvent :=
  let bps := divergenceBps a b in
  s ← prior;
  let z := zscore s bps in
  if negb (is_nan bps) && isWarm s (minObservations cfg) && f64_le (minDivergenceBps cfg) (SFabs bps)
     && negb (is_nan z) && f64_le (minZscore cfg) (SFabs z)
  then Some (mkDivergenceEvent symbol (q_venue a) (q_venue b) (quote_mid a) (quote_mid b) bps z
               (Z.min (q_eventTimeUs a) (q_eventTimeUs b)) (Z.max (q_eventTimeUs a) (q_eventTimeUs b)))
  else None.

(** What the arrival of [q] shows of two venues. *)
Definition compared (symbol v1 v2 : string) (pre : list Quote) (q : Quote) : option (Quote * Quote) :=
  if String.eqb (q_symbol q) symbol && accepted pre q then
    a ← latest_of symbol v1 (pre ++ [q]);
    b ← latest_of symbol v2 (pre ++ [q]);
    if is_fresh cfg (q_eventTimeUs q) a && is_fresh cfg (q_eventTimeUs q) b then Some (a, b) else None
  else None.
Fixpoint observed_from (symbol v1 v2 : string) (pre ins : list Quote) : list float64 :=
  match ins with
  | [] => []
  | q :: ins' =>
      match compared symbol v1 v2 pre q with
      | Some (a, b) => if is_nan (divergenceBps a b) then [] else [divergenceBps a b]
      | None => []
      end ++ observed_from symbol v1 v2 (pre ++ [q]) ins'
  end.
Definition observed (symbol v1 v2 : string) (ins : list Quote) : list float64 := observed_from symbol v1 v2 [] ins.

(** The baseline of what has been observed. *)
Definition no_stats : RollingStats := mkStats (baselineWindow cfg) [] f64_zero f64_zero.
Definition baseline (obs : list float64) : option RollingStats :=
  match obs with [] => None | _ => Some (fold_left stats_add obs no_stats) end.
End spec.

(** ** Lemmas: the rolling window *)

Lemma stats_add_values s x : 1 < capacity s -> stats_count s <= capacity s ->
  let s' := stats_add s x in
  capacity s' = capacity s /\ stats_count s' <= capacity s'
  /\ values s' = if finite x then drop (length (values s) + 1 - Z.to_nat (capacity s)) (values s ++ [x]) else values s.
Proof.
  intros Hc Hn. cbn zeta. unfold stats_add, finite, stats_count in *. destruct (is_nan x || is_inf x); [done|].
  destruct (Z.ltb_spec (Z.of_nat (length (values s))) (capacity s)) as [Hlt|Hge]; cbn [capacity values negb].
  - rewrite length_app. cbn [length]. split; [done|]. split; [lia|].
    by replace (length (values s) + 1 - Z.to_nat (capacity s))%nat with 0%nat by lia.
  - destruct (values s) as [|y l] eqn:E; cbn [length] in *; [lia|]. cbn [capacity values]. rewrite length_app. cbn [length].
    split; [done|]. split; [lia|]. by replace (S (length l) + 1 - Z.to_nat (capacity s))%nat with 1%nat by lia.
Qed.

(** The window holds the last finite observations. *)
Lemma rolling_window c xs : 1 < c ->
  let s := fold_left stats_add xs (mkStats c [] f64_zero f64_zero) in
  let l := List.filter finite xs in
  capacity s = c /\ values s = drop (length l - Z.to_nat c) l.
Proof.
  intros Hc. cbn zeta.
  assert (let s := fold_left stats_add xs (mkStats c [] f64_zero f64_zero) in
          let l := List.filter finite xs in
          capacity s = c /\ stats_count s <= c /\ values s = drop (length l - Z.to_nat c) l) as (? & _ & ?); [|done].
  induction xs as [|x xs IH] using rev_ind; [split; [done|]; split; [unfold stats_count; cbn; lia|done]|]. cbn zeta in *. destruct IH as (Hcap & Hn & Hv).
  rewrite fold_left_app, List.filter_app. cbn [fold_left List.filter].
  set (s := fold_left stats_add xs _) in *. set (l := List.filter finite xs) in *.
  destruct (stats_add_values s x) as (Hcap' & Hn' & Hv'); [lia|lia|]. split; [lia|]. split; [lia|].
  rewrite Hv', Hcap. destruct (finite x); [|by rewrite Hv, app_nil_r].
  rewrite Hv, length_app, length_drop. cbn [length].
  destruct (Nat.le_gt_cases (length l) (Z.to_nat c)).
  - replace (length l - Z.to_nat c)%nat with 0%nat by lia. rewrite drop_0. do 2 f_equal; lia.
  - rewrite <- drop_app_le by lia. rewrite drop_drop. f_equal. lia.
Qed.

(** ** Lemmas: pairs of venues *)

#[export] Instance venue_le_trans : Transitive venue_le.
Proof. intros a b c. unfold venue_le. apply transitivity. Qed.
#[export] Instance venue_le_total : Total venue_le.
Proof. intros a b. unfold venue_le. apply total, _. Qed.

(** The venues of a pair, the smaller first. *)
Definition venues_of (ab : Quote * Quote) : string * string := (q_venue ab.1, q_venue ab.2).
Definition before_venue (v1 v2 : string) : Prop := String.le v1 v2 /\ v1 <> v2.

Lemma pairs_of_sorted l : StronglySorted venue_le l -> NoDup (map q_venue l) -> forall a b,
  (a, b) ∈ pairs_of l <-> a ∈ l /\ b ∈ l /\ before_venue (q_venue a) (q_venue b).
Proof.
  induction l as [|x l IH]; intros Hs Hn a b; [split; [by intros ?%elem_of_nil|by intros [?%elem_of_nil _]]|].
  inversion_clear Hs as [|? ? Hs' Hx]. cbn [map] in Hn. apply NoDup_cons in Hn as [Hnx Hn].
  rewrite Forall_forall in Hx. cbn [pairs_of]. rewrite elem_of_app, (IH Hs' Hn), !elem_of_cons.
  assert (forall y, y ∈ l -> q_venue y <> q_venue x) as Hne by (intros y Hy E; apply Hnx; rewrite <- E; by apply list_elem_of_fmap_2).
  rewrite list_elem_of_fmap. split.
  - intros [(y & [= -> ->] & Hy)|(Ha & Hb & Hlt)]; [|tauto]. split; [by left|]. split; [by right|].
    split; [by apply Hx|]. intros E. by apply (Hne y Hy).
  - intros ([->|Ha] & [->|Hb] & Hle & Hneq); [done| | |].
    + left. by exists b.
    + exfalso. apply (Hne a Ha). apply (anti_symm String.le); [done|]. by apply Hx.
    + by right.
Qed.

Lemma pairs_of_keys l : NoDup (map q_venue l) -> NoDup (map venues_of (pairs_of l)).
Proof.
  induction l as [|x l IH]; intros Hn; [constructor|]. cbn [map] in Hn. apply NoDup_cons in Hn as [Hx Hn].
  cbn [pairs_of]. rewrite map_app, map_map. apply NoDup_app. split; [|split; [|by apply IH]].
  - cbn. change (fun y => venues_of (x, y)) with (fun y => (q_venue x, q_venue y)).
    rewrite <- (map_map q_venue (pair (q_venue x))). apply NoDup_fmap; [|done]. by intros ? ? [= ->].
  - intros k Hk Hk'. apply list_elem_of_fmap in Hk as (y & -> & Hy), Hk' as ([a b] & E & Hab).
    injection E as Ea Eb. apply Hx. cbn [fst] in Ea. rewrite Ea.
    clear -Hab. induction l as [|z l IH]; [by apply elem_of_nil in Hab|]. cbn [pairs_of map] in *.
    apply elem_of_app in Hab as [Hab|Hab]; [|apply elem_of_cons; right; by apply IH].
    apply list_elem_of_fmap in Hab as (w & [= -> ->] & _). apply list_elem_of_here.
Qed.

Section evaluate.
Context (cfg : Config) (symbol : string) (Hwindow : 1 < baselineWindow cfg).

Definition absorb (bl : Baselines) (ab : Quote * Quote) : Baselines :=
  let bps := divergenceBps ab.1 ab.2 in
  if is_nan bps then bl else <[venues_of ab := stats_add (default (no_stats cfg) (bl !! venues_of ab)) bps]> bl.

Lemma eval_pair_spec evs bl ab : before_venue (q_venue ab.1) (q_venue ab.2) ->
  eval_pair cfg symbol (evs, bl) ab =
    Ok (evs ++ option_list (judge cfg symbol (bl !! venues_of ab) ab.1 ab.2), absorb bl ab).
Proof.
  destruct ab as [a b]. intros [Hle _]. unfold eval_pair, judge, absorb, canonicalPair. cbn [fst snd] in *.
  rewrite bool_decide_eq_true_2 by done. change (q_venue a, q_venue b) with (venues_of (a, b)).
  destruct (is_nan (divergenceBps a b)) eqn:Hnan; cbn [negb andb];
    [by destruct (bl !! venues_of (a, b)); cbn; rewrite app_nil_r|].
  unfold observe. destruct (bl !! venues_of (a, b)) as [s|] eqn:Hs; cbn [mbind res_bind option_bind default].
  - by destruct (isWarm s _ && _ && _ && _); cbn; rewrite ?app_nil_r.
  - unfold newStats, require. destruct (Z.ltb_spec 1 (baselineWindow cfg)); [|lia]. cbn. by rewrite app_nil_r.
Qed.

Lemma absorb_other bl ab k : venues_of ab <> k -> absorb bl ab !! k = bl !! k.
Proof. intros Hk. unfold absorb. destruct (is_nan _); [done|]. by rewrite lookup_insert_ne. Qed.

Lemma eval_pairs_spec l : forall evs bl,
  Forall (fun ab => before_venue (q_venue ab.1) (q_venue ab.2)) l -> NoDup (map venues_of l) ->
  eval_pairs cfg symbol (evs, bl) l =
    Ok (evs ++ omap (fun ab => judge cfg symbol (bl !! venues_of ab) ab.1 ab.2) l, fold_left absorb l bl).
Proof.
  induction l as [|ab l IH]; intros evs bl Hf Hn; cbn [eval_pairs omap list_omap fold_left]; [by rewrite app_nil_r|].
  apply Forall_cons in Hf as [Hab Hf]. cbn [map] in Hn. apply NoDup_cons in Hn as [Hk Hn].
  rewrite eval_pair_spec by done. cbn [mbind res_bind]. rewrite IH by done. f_equal. f_equal.
  rewrite <- app_assoc. f_equal.
  assert (omap (fun ab0 => judge cfg symbol (absorb bl ab !! venues_of ab0) ab0.1 ab0.2) l
          = omap (fun ab0 => judge cfg symbol (bl !! venues_of ab0) ab0.1 ab0.2) l) as ->.
  { apply list_omap_ext, Forall_Forall2_diag, Forall_forall. intros ab0 Hin. rewrite absorb_other; [done|]. intros E. apply Hk. rewrite E.
    by apply list_elem_of_fmap_2. }
  by destruct (judge _ _ _ _ _).
Qed.

Lemma fold_absorb_other l : forall bl k, k ∉ map venues_of l -> fold_left absorb l bl !! k = bl !! k.
Proof.
  induction l as [|ab l IH]; intros bl k Hk; [done|]. cbn [map fold_left] in *. rewrite not_elem_of_cons in Hk.
  destruct Hk as [Hne Hk]. rewrite IH by done. apply absorb_other. congruence.
Qed.
Lemma fold_absorb_in l ab : forall bl, ab ∈ l -> NoDup (map venues_of l) ->
  fold_left absorb l bl !! venues_of ab =
    if is_nan (divergenceBps ab.1 ab.2) then bl !! venues_of ab
    else Some (stats_add (default (no_stats cfg) (bl !! venues_of ab)) (divergenceBps ab.1 ab.2)).
Proof.
  induction l as [|x l IH]; intros bl Hin Hn; [by apply elem_of_nil in Hin|].
  cbn [map fold_left] in *. apply NoDup_cons in Hn as [Hx Hn]. apply elem_of_cons in Hin as [->|Hin].
  - rewrite fold_absorb_other by done. unfold absorb. destruct (is_nan _); [done|]. by rewrite lookup_insert_eq.
  - rewrite IH by done. rewrite absorb_other; [done|]. intros E. apply Hx. rewrite E. by apply list_elem_of_fmap_2.
Qed.
End evaluate.

(** ** Lemmas: one evaluation *)

Lemma elem_of_filter_bool {A} (f : A -> bool) l x : x ∈ List.filter f l <-> x ∈ l /\ f x = true.
Proof. by rewrite !list_elem_of_In, filter_In. Qed.

Lemma fresh_quotes_in cfg now quotes q : q ∈ fresh_quotes cfg now quotes <-> q ∈ quotes /\ is_fresh cfg now q = true.
Proof. unfold fresh_quotes. by rewrite merge_sort_Permutation, elem_of_filter_bool. Qed.

Lemma fresh_quotes_sorted cfg now quotes : StronglySorted venue_le (fresh_quotes cfg now quotes).
Proof. apply StronglySorted_merge_sort; apply _. Qed.

Lemma NoDup_map_filter {A B} (f : A -> B) (p : A -> bool) l : NoDup (map f l) -> NoDup (map f (List.filter p l)).
Proof.
  induction l as [|x l IH]; [done|]. cbn [map List.filter]. intros [Hx Hn]%NoDup_cons.
  destruct (p x); cbn [map]; [|by apply IH]. apply NoDup_cons. split; [|by apply IH].
  intros Hin. apply Hx. apply list_elem_of_fmap in Hin as (y & -> & Hy). apply list_elem_of_fmap_2.
  by apply elem_of_filter_bool in Hy as [].
Qed.

Lemma fresh_quotes_nodup cfg now quotes : NoDup (map q_venue quotes) -> NoDup (map q_venue (fresh_quotes cfg now quotes)).
Proof.
  intros Hn. unfold fresh_quotes.
  rewrite (fmap_Permutation q_venue _ _ (merge_sort_Permutation venue_le _)). by apply NoDup_map_filter.
Qed.

(** The pairs that are compared: the order of the quotes does not matter. *)
Lemma fresh_pairs cfg now quotes a b : NoDup (map q_venue quotes) ->
  (a, b) ∈ pairs_of (fresh_quotes cfg now quotes) <->
  (a ∈ quotes /\ is_fresh cfg now a = true) /\ (b ∈ quotes /\ is_fresh cfg now b = true)
  /\ before_venue (q_venue a) (q_venue b).
Proof.
  intros Hn. rewrite (pairs_of_sorted _ (fresh_quotes_sorted cfg now quotes) (fresh_quotes_nodup cfg now quotes Hn)).
  by rewrite !fresh_quotes_in.
Qed.

Lemma evaluate_spec cfg symbol quotes bl now : 1 < baselineWindow cfg -> NoDup (map q_venue quotes) ->
  let l := pairs_of (fresh_quotes cfg now quotes) in
  evaluate cfg symbol quotes bl now =
    Ok (omap (fun ab => judge cfg symbol (bl !! venues_of ab) ab.1 ab.2) l, fold_left (absorb cfg) l bl).
Proof.
  intros Hw Hn. cbn zeta. unfold evaluate. set (fresh := fresh_quotes cfg now quotes).
  assert (eval_pairs cfg symbol ([], bl) (pairs_of fresh) =
    Ok (omap (fun ab => judge cfg symbol (bl !! venues_of ab) ab.1 ab.2) (pairs_of fresh),
        fold_left (absorb cfg) (pairs_of fresh) bl)) as E.
  { rewrite eval_pairs_spec; [done|done| |].
    - apply Forall_forall. intros [a b] Hab. by apply (fresh_pairs cfg now quotes a b Hn) in Hab as (_ & _ & ?).
    - by apply pairs_of_keys, fresh_quotes_nodup. }
  clearbody fresh. destruct fresh as [|x [|y l]]; [done|done|exact E].
Qed.

(** ** Lemmas: the map of a symbol *)

Definition venues_ok (m : gmap string Quote) : Prop := forall v q, m !! v = Some q -> q_venue q = v.

Lemma map_quotes_nodup m : venues_ok m -> NoDup (map q_venue (map_quotes m)).
Proof.
  intros Hok. unfold map_quotes. rewrite map_map.
  assert (map (fun kv => q_venue kv.2) (map_to_list m) = map fst (map_to_list m)) as ->; [|apply NoDup_fst_map_to_list].
  apply map_ext_in. intros [v q] Hin. apply Hok. by apply list_elem_of_In, elem_of_map_to_list in Hin.
Qed.
Lemma map_quotes_in m q : venues_ok m -> q ∈ map_quotes m <-> m !! q_venue q = Some q.
Proof.
  intros Hok. unfold map_quotes. rewrite list_elem_of_fmap. split.
  - intros ([v q'] & -> & Hin%elem_of_map_to_list). cbn. by rewrite (Hok v q' Hin).
  - intros Hq. exists (q_venue q, q). by rewrite elem_of_map_to_list.
Qed.

Lemma latest_of_snoc symbol venue ins q : latest_of symbol venue (ins ++ [q]) =
  if String.eqb (q_symbol q) symbol && String.eqb (q_venue q) venue then newer (latest_of symbol venue ins) q
  else latest_of symbol venue ins.
Proof. unfold latest_of. by rewrite fold_left_app. Qed.

Lemma latest_of_venue symbol venue ins q : latest_of symbol venue ins = Some q -> q_venue q = venue /\ q_symbol q = symbol.
Proof.
  revert q. induction ins as [|x ins IH] using rev_ind; intros q; [done|]. rewrite latest_of_snoc.
  destruct (String.eqb_spec (q_symbol x) symbol), (String.eqb_spec (q_venue x) venue); cbn [andb]; [|apply IH..].
  unfold newer. destruct (latest_of symbol venue ins) as [p|]; [|by intros [= <-]].
  destruct (_ <? _); intros [= <-]; [by apply IH|done].
Qed.

Lemma observed_from_app cfg symbol v1 v2 ins ins' : forall pre,
  observed_from cfg symbol v1 v2 pre (ins ++ ins') =
    observed_from cfg symbol v1 v2 pre ins ++ observed_from cfg symbol v1 v2 (pre ++ ins) ins'.
Proof.
  induction ins as [|q ins IH]; intros pre; cbn [app observed_from]; [by rewrite app_nil_r|].
  by rewrite IH, <- !app_assoc.
Qed.

Lemma baseline_snoc cfg obs x : baseline cfg (obs ++ [x]) = Some (stats_add (default (no_stats cfg) (baseline cfg obs)) x).
Proof. unfold baseline. destruct obs as [|y obs]; [done|]. cbn [app default]. by rewrite app_comm_cons, fold_left_app. Qed.

(** ** Lemmas: executions *)

Section executions.
Context (cfg : Config) (Hwindow : 1 < baselineWindow cfg).

(** The alert that the arrival of [q] raises for two venues. *)
Definition raises (pre : list Quote) (q : Quote) (v1 v2 : string) (ev : DivergenceEvent) : Prop :=
  exists a b, before_venue v1 v2 /\ compared cfg (q_symbol q) v1 v2 pre q = Some (a, b)
    /\ judge cfg (q_symbol q) (baseline cfg (observed cfg (q_symbol q) v1 v2 pre)) a b = Some ev.

Record div_inv (ins : list Quote) (o : div_operator) (outs : list DivergenceEvent) : Prop := {
  di_latest : forall symbol venue, latestByVenue (div_state_of o symbol) !! venue = latest_of symbol venue ins;
  di_baselines : forall symbol v1 v2, before_venue v1 v2 ->
    default ∅ (st_baselines (div_state_of o symbol)) !! (v1, v2) = baseline cfg (observed cfg symbol v1 v2 ins);
  di_events : forall ev, ev ∈ outs <-> exists pre q post v1 v2, ins = pre ++ q :: post /\ raises pre q v1 v2 ev }.

Lemma div_state_of_set o key st c symbol :
  div_state_of (mkDivOperator (<[key := st]> (div_keys o)) c) symbol = if decide (symbol = key) then st else div_state_of o symbol.
Proof.
  unfold div_state_of. cbn [div_keys]. destruct (decide (symbol = key)) as [->|Hne]; [by rewrite lookup_insert_eq|].
  by rewrite lookup_insert_ne.
Qed.

Lemma observed_snoc symbol v1 v2 ins q : observed cfg symbol v1 v2 (ins ++ [q]) =
  observed cfg symbol v1 v2 ins ++
  match compared cfg symbol v1 v2 ins q with
  | Some (a, b) => if is_nan (divergenceBps a b) then [] else [divergenceBps a b]
  | None => []
  end.
Proof. unfold observed. rewrite observed_from_app. cbn [observed_from app]. by rewrite app_nil_r. Qed.

Lemma raises_snoc ins q (ev : DivergenceEvent) :
  (exists pre q' post v1 v2, ins ++ [q] = pre ++ q' :: post /\ raises pre q' v1 v2 ev)
  <-> (exists pre q' post v1 v2, ins = pre ++ q' :: post /\ raises pre q' v1 v2 ev)
      \/ (exists v1 v2, raises ins q v1 v2 ev).
Proof.
  split.
  - intros (pre & q' & post & v1 & v2 & E & Hr). destruct post as [|x post _] using rev_ind.
    + apply app_inj_tail in E as [-> ->]. right. by exists v1, v2.
    + rewrite app_comm_cons, app_assoc in E. apply app_inj_tail in E as [-> _]. left. by exists pre, q', post, v1, v2.
  - intros [(pre & q' & post & v1 & v2 & -> & Hr)|(v1 & v2 & Hr)].
    + exists pre, q', (post ++ [q]), v1, v2. split; [|done]. by rewrite <- app_assoc.
    + by exists ins, q, [], v1, v2.
Qed.

(** The values of the map after an accepted quote. *)
Definition held (m : gmap string Quote) (symbol : string) (ins : list Quote) : Prop :=
  forall venue, m !! venue = latest_of symbol venue ins.

Lemma held_venues m symbol ins : held m symbol ins -> venues_ok m.
Proof. intros Hm v q Hq. rewrite Hm in Hq. by apply latest_of_venue in Hq as []. Qed.

Lemma compared_pair m ins q v1 v2 a b : held m (q_symbol q) (ins ++ [q]) -> accepted ins q = true ->
  before_venue v1 v2 ->
  compared cfg (q_symbol q) v1 v2 ins q = Some (a, b) <->
  (a, b) ∈ pairs_of (fresh_quotes cfg (q_eventTimeUs q) (map_quotes m)) /\ venues_of (a, b) = (v1, v2).
Proof.
  intros Hm Hacc Hv. pose proof (held_venues _ _ _ Hm) as Hok.
  rewrite (fresh_pairs cfg (q_eventTimeUs q) _ a b (map_quotes_nodup m Hok)), !map_quotes_in by done.
  unfold compared, venues_of. rewrite String.eqb_refl, Hacc, <- !Hm. cbn [andb fst snd]. split.
  - destruct (m !! v1) as [a'|] eqn:Ha; [|done]. destruct (m !! v2) as [b'|] eqn:Hb; [|done]. cbn [mbind option_bind].
    destruct (is_fresh _ _ a') eqn:Hfa; [|done]. destruct (is_fresh _ _ b') eqn:Hfb; [|done]. intros [= -> ->].
    by rewrite (Hok _ _ Ha), (Hok _ _ Hb).
  - intros [((Ha & Hfa) & (Hb & Hfb) & _) [= <- <-]]. rewrite Ha, Hb. cbn [mbind option_bind]. by rewrite Hfa, Hfb.
Qed.

Lemma process_step ins o outs q : div_inv ins o outs ->
  exists o' out, processQuote cfg q o = Ok (o', out) /\ div_inv (ins ++ [q]) o' (outs ++ out).
Proof.
  intros [Hl Hb He]. unfold processQuote. set (key := q_symbol q). cbn zeta.
  rewrite (Hl key (q_venue q)). set (st := div_state_of o key).
  assert (match latest_of key (q_venue q) ins with
          | Some existing => q_eventTimeUs q <? q_eventTimeUs existing | None => false end
          = negb (accepted ins q)) as ->.
  { unfold accepted. fold key. destruct (latest_of key (q_venue q) ins); [|done]. by rewrite Z.ltb_antisym. }
  destruct (accepted ins q) eqn:Hacc; cbn [negb].
  2: { assert (forall symbol v1 v2, compared cfg symbol v1 v2 ins q = None) as Hno
         by (intros; unfold compared; by rewrite Hacc, andb_false_r).
       eexists _, _. split; [done|]. rewrite app_nil_r. split.
       - intros symbol venue. rewrite Hl, latest_of_snoc. destruct (String.eqb_spec (q_symbol q) symbol) as [<-|]; [|done].
         destruct (String.eqb_spec (q_venue q) venue) as [<-|]; [|done]. cbn [andb]. unfold accepted in Hacc. fold key in Hacc |- *.
         destruct (latest_of key (q_venue q) ins) as [p|]; [|done]. cbn [newer]. by rewrite Z.ltb_antisym, Hacc.
       - intros symbol v1 v2 Hv. by rewrite Hb, observed_snoc, Hno, app_nil_r.
       - intros ev. rewrite raises_snoc, He. split; [by left|]. intros [?|(v1 & v2 & a & b & _ & Hc & _)]; [done|].
         by rewrite Hno in Hc. }
  set (latest := <[q_venue q := q]> (latestByVenue st)).
  assert (held latest key (ins ++ [q])) as Hheld.
  { intros venue. rewrite latest_of_snoc. unfold key at 1. rewrite String.eqb_refl. cbn [andb]. unfold latest.
    destruct (String.eqb_spec (q_venue q) venue) as [<-|Hne]; [|rewrite lookup_insert_ne by done; apply Hl].
    rewrite lookup_insert_eq. unfold accepted in Hacc. fold key in Hacc.
    destruct (latest_of key (q_venue q) ins) as [p|]; cbn [newer]; [|done]. by rewrite Z.ltb_antisym, Hacc. }
  pose proof (map_quotes_nodup latest (held_venues _ _ _ Hheld)) as Hn.
  rewrite (evaluate_spec cfg key (map_quotes latest) _ _ Hwindow Hn). cbn [mbind res_bind].
  set (l := pairs_of _). set (bl := default ∅ (st_baselines st)).
  eexists _, _. split; [done|].
  assert (forall a b, (a, b) ∈ l -> before_venue (q_venue a) (q_venue b)) as Hlt
    by (intros a b Hab; by apply (fresh_pairs _ _ _ a b Hn) in Hab as (_ & _ & ?)).
  split.
  - intros symbol venue. rewrite div_state_of_set. destruct (decide (symbol = key)) as [->|Hne]; [apply Hheld|].
    rewrite Hl, latest_of_snoc. destruct (String.eqb_spec (q_symbol q) symbol); [by destruct Hne|done].
  - intros symbol v1 v2 Hv. rewrite div_state_of_set, observed_snoc. destruct (decide (symbol = key)) as [->|Hne].
    2: { unfold compared. destruct (String.eqb_spec (q_symbol q) symbol); [by destruct Hne|]. cbn [andb]. by rewrite app_nil_r, Hb. }
    cbn [st_baselines default]. unfold id. specialize (Hb key v1 v2 Hv). fold st bl in Hb.
    destruct (compared cfg key v1 v2 ins q) as [[a b]|] eqn:Hc.
    + apply (compared_pair latest ins q v1 v2 a b Hheld Hacc Hv) in Hc as [Hin Hk].
      rewrite <- Hk.
      rewrite (fold_absorb_in cfg l (a, b)) by (done || by apply pairs_of_keys, fresh_quotes_nodup).
      rewrite Hk, Hb. cbn [fst snd]. destruct (is_nan _); [by rewrite app_nil_r|]. by rewrite baseline_snoc.
    + rewrite app_nil_r, <- Hb. apply fold_absorb_other. intros Hin.
      apply list_elem_of_fmap in Hin as ([a b] & Hk & Hin). symmetry in Hk.
      assert (compared cfg key v1 v2 ins q = Some (a, b)) by (by apply (compared_pair latest)). congruence.
  - intros ev. rewrite elem_of_app, He, raises_snoc, list_elem_of_omap. apply or_iff_compat_l. split.
    + intros ([a b] & Hin & Hj). exists (q_venue a), (q_venue b), a, b. pose proof (Hlt a b Hin) as Hv. split; [done|].
      split; [by apply (compared_pair latest)|]. rewrite <- Hb by done. exact Hj.
    + intros (v1 & v2 & a & b & Hv & Hc & Hj). apply (compared_pair latest ins q v1 v2 a b Hheld Hacc Hv) in Hc as [Hin Hk].
      exists (a, b). split; [done|]. rewrite Hk. cbn [fst snd]. rewrite <- Hb in Hj by done. exact Hj.
Qed.
End executions.

Lemma div_run_snoc cfg ins q :
  div_run cfg (ins ++ [q]) = ('(o, out) ← div_run cfg ins; '(o', out') ← processQuote cfg q o; Ok (o', out ++ out')).
Proof.
  unfold div_run. generalize new_div_operator as o0.
  induction ins as [|j ins IH]; intros o0; cbn [app div_run_from mbind res_bind].
  - destruct (processQuote cfg q o0) as [[o1 out1]| |]; cbn; [|done..]. by rewrite app_nil_r.
  - destruct (processQuote cfg j o0) as [[o1 out1]| |]; cbn [mbind res_bind]; [|done..]. rewrite IH.
    destruct (div_run_from cfg o1 ins) as [[o2 out2]| |]; cbn [mbind res_bind]; [|done..].
    destruct (processQuote cfg q o2) as [[o3 out3]| |]; cbn [mbind res_bind]; [|done..]. by rewrite app_assoc.
Qed.

Lemma div_run_inv cfg ins : 1 < baselineWindow cfg ->
  exists o outs, div_run cfg ins = Ok (o, outs) /\ div_inv cfg ins o outs.
Proof.
  intros Hw. induction ins as [|q ins (o & outs & E & Hinv)] using rev_ind.
  - exists new_div_operator, []. split; [done|]. split; [done|done|]. intros ev. split; [by intros ?%elem_of_nil|].
    intros (pre & q & post & v1 & v2 & E & _). by destruct pre.
  - destruct (process_step cfg Hw ins o outs q Hinv) as (o' & out & E' & Hinv').
    exists o', (outs ++ out). split; [|done]. rewrite div_run_snoc, E. cbn [mbind res_bind]. by rewrite E'.
Qed.

(** ** Properties *)

(** C20. The detector is a function of the history. Whatever quotes of whatever symbols and
    venues arrive, the operator does not fail; it holds for every venue the quote with the
    greatest event time, the last arrival among equals; the baseline of a pair is the
    rolling statistics of the divergences the pair has shown, whose window is the last
    [baselineWindow] finite ones; and the alerts are exactly those that an accepted quote
    raises for two venues whose latest quotes are valid and not too old for it, judged
    against the baseline as it was before that quote. *)
Theorem detector_is_history (cfg : Config) (ins : list Quote) :
  1 < baselineWindow cfg ->
  exists o outs, div_run cfg ins = Ok (o, outs)
    /\ (forall symbol venue, latestByVenue (div_state_of o symbol) !! venue = latest_of symbol venue ins)
    /\ (forall symbol v1 v2, before_venue v1 v2 ->
          let obs := observed cfg symbol v1 v2 ins in
          default ∅ (st_baselines (div_state_of o symbol)) !! (v1, v2) = baseline cfg obs
          /\ forall s, baseline cfg obs = Some s ->
               let l := List.filter finite obs in values s = drop (length l - Z.to_nat (baselineWindow cfg)) l)
    /\ (forall ev, ev ∈ outs <-> exists pre q post v1 v2, ins = pre ++ q :: post /\ raises cfg pre q v1 v2 ev).
Proof.
  intros Hw. destruct (div_run_inv cfg ins Hw) as (o & outs & E & [Hl Hb He]). exists o, outs.
  split; [done|]. split; [done|]. split; [|done]. intros symbol v1 v2 Hv. cbn zeta. split; [by apply Hb|].
  unfold baseline. destruct (observed cfg symbol v1 v2 ins) as [|x obs]; [done|]. intros s [= <-].
  apply (rolling_window _ (x :: obs) Hw).
Qed.

Lemma filter_bool_perm {A} (f : A -> bool) l l' : l ≡ₚ l' -> List.filter f l ≡ₚ List.filter f l'.
Proof.
  induction 1 as [|x l l' _ IH|x y l|l l1 l2 _ IH1 _ IH2]; cbn; [done| | |by etransitivity].
  - destruct (f x); by rewrite IH.
  - destruct (f x), (f y); try done. apply Permutation_swap.
Qed.

(** The order in which the map yields its quotes does not matter. *)
Theorem iteration_order_irrelevant cfg symbol quotes quotes' bl now :
  quotes ≡ₚ quotes' -> NoDup (map q_venue quotes) ->
  evaluate cfg symbol quotes bl now = evaluate cfg symbol quotes' bl now.
Proof.
  intros Hp Hn. unfold evaluate. assert (fresh_quotes cfg now quotes = fresh_quotes cfg now quotes') as ->; [|done].
  apply (StronglySorted_unique_strong venue_le); [|apply fresh_quotes_sorted..|].
  - intros a b [Ha _]%fresh_quotes_in [Hb _]%fresh_quotes_in Hab Hba. rewrite <- Hp in Hb.
    assert (q_venue a = q_venue b) as E by (by apply (anti_symm String.le)).
    clear -Hn Ha Hb E. induction quotes as [|x l IH]; [by apply elem_of_nil in Ha|].
    cbn [map] in Hn. apply NoDup_cons in Hn as [Hx Hn].
    apply elem_of_cons in Ha as [->|Ha], Hb as [->|Hb]; [done| | |by apply IH].
    + destruct Hx. rewrite E. by apply list_elem_of_fmap_2.
    + destruct Hx. rewrite <- E. by apply list_elem_of_fmap_2.
  - unfold fresh_quotes. rewrite !merge_sort_Permutation. by apply filter_bool_perm.
Qed.

(** ** Examples *)

Definition quote_at (venue : string) (bid time : Z) : Quote :=
  mkQuote venue "BTC-USD" (f64_of_Z bid) (f64_of_Z 1) (f64_of_Z (bid + 2)) (f64_of_Z 1) f64_zero time time.
Definition small_config : Config := mkConfig (f64_of_Z 5) (f64_of_Z 1) 10 3 5000000.
(** Binance and Coinbase close together three times, then Coinbase jumps. *)
Definition calm_then_jump : list Quote :=
  [quote_at "binance" 10000 1; quote_at "coinbase" 10000 2; quote_at "coinbase" 10001 3;
   quote_at "coinbase" 10000 4; quote_at "coinbase" 10100 5].
Definition alerts (r : res (div_operator * list DivergenceEvent)) : list (string * string * Z * Z * Z) :=
  match r with
  | Ok (_, l) => map (fun e => (d_venueA e, d_venueB e, f64_trunc (d_divergenceBps e), d_windowStartUs e, d_eventTimeUs e)) l
  | _ => []
  end.

Lemma detector_is_history_witness :
  exists o outs, div_run small_config calm_then_jump = Ok (o, outs)
    /\ alerts (div_run small_config calm_then_jump) = [("binance", "coinbase", 99, 1, 5)]
    /\ latestByVenue (div_state_of o "BTC-USD") !! "coinbase" = Some (quote_at "coinbase" 10100 5).
Proof.
  destruct (detector_is_history small_config calm_then_jump ltac:(vm_compute; reflexivity)) as (o & outs & E & Hl & _).
  exists o, outs. split; [exact E|]. split; [vm_compute; reflexivity|]. rewrite Hl. vm_compute. reflexivity.
Defined.

Lemma iteration_order_irrelevant_witness :
  evaluate small_config "BTC-USD" [quote_at "coinbase" 10000 2; quote_at "binance" 10000 1] ∅ 2
  = evaluate small_config "BTC-USD" [quote_at "binance" 10000 1; quote_at "coinbase" 10000 2] ∅ 2.
Proof.
  apply (iteration_order_irrelevant small_config "BTC-USD"); [apply Permutation_swap|].
  cbn. apply NoDup_cons. split; [by intros ?%list_elem_of_singleton|]. by apply NoDup_singleton.
Defined.

(** The age is measured from the arriving quote, so a quote of another venue that is newer
    always counts as fresh: when a venue whose stream lags by an hour delivers, its old
    price is compared with the current one of the other venue. *)
Theorem lagging_venue_alerts :
  alerts (div_run small_config
    ([quote_at "binance" 10000 1; quote_at "coinbase" 10000 2; quote_at "coinbase" 10001 3; quote_at "coinbase" 10000 4]
     ++ [quote_at "binance" 10100 3600000000; quote_at "coinbase" 10000 5]))
  = [("binance", "coinbase", -99, 5, 3600000000)].
Proof. vm_compute. reflexivity. Qed.

(** Every arrival compares all pairs again: the quotes of a third venue repeat the alert of
    two venues that have not moved, and their baseline absorbs it each time. *)
Theorem alert_repeated_by_third_venue :
  alerts (div_run small_config (calm_then_jump ++ [quote_at "kraken" 10000 6; quote_at "kraken" 10000 7]))
  = [("binance", "coinbase", 99, 1, 5); ("binance", "coinbase", 99, 1, 5); ("binance", "coinbase", 99, 1, 5)].
Proof. vm_compute. reflexivity. Qed.
