(* ===== verification/Signing.v ===== *)
(** * Serving tier: signed requests

    src/serving/src/main/java/io/tapeline/serving/security: SignedRequest.java and
    HmacSigner.java, with what they use of the JDK ([String.isBlank], [java.util.Base64]).
    A Java string is its UTF-8 text. HMAC-SHA256 and SHA-256 are the class [Crypto]. *)

From S2P Require Import Prelude.
From S2P Require Import GoStrings.
From S2P Require Import GoStrconv.
From S2P Require Import GoFmt.

Local Open Scope Z_scope.

(** ** The JDK *)

(** [Character.isWhitespace], as UTF-8. *)
Definition java_spaces : list (list ascii) :=
  map (map char_of)
    ([[9]; [10]; [11]; [12]; [13]; [28]; [29]; [30]; [31]; [32]; [0xE1; 0x9A; 0x80]]
     ++ map (fun z => [0xE2; 0x80; z])
          [0x80; 0x81; 0x82; 0x83; 0x84; 0x85; 0x86; 0x88; 0x89; 0x8A; 0xA8; 0xA9]
     ++ [[0xE2; 0x81; 0x9F]; [0xE3; 0x80; 0x80]]).
Definition isBlank (s : string) : bool :=
  match trim_front java_spaces (str_len s) (chars s) with [] => true | _ => false end.

(** The alphabet of [Base64]. *)
Definition b64_char (v : Z) : ascii :=
  char_of (if v <? 26 then 65 + v
           else if v <? 52 then 71 + v
           else if v <? 62 then v - 4
           else if v =? 62 then 43 else 47).
Definition b64_val (c : ascii) : option Z :=
  let n := byte_of c in
  if (65 <=? n) && (n <=? 90) then Some (n - 65)
  else if (97 <=? n) && (n <=? 122) then Some (n - 71)
  else if (48 <=? n) && (n <=? 57) then Some (n + 4)
  else if n =? 43 then Some 62
  else if n =? 47 then Some 63
  else None.

(** [getEncoder().encodeToString]: three bytes become four characters, with padding. *)
Fixpoint b64_encode (l : list ascii) : list ascii :=
  match l with
  | [] => []
  | [a] => let n := byte_of a * 16 in
           [b64_char (n / 64); b64_char (n mod 64); "="%char; "="%char]
  | [a; b] => let n := (byte_of a * 256 + byte_of b) * 4 in
              [b64_char (n / 4096); b64_char (n / 64 mod 64); b64_char (n mod 64); "="%char]
  | a :: b :: c :: l' =>
      let n := (byte_of a * 256 + byte_of b) * 256 + byte_of c in
      b64_char (n / 262144) :: b64_char (n / 4096 mod 64) :: b64_char (n / 64 mod 64) :: b64_char (n mod 64)
      :: b64_encode l'
  end.

(** [getDecoder().decode]: [None] is an [IllegalArgumentException]. The padding of the last
    unit may be missing, but not a part of it; bits that are left over are ignored. *)
Fixpoint b64_decode (l : list ascii) : option (list ascii) :=
  match l with
  | [] => Some []
  | [a; b] => x ← b64_val a; y ← b64_val b; Some [char_of ((x * 64 + y) / 16)]
  | [a; b; c] =>
      x ← b64_val a; y ← b64_val b; z ← b64_val c;
      let n := ((x * 64 + y) * 64 + z) / 4 in Some [char_of (n / 256); char_of (n mod 256)]
  | a :: b :: c :: d :: l' =>
      x ← b64_val a; y ← b64_val b;
      if Ascii.eqb c "=" then
        match l' with
        | [] => if Ascii.eqb d "=" then Some [char_of ((x * 64 + y) / 16)] else None
        | _ => None
        end
      else
        z ← b64_val c;
        if Ascii.eqb d "=" then
          match l' with
          | [] => let n := ((x * 64 + y) * 64 + z) / 4 in Some [char_of (n / 256); char_of (n mod 256)]
          | _ => None
          end
        else
          w ← b64_val d;
          let n := ((x * 64 + y) * 64 + z) * 64 + w in
          rest ← b64_decode l';
          Some (char_of (n / 65536) :: char_of (n / 256 mod 256) :: char_of (n mod 256) :: rest)
  | _ => None
  end.

(** The digests, as bytes. *)
Class Crypto := {
  hmac_sha256 : string -> string -> string;   (* secret, payload *)
  sha256 : string -> string;
}.

(** [HexFormat.of().formatHex]. *)
Definition hex_digit (v : Z) : ascii := char_of (if v <? 10 then 48 + v else 87 + v).
Definition formatHex (s : string) : string :=
  unchars (concat (map (fun c => [hex_digit (byte_of c / 16); hex_digit (byte_of c mod 16)]) (chars s))).

(** ** SignedRequest *)

Record SignedRequest := mkSignedRequest {
  sr_method : string; sr_path : string; sr_timestampSeconds : Z; sr_nonce : string; sr_bodySha256Hex : string }.

(** The compact constructor: an [IllegalArgumentException] is [Err]. *)
Definition IllegalArgument (msg : string) : error := EWrap "IllegalArgumentException" (EMsg msg).
Definition newSignedRequest `{UnicodeMap} (method path : string) (timestampSeconds : Z) (nonce bodySha256Hex : string)
    : res SignedRequest :=
  if isBlank method then Err (IllegalArgument "method is required")
  else if isBlank path then Err (IllegalArgument "path is required")
  else if isBlank nonce then Err (IllegalArgument "nonce is required")
  else Ok (mkSignedRequest (ToUpper method) path timestampSeconds nonce bodySha256Hex).

(** [None] is a null body. *)
Definition sha256Hex `{Crypto} (body : option string) : string := formatHex (sha256 (default "" body)).
Definition EMPTY_BODY_SHA256 `{Crypto} : string := sha256Hex (Some "").
Definition SignedRequest_of `{UnicodeMap, Crypto} (method path : string) (timestampSeconds : Z) (nonce : string)
    (body : option string) : res SignedRequest :=
  newSignedRequest method path timestampSeconds nonce (sha256Hex body).

Definition newline : string := unchars [char_of 10].
Definition canonicalString (r : SignedRequest) : string :=
  GoStrings.Join [sr_method r; sr_path r; FormatInt (sr_timestampSeconds r); sr_nonce r; sr_bodySha256Hex r] newline.

(** ** HmacSigner *)

Section signer.
Context `{Crypto}.

Record HmacSigner := mkHmacSigner { hs_secret : string }.
Definition newHmacSigner (secret : string) : res HmacSigner :=
  if isBlank secret then Err (IllegalArgument "secret must not be empty") else Ok (mkHmacSigner secret).

Definition sign (s : HmacSigner) (payload : string) : string :=
  unchars (b64_encode (chars (hmac_sha256 (hs_secret s) payload))).
Definition sign_request (s : HmacSigner) (r : SignedRequest) : string := sign s (canonicalString r).

(** [MessageDigest.isEqual] is equality; its timing is not modelled. A null candidate is [None]. *)
Definition verify (s : HmacSigner) (r : SignedRequest) (candidate : option string) : bool :=
  match candidate with
  | None => false
  | Some c =>
      if isBlank c then false
      else match b64_decode (chars (sign_request s r)), b64_decode (chars c) with
           | Some expected, Some actual => String.eqb (unchars expected) (unchars actual)
           | _, _ => false
           end
  end.
Definition toString (s : HmacSigner) : string := "HmacSigner{secret=***}".
End signer.

(** ** Lemmas: Base64 *)

Lemma byte_of_range c : 0 <= byte_of c < 256.
Proof. unfold byte_of. pose proof (Ascii.N_ascii_bounded c). lia. Qed.
Lemma char_of_byte_of c : char_of (byte_of c) = c.
Proof. unfold char_of, byte_of. by rewrite N2Z.id, Ascii.ascii_N_embedding. Qed.

Ltac div_lia := Z.to_euclidean_division_equations; lia.

Lemma char_of_eq z c : z = byte_of c -> char_of z = c.
Proof. intros ->. apply char_of_byte_of. Qed.

Lemma b64_char_spec v : 0 <= v < 64 -> b64_val (b64_char v) = Some v /\ Ascii.eqb (b64_char v) "=" = false.
Proof.
  intros Hv. assert (forallb (fun n => let v := Z.of_nat n in
    match b64_val (b64_char v) with Some w => (w =? v)%Z | None => false end
    && negb (Ascii.eqb (b64_char v) "=")) (seq 0 64) = true) as Ht by (vm_compute; reflexivity).
  rewrite forallb_forall in Ht. specialize (Ht (Z.to_nat v)). rewrite Z2Nat.id in Ht by lia. cbn zeta in Ht.
  assert (In (Z.to_nat v) (seq 0 64)) as Hin by (apply in_seq; lia). specialize (Ht Hin).
  apply andb_true_iff in Ht as [H1 H2]. destruct (b64_val (b64_char v)) as [w|]; [|done].
  apply Z.eqb_eq in H1 as ->. split; [done|]. by destruct (Ascii.eqb _ _).
Qed.

(** Every text is read back. *)
Lemma b64_round l : b64_decode (b64_encode l) = Some l.
Proof.
  assert (forall v, 0 <= v < 64 -> b64_val (b64_char v) = Some v) as Hval by (intros; by apply b64_char_spec).
  assert (forall v, 0 <= v < 64 -> Ascii.eqb (b64_char v) "=" = false) as Hne by (intros; by apply b64_char_spec).
  induction l as [l IH] using (induction_ltof1 _ (@length ascii)). unfold ltof in IH.
  destruct l as [|a [|b [|c l]]]; [done| | |]; cbn [b64_encode].
  - pose proof (byte_of_range a). cbn [b64_decode]. rewrite !Hval by div_lia. cbn [mbind option_bind].
    change (Ascii.eqb "=" "=") with true. cbn iota. do 2 f_equal. apply char_of_eq. div_lia.
  - pose proof (byte_of_range a). pose proof (byte_of_range b).
    cbn [b64_decode]. rewrite !Hval, !Hne by div_lia. cbn [mbind option_bind].
    change (Ascii.eqb "=" "=") with true. cbn iota zeta.
    f_equal. f_equal; [|f_equal]; apply char_of_eq; div_lia.
  - pose proof (byte_of_range a). pose proof (byte_of_range b). pose proof (byte_of_range c).
    cbn [b64_decode]. rewrite !Hval, !Hne by div_lia.
    cbn [mbind option_bind]. rewrite IH by (cbn; lia). cbn [mbind option_bind].
    f_equal. f_equal; [|f_equal; [|f_equal]]; apply char_of_eq; div_lia.
Qed.

(** ** Lemmas: the canonical string *)

Lemma FormatInt_inj z1 z2 : FormatInt z1 = FormatInt z2 -> z1 = z2.
Proof. apply pretty_Z_inj. Qed.

Lemma cut_line a b x y : one_line a -> one_line b ->
  a +:+ newline +:+ x = b +:+ newline +:+ y -> a = b /\ x = y.
Proof.
  intros Ha Hb E. apply (f_equal chars) in E. rewrite !chars_app in E. change (chars newline) with [char_of 10] in E.
  apply (f_equal (cut_chars (char_of 10))) in E. cbn [app] in E. rewrite !cut_chars_app in E by done.
  injection E as E1 E2. split; by apply chars_inj.
Qed.

(** The fields that come before another one have no line break. *)
Definition one_line_fields (r : SignedRequest) : Prop :=
  one_line (sr_method r) /\ one_line (sr_path r) /\ one_line (sr_nonce r).

Lemma canonical_inj r1 r2 : one_line_fields r1 -> one_line_fields r2 ->
  canonicalString r1 = canonicalString r2 -> r1 = r2.
Proof.
  intros (Hm1 & Hp1 & Hn1) (Hm2 & Hp2 & Hn2). unfold canonicalString. cbn [GoStrings.Join]. intros E.
  apply cut_line in E as [Em E]; [|done..]. apply cut_line in E as [Ep E]; [|done..].
  apply cut_line in E as [Et E]; [|apply FormatInt_one_line..]. apply cut_line in E as [En Eh]; [|done..].
  apply FormatInt_inj in Et. destruct r1, r2. cbn in *. congruence.
Qed.

(** ** Lemmas: signatures *)

(** The length of the digest. *)
Class CryptoLaws `{Crypto} := hmac_length : forall secret payload, str_len (hmac_sha256 secret payload) = 32%nat.

Lemma b64_char_not_space v l : 0 <= v < 64 -> isBlank (unchars (b64_char v :: l)) = false.
Proof.
  intros Hv. unfold isBlank. rewrite chars_unchars. cbn [str_len String.length trim_front unchars].
  assert (forallb (fun n => match List.find (fun p => is_prefix p (b64_char (Z.of_nat n) :: l)) java_spaces with
                            | Some _ => false | None => true end) (seq 0 64) = true) as Ht by (vm_compute; reflexivity).
  rewrite forallb_forall in Ht. specialize (Ht (Z.to_nat v)). rewrite Z2Nat.id in Ht by lia.
  assert (In (Z.to_nat v) (seq 0 64)) as Hin by (apply in_seq; lia). specialize (Ht Hin).
  by destruct (List.find _ _).
Qed.

Section signatures.
Context `{Crypto}.

Lemma verify_iff s r c : verify s r (Some c) = true <->
  isBlank c = false /\ b64_decode (chars c) = Some (chars (hmac_sha256 (hs_secret s) (canonicalString r))).
Proof.
  unfold verify, sign_request, sign. rewrite chars_unchars, b64_round.
  destruct (isBlank c); [split; [done|by intros [? _]]|].
  destruct (b64_decode (chars c)) as [actual|]; [|split; [done|by intros [_ ?]]].
  rewrite unchars_chars, String.eqb_eq. split.
  - intros E. split; [done|]. by rewrite E, chars_unchars.
  - intros [_ [= ->]]. by rewrite unchars_chars.
Qed.

Lemma verify_own `{!CryptoLaws} s r : verify s r (Some (sign_request s r)) = true.
Proof.
  apply verify_iff. unfold sign_request, sign. rewrite chars_unchars, b64_round. split; [|done].
  set (p := canonicalString r). pose proof (hmac_length (hs_secret s) p) as Hl. rewrite <- length_chars in Hl.
  destruct (chars (hmac_sha256 (hs_secret s) p)) as [|a [|b [|c l]]]; try discriminate Hl.
  cbn [b64_encode]. pose proof (byte_of_range a). pose proof (byte_of_range b). pose proof (byte_of_range c).
  apply b64_char_not_space. div_lia.
Qed.
End signatures.

(** ** Properties *)

(** C22. A signature is bound to its request. The signer accepts its own signature, and
    a candidate exactly if it is Base64 of the HMAC of the canonical string; so a
    signature made for one request is accepted for another one of the same key only if
    the two agree in method, path, timestamp, nonce and body hash, or the HMAC collides,
    provided that method, path and nonce have no line break. *)
Theorem signature_binds_request `{CryptoLaws} (s : HmacSigner) (r1 r2 : SignedRequest) (c : string) :
  verify s r1 (Some (sign_request s r1)) = true
  /\ (verify s r1 (Some c) = true <->
      isBlank c = false /\ b64_decode (chars c) = Some (chars (hmac_sha256 (hs_secret s) (canonicalString r1))))
  /\ verify s r1 None = false
  /\ (one_line_fields r1 -> one_line_fields r2 -> verify s r2 (Some (sign_request s r1)) = true ->
      r1 = r2 \/ (canonicalString r1 <> canonicalString r2
                 /\ hmac_sha256 (hs_secret s) (canonicalString r1) = hmac_sha256 (hs_secret s) (canonicalString r2))).
Proof.
  split; [apply verify_own|]. split; [apply verify_iff|]. split; [done|]. intros H1 H2 Hv.
  apply verify_iff in Hv as [_ Hv]. unfold sign_request, sign in Hv. rewrite chars_unchars, b64_round in Hv.
  apply (inj Some), chars_inj in Hv.
  destruct (String.string_dec (canonicalString r1) (canonicalString r2)) as [E|E]; [left; by apply canonical_inj|by right].
Qed.

(** A digest of 32 bytes, for the examples. *)
Definition toy_crypto : Crypto := {|
  hmac_sha256 k p := str_take 32 (k +:+ p +:+ unchars (replicate 32 "0"%char)); sha256 _ := "" |}.
Lemma toy_laws : @CryptoLaws toy_crypto.
Proof.
  intros k p. cbn [hmac_sha256 toy_crypto]. unfold str_take. rewrite <- length_chars, chars_unchars, length_take.
  rewrite !chars_app, !length_app, chars_unchars, length_replicate. lia.
Qed.

Definition sample_request : SignedRequest := mkSignedRequest "POST" "/tapeline.v1.MarketData/GetQuote" 1700000000 "n-1" "e3b0".

Lemma signature_binds_request_witness :
  @verify toy_crypto (mkHmacSigner "k") sample_request (Some (@sign_request toy_crypto (mkHmacSigner "k") sample_request)) = true.
Proof. exact (proj1 (@signature_binds_request toy_crypto toy_laws (mkHmacSigner "k") sample_request sample_request "")). Defined.

(** The line break only separates fields that do not contain one, which the constructor
    does not check: two requests for different paths and times with one signature. *)
Theorem boundary_shift `{UnicodeMap} : exists r1 r2,
  newSignedRequest "POST" "/a" 7 (unchars ("8"%char :: char_of 10 :: chars "n")) "h" = Ok r1
  /\ newSignedRequest "POST" (unchars (chars "/a" ++ char_of 10 :: chars "7")) 8 "n" "h" = Ok r2
  /\ r1 <> r2 /\ canonicalString r1 = canonicalString r2.
Proof.
  eexists _, _. split; [vm_compute; reflexivity|]. split; [vm_compute; reflexivity|].
  split; [|vm_compute; reflexivity]. intros E. apply (f_equal sr_timestampSeconds) in E. discriminate E.
Qed.
