(* ===== verification/RateLimiter.v ===== *)
(** * Serving tier: the token bucket

    src/serving/src/main/java/io/tapeline/serving/security/TokenBucketRateLimiter.java,
    with the Lua script it runs inside Redis. The script is a function over any
    arithmetic ([Arith]): [double_arith] is the one Lua has, and RateDouble.v bounds it;
    [exact_arith] is the rational numbers, in which more can be said (a key that expires is
    not observable, a denied caller is told the truth). [HSET] keeps a double exactly: Redis
    prints the numbers a script passes with 17 digits. A key of Redis is gone when the clock of the server
    has passed its deadline. *)

From S2P Require Import Prelude.
From S2P Require Import GoStrings.
From S2P Require Import GoStrconv.
From Stdlib Require Import QArith Qround Lqa.

Local Open Scope Z_scope.

(** ** Arithmetic *)

Class Arith := {
  num : Type;
  of_int : Z -> num;
  num_add : num -> num -> num; num_sub : num -> num -> num;
  num_mul : num -> num -> num; num_div : num -> num -> num;
  num_lt : num -> num -> bool; num_le : num -> num -> bool;
  num_ceil : num -> Z; num_floor : num -> Z;
}.

(** [math.floor] and [math.ceil] of a finite double. *)
Definition f64_floor (x : float64) : Z :=
  match x with
  | S754_finite s m e =>
      let v := if s then Z.neg m else Z.pos m in
      if 0 <=? e then v * 2 ^ e else v / 2 ^ (- e)
  | _ => 0
  end.
Definition f64_ceil (x : float64) : Z := - f64_floor (SFopp x).

#[export] Instance double_arith : Arith := {|
  num := float64; of_int := f64_of_Z;
  num_add := f64_add; num_sub := f64_sub; num_mul := f64_mul; num_div := f64_div;
  num_lt := f64_lt; num_le := f64_le; num_ceil := f64_ceil; num_floor := f64_floor |}.

Definition exact_arith : Arith := {|
  num := Q; of_int := inject_Z;
  num_add := Qplus; num_sub := Qminus; num_mul := Qmult; num_div := Qdiv;
  num_lt x y := negb (Qle_bool y x); num_le := Qle_bool; num_ceil := Qceiling; num_floor := Qfloor |}.

(** ** The script *)

Section limiter.
Context `{Arith}.

Record bucket := mkBucket { b_tokens : num; b_updated_ms : num; b_expires : Z }.
Record Decision := mkDecision { allowed : bool; remainingTokens : Z; retryAfterSeconds : Z }.

(** Lua 5.1: [math.max(a, b)] and [math.min(a, b)]. *)
Definition lua_max (a b : num) : num := if num_lt a b then b else a.
Definition lua_min (a b : num) : num := if num_lt b a then b else a.

(** [stored] is what [HMGET] finds, [server_ms] the clock of Redis. *)
Definition lua_script (capacity : Z) (refill_per_sec : num) (now_ms cost server_ms : Z) (stored : option bucket)
    : bucket * Decision :=
  let '(tokens, updated_ms) :=
    match stored with
    | Some b => (b_tokens b, b_updated_ms b)
    | None => (of_int capacity, of_int now_ms)
    end in
  let elapsed := num_div (lua_max (of_int 0) (num_sub (of_int now_ms) updated_ms)) (of_int 1000) in
  let tokens := lua_min (of_int capacity) (num_add tokens (num_mul elapsed refill_per_sec)) in
  let ok := num_le (of_int cost) tokens in
  let tokens := if ok then num_sub tokens (of_int cost) else tokens in
  let ttl := num_ceil (num_div (of_int capacity) refill_per_sec) + 1 in
  let retry_after := if ok then 0 else num_ceil (num_div (num_sub (of_int cost) tokens) refill_per_sec) in
  (mkBucket tokens (of_int now_ms) (server_ms + ttl * 1000), mkDecision ok (num_floor tokens) retry_after).

(** The hashes of Redis, and what it still has of a key. *)
Definition buckets : Type := gmap string bucket.
Definition alive (s : buckets) (key : string) (server_ms : Z) : option bucket :=
  b ← s !! key; if server_ms <=? b_expires b then Some b else None.

Definition KEY_PREFIX : string := "tapeline:ratelimit:".

(** [replied] is false when [execute] yields no result; [None] is the
    [IllegalArgumentException]. *)
Definition tryConsume (s : buckets) (apiKeyId : string) (capacity : Z) (refillPerSecond : num) (cost : Z)
    (now_ms server_ms : Z) (replied : bool) : option (Decision * buckets) :=
  if (capacity <=? 0) || num_le refillPerSecond (of_int 0) then None
  else if replied then
    let key := KEY_PREFIX +:+ apiKeyId in
    let '(b, d) := lua_script capacity refillPerSecond now_ms cost server_ms (alive s key server_ms) in
    Some (d, <[key := b]> s)
  else Some (mkDecision true capacity 0, s).

(** A call: the clock of the replica that makes it, the clock of Redis, its cost. *)
Record call := mkCall { c_now : Z; c_server : Z; c_cost : Z }.

(** What Redis still has of a key. *)
Definition find_live (server_ms : Z) (b : bucket) : option bucket :=
  if server_ms <=? b_expires b then Some b else None.

(** A sequence of calls for one key, of any replicas. *)
Fixpoint bucket_run (capacity : Z) (refill : num) (calls : list call) (stored : option bucket)
    : list Decision * option bucket :=
  match calls with
  | [] => ([], stored)
  | c :: calls' =>
      let '(b, d) := lua_script capacity refill (c_now c) (c_cost c) (c_server c) (stored ≫= find_live (c_server c)) in
      let '(ds, b') := bucket_run capacity refill calls' (Some b) in
      (d :: ds, b')
  end.

(** The same without expiry. *)
Fixpoint eternal_run (capacity : Z) (refill : num) (calls : list call) (stored : option bucket)
    : list Decision * option bucket :=
  match calls with
  | [] => ([], stored)
  | c :: calls' =>
      let '(b, d) := lua_script capacity refill (c_now c) (c_cost c) (c_server c) stored in
      let '(ds, b') := eternal_run capacity refill calls' (Some b) in
      (d :: ds, b')
  end.

(** The cost of the calls that were admitted. *)
Definition admitted (calls : list call) (ds : list Decision) : Z :=
  fold_right Z.add 0 (zip_with (fun c (d : Decision) => if allowed d then c_cost c else 0) calls ds).

(** The milliseconds between two calls, by the clock that moved more; a clock that moves
    backwards counts for nothing. *)
Definition elapsed (u s : Z) (c : call) : Z := Z.max 0 (Z.max (c_now c - u) (c_server c - s)).
Fixpoint total_elapsed (u s : Z) (calls : list call) : Z :=
  match calls with [] => 0 | c :: calls' => elapsed u s c + total_elapsed (c_now c) (c_server c) calls' end.
End limiter.

(** The tokens that [ms] milliseconds are worth. *)
Definition earned (refill : Q) (ms : Z) : Q := (refill * inject_Z ms / inject_Z 1000)%Q.

(** A limiter whose every call leaves, of the tokens [T] of the bucket (a rational) and what
    the time since is worth, at most what it does not admit, up to [slack]. *)
Section run.
Context `{Arith} (capacity : Z) (refill : num) (r slack : Q).
Context (ok : Z -> Z -> bucket -> Q -> Prop) (fair : call -> Prop).
Hypothesis step : forall u s b T c, ok u s b T -> fair c ->
  let '(b', d) := lua_script capacity refill (c_now c) (c_cost c) (c_server c) (find_live (c_server c) b) in
  exists T', ok (c_now c) (c_server c) b' T'
    /\ (inject_Z (if allowed d then c_cost c else 0) + T' <= T + earned r (elapsed u s c) + slack)%Q.
Hypothesis nonneg : forall u s b T, ok u s b T -> (0 <= T)%Q.

Lemma earned_plus a b : (earned r (a + b) == earned r a + earned r b)%Q.
Proof. unfold earned. rewrite inject_Z_plus. unfold Qdiv. ring. Qed.

Lemma run_admits calls : forall u s b T, ok u s b T -> Forall fair calls ->
  (inject_Z (admitted calls (bucket_run capacity refill calls (Some b)).1)
   <= T + earned r (total_elapsed u s calls) + inject_Z (Z.of_nat (length calls)) * slack)%Q.
Proof.
  induction calls as [|c calls IH]; intros u s b T Hok Hf.
  { pose proof (nonneg _ _ _ _ Hok). cbn. unfold earned, Qdiv. change (inject_Z 0) with 0%Q.
    rewrite Qmult_0_l, Qplus_0_r, Qmult_0_r, Qmult_0_l. lra. }
  apply Forall_cons_1 in Hf as [Hc Hf]. cbn [bucket_run total_elapsed mbind option_bind].
  pose proof (step u s b T c Hok Hc) as Hs.
  destruct (lua_script _ _ _ _ _ _) as [b' d]. destruct Hs as (T' & Hok' & Hle).
  specialize (IH _ _ b' T' Hok' Hf). destruct (bucket_run _ _ _ _) as [ds b'']. cbn [fst] in IH |- *.
  change (admitted (c :: calls) (d :: ds)) with ((if allowed d then c_cost c else 0) + admitted calls ds).
  rewrite earned_plus, inject_Z_plus. cbn [length]. rewrite Nat2Z.inj_succ. unfold Z.succ. rewrite inject_Z_plus.
  change (inject_Z 1) with 1%Q. rewrite Qmult_plus_distr_l. lra.
Qed.
End run.

(** ** Exact arithmetic *)

Section exact.
#[local] Existing Instance exact_arith.

(** The tokens of a bucket when it is refilled at [now]. *)
Definition available (capacity : Z) (refill : Q) (now : Z) (found : option bucket) : Q :=
  let '(tokens, updated) :=
    match found with Some b => (b_tokens b, b_updated_ms b) | None => (of_int capacity, of_int now) end in
  lua_min (of_int capacity)
    (tokens + lua_max (of_int 0) (of_int now - updated) / of_int 1000 * refill)%Q.

(** The replica's clock and Redis's agree and do not run backwards, and a call has a cost. *)
Definition timely (start : Z) (calls : list call) : Prop :=
  Sorted Z.le (start :: map c_now calls) /\ Forall (fun c => c_server c = c_now c /\ 0 <= c_cost c) calls.

(** A bucket that was left at [u] by the caller's clock and at [s] by Redis's. *)
Record left_at (capacity : Z) (refill : Q) (u s : Z) (b : bucket) : Prop := {
  left_time : b_updated_ms b = inject_Z u;
  left_tokens : (0 <= b_tokens b <= inject_Z capacity)%Q;
  left_deadline : b_expires b = s + (Qceiling (inject_Z capacity / refill) + 1) * 1000;
}.

(** ** Lemmas *)

Lemma lua_min_spec (a b : Q) : (lua_min a b <= a /\ lua_min a b <= b)%Q /\ (lua_min a b = a \/ lua_min a b = b).
Proof.
  unfold lua_min. cbn. destruct (Qle_bool a b) eqn:E; cbn.
  - apply Qle_bool_iff in E. split; [split; [apply Qle_refl|done]|by left].
  - assert (~ (a <= b)%Q) as Hn by (rewrite <- Qle_bool_iff; by rewrite E).
    split; [split; [lra|apply Qle_refl]|by right].
Qed.
Lemma lua_max_spec (a b : Q) : (a <= lua_max a b /\ b <= lua_max a b)%Q /\ (lua_max a b = a \/ lua_max a b = b).
Proof.
  unfold lua_max. cbn. destruct (Qle_bool b a) eqn:E; cbn.
  - apply Qle_bool_iff in E. split; [split; [apply Qle_refl|done]|by left].
  - assert (~ (b <= a)%Q) as Hn by (rewrite <- Qle_bool_iff; by rewrite E).
    split; [split; [lra|apply Qle_refl]|by right].
Qed.

(** What a call does, in terms of the refilled tokens. *)
Lemma script_spec capacity refill now cost server found :
  let '(b, d) := lua_script capacity refill now cost server found in
  let avail := available capacity refill now found in
  (allowed d = true <-> (inject_Z cost <= avail)%Q)
  /\ (b_tokens b == avail - (if allowed d then inject_Z cost else 0))%Q
  /\ b_updated_ms b = inject_Z now
  /\ b_expires b = server + (Qceiling (inject_Z capacity / refill) + 1) * 1000
  /\ retryAfterSeconds d = (if allowed d then 0 else Qceiling ((inject_Z cost - avail) / refill)).
Proof.
  unfold lua_script, available. destruct found as [b|]; cbn.
  all: match goal with |- context [Qle_bool ?c ?a] => destruct (Qle_bool c a) eqn:E end; cbn.
  all: split_and!; try done; try (by rewrite <- Qle_bool_iff, E); change (inject_Z 0) with 0%Q; lra.
Qed.

Lemma available_bounds capacity refill now found : 0 <= capacity -> (0 < refill)%Q ->
  (forall b, found = Some b -> 0 <= b_tokens b)%Q ->
  (0 <= available capacity refill now found <= inject_Z capacity)%Q.
Proof.
  intros Hc Hr Hb. unfold available.
  destruct (match found with Some b => _ | None => _ end) as [tokens updated] eqn:E.
  assert (0 <= tokens)%Q as Ht.
  { destruct found as [b|]; injection E as <- <-; [by apply Hb|]. cbn. rewrite <- (Zle_Qle 0). lia. }
  destruct (lua_min_spec (inject_Z capacity)
    (tokens + (@lua_max exact_arith) (inject_Z 0) (inject_Z now - updated) / inject_Z 1000 * refill)%Q) as [[H1 H2] H3].
  destruct (lua_max_spec (inject_Z 0) (inject_Z now - updated)) as [[H4 _] _].
  cbn in *. set (e := @lua_max exact_arith _ _) in *.
  assert (0 <= e / inject_Z 1000 * refill)%Q as He.
  { apply Qmult_le_0_compat; [|lra]. unfold Qdiv. apply Qmult_le_0_compat; [exact H4|]. by vm_compute. }
  split; [|done]. destruct H3 as [->| ->]; [rewrite <- (Zle_Qle 0); lia|lra].
Qed.

Lemma available_grows capacity refill u now b : (0 < refill)%Q -> b_updated_ms b = inject_Z u ->
  (available capacity refill now (Some b) <= b_tokens b + refill * inject_Z (Z.max 0 (now - u)) / inject_Z 1000)%Q.
Proof.
  intros Hr Hb. unfold available. rewrite Hb. cbn.
  destruct (lua_min_spec (inject_Z capacity)
    (b_tokens b + (@lua_max exact_arith) (inject_Z 0) (inject_Z now - inject_Z u) / inject_Z 1000 * refill)%Q) as [[_ H2] _].
  cbn in *. eapply Qle_trans; [exact H2|]. unfold lua_max. cbn.
  assert (inject_Z now - inject_Z u == inject_Z (now - u))%Q as Hnu by (unfold Qminus; by rewrite <- inject_Z_opp, <- inject_Z_plus).
  destruct (Qle_bool (inject_Z now - inject_Z u) (inject_Z 0)) eqn:E; cbn.
  - assert (0 <= inject_Z (Z.max 0 (now - u)))%Q as H0 by (rewrite <- (Zle_Qle 0); lia).
    assert (0 <= refill * inject_Z (Z.max 0 (now - u)) / inject_Z 1000)%Q.
    { unfold Qdiv. apply Qmult_le_0_compat; [apply Qmult_le_0_compat; lra|by vm_compute]. }
    unfold Qdiv at 1. change (inject_Z 0) with 0%Q. lra.
  - assert (0 < now - u) as Hpos.
    { destruct (Z.ltb_spec 0 (now - u)) as [|Hle]; [done|]. exfalso. rewrite <- not_true_iff_false in E. apply E.
      apply Qle_bool_iff. rewrite Hnu, <- Zle_Qle. lia. }
    rewrite Hnu, Z.max_r by lia. unfold Qdiv. lra.
Qed.

Lemma earned_nonneg refill ms : (0 < refill)%Q -> 0 <= ms -> (0 <= earned refill ms)%Q.
Proof.
  intros Hr Hm. unfold earned, Qdiv. apply Qmult_le_0_compat; [|by vm_compute].
  apply Qmult_le_0_compat; [lra|]. change 0%Q with (inject_Z 0). by rewrite <- Zle_Qle.
Qed.

(** A key that has expired had time to refill. *)
Lemma expired_full capacity refill ms : (0 < refill)%Q ->
  (Qceiling (inject_Z capacity / refill) + 1) * 1000 <= ms -> (inject_Z capacity <= earned refill ms)%Q.
Proof.
  intros Hr Hms. pose proof (Qle_ceiling (inject_Z capacity / refill)) as Hc.
  set (c := Qceiling _) in *. assert (inject_Z c * inject_Z 1000 <= inject_Z ms)%Q as Hm.
  { rewrite <- inject_Z_mult, <- Zle_Qle. lia. }
  assert (inject_Z capacity <= inject_Z c * refill)%Q as Hcap.
  { assert (inject_Z capacity == (inject_Z capacity / refill) * refill)%Q as -> by (field; lra).
    apply Qmult_le_compat_r; [done|lra]. }
  unfold earned. eapply Qle_trans; [exact Hcap|].
  assert (refill * inject_Z ms / inject_Z 1000 == (inject_Z ms / inject_Z 1000) * refill)%Q as ->
    by (field; by vm_compute).
  apply Qmult_le_compat_r; [|lra]. apply Qle_shift_div_l; [by vm_compute|done].
Qed.

Lemma earned_le refill a b : (0 < refill)%Q -> a <= b -> (earned refill a <= earned refill b)%Q.
Proof.
  intros Hr Hab. unfold earned, Qdiv. apply Qmult_le_compat_r; [|by vm_compute].
  rewrite (Qmult_comm refill), (Qmult_comm refill). apply Qmult_le_compat_r; [by rewrite <- Zle_Qle|lra].
Qed.

Lemma find_tokens server b (x : bucket) : (0 <= b_tokens b)%Q -> find_live server b = Some x -> (0 <= b_tokens x)%Q.
Proof. intros Hb. unfold find_live. destruct (_ <=? _); [by intros [= <-]|done]. Qed.

Lemma script_left capacity refill now cost server found : 0 < capacity -> (0 < refill)%Q -> 0 <= cost ->
  (forall b, found = Some b -> 0 <= b_tokens b)%Q ->
  left_at capacity refill now server (lua_script capacity refill now cost server found).1.
Proof.
  intros Hc Hr Hk Hb. pose proof (script_spec capacity refill now cost server found) as Hs.
  pose proof (available_bounds capacity refill now found ltac:(lia) Hr Hb) as Ha.
  destruct (lua_script _ _ _ _ _ _) as [b d]. destruct Hs as (Hok & Ht & Hu & He & _). cbn [fst].
  split; [done| |done]. assert (0 <= inject_Z cost)%Q by (change 0%Q with (inject_Z 0); by rewrite <- Zle_Qle).
  destruct (allowed d); [destruct Hok as [Hok _]; specialize (Hok eq_refl)|]; split; lra.
Qed.

Lemma available_left capacity refill u s b c : 0 < capacity -> (0 < refill)%Q -> left_at capacity refill u s b ->
  (available capacity refill (c_now c) (find_live (c_server c) b) <= b_tokens b + earned refill (elapsed u s c))%Q.
Proof.
  intros Hc Hr [Htime Htok Hdead]. unfold find_live, elapsed. destruct (Z.leb_spec (c_server c) (b_expires b)) as [_|Hexp].
  - pose proof (available_grows capacity refill u (c_now c) b Hr Htime) as Hg.
    pose proof (earned_le refill (Z.max 0 (c_now c - u)) (Z.max 0 (Z.max (c_now c - u) (c_server c - s))) Hr ltac:(lia)) as He.
    unfold earned in He |- *. lra.
  - destruct (available_bounds capacity refill (c_now c) None) as [_ Hcap]; [lia|done|done|].
    pose proof (expired_full capacity refill (Z.max 0 (Z.max (c_now c - u) (c_server c - s))) Hr ltac:(lia)). lra.
Qed.

Lemma timely_cons u c calls : timely u (c :: calls) ->
  u <= c_now c /\ c_server c = c_now c /\ 0 <= c_cost c /\ timely (c_now c) calls.
Proof.
  intros [Hs Hf]. cbn in Hs. apply Sorted_inv in Hs as [Hs Hd]. apply HdRel_inv in Hd.
  apply Forall_cons_1 in Hf as [[Hc1 Hc2] Hf]. do 3 (split; [done|]). by split.
Qed.

(** One call, in tokens. *)
Lemma script_step capacity refill u s b T c : 0 < capacity -> (0 < refill)%Q ->
  left_at capacity refill u s b /\ T = b_tokens b -> 0 <= c_cost c ->
  let '(b', d) := lua_script capacity refill (c_now c) (c_cost c) (c_server c) (find_live (c_server c) b) in
  exists T', (left_at capacity refill (c_now c) (c_server c) b' /\ T' = b_tokens b')
    /\ (inject_Z (if allowed d then c_cost c else 0) + T' <= T + earned refill (elapsed u s c) + 0)%Q.
Proof.
  intros Hc Hr [Hl ->] Hk.
  pose proof (script_spec capacity refill (c_now c) (c_cost c) (c_server c) (find_live (c_server c) b)) as Hs.
  pose proof (script_left capacity refill (c_now c) (c_cost c) (c_server c) (find_live (c_server c) b) Hc Hr Hk) as Hl'.
  pose proof (available_left capacity refill u s b c Hc Hr Hl) as Ha.
  destruct (lua_script _ _ _ _ _ _) as [b' d]. destruct Hs as (_ & Htok & _). cbn [fst] in Hl'.
  exists (b_tokens b'). split; [split; [|done]|].
  - apply Hl'. intros x. apply find_tokens. apply Hl.
  - destruct (allowed d); [|change (inject_Z 0) with 0%Q]; lra.
Qed.

(** ** Buckets with equal tokens *)

#[local] Instance bucket_equiv : Equiv bucket := fun b1 b2 =>
  (b_tokens b1 == b_tokens b2)%Q /\ b_updated_ms b1 = b_updated_ms b2 /\ b_expires b1 = b_expires b2.

#[local] Instance lua_min_proper : Proper (Qeq ==> Qeq ==> Qeq) (@lua_min exact_arith).
Proof.
  intros a a' Ha b b' Hb. unfold lua_min. cbn. rewrite (Qleb_comp a a' Ha b b' Hb). by destruct (Qle_bool a' b').
Qed.

(** A call depends on the bucket only through the refilled tokens. *)
Lemma script_proper capacity refill now cost server f1 f2 :
  (available capacity refill now f1 == available capacity refill now f2)%Q ->
  (lua_script capacity refill now cost server f1).1 ≡ (lua_script capacity refill now cost server f2).1
  /\ (lua_script capacity refill now cost server f1).2 = (lua_script capacity refill now cost server f2).2.
Proof.
  assert (forall f, lua_script capacity refill now cost server f
    = let a := available capacity refill now f in
      let ok := Qle_bool (inject_Z cost) a in
      let t := if ok then (a - inject_Z cost)%Q else a in
      (mkBucket t (inject_Z now) (server + (Qceiling (inject_Z capacity / refill) + 1) * 1000),
       mkDecision ok (Qfloor t) (if ok then 0 else Qceiling ((inject_Z cost - t) / refill)))) as Hs.
  { intros f. unfold lua_script, available. by destruct f. }
  intros E. rewrite !Hs. cbv zeta. cbn [fst snd]. rewrite (Qleb_comp _ _ (Qeq_refl (inject_Z cost)) _ _ E).
  destruct (Qle_bool _ _); (split; [split; cbn [b_tokens b_updated_ms b_expires]; [lra|done]|]); f_equal;
    first [apply Qfloor_comp; by rewrite E|apply Qceiling_comp; by rewrite E].
Qed.

Lemma available_proper capacity refill now b1 b2 : b1 ≡ b2 ->
  (available capacity refill now (Some b1) == available capacity refill now (Some b2))%Q.
Proof. intros (Ht & Hu & _). unfold available. rewrite Hu. apply lua_min_proper; [done|]. cbn. by rewrite Ht. Qed.

Lemma left_at_equiv capacity refill u s b1 b2 : b1 ≡ b2 -> left_at capacity refill u s b1 -> left_at capacity refill u s b2.
Proof. intros (Ht & Hu & He) [H1 H2 H3]. split; [by rewrite <- Hu|by rewrite <- Ht|by rewrite <- He]. Qed.

(** What an expired key would hold is a full bucket. *)
Lemma available_expired capacity refill u b now : 0 < capacity -> (0 < refill)%Q -> u <= now ->
  left_at capacity refill u u b -> b_expires b <= now ->
  (available capacity refill now None == available capacity refill now (Some b))%Q.
Proof.
  intros Hc Hr Hu [Htime Htok Hdead] Hexp.
  assert (inject_Z capacity <= earned refill (now - u))%Q as Hfull by (apply expired_full; [done|lia]).
  assert (forall f : option bucket, (inject_Z capacity
    <= match f with Some b => b_tokens b + lua_max (of_int 0) (of_int now - b_updated_ms b) / of_int 1000 * refill
       | None => inject_Z capacity + lua_max (of_int 0) (of_int now - of_int now) / of_int 1000 * refill end)%Q ->
    available capacity refill now f == inject_Z capacity)%Q as Hmin.
  { intros f Hf. unfold available. destruct f; cbn in *.
    all: match goal with |- (lua_min ?a ?b == _)%Q => destruct (lua_min_spec a b) as [[H1 H2] [H3|H3]] end.
    all: rewrite H3 in *; lra. }
  assert (forall x : Q, (0 <= lua_max (of_int 0) x / of_int 1000 * refill)%Q) as Hpos.
  { intros x. destruct (lua_max_spec (inject_Z 0) x) as [[H1 _] _]. apply Qmult_le_0_compat; [|lra].
    unfold Qdiv. apply Qmult_le_0_compat; [exact H1|by vm_compute]. }
  rewrite (Hmin None), (Hmin (Some b)); [done| |].
  - rewrite Htime. destruct (lua_max_spec (inject_Z 0) (inject_Z now - inject_Z u)) as [[_ H2] _].
    assert (inject_Z now - inject_Z u == inject_Z (now - u))%Q as Hnu
      by (unfold Qminus; by rewrite <- inject_Z_opp, <- inject_Z_plus).
    assert (earned refill (now - u) <= @lua_max exact_arith (inject_Z 0) (inject_Z now - inject_Z u) / inject_Z 1000 * refill)%Q.
    { unfold earned. rewrite <- Hnu.
      assert (refill * (inject_Z now - inject_Z u) / inject_Z 1000
              == (inject_Z now - inject_Z u) / inject_Z 1000 * refill)%Q as -> by (field; by vm_compute).
      apply Qmult_le_compat_r; [|lra]. unfold Qdiv. apply Qmult_le_compat_r; [exact H2|by vm_compute]. }
    cbn in *. lra.
  - specialize (Hpos (of_int now - of_int now)%Q). cbn in *. lra.
Qed.

Lemma runs_agree capacity refill calls : 0 < capacity -> (0 < refill)%Q -> forall u b1 b2,
  b1 ≡ b2 -> left_at capacity refill u u b1 -> timely u calls ->
  (bucket_run capacity refill calls (Some b1)).1 = (eternal_run capacity refill calls (Some b2)).1.
Proof.
  intros Hc Hr. induction calls as [|c calls IH]; intros u b1 b2 Hb Hl Ht; [done|].
  apply timely_cons in Ht as (Hu & Hsv & Hk & Ht). cbn [bucket_run eternal_run mbind option_bind]. rewrite Hsv.
  assert (available capacity refill (c_now c) (find_live (c_now c) b1) == available capacity refill (c_now c) (Some b2))%Q as Ha.
  { unfold find_live. destruct (Z.leb_spec (c_now c) (b_expires b1)); [by apply available_proper|].
    rewrite <- (available_proper capacity refill (c_now c) b1 b2 Hb).
    apply (available_expired capacity refill u b1); [done..|lia]. }
  destruct (script_proper capacity refill (c_now c) (c_cost c) (c_now c) _ _ Ha) as [Hbs Hds].
  pose proof (script_left capacity refill (c_now c) (c_cost c) (c_now c) (find_live (c_now c) b1) Hc Hr Hk) as Hl1.
  destruct (lua_script _ _ _ _ _ (find_live (c_now c) b1)) as [b1' d1], (lua_script _ _ _ _ _ (Some b2)) as [b2' d2].
  cbn [fst snd] in *. subst d2.
  assert (left_at capacity refill (c_now c) (c_now c) b1') as Hl'.
  { apply Hl1. intros x. apply find_tokens. apply Hl. }
  specialize (IH (c_now c) b1' b2' Hbs Hl' Ht).
  destruct (bucket_run _ _ _ _), (eternal_run _ _ _ _). cbn in *. by rewrite IH.
Qed.

(** A later call on the same bucket finds at least what has been earned since. *)
Lemma available_later capacity refill u b now : 0 < capacity -> (0 < refill)%Q -> u <= now ->
  left_at capacity refill u u b ->
  (inject_Z capacity <= available capacity refill now (find_live now b)
   \/ b_tokens b + earned refill (now - u) <= available capacity refill now (find_live now b))%Q.
Proof.
  intros Hc Hr Hu [Htime Htok Hdead]. unfold find_live. destruct (Z.leb_spec now (b_expires b)).
  - unfold available. rewrite Htime. destruct (lua_max_spec (inject_Z 0) (inject_Z now - inject_Z u)) as [[_ H2] _].
    cbn. set (e := @lua_max exact_arith (inject_Z 0) _) in *.
    assert (b_tokens b + earned refill (now - u) <= b_tokens b + e / inject_Z 1000 * refill)%Q as He.
    { unfold earned. assert (inject_Z now - inject_Z u == inject_Z (now - u))%Q as Hnu
        by (unfold Qminus; by rewrite <- inject_Z_opp, <- inject_Z_plus).
      rewrite <- Hnu. apply Qplus_le_r.
      assert (refill * (inject_Z now - inject_Z u) / inject_Z 1000
              == (inject_Z now - inject_Z u) / inject_Z 1000 * refill)%Q as -> by (field; by vm_compute).
      apply Qmult_le_compat_r; [|lra]. unfold Qdiv. apply Qmult_le_compat_r; [exact H2|by vm_compute]. }
    destruct (lua_min_spec (inject_Z capacity) (b_tokens b + e / inject_Z 1000 * refill)%Q) as [_ [H3|H3]];
      rewrite H3; [left; apply Qle_refl|by right].
  - left. unfold available. cbn. destruct (lua_min_spec (inject_Z capacity)
      (inject_Z capacity + @lua_max exact_arith (inject_Z 0) (inject_Z now - inject_Z now) / inject_Z 1000 * refill)%Q)
      as [_ [H3|H3]]; rewrite H3; [apply Qle_refl|].
    destruct (lua_max_spec (inject_Z 0) (inject_Z now - inject_Z now)) as [[H1 _] _].
    assert (0 <= @lua_max exact_arith (inject_Z 0) (inject_Z now - inject_Z now) / inject_Z 1000 * refill)%Q; [|lra].
    apply Qmult_le_0_compat; [|lra]. unfold Qdiv. apply Qmult_le_0_compat; [exact H1|by vm_compute].
Qed.

(** Between calls whose clocks agree and do not run backwards the time is the interval. *)
Lemma timely_elapsed calls : forall u, timely u calls -> total_elapsed u u calls = List.last (map c_now calls) u - u.
Proof.
  induction calls as [|c calls IH]; intros u Ht; [cbn; lia|].
  apply timely_cons in Ht as (Hu & Hsv & _ & Ht). cbn [total_elapsed map]. rewrite last_default_cons, Hsv.
  rewrite (IH _ Ht). unfold elapsed. lia.
Qed.

(** ** Properties *)

(** The limit, in exact arithmetic. Whatever the clocks of the replicas and of Redis do, the
    calls that are admitted for a key cost at most the tokens of the bucket and the refill
    of the time between them, where each step counts by the clock that moved more. If the
    clocks agree and do not run backwards that is the refill of the interval, and that a
    key expires is not observable: every decision is the one of a bucket kept for ever. *)
Theorem exact_admission_bounded (capacity : Z) (refill : Q) u s (b : bucket) calls :
  0 < capacity -> (0 < refill)%Q -> left_at capacity refill u s b -> Forall (fun c => 0 <= c_cost c) calls ->
  let ds := (bucket_run capacity refill calls (Some b)).1 in
  (inject_Z (admitted calls ds) <= b_tokens b + earned refill (total_elapsed u s calls))%Q
  /\ (s = u -> timely u calls -> total_elapsed u s calls = List.last (map c_now calls) u - u
      /\ ds = (eternal_run capacity refill calls (Some b)).1).
Proof.
  intros Hc Hr Hl Hk. cbn zeta. split.
  - pose proof (run_admits capacity refill refill 0
      (fun u s b T => left_at capacity refill u s b /\ T = b_tokens b) (fun c => 0 <= c_cost c)
      (fun u s b T c => script_step capacity refill u s b T c Hc Hr)
      ltac:(intros ? ? ? ? [? ->]; by destruct H as [_ [H _] _]) calls u s b (b_tokens b) (conj Hl eq_refl) Hk) as Hrun.
    rewrite Qmult_0_r in Hrun. lra.
  - intros -> Ht. split; [by apply timely_elapsed|by eapply runs_agree].
Qed.

(** The answer of a denied call is honest: if the bucket is large enough at all, a
    call of the same cost [retryAfterSeconds] later (or any time after that) is admitted
    when no other call comes between; and if the cost exceeds the capacity no call ever is. *)
Theorem retry_after_honest (capacity : Z) (refill : Q) u (b : bucket) now cost later :
  0 < capacity -> (0 < refill)%Q -> left_at capacity refill u u b -> u <= now -> 0 <= cost ->
  let '(b1, d1) := lua_script capacity refill now cost now (find_live now b) in
  let '(_, d2) := lua_script capacity refill later cost later (find_live later b1) in
  (cost <= capacity -> allowed d1 = false -> now + retryAfterSeconds d1 * 1000 <= later -> allowed d2 = true)
  /\ (capacity < cost -> allowed d1 = false).
Proof.
  intros Hc Hr Hl Hu Hk.
  assert (forall x, find_live now b = Some x -> 0 <= b_tokens x)%Q as Hf.
  { intros x. apply find_tokens. apply Hl. }
  pose proof (script_spec capacity refill now cost now (find_live now b)) as Hs.
  pose proof (script_left capacity refill now cost now (find_live now b) Hc Hr Hk Hf) as Hl1.
  destruct (available_bounds capacity refill now (find_live now b) ltac:(lia) Hr Hf) as [_ Hcap].
  destruct (lua_script _ _ _ _ _ (find_live now b)) as [b1 d1]. destruct Hs as (Hok & Htok & _ & _ & Hret).
  cbn [fst] in Hl1. pose proof (script_spec capacity refill later cost later (find_live later b1)) as Hs2.
  destruct (lua_script _ _ _ _ _ (find_live later b1)) as [b2 d2]. destruct Hs2 as (Hok2 & _). split.
  - intros Hcost Hden Hlater. apply Hok2. rewrite Hden in *.
    set (a := available capacity refill now (find_live now b)) in *.
    assert (inject_Z cost - a <= earned refill (later - now))%Q as Hearn.
    { pose proof (Qle_ceiling ((inject_Z cost - a) / refill)) as Hq. rewrite <- Hret in Hq.
      assert (inject_Z (retryAfterSeconds d1) * inject_Z 1000 <= inject_Z (later - now))%Q as Hz
        by (rewrite <- inject_Z_mult, <- Zle_Qle; lia).
      assert (inject_Z cost - a == (inject_Z cost - a) / refill * refill)%Q as -> by (field; lra).
      eapply Qle_trans; [apply Qmult_le_compat_r; [exact Hq|lra]|]. unfold earned.
      assert (refill * inject_Z (later - now) / inject_Z 1000 == inject_Z (later - now) / inject_Z 1000 * refill)%Q as ->
        by (field; by vm_compute).
      apply Qmult_le_compat_r; [|lra]. apply Qle_shift_div_l; [by vm_compute|done]. }
    assert (0 <= retryAfterSeconds d1) as Hpos.
    { rewrite Hret. assert (~ inject_Z cost <= a)%Q as Hn by (intros H; by apply Hok in H).
      change 0 with (Qceiling 0). apply Qceiling_resp_le. unfold Qdiv. apply Qmult_le_0_compat; [lra|].
      apply Qinv_le_0_compat. lra. }
    destruct (available_later capacity refill now b1 later Hc Hr ltac:(lia) Hl1) as [Hfull|Hmore].
    + eapply Qle_trans; [|exact Hfull]. by rewrite <- Zle_Qle.
    + lra.
  - intros Hbig. destruct (allowed d1) eqn:E; [|done]. destruct Hok as [Hok _]. specialize (Hok eq_refl).
    assert (inject_Z cost <= inject_Z capacity)%Q as Hle by lra. rewrite <- Zle_Qle in Hle. lia.
Qed.
End exact.

(** The comment in the script says that a clock that goes backwards must not mint tokens.
    The maximum with 0 prevents it within a call, but the call stores the earlier time,
    and the next one is paid for the same ten seconds again: in a millisecond a full
    bucket of ten admits twenty. *)
Theorem backward_clock_mints :
  let call b t := @lua_script double_arith 10 (f64_of_Z 1) t 10 t b in
  let '(b1, d1) := call None 100000 in
  let '(b2, d2) := call (Some b1) 90000 in
  let '(b3, d3) := call (Some b2) 100000 in
  (allowed d1, allowed d2, allowed d3) = (true, false, true).
Proof. vm_compute. reflexivity. Qed.

Definition full_bucket : @bucket exact_arith := @mkBucket exact_arith 10%Q 0%Q 11000.
Lemma full_bucket_left : left_at 10 1%Q 0 0 full_bucket.
Proof. split; [reflexivity|vm_compute; intuition congruence|reflexivity]. Qed.

Definition sample_calls : list call := [mkCall 0 0 10; mkCall 1000 1000 1; mkCall 1000 1000 1].
Definition sample_decisions : list Decision := (@bucket_run exact_arith 10 1%Q sample_calls (Some full_bucket)).1.

Lemma exact_admission_bounded_witness :
  admitted sample_calls sample_decisions = 11
  /\ (inject_Z (admitted sample_calls sample_decisions) <= 10 + earned 1 (total_elapsed 0 0 sample_calls))%Q.
Proof.
  split; [vm_compute; reflexivity|].
  refine (proj1 (exact_admission_bounded 10 1%Q 0 0 full_bucket sample_calls _ _ full_bucket_left _)).
  - lia.
  - lra.
  - repeat constructor; vm_compute; congruence.
Defined.

Lemma retry_after_honest_witness :
  let '(b1, d1) := @lua_script exact_arith 10 1%Q 0 12 0 (find_live 0 full_bucket) in
  let '(_, d2) := @lua_script exact_arith 10 1%Q 2000 12 2000 (find_live 2000 b1) in
  (12 <= 10 -> allowed d1 = false -> 0 + retryAfterSeconds d1 * 1000 <= 2000 -> allowed d2 = true)
  /\ (10 < 12 -> allowed d1 = false).
Proof.
  refine (retry_after_honest 10 1%Q 0 full_bucket 0 12 2000 _ _ full_bucket_left _ _).
  - lia.
  - lra.
  - lia.
  - lia.
Defined.
