(* ===== verification/RateDouble.v ===== *)
(** * Serving tier: the token bucket in doubles

    The script of RateLimiter.v with the arithmetic Lua has. Every operation rounds
    (Rounding.v), so a call can give away a little more than has been earned; how much is
    bounded here, and with it what any sequence of calls is admitted, whatever the clocks
    of the replicas and of Redis do. *)

From S2P Require Import Prelude.
From S2P Require Import GoStrings.
From S2P Require Import GoStrconv.
From S2P Require Import Rounding.
From S2P Require Import RateLimiter.
From Stdlib Require Import QArith Qround Qabs Lqa.

Local Open Scope Z_scope.

#[local] Existing Instance double_arith | 0.

(** ** What the limiter is given *)

(** A capacity is a positive Java int; a rate a double from a token in twelve days to a
    million million a second; a clock counts milliseconds, for 285000 years. *)
Record limits (capacity : Z) (refill : float64) : Prop := {
  limits_capacity : 0 < capacity < 2 ^ 31;
  limits_finite : finite refill;
  limits_refill : (pow2 (-20) <= val refill /\ val refill <= pow2 40)%Q }.
Definition sane (c : call) : Prop := 0 <= c_now c < 2 ^ 53 /\ 0 <= c_cost c < 2 ^ 31.

Definition ttl_of (capacity : Z) (refill : float64) : Z := f64_ceil (f64_div (f64_of_Z capacity) refill) + 1.

(** A bucket that was left at [u] by the caller's clock and at [s] by Redis's, with [tokens]. *)
Record left_double (capacity : Z) (refill : float64) (u s : Z) (b : bucket) (tokens : Q) : Prop := {
  ld_clock : 0 <= u < 2 ^ 53;
  ld_time : b_updated_ms b = f64_of_Z u;
  ld_finite : finite (b_tokens b);
  ld_tokens : (val (b_tokens b) == tokens)%Q;
  ld_range : (0 <= tokens /\ tokens <= 2 * inject_Z capacity)%Q;
  ld_deadline : b_expires b = s + ttl_of capacity refill * 1000 }.

(** What a call can give away: a part in 2^50 of the capacity. *)
Definition slack (capacity : Z) : Q := (inject_Z capacity * pow2 (-50))%Q.

(** ** Bounds of one rounding *)

Lemma rounds_bounds v x : rounds v x -> (0 <= v)%Q ->
  finite x /\ (0 <= val x)%Q /\ (val x <= v + v * (1 # 9007199254740992) + pow2 (-200))%Q
  /\ (v - v * (1 # 9007199254740992) - pow2 (-200) <= val x)%Q.
Proof.
  intros [Hf Ha Hb Hn _ _] Hv. unfold ulp_half in *. rewrite Qabs_pos in Ha, Hb by done.
  change (pow2 (-53)) with (1 # 9007199254740992)%Q in *.
  pose proof (pow2_le (-1075) (-200) ltac:(lia)). specialize (Hn Hv). repeat split; (done || lra).
Qed.

Lemma below_small v : (0 <= v)%Q -> (v < pow2 200)%Q -> small v.
Proof. intros H0 Hv. unfold small. rewrite Qabs_pos by done. pose proof (pow2_le 200 1000 ltac:(lia)). lra. Qed.

Lemma inject_range n k : 0 <= n < 2 ^ k -> 0 <= k -> (0 <= inject_Z n /\ inject_Z n < pow2 k)%Q.
Proof. intros Hn Hk. rewrite pow2_Z by done. split; [apply (inject_le 0)|apply inject_lt]; lia. Qed.

(** The milliseconds of a call, exactly. *)
Lemma waited_val now u : 0 <= now < 2 ^ 53 -> 0 <= u < 2 ^ 53 ->
  let w := lua_max (of_int 0) (num_sub (of_int now) (of_int u)) in
  finite w /\ (val w == inject_Z (Z.max 0 (now - u)))%Q.
Proof.
  intros Hn Hu. cbv zeta. cbn [of_int num_sub double_arith].
  destruct (of_Z_val now ltac:(lia)) as [Hfn Hvn], (of_Z_val u ltac:(lia)) as [Hfu Hvu].
  assert (val (f64_of_Z now) - val (f64_of_Z u) == inject_Z (now - u))%Q as E.
  { rewrite Hvn, Hvu. unfold Z.sub, Qminus. by rewrite inject_Z_plus, inject_Z_opp. }
  assert (rounds (inject_Z (now - u)) (f64_sub (f64_of_Z now) (f64_of_Z u))) as Hr.
  { rewrite <- E. apply sub_rounds; [done..|]. rewrite E. unfold small.
    change (Qabs (inject_Z (now - u))) with (inject_Z (Z.abs (now - u))).
    destruct (inject_range (Z.abs (now - u)) 53 ltac:(lia) ltac:(lia)) as [_ H]. pose proof (pow2_le 53 1000 ltac:(lia)). lra. }
  pose proof (rounds_exact _ _ Hr (now - u) ltac:(lia) (Qeq_refl _)) as Hd. pose proof (rounds_finite _ _ Hr) as Hf.
  unfold lua_max. cbn [num_lt double_arith]. change (f64_of_Z 0) with (S754_zero false).
  destruct (f64_lt (S754_zero false) _) eqn:El.
  - apply lt_val in El; [|done..]. split; [done|]. rewrite Hd in El |- *. change (val (S754_zero false)) with (inject_Z 0) in El.
    apply (proj1 (inject_lt 0 _)) in El. by rewrite Z.max_r by lia.
  - split; [done|]. rewrite Z.max_l; [done|]. destruct (Z.le_gt_cases (now - u) 0) as [|Hgt]; [done|]. exfalso.
    rewrite <- not_true_iff_false in El. apply El, lt_val; [done..|]. rewrite Hd. by apply (inject_lt 0).
Qed.

(** What the refill makes of [t] tokens: never more than the capacity, nor more than has
    been earned, but for the rounding. *)
Lemma refilled_bound capacity refill now u t : limits capacity refill ->
  0 <= now < 2 ^ 53 -> 0 <= u < 2 ^ 53 -> finite t -> (0 <= val t /\ val t <= 2 * inject_Z capacity)%Q ->
  let waited := num_div (lua_max (of_int 0) (num_sub (of_int now) (of_int u))) (of_int 1000) in
  let a := lua_min (of_int capacity) (num_add t (num_mul waited refill)) in
  finite a /\ (0 <= val a /\ val a <= inject_Z capacity)%Q
  /\ (val a <= val t + earned (val refill) (Z.max 0 (now - u)) + inject_Z capacity * (5 # 9007199254740992))%Q.
Proof.
  intros [Hc Hrf [Hr1 Hr2]] Hn Hu Hft [Ht0 Ht1]. cbv zeta.
  destruct (waited_val now u Hn Hu) as [Hfw Hvw]. set (w := lua_max _ _) in *. set (d := Z.max 0 (now - u)) in *.
  cbn [of_int num_div num_mul num_add double_arith].
  destruct (inject_range capacity 31 ltac:(lia) ltac:(lia)) as [Hc0 Hc31].
  assert (1 <= inject_Z capacity)%Q as Hc1 by (apply (inject_le 1); lia).
  destruct (inject_range d 53 ltac:(lia) ltac:(lia)) as [Hd0 Hd53].
  destruct (of_Z_val 1000 ltac:(lia)) as [Hf1000 Hv1000]. destruct (of_Z_val capacity ltac:(lia)) as [Hfc Hvc].
  set (r := val refill) in *. set (c := inject_Z capacity) in *.
  assert (val w / val (f64_of_Z 1000) == inject_Z d * (1 # 1000))%Q as Ew by (rewrite Hvw, Hv1000; unfold Qdiv; reflexivity).
  assert (rounds (inject_Z d * (1 # 1000)) (f64_div w (f64_of_Z 1000))) as Hrel.
  { rewrite <- Ew. apply div_rounds; [done..|by rewrite Hv1000|]. rewrite Ew. apply below_small; [lra|].
    pose proof (pow2_le 53 200 ltac:(lia)). lra. }
  apply rounds_bounds in Hrel as (Hfe & He0 & He1 & _); [|lra]. set (el := f64_div w _) in *.
  assert (0 <= val el * r)%Q as Hp0 by (apply Qmult_le_0_compat; [done|pose proof (pow2_pos (-20)); lra]).
  set (g := earned r d). assert (g == inject_Z d * (1 # 1000) * r)%Q as Eg.
  { unfold g, earned. change (inject_Z 1000) with 1000%Q. field. }
  assert (val el * r <= g + g * (1 # 9007199254740992) + pow2 (-200) * pow2 40)%Q as Hp1.
  { pose proof (pow2_pos (-20)). pose proof (Qmult_le_compat_r _ _ r He1 ltac:(lra)) as H1.
    assert (pow2 (-200) * r <= pow2 (-200) * pow2 40)%Q as H2.
    { rewrite (Qmult_comm _ r), (Qmult_comm _ (pow2 40)). apply Qmult_le_compat_r; [done|]. apply Qlt_le_weak, pow2_pos. }
    rewrite Eg. lra. }
  assert (g <= pow2 93)%Q as Hg93.
  { rewrite Eg. change 93 with (53 + 40). rewrite pow2_add.
    eapply Qle_trans; [apply Qmult_le_compat_r; [|pose proof (pow2_pos (-20)); lra]|].
    - assert (inject_Z d * (1 # 1000) <= pow2 53)%Q as H by lra. exact H.
    - rewrite !(Qmult_comm (pow2 53)). apply Qmult_le_compat_r; [done|]. apply Qlt_le_weak, pow2_pos. }
  assert (0 <= g)%Q as Hg0.
  { rewrite Eg. apply Qmult_le_0_compat; [lra|pose proof (pow2_pos (-20)); lra]. }
  rewrite <- pow2_add in Hp1. change (-200 + 40) with (-160) in Hp1.
  pose proof (pow2_le (-160) (-100) ltac:(lia)) as Htiny. pose proof (pow2_le (-200) (-100) ltac:(lia)) as Htiny'.
  pose proof (pow2_le 95 200 ltac:(lia)) as Hbig. change 95 with (2 + 93) in Hbig. rewrite pow2_add in Hbig.
  change (pow2 2) with 4%Q in Hbig. change (pow2 (-100)) with (1 # 1267650600228229401496703205376)%Q in *.
  pose proof (pow2_le 33 93 ltac:(lia)) as Hc93. change (pow2 33) with 8589934592%Q in Hc93. change (pow2 31) with 2147483648%Q in Hc31.
  assert (rounds (val el * r) (f64_mul el refill)) as Hrp by (apply mul_rounds; [done..|]; apply below_small; fold r; lra).
  apply rounds_bounds in Hrp as (Hfp & Hp2 & Hp3 & _); [|done]. set (pr := f64_mul el refill) in *.
  assert (rounds (val t + val pr) (f64_add t pr)) as Hrs by (apply add_rounds; [done..|]; apply below_small; lra).
  apply rounds_bounds in Hrs as (Hfs & Hs0 & Hs1 & _); [|lra]. set (su := f64_add t pr) in *.
  unfold lua_min. cbn [num_lt double_arith]. destruct (f64_lt su (f64_of_Z capacity)) eqn:El.
  - apply lt_val in El; [|done..]. rewrite Hvc in El. split; [done|]. split; [lra|]. lra.
  - split; [done|]. rewrite Hvc. split; [lra|]. assert (c <= val su)%Q as Hcs; [|lra].
    apply Qnot_lt_le. intros H. rewrite <- not_true_iff_false in El. apply El, lt_val; [done..|]. by rewrite Hvc.
Qed.

Lemma floor_below x : finite x -> (inject_Z (f64_floor x) <= val x)%Q.
Proof.
  intros Hx. destruct x as [s|s| |s m e]; try contradiction; [done|]. cbn [f64_floor val].
  set (v := if s then Z.neg m else Z.pos m). destruct (Z.leb_spec 0 e) as [He|He].
  - rewrite inject_Z_mult, pow2_Z by done. apply Qle_refl.
  - assert (0 < 2 ^ (- e)) as Hk by (apply Z.pow_pos_nonneg; lia).
    pose proof (Z.mul_div_le v (2 ^ (- e)) Hk) as Hdiv. rewrite Z.mul_comm in Hdiv. apply inject_le in Hdiv.
    rewrite inject_Z_mult, <- pow2_Z in Hdiv by lia.
    assert (inject_Z (v / 2 ^ (- e)) == inject_Z (v / 2 ^ (- e)) * pow2 (- e) * pow2 e)%Q as ->.
    { rewrite <- Qmult_assoc, <- pow2_add. replace (- e + e) with 0 by lia. change (pow2 0) with 1%Q. ring. }
    apply Qmult_le_compat_r; [done|]. apply Qlt_le_weak, pow2_pos.
Qed.

Lemma ceil_above x : finite x -> (val x <= inject_Z (f64_ceil x))%Q.
Proof.
  intros Hx. destruct (opp_val x Hx) as [Hf Hv]. pose proof (floor_below (SFopp x) Hf) as H.
  unfold f64_ceil. rewrite inject_Z_opp. lra.
Qed.

(** A key that has expired had time to refill, but for the rounding of the quotient. *)
Lemma expiry_earns capacity refill ms : limits capacity refill -> ttl_of capacity refill * 1000 <= ms ->
  (inject_Z capacity <= earned (val refill) ms + inject_Z capacity * (1 # 9007199254740992))%Q /\ 0 <= ttl_of capacity refill.
Proof.
  intros [Hc Hrf [Hr1 Hr2]] Hms. unfold ttl_of in *. set (q := f64_div _ refill) in *.
  destruct (of_Z_val capacity ltac:(lia)) as [Hfc Hvc]. destruct (inject_range capacity 31 ltac:(lia) ltac:(lia)) as [Hc0 Hc31].
  set (c := inject_Z capacity) in *. set (r := val refill) in *. pose proof (pow2_pos (-20)) as H20.
  assert (0 <= c / r)%Q as Hq0 by (apply Qle_shift_div_l; lra).
  assert (c / r <= pow2 51)%Q as Hq51.
  { apply Qle_shift_div_r; [lra|]. assert (pow2 51 * pow2 (-20) <= pow2 51 * r)%Q as H.
    { rewrite !(Qmult_comm (pow2 51)). apply Qmult_le_compat_r; [done|]. apply Qlt_le_weak, pow2_pos. }
    rewrite <- pow2_add in H. change (51 + -20) with 31 in H. lra. }
  assert (rounds (c / r) q) as Hrq.
  { rewrite <- Hvc. unfold r. apply div_rounds; [done..|fold r; lra|]. fold r. rewrite Hvc. apply below_small; [done|].
    pose proof (pow2_le 52 200 ltac:(lia)) as H. change 52 with (1 + 51) in H. rewrite pow2_add in H.
    change (pow2 1) with 2%Q in H. pose proof (pow2_pos 51). lra. }
  apply rounds_bounds in Hrq as (Hfq & Hvq0 & _ & Hvq); [|done]. pose proof (ceil_above q Hfq) as Hceil.
  assert (0 <= f64_ceil q) as Hpos.
  { apply inject_le. change (inject_Z 0) with 0%Q. lra. }
  split; [|lia]. set (k := f64_ceil q) in *.
  assert (inject_Z (k + 1) * 1000 <= inject_Z ms)%Q as Hk.
  { change 1000%Q with (inject_Z 1000). rewrite <- inject_Z_mult. by apply inject_le. }
  rewrite inject_1 in Hk. unfold earned. change (inject_Z 1000) with 1000%Q.
  assert (r * inject_Z ms / 1000 == inject_Z ms * (1 # 1000) * r)%Q as -> by field.
  pose proof (pow2_le (-200) (-100) ltac:(lia)) as Htiny. change (pow2 (-100)) with (1 # 1267650600228229401496703205376)%Q in Htiny.
  assert ((c / r - c / r * (1 # 9007199254740992) + (1 # 2)) * r <= inject_Z ms * (1 # 1000) * r)%Q as H
    by (apply Qmult_le_compat_r; lra).
  assert ((c / r - c / r * (1 # 9007199254740992) + (1 # 2)) * r == c - c * (1 # 9007199254740992) + (1 # 2) * r)%Q as E
    by (field; lra).
  lra.
Qed.

(** ** One call *)

(** The tokens of a bucket, or of a full one, refilled. *)
Definition refilled (capacity : Z) (refill : float64) (now : Z) (found : option bucket) : float64 :=
  let '(tokens, updated_ms) :=
    match found with Some b => (b_tokens b, b_updated_ms b) | None => (of_int capacity, of_int now) end in
  lua_min (of_int capacity)
    (num_add tokens (num_mul (num_div (lua_max (of_int 0) (num_sub (of_int now) updated_ms)) (of_int 1000)) refill)).

Lemma found_bound capacity refill u s b T c : limits capacity refill -> left_double capacity refill u s b T -> sane c ->
  let a := refilled capacity refill (c_now c) (find_live (c_server c) b) in
  finite a /\ (0 <= val a /\ val a <= inject_Z capacity)%Q
  /\ (val a <= T + earned (val refill) (elapsed u s c) + inject_Z capacity * (5 # 9007199254740992))%Q.
Proof.
  intros Hl [Hu Htime Hf Ht HT Hd] [Hn _]. cbv zeta. pose proof (limits_capacity _ _ Hl) as Hc.
  destruct (of_Z_val capacity ltac:(lia)) as [Hfc Hvc]. destruct (inject_range capacity 31 ltac:(lia) ltac:(lia)) as [Hc0 _].
  assert (0 < val refill)%Q as Hr by (pose proof (limits_refill _ _ Hl); pose proof (pow2_pos (-20)); lra).
  unfold find_live. destruct (Z.leb_spec (c_server c) (b_expires b)) as [Hle|Hgt]; unfold refilled.
  - rewrite Htime. rewrite <- Ht in HT. destruct (refilled_bound capacity refill (c_now c) u _ Hl Hn Hu Hf HT) as (H1 & H2 & H3).
    split; [exact H1|]. split; [exact H2|]. rewrite Ht in H3.
    pose proof (earned_le (val refill) (Z.max 0 (c_now c - u)) (elapsed u s c) Hr ltac:(unfold elapsed; lia)).
    eapply Qle_trans; [exact H3|]. lra.
  - assert (0 <= val (f64_of_Z capacity) /\ val (f64_of_Z capacity) <= 2 * inject_Z capacity)%Q as H0 by (rewrite Hvc; lra).
    destruct (refilled_bound capacity refill (c_now c) (c_now c) _ Hl Hn Hn Hfc H0) as (H1 & H2 & _).
    split; [exact H1|]. split; [exact H2|].
    destruct (expiry_earns capacity refill (elapsed u s c) Hl ltac:(unfold elapsed; lia)) as [H3 _].
    eapply Qle_trans; [exact (proj2 H2)|]. lra.
Qed.

Lemma call_bound capacity refill u s b T c : limits capacity refill -> left_double capacity refill u s b T -> sane c ->
  let '(b', d) := lua_script capacity refill (c_now c) (c_cost c) (c_server c) (find_live (c_server c) b) in
  exists T', left_double capacity refill (c_now c) (c_server c) b' T'
    /\ (inject_Z (if allowed d then c_cost c else 0) + T' <= T + earned (val refill) (elapsed u s c) + slack capacity)%Q.
Proof.
  intros Hl Hb Hs. destruct (found_bound capacity refill u s b T c Hl Hb Hs) as (Hfa & Ha & HaT).
  pose proof (limits_capacity _ _ Hl) as Hc. destruct Hs as [Hn Hk].
  assert (lua_script capacity refill (c_now c) (c_cost c) (c_server c) (find_live (c_server c) b)
    = let a := refilled capacity refill (c_now c) (find_live (c_server c) b) in
      let ok := f64_le (f64_of_Z (c_cost c)) a in
      let t := if ok then f64_sub a (f64_of_Z (c_cost c)) else a in
      (mkBucket t (f64_of_Z (c_now c)) (c_server c + ttl_of capacity refill * 1000),
       mkDecision ok (f64_floor t)
         (if ok then 0 else f64_ceil (f64_div (f64_sub (f64_of_Z (c_cost c)) t) refill)))) as ->.
  { unfold lua_script, refilled. by destruct (find_live _ _). }
  cbv zeta. set (a := refilled _ _ _ _) in *. destruct (of_Z_val (c_cost c) ltac:(lia)) as [Hfk Hvk].
  assert (1 <= inject_Z capacity)%Q as Hc1 by (apply (inject_le 1); lia).
  assert (0 <= inject_Z (c_cost c))%Q as Hk0 by (apply (inject_le 0); lia).
  unfold slack. change (pow2 (-50)) with (1 # 1125899906842624)%Q. cbn [allowed].
  destruct (f64_le (f64_of_Z (c_cost c)) a) eqn:Ele.
  - apply le_val in Ele; [|done..]. rewrite Hvk in Ele.
    assert (rounds (val a - inject_Z (c_cost c)) (f64_sub a (f64_of_Z (c_cost c)))) as Hr.
    { rewrite <- Hvk. apply sub_rounds; [done..|]. rewrite Hvk. apply below_small; [lra|].
      destruct (inject_range capacity 31 ltac:(lia) ltac:(lia)) as [_ H31]. pose proof (pow2_le 31 200 ltac:(lia)). lra. }
    apply rounds_bounds in Hr as (Hft & Ht0 & Ht1 & _); [|lra]. set (t := f64_sub _ _) in *.
    pose proof (pow2_le (-200) (-100) ltac:(lia)) as Htiny. change (pow2 (-100)) with (1 # 1267650600228229401496703205376)%Q in Htiny.
    exists (val t). split; [split; [done|done|done|done|lra|done]|]. cbv iota. lra.
  - exists (val a). split; [split; [done|done|done|done|lra|done]|]. cbv iota. change (inject_Z 0) with 0%Q. lra.
Qed.

(** A key that Redis does not have is a full bucket. *)
Definition full_at (capacity : Z) (refill : float64) (u s : Z) : bucket :=
  mkBucket (f64_of_Z capacity) (f64_of_Z u) (s + ttl_of capacity refill * 1000).

Lemma full_left capacity refill u s : limits capacity refill -> 0 <= u < 2 ^ 53 ->
  left_double capacity refill u s (full_at capacity refill u s) (inject_Z capacity).
Proof.
  intros Hl Hu. pose proof (limits_capacity _ _ Hl) as Hc. destruct (of_Z_val capacity ltac:(lia)) as [Hf Hv].
  split; [done|done|done|done| |done]. assert (0 <= inject_Z capacity)%Q by (apply (inject_le 0); lia). lra.
Qed.

Lemma missing_is_full capacity refill c calls : limits capacity refill ->
  bucket_run capacity refill (c :: calls) None
  = bucket_run capacity refill (c :: calls) (Some (full_at capacity refill (c_now c) (c_server c))).
Proof.
  intros Hl. destruct (expiry_earns capacity refill _ Hl (Z.le_refl _)) as [_ Ht].
  cbn [bucket_run mbind option_bind]. unfold find_live, full_at. cbn [b_expires].
  destruct (Z.leb_spec (c_server c) (c_server c + ttl_of capacity refill * 1000)); [|lia]. reflexivity.
Qed.

(** ** Properties *)

(** C23. The limit, in the doubles the script computes with. Take any sequence of calls for
    one key, from replicas whose clocks, like that of Redis, may differ and run backwards,
    on a bucket that was left with some tokens or on a key that Redis does not have. The
    calls that are admitted cost at most those tokens (the capacity, for a new key), and the
    refill of the time between the calls, where each step counts by the clock that moved
    more, and a part in 2^50 of the capacity for every call, which pays for all rounding and
    for buckets that expire. If the clocks agree and do not run backwards, the time is the
    one from the first to the last call. *)
Theorem admission_bounded (capacity : Z) (refill : float64) (calls : list call) :
  limits capacity refill -> Forall sane calls ->
  let bound u s tokens := (tokens + earned (val refill) (total_elapsed u s calls)
                           + inject_Z (Z.of_nat (length calls)) * slack capacity)%Q in
  (forall u s b tokens, left_double capacity refill u s b tokens ->
     inject_Z (admitted calls (bucket_run capacity refill calls (Some b)).1) <= bound u s tokens)%Q
  /\ (forall c calls', calls = c :: calls' ->
        inject_Z (admitted calls (bucket_run capacity refill calls None).1)
        <= bound (c_now c) (c_server c) (inject_Z capacity))%Q
  /\ (forall u, timely u calls -> total_elapsed u u calls = List.last (map c_now calls) u - u).
Proof.
  intros Hl Hs. cbv zeta. split; [|split].
  - intros u s b T Hb. by eapply run_admits; [intros; by eapply call_bound|intros ???? []; tauto|..].
  - intros c calls' ->. rewrite missing_is_full by done. pose proof (Forall_cons_1 _ _ _ Hs) as [[Hc _] _].
    eapply run_admits; [intros; by eapply call_bound|intros ???? []; tauto| |done]. by apply full_left.
  - by apply timely_elapsed.
Qed.

(** A bucket of ten at a token a second: the clock of Redis moves on by two seconds, the
    clock of one replica is a second behind. *)
Definition skewed_calls : list call := [mkCall 100000 100000 10; mkCall 101500 101000 1; mkCall 101000 102000 1; mkCall 102500 102000 1].

Lemma slow_limits : limits 10 (f64_of_Z 1).
Proof. split; [lia|vm_compute; reflexivity|vm_compute; split; discriminate]. Qed.

Lemma admission_bounded_witness :
  admitted skewed_calls (bucket_run 10 (f64_of_Z 1) skewed_calls None).1 = 12
  /\ (inject_Z (admitted skewed_calls (bucket_run 10 (f64_of_Z 1) skewed_calls None).1)
      <= inject_Z 10 + earned (val (f64_of_Z 1)) (total_elapsed 100000 100000 skewed_calls) + inject_Z (Z.of_nat 4) * slack 10)%Q.
Proof.
  split; [vm_compute; reflexivity|].
  refine (proj1 (proj2 (admission_bounded 10 (f64_of_Z 1) skewed_calls slow_limits _))
            (mkCall 100000 100000 10) (tl skewed_calls) eq_refl).
  unfold skewed_calls. repeat constructor; vm_compute; congruence.
Defined.
