(* ===== verification/Authenticator.v ===== *)
(** * Serving tier: authentication

    src/serving/src/main/java/io/tapeline/serving: ApiKey.java, ApiKeyRepository.java,
    ReplayGuard.java and RequestAuthenticator.java of package security, and
    grpc/AuthInterceptor.java. The database and the two Redis structures are state or
    arguments; a null reference is [None], an exception is [Err]. The clocks of the
    server and of Redis are arguments of every call, in milliseconds. *)

From S2P Require Import Prelude.
From S2P Require Import GoStrings.
From S2P Require Import GoStrconv.
From S2P Require Import GoFmt.
From S2P Require Import Signing.
From S2P Require Import RateLimiter.

Local Open Scope Z_scope.

(** ** Keys *)

Record ApiKey := mkApiKey {
  keyId : string; secret : option string; owner : string;
  rateLimitCapacity : Z; rateLimitRefillPerSecond : float64; enabled : bool; createdAt : Z }.

Definition isUsable (k : ApiKey) : bool :=
  enabled k && match secret k with Some s => negb (isBlank s) | None => false end.

(** The table, as a query by key id sees it: a row, no row, or a failure. *)
Definition database : Type := string -> res (option ApiKey).

Record CacheEntry := mkCacheEntry { ce_value : option ApiKey; expiresAtMillis : Z }.
Definition isFresh (e : CacheEntry) (now : Z) : bool := now <? expiresAtMillis e.
Definition CACHE_TTL : Z := 30000.

Abbreviation key_cache := (gmap string CacheEntry).

Definition findByKeyId (cache : key_cache) (db : database) (now : Z) (id : option string)
    : res (option ApiKey) * key_cache :=
  match id with
  | None => (Ok None, cache)
  | Some id =>
      if isBlank id then (Ok None, cache)
      else
        let load :=
          match db id with
          | Ok loaded => (Ok loaded, <[id := mkCacheEntry loaded (now + CACHE_TTL)]> cache)
          | Err e => (Err e, cache)
          | Panic => (Panic, cache)
          end in
        match cache !! id with
        | Some cached => if isFresh cached now then (Ok (ce_value cached), cache) else load
        | None => load
        end
  end.
Definition invalidate (cache : key_cache) (id : string) : key_cache := delete id cache.
Definition invalidateAll (_ : key_cache) : key_cache := ∅.

(** ** ReplayGuard *)

Inductive replay_result := OK | TIMESTAMP_OUT_OF_WINDOW | NONCE_REUSED.

Definition DEFAULT_SKEW : Z := 30.
Definition NONCE_PREFIX : string := "tapeline:nonce:".
Definition nonce_key (apiKeyId nonce : string) : string := NONCE_PREFIX +:+ apiKeyId +:+ ":" +:+ nonce.

(** The keys of Redis with their deadlines, and [SET key value NX EX ttl]. *)
Abbreviation nonces := (gmap string Z).
Definition setIfAbsent (s : nonces) (key : string) (ttl_seconds redis_ms : Z) : bool * nonces :=
  match s !! key with
  | Some deadline =>
      if redis_ms <=? deadline then (false, s) else (true, <[key := redis_ms + ttl_seconds * 1000]> s)
  | None => (true, <[key := redis_ms + ttl_seconds * 1000]> s)
  end.

(** [Math.abs]. *)
Definition java_abs (z : Z) : Z := if z <? 0 then wrap64 (- z) else z.

Definition replay_check (skew : Z) (s : nonces) (apiKeyId nonce : string) (timestampSeconds now_ms redis_ms : Z)
    : replay_result * nonces :=
  let now := now_ms / 1000 in
  let delta := java_abs (wrap64 (now - timestampSeconds)) in
  if skew <? delta then (TIMESTAMP_OUT_OF_WINDOW, s)
  else
    let '(claimed, s') := setIfAbsent s (nonce_key apiKeyId nonce) (skew * 2) redis_ms in
    (if claimed then OK else NONCE_REUSED, s').

(** ** RequestAuthenticator *)

Inductive Failure :=
  | MISSING_CREDENTIALS | UNKNOWN_KEY | DISABLED_KEY | BAD_SIGNATURE
  | STALE_TIMESTAMP | REPLAYED_NONCE | RATE_LIMITED.

Inductive Outcome :=
  | Authenticated (key : ApiKey)
  | Denied (failure : Failure)
  | Throttled (retryAfter : Z).

Record Credentials := mkCredentials {
  cr_keyId : option string; cr_signature : option string; cr_nonce : option string; cr_timestampSeconds : Z }.

Definition present (s : option string) : bool := match s with Some s => negb (isBlank s) | None => false end.
Definition isComplete (c : Credentials) : bool :=
  present (cr_keyId c) && present (cr_signature c) && present (cr_nonce c) && (0 <? cr_timestampSeconds c).

(** What the three components keep, and what a call meets: the table, the clocks, and
    whether the rate limiter gets a reply. *)
Record auth_state := mkAuthState { as_keys : key_cache; as_nonces : nonces; as_buckets : @buckets double_arith }.
Record auth_env := mkAuthEnv { ae_db : database; ae_now : Z; ae_redis : Z; ae_replied : bool }.

Section authenticator.
Context `{Crypto} (skew : Z).

Definition authenticate (st : auth_state) (e : auth_env) (credentials : option Credentials)
    (request : SignedRequest) (cost : Z) : res Outcome * auth_state :=
  match credentials with
  | None => (Ok (Denied MISSING_CREDENTIALS), st)
  | Some c =>
      if negb (isComplete c) then (Ok (Denied MISSING_CREDENTIALS), st)
      else
        let '(found, cache) := findByKeyId (as_keys st) (ae_db e) (ae_now e) (cr_keyId c) in
        let st := mkAuthState cache (as_nonces st) (as_buckets st) in
        match found with
        | Err err => (Err err, st)
        | Panic => (Panic, st)
        | Ok None => (Ok (Denied UNKNOWN_KEY), st)
        | Ok (Some key) =>
            if negb (isUsable key) then (Ok (Denied DISABLED_KEY), st)
            else
              match newHmacSigner (default "" (secret key)) with
              | Err err => (Err err, st)
              | Panic => (Panic, st)
              | Ok signer =>
                  if negb (verify signer request (cr_signature c)) then (Ok (Denied BAD_SIGNATURE), st)
                  else
                    let '(replay, ns) :=
                      replay_check skew (as_nonces st) (keyId key) (sr_nonce request)
                        (sr_timestampSeconds request) (ae_now e) (ae_redis e) in
                    let st := mkAuthState (as_keys st) ns (as_buckets st) in
                    match replay with
                    | TIMESTAMP_OUT_OF_WINDOW => (Ok (Denied STALE_TIMESTAMP), st)
                    | NONCE_REUSED => (Ok (Denied REPLAYED_NONCE), st)
                    | OK =>
                        match tryConsume (as_buckets st) (keyId key) (rateLimitCapacity key)
                                (rateLimitRefillPerSecond key) cost (ae_now e) (ae_redis e) (ae_replied e) with
                        | None => (Err (IllegalArgument "capacity and refill rate must be positive"), st)
                        | Some (d, bs) =>
                            let st := mkAuthState (as_keys st) (as_nonces st) bs in
                            (Ok (if allowed d then Authenticated key else Throttled (retryAfterSeconds d)), st)
                        end
                    end
              end
        end
  end.

(** ** AuthInterceptor *)

Definition KEY_ID : string := "x-tapeline-key".
Definition SIGNATURE : string := "x-tapeline-signature".
Definition TIMESTAMP : string := "x-tapeline-timestamp".
Definition NONCE : string := "x-tapeline-nonce".
Definition STREAMING_COST : Z := 10.
Definition UNARY_COST : Z := 1.

(** [String.trim]: the characters up to the space. *)
Fixpoint drop_low (l : list ascii) : list ascii :=
  match l with
  | c :: l' => if byte_of c <=? 32 then drop_low l' else l
  | [] => []
  end.
Definition java_trim (s : string) : string := unchars (rev (drop_low (rev (drop_low (chars s))))).

Definition parseTimestamp (raw : option string) : Z :=
  match raw with
  | None => 0
  | Some raw => if isBlank raw then 0 else match ParseInt (java_trim raw) 10 with inl z => z | inr _ => 0 end
  end.

Inductive grpc_call :=
  | Closed (status : string)
  | Started (key : ApiKey).

(** [Err] is an exception that leaves the interceptor. *)
Definition interceptCall `{UnicodeMap} (st : auth_state) (e : auth_env) (method : string)
    (serverSendsOneMessage : bool) (headers : gmap string string) : res grpc_call * auth_state :=
  let timestamp := parseTimestamp (headers !! TIMESTAMP) in
  let credentials := mkCredentials (headers !! KEY_ID) (headers !! SIGNATURE) (headers !! NONCE) timestamp in
  match newSignedRequest "POST" ("/" +:+ method) timestamp (default "-" (cr_nonce credentials)) EMPTY_BODY_SHA256 with
  | Err err => (Err err, st)
  | Panic => (Panic, st)
  | Ok signed =>
      let cost := if serverSendsOneMessage then UNARY_COST else STREAMING_COST in
      let '(outcome, st) := authenticate st e (Some credentials) signed cost in
      let closed (o : Outcome) : res grpc_call :=
        match o with
        | Authenticated key => Ok (Started key)
        | Throttled _ => Ok (Closed "RESOURCE_EXHAUSTED")
        | Denied _ => Ok (Closed "UNAUTHENTICATED")
        end in
      (match outcome with
       | Ok o => closed o
       | Err (EWrap cls msg) =>
           if String.eqb cls "IllegalArgumentException" then closed (Denied MISSING_CREDENTIALS)
           else Err (EWrap cls msg)
       | Err err => Err err
       | Panic => Panic
       end, st)
  end.
End authenticator.

(** ** Lemmas: nonces *)

Lemma setIfAbsent_spec s key ttl t :
  let '(claimed, s') := setIfAbsent s key ttl t in
  if claimed
  then s' = <[key := t + ttl * 1000]> s /\ (forall d, s !! key = Some d -> d < t)
  else s' = s /\ exists d, s !! key = Some d /\ t <= d.
Proof.
  unfold setIfAbsent. destruct (s !! key) as [d|].
  - destruct (Z.leb_spec t d); (split; [done|]); [by exists d|]. by intros d' [= <-].
  - by split.
Qed.

(** Deadlines of a key never come closer. *)
Definition nonces_le (s s' : nonces) : Prop :=
  forall k d, s !! k = Some d -> exists d', s' !! k = Some d' /\ d <= d'.

#[export] Instance nonces_le_preorder : PreOrder nonces_le.
Proof.
  split.
  - intros s k d Hd. by exists d.
  - intros s1 s2 s3 H12 H23 k d Hd. destruct (H12 k d Hd) as (d' & Hd' & Hle).
    destruct (H23 k d' Hd') as (d'' & Hd'' & Hle'). exists d''. split; [done|lia].
Qed.

Lemma java_abs_window skew now ts : 0 <= skew -> 0 <= now < two63 -> 0 <= ts < two63 ->
  java_abs (wrap64 (now - ts)) <= skew -> ts - skew <= now <= ts + skew.
Proof.
  intros Hs Hn Ht. rewrite wrap64_id by int_lia. unfold java_abs.
  destruct (Z.ltb_spec (now - ts) 0); [rewrite wrap64_id by int_lia|]; lia.
Qed.

(** What a check does: it leaves the nonces alone, or claims one that was free. *)
Lemma replay_check_spec skew s id nonce ts now t :
  let '(r, s') := replay_check skew s id nonce ts now t in
  match r with
  | OK => java_abs (wrap64 (now / 1000 - ts)) <= skew
      /\ s' = <[nonce_key id nonce := t + skew * 2 * 1000]> s
      /\ (forall d, s !! nonce_key id nonce = Some d -> d < t)
  | TIMESTAMP_OUT_OF_WINDOW => s' = s /\ skew < java_abs (wrap64 (now / 1000 - ts))
  | NONCE_REUSED => s' = s /\ exists d, s !! nonce_key id nonce = Some d /\ t <= d
  end.
Proof.
  unfold replay_check. destruct (Z.ltb_spec skew (java_abs (wrap64 (now / 1000 - ts)))); [done|].
  pose proof (setIfAbsent_spec s (nonce_key id nonce) (skew * 2) t) as Hs.
  destruct (setIfAbsent _ _ _ _) as [[] s']; [by destruct Hs|done].
Qed.

(** ** Lemmas: a call of the authenticator *)

Section authenticator.
Context `{Crypto} (skew : Z).

(** The request is signed by the holder of [key], whom the repository vouches for. *)
Definition genuine (st : auth_state) (e : auth_env) (credentials : option Credentials) (request : SignedRequest)
    (key : ApiKey) : Prop :=
  exists c s, credentials = Some c /\ isComplete c = true
    /\ (findByKeyId (as_keys st) (ae_db e) (ae_now e) (cr_keyId c)).1 = Ok (Some key)
    /\ isUsable key = true /\ secret key = Some s
    /\ verify (mkHmacSigner s) request (cr_signature c) = true.

(** The nonce of the request is fresh and is claimed. *)
Definition claims (st : auth_state) (e : auth_env) (request : SignedRequest) (key : ApiKey) (st' : auth_state) : Prop :=
  let k := nonce_key (keyId key) (sr_nonce request) in
  java_abs (wrap64 (ae_now e / 1000 - sr_timestampSeconds request)) <= skew
  /\ (forall d, as_nonces st !! k = Some d -> d < ae_redis e)
  /\ as_nonces st' = <[k := ae_redis e + skew * 2 * 1000]> (as_nonces st).

Lemma usable_signer key : isUsable key = true ->
  exists s, secret key = Some s /\ newHmacSigner (default "" (secret key)) = Ok (mkHmacSigner s).
Proof.
  unfold isUsable, newHmacSigner. destruct (secret key) as [s|]; [|by rewrite andb_false_r].
  intros [_ Hb%negb_true_iff]%andb_true_iff. exists s. cbn. by rewrite Hb.
Qed.

Lemma authenticate_cases st e cr req cost :
  let '(o, st') := authenticate skew st e cr req cost in
  (as_nonces st' = as_nonces st /\ as_buckets st' = as_buckets st
   /\ forall key t, o <> Ok (Authenticated key) /\ o <> Ok (Throttled t))
  \/ exists key, genuine st e cr req key /\ claims st e req key st'
     /\ match tryConsume (as_buckets st) (keyId key) (rateLimitCapacity key) (rateLimitRefillPerSecond key) cost
                (ae_now e) (ae_redis e) (ae_replied e) with
        | None => as_buckets st' = as_buckets st /\ exists msg, o = Err (IllegalArgument msg)
        | Some (d, bs) => as_buckets st' = bs
            /\ o = Ok (if allowed d then Authenticated key else Throttled (retryAfterSeconds d))
        end.
Proof.
  unfold authenticate. destruct cr as [c|]; [|by left].
  destruct (isComplete c) eqn:Hc; cbn [negb]; [|by left].
  destruct (findByKeyId _ _ _ _) as [found cache] eqn:Hf.
  destruct found as [[key|]|err|]; [|by left..].
  destruct (isUsable key) eqn:Hu; cbn [negb]; [|by left].
  destruct (usable_signer key Hu) as (s & Hs & ->).
  destruct (verify (mkHmacSigner s) req (cr_signature c)) eqn:Hv; cbn [negb]; [|by left].
  cbn [as_nonces as_keys as_buckets].
  pose proof (replay_check_spec skew (as_nonces st) (keyId key) (sr_nonce req) (sr_timestampSeconds req)
                (ae_now e) (ae_redis e)) as Hr.
  destruct (replay_check _ _ _ _ _ _ _) as [[] ns]; [|destruct Hr as [-> _]; by left..].
  destruct Hr as (Hw & -> & Hfree).
  assert (genuine st e (Some c) req key) as Hg by (exists c, s; by rewrite Hf).
  destruct (tryConsume _ _ _ _ _ _ _ _) as [[d bs]|] eqn:Et; right; exists key; rewrite Et;
    (split; [done|]); (split; [done|]); [done|]. split; [done|]. by eexists.
Qed.

(** What leaves the authenticator as an exception: a failure of the repository, which was
    asked for the key of the credentials, or a misconfigured bucket. *)
Lemma findByKeyId_fails cache db now id err :
  (findByKeyId cache db now id).1 = Err err -> exists i, id = Some i /\ db i = Err err.
Proof.
  unfold findByKeyId. destruct id as [i|]; [|done]. destruct (isBlank i); [done|].
  assert (forall l : res (option ApiKey) * key_cache,
    l = match db i with
        | Ok loaded => (Ok loaded, <[i := mkCacheEntry loaded (now + CACHE_TTL)]> cache)
        | Err e => (Err e, cache)
        | Panic => (Panic, cache)
        end -> l.1 = Err err -> exists i', Some i = Some i' /\ db i' = Err err) as Hload.
  { intros l -> Hl. exists i. destruct (db i); [done| |done]. cbn in Hl. by injection Hl as ->. }
  destruct (cache !! i) as [cached|]; [|by apply Hload]. destruct (isFresh cached now); [done|by apply Hload].
Qed.

Lemma authenticate_fails st e cr req cost err :
  (authenticate skew st e cr req cost).1 = Err err ->
  (exists c id, cr = Some c /\ cr_keyId c = Some id /\ ae_db e id = Err err) \/ exists msg, err = IllegalArgument msg.
Proof.
  unfold authenticate. destruct cr as [c|]; [|done]. destruct (isComplete c); cbn [negb]; [|done].
  pose proof (findByKeyId_fails (as_keys st) (ae_db e) (ae_now e) (cr_keyId c) err) as Hf.
  destruct (findByKeyId _ _ _ _) as [[[key|]|err'|] cache]; cbn [fst] in *; try done.
  2: { intros [= ->]. left. destruct (Hf eq_refl) as (id & ? & ?). by exists c, id. }
  destruct (isUsable key) eqn:Hu; cbn [negb]; [|done]. destruct (usable_signer key Hu) as (s & _ & ->).
  destruct (verify _ _ _); cbn [negb]; [|done].
  destruct (replay_check _ _ _ _ _ _ _) as [[] ns]; [|done..].
  destruct (tryConsume _ _ _ _ _ _ _ _) as [[d bs]|]; [done|]. intros [= <-]. right. by eexists.
Qed.

(** A sequence of calls. *)
Definition auth_call : Type := auth_env * option Credentials * SignedRequest * Z.
Fixpoint auth_run (st : auth_state) (calls : list auth_call) : list (res Outcome) * auth_state :=
  match calls with
  | [] => ([], st)
  | (e, cr, req, cost) :: calls' =>
      let '(o, st1) := authenticate skew st e cr req cost in
      let '(os, st2) := auth_run st1 calls' in
      (o :: os, st2)
  end.

Lemma authenticate_nonces st e cr req cost : 0 <= skew ->
  nonces_le (as_nonces st) (as_nonces (authenticate skew st e cr req cost).2).
Proof.
  intros Hs. pose proof (authenticate_cases st e cr req cost) as Hc.
  destruct (authenticate _ _ _ _ _ _) as [o st']. cbn [snd].
  destruct Hc as [[-> _]|(key & _ & (_ & Hfree & ->) & _)]; [done|].
  intros k d Hd. destruct (decide (k = nonce_key (keyId key) (sr_nonce req))) as [->|Hk].
  - rewrite lookup_insert_eq. eexists. split; [done|]. specialize (Hfree d Hd). lia.
  - rewrite lookup_insert_ne by done. by exists d.
Qed.

Lemma auth_run_nonces calls : 0 <= skew -> forall st,
  nonces_le (as_nonces st) (as_nonces (auth_run st calls).2).
Proof.
  intros Hs. induction calls as [|[[[e cr] req] cost] calls IH]; intros st; [done|]. cbn [auth_run].
  pose proof (authenticate_nonces st e cr req cost Hs) as Hn.
  destruct (authenticate _ _ _ _ _ _) as [o st1]. specialize (IH st1).
  destruct (auth_run st1 calls) as [os st2]. cbn [snd] in *. by etransitivity.
Qed.

Lemma authenticated_claims st e cr req cost key st' :
  authenticate skew st e cr req cost = (Ok (Authenticated key), st') ->
  genuine st e cr req key /\ claims st e req key st'.
Proof.
  intros E. pose proof (authenticate_cases st e cr req cost) as Hc. rewrite E in Hc.
  destruct Hc as [(_ & _ & Hno)|(key' & Hg & Hcl & Ht)]; [by destruct (Hno key 0)|].
  destruct (tryConsume _ _ _ _ _ _ _ _) as [[d bs]|].
  - destruct Ht as [_ Ho]. destruct (allowed d); [|done]. injection Ho as <-. done.
  - destruct Ht as (_ & msg & Ho). done.
Qed.
End authenticator.

(** ** Examples *)

Definition sample_key : ApiKey := mkApiKey "tk" (Some "s") "owner" 10 (f64_of_Z 1) true 0.
Definition sample_db : database := fun id => Ok (if String.eqb id "tk" then Some sample_key else None).
Definition signed_request : SignedRequest := mkSignedRequest "POST" "/q" 1000 "n" "h".
Definition sample_credentials : Credentials :=
  mkCredentials (Some "tk") (Some (@sign_request toy_crypto (mkHmacSigner "s") signed_request)) (Some "n") 1000.
Definition at_time (now : Z) : auth_env := mkAuthEnv sample_db now now true.
Definition fresh_state : auth_state := mkAuthState ∅ ∅ ∅.
(** ** Properties *)

(** What the interceptor signs and presents of a call. *)
Definition call_credentials (headers : gmap string string) : Credentials :=
  mkCredentials (headers !! KEY_ID) (headers !! SIGNATURE) (headers !! NONCE) (parseTimestamp (headers !! TIMESTAMP)).
Definition call_request `{Crypto, UnicodeMap} (method : string) (headers : gmap string string) : res SignedRequest :=
  newSignedRequest "POST" ("/" +:+ method) (parseTimestamp (headers !! TIMESTAMP)) (default "-" (headers !! NONCE))
    EMPTY_BODY_SHA256.


Lemma slash_not_blank path : isBlank ("/" +:+ path) = false.
Proof. reflexivity. Qed.

(** A blank nonce does not reach the authenticator: the request is built outside the
    [try] that its comment says catches it, so the exception leaves the interceptor. *)
Theorem blank_nonce_escapes `{Crypto, UnicodeMap} skew st e method unary headers nonce :
  headers !! NONCE = Some nonce -> isBlank nonce = true ->
  (interceptCall skew st e method unary headers).1 = Err (IllegalArgument "nonce is required").
Proof.
  intros Hn Hb. unfold interceptCall.
  assert (newSignedRequest "POST" ("/" +:+ method) (parseTimestamp (headers !! TIMESTAMP))
            (default "-" (headers !! NONCE)) EMPTY_BODY_SHA256 = Err (IllegalArgument "nonce is required")) as E.
  { rewrite Hn. unfold newSignedRequest. rewrite slash_not_blank. cbn. by rewrite Hb. }
  cbn [cr_nonce]. by rewrite E.
Qed.

Lemma blank_nonce_escapes_witness :
  (@interceptCall toy_crypto 30 unicode_id fresh_state (at_time 970000) "m" true {[NONCE := " "]}).1
  = Err (IllegalArgument "nonce is required").
Proof. refine (@blank_nonce_escapes toy_crypto unicode_id 30 fresh_state (at_time 970000) "m" true {[NONCE := " "]} " " _ _); reflexivity. Defined.

(** C16. A request is used once. Suppose a request has been let through, then any other
    calls were made, and then a request of the same key with the same nonce and timestamp
    is let through again, with the clocks of the server and of Redis in agreement. Then
    the first was let through in the very first second of its window (dated exactly the
    skew ahead of the server) and the second in its very last second: at every other
    time the first use is the only one. *)
Theorem request_used_once `{Crypto} skew st e1 cr1 req1 cost1 mid e2 cr2 req2 cost2 key1 key2 :
  0 <= skew ->
  let '(o1, st1) := authenticate skew st e1 cr1 req1 cost1 in
  let '(o2, _) := authenticate skew (auth_run skew st1 mid).2 e2 cr2 req2 cost2 in
  o1 = Ok (Authenticated key1) -> o2 = Ok (Authenticated key2) ->
  keyId key1 = keyId key2 -> sr_nonce req1 = sr_nonce req2 ->
  sr_timestampSeconds req1 = sr_timestampSeconds req2 -> 0 <= sr_timestampSeconds req1 < two63 ->
  ae_redis e1 = ae_now e1 -> ae_redis e2 = ae_now e2 ->
  0 <= ae_now e1 < two63 -> 0 <= ae_now e2 < two63 ->
  ae_now e1 / 1000 = sr_timestampSeconds req1 - skew /\ ae_now e2 / 1000 = sr_timestampSeconds req1 + skew.
Proof.
  intros Hs. destruct (authenticate skew st e1 cr1 req1 cost1) as [o1 st1] eqn:E1.
  destruct (authenticate skew (auth_run skew st1 mid).2 e2 cr2 req2 cost2) as [o2 st3] eqn:E2.
  intros -> -> Hid Hnonce Hts Htr Hc1 Hc2 Hn1 Hn2.
  apply authenticated_claims in E1 as [_ (Hw1 & _ & Hst1)]. apply authenticated_claims in E2 as [_ (Hw2 & Hfree & _)].
  rewrite <- Hid, <- Hnonce in Hfree. rewrite <- Hts in Hw2.
  destruct (auth_run_nonces skew mid Hs st1 (nonce_key (keyId key1) (sr_nonce req1)) (ae_redis e1 + skew * 2 * 1000))
    as (d & Hd & Hle); [rewrite Hst1; apply lookup_insert_eq|].
  specialize (Hfree d Hd). rewrite Hc1 in Hle. rewrite Hc2 in Hfree.
  pose proof (Z.div_mod (ae_now e1) 1000). pose proof (Z.mod_pos_bound (ae_now e1) 1000).
  pose proof (Z.div_mod (ae_now e2) 1000). pose proof (Z.mod_pos_bound (ae_now e2) 1000).
  assert (forall t, 0 <= t < two63 -> 0 <= t / 1000 < two63) as Hsec
    by (intros t Ht; split; [apply Z.div_pos; lia|apply Z.div_lt_upper_bound; int_lia]).
  pose proof (java_abs_window skew _ _ Hs (Hsec _ Hn1) Htr Hw1).
  pose proof (java_abs_window skew _ _ Hs (Hsec _ Hn2) Htr Hw2). lia.
Qed.

Definition try (st : auth_state) (now : Z) : res Outcome * auth_state :=
  @authenticate toy_crypto 30 st (at_time now) (Some sample_credentials) signed_request 1.

(** The last second is real: the same signed request is let through at both ends of its
    window, sixty seconds apart, and refused in between. *)
Theorem edge_of_window_replay :
  let '(o1, st1) := try fresh_state 970000 in
  let '(o2, st2) := try st1 1030000 in
  let '(o3, st3) := try st2 1030001 in
  (o1, o2, o3) = (Ok (Authenticated sample_key), Ok (Denied REPLAYED_NONCE), Ok (Authenticated sample_key)).
Proof. vm_compute. reflexivity. Qed.

Lemma request_used_once_witness : 970000 / 1000 = 1000 - 30 /\ 1030001 / 1000 = 1000 + 30.
Proof.
  pose proof (@request_used_once toy_crypto 30 fresh_state (at_time 970000) (Some sample_credentials) signed_request 1
    [] (at_time 1030001) (Some sample_credentials) signed_request 1 sample_key sample_key ltac:(lia)) as Hu.
  change (@authenticate toy_crypto 30 fresh_state (at_time 970000) (Some sample_credentials) signed_request 1)
    with (try fresh_state 970000) in Hu.
  destruct (try fresh_state 970000) as [o1 st1] eqn:E1.
  change (auth_run 30 st1 []).2 with st1 in Hu.
  change (@authenticate toy_crypto 30 st1 (at_time 1030001) (Some sample_credentials) signed_request 1)
    with (try st1 1030001) in Hu.
  assert (o1 = Ok (Authenticated sample_key)) as H1.
  { change o1 with (o1, st1).1. rewrite <- E1. vm_compute. reflexivity. }
  assert ((try st1 1030001).1 = Ok (Authenticated sample_key)) as H2.
  { change st1 with (o1, st1).2. rewrite <- E1. vm_compute. reflexivity. }
  destruct (try st1 1030001) as [o2 st2]. cbn in H2.
  apply Hu; try reflexivity; try assumption; vm_compute; intuition congruence.
Defined.

(** ** The key of a nonce *)

(** The namespace separates the tenants whose key id has no colon. *)
Theorem nonce_key_injective id1 n1 id2 n2 :
  ":"%char ∉ chars id1 -> ":"%char ∉ chars id2 -> nonce_key id1 n1 = nonce_key id2 n2 -> id1 = id2 /\ n1 = n2.
Proof.
  intros H1 H2 E. unfold nonce_key in E. apply (f_equal chars) in E. rewrite !chars_app in E.
  apply app_inv_head in E. change (chars ":") with [":"%char] in E. cbn [app] in E.
  apply (f_equal (cut_chars ":")) in E. rewrite !cut_chars_app in E by done.
  injection E as E1 E2. split; by apply chars_inj.
Qed.
Lemma nonce_key_injective_witness : "tk" = "tk" /\ "n:1" = "n:1".
Proof. refine (nonce_key_injective "tk" "n:1" "tk" "n:1" _ _ eq_refl); by apply no_char. Defined.

(** With one, a tenant burns the nonces of another, although the namespace is there to
    prevent it. *)
Theorem nonce_key_collision : nonce_key "acme" "eu:1" = nonce_key "acme:eu" "1".
Proof. reflexivity. Qed.

(** ** The cache of the keys *)

(** Every entry is what the table said when it was loaded. *)
Definition loaded_from (seen : list (Z * database)) (cache : key_cache) : Prop :=
  forall id entry, cache !! id = Some entry -> exists t db, (t, db) ∈ seen
    /\ db id = Ok (ce_value entry) /\ expiresAtMillis entry = t + CACHE_TTL.

Lemma findByKeyId_spec seen cache db now id :
  loaded_from seen cache ->
  let '(r, cache') := findByKeyId cache db now (Some id) in
  loaded_from (seen ++ [(now, db)]) cache'
  /\ (isBlank id = false -> r = db id \/ exists t db', (t, db') ∈ seen /\ now < t + CACHE_TTL /\ r = db' id).
Proof.
  intros Hl. assert (loaded_from (seen ++ [(now, db)]) cache) as Hkeep.
  { intros i x Hx. destruct (Hl i x Hx) as (t & db' & Hin & Hdb & He). exists t, db'.
    split; [apply elem_of_app; by left|done]. }
  assert (forall v, db id = Ok v -> loaded_from (seen ++ [(now, db)]) (<[id := mkCacheEntry v (now + CACHE_TTL)]> cache)) as Hnew.
  { intros v Hv i x Hx. apply lookup_insert_Some in Hx as [[<- <-]|[_ Hx]]; [|by apply Hkeep].
    exists now, db. split; [apply elem_of_app; right; by apply list_elem_of_singleton|done]. }
  unfold findByKeyId. destruct (isBlank id); [done|].
  assert (let '(r, cache') := match db id with
            | Ok loaded => (Ok loaded, <[id := mkCacheEntry loaded (now + CACHE_TTL)]> cache)
            | Err e => (Err e, cache) | Panic => (Panic, cache) end in
          loaded_from (seen ++ [(now, db)]) cache' /\ r = db id) as Hload.
  { destruct (db id) as [v|err|] eqn:E; split; try done. by apply Hnew. }
  destruct (match db id with Ok _ => _ | Err _ => _ | Panic => _ end) as [r cache'].
  destruct Hload as [Hload ->].
  destruct (cache !! id) as [entry|] eqn:Hc; [|by split; [|left]].
  unfold isFresh. destruct (Z.ltb_spec now (expiresAtMillis entry)); [|by split; [|left]].
  split; [done|]. intros _. right. destruct (Hl id entry Hc) as (t & db' & Hin & Hdb & He).
  exists t, db'. split; [done|]. split; [lia|done].
Qed.

(** What the calls saw of the table, and when. *)
Definition seen_by (calls : list auth_call) : list (Z * database) :=
  map (fun '(e, _, _, _) => (ae_now e, ae_db e)) calls.

Lemma loaded_from_app seen seen' cache : loaded_from seen cache -> loaded_from (seen ++ seen') cache.
Proof.
  intros Hl i x Hx. destruct (Hl i x Hx) as (t & db & Hin & H). exists t, db. split; [apply elem_of_app; by left|done].
Qed.

Section cache.
Context `{Crypto} (skew : Z).

Lemma authenticate_keys st e cr req cost seen : loaded_from seen (as_keys st) ->
  loaded_from (seen ++ [(ae_now e, ae_db e)]) (as_keys (authenticate skew st e cr req cost).2).
Proof.
  intros Hl. pose proof (loaded_from_app _ [(ae_now e, ae_db e)] _ Hl) as Hkeep. unfold authenticate.
  destruct cr as [c|]; [|done]. destruct (negb (isComplete c)); [done|].
  assert (loaded_from (seen ++ [(ae_now e, ae_db e)]) (findByKeyId (as_keys st) (ae_db e) (ae_now e) (cr_keyId c)).2) as Hf.
  { destruct (cr_keyId c) as [id|]; [|done]. pose proof (findByKeyId_spec seen _ (ae_db e) (ae_now e) id Hl) as Hs.
    destruct (findByKeyId _ _ _ _). by destruct Hs. }
  destruct (findByKeyId _ _ _ _) as [[[key|]|err|] cache]; try done.
  repeat case_match; done.
Qed.

Lemma auth_run_keys calls : forall st seen, loaded_from seen (as_keys st) ->
  loaded_from (seen ++ seen_by calls) (as_keys (auth_run skew st calls).2).
Proof.
  induction calls as [|[[[e cr] req] cost] calls IH]; intros st seen Hl; cbn [auth_run seen_by map]; [by rewrite app_nil_r|].
  pose proof (authenticate_keys st e cr req cost seen Hl) as Ha.
  destruct (authenticate _ _ _ _ _ _) as [o st1]. specialize (IH st1 _ Ha).
  destruct (auth_run skew st1 calls) as [os st2]. by rewrite <- app_assoc in IH.
Qed.
End cache.

(** The table has no usable key under [id] from the time [T] on. *)
Definition revoked_from (T : Z) (id : string) (seen : list (Z * database)) : Prop :=
  forall t db, (t, db) ∈ seen -> T <= t -> forall key, db id = Ok (Some key) -> isUsable key = false.

(** C17. Revoking a key takes at most the life of a cache entry. If from some time on the
    table has no usable key under an id, then thirty seconds later no request for that id
    is let through, throttled or allowed to claim a nonce or a token, whatever was asked
    before and however the clock of the server moved; and [invalidate] makes the table
    be asked at once. *)
Theorem revocation_takes_effect `{Crypto} skew calls e c req cost id T :
  cr_keyId c = Some id -> isBlank id = false ->
  revoked_from T id (seen_by calls ++ [(ae_now e, ae_db e)]) -> T + CACHE_TTL <= ae_now e ->
  let st := (auth_run skew fresh_state calls).2 in
  let '(o, st') := authenticate skew st e (Some c) req cost in
  (forall key t, o <> Ok (Authenticated key) /\ o <> Ok (Throttled t))
  /\ as_nonces st' = as_nonces st /\ as_buckets st' = as_buckets st
  /\ (findByKeyId (invalidate (as_keys st) id) (ae_db e) (ae_now e) (Some id)).1 = ae_db e id.
Proof.
  intros Hid Hb Hrev HT st.
  assert (loaded_from (seen_by calls) (as_keys st)) as Hl
    by (apply (auth_run_keys skew calls fresh_state []); intros i x Hx; cbn in Hx; by rewrite lookup_empty in Hx).
  pose proof (authenticate_cases skew st e (Some c) req cost) as Hc.
  destruct (authenticate _ _ _ _ _ _) as [o st'].
  destruct Hc as [(Hn & Hbk & Hno)|(key & (c' & s & [= <-] & _ & Hf & Hu & _) & _)].
  - split; [done|]. do 2 (split; [done|]). unfold findByKeyId, invalidate. rewrite Hb, lookup_delete_eq.
    by destruct (ae_db e id).
  - exfalso. rewrite Hid in Hf. pose proof (findByKeyId_spec _ _ (ae_db e) (ae_now e) id Hl) as Hs.
    destruct (findByKeyId _ _ _ _) as [r cache]. cbn [fst] in Hf. destruct Hs as [_ Hs]. rewrite Hf in Hs.
    apply not_false_iff_true in Hu. apply Hu. destruct (Hs Hb) as [Hdb|(t & db & Hin & Ht & Hdb)].
    + apply (Hrev (ae_now e) (ae_db e)); [apply elem_of_app; right; by apply list_elem_of_singleton| |done].
      unfold CACHE_TTL in HT. lia.
    + apply (Hrev t db); [apply elem_of_app; by left| |done]. lia.
Qed.

Definition revoked_db : database := fun _ => Ok None.
(** The cache does keep a revoked key: a request just before the end of its entry is let through. *)
Example revoked_key_still_cached :
  let '(_, st) := try fresh_state 970000 in
  (@authenticate toy_crypto 30 st (mkAuthEnv revoked_db 999999 999999 true)
     (Some (mkCredentials (Some "tk") (Some (@sign_request toy_crypto (mkHmacSigner "s")
        (mkSignedRequest "POST" "/q" 1000 "n2" "h"))) (Some "n2") 1000)) (mkSignedRequest "POST" "/q" 1000 "n2" "h") 1).1
  = Ok (Authenticated sample_key).
Proof. vm_compute. reflexivity. Qed.

Lemma revocation_takes_effect_witness :
  let st := (@auth_run toy_crypto 30 fresh_state [(at_time 970000, Some sample_credentials, signed_request, 1)]).2 in
  let '(o, _) := @authenticate toy_crypto 30 st (mkAuthEnv revoked_db 1000001 1000001 true) (Some sample_credentials)
                   signed_request 1 in
  o <> Ok (Authenticated sample_key).
Proof.
  assert (revoked_from 970001 "tk" (seen_by [(at_time 970000, Some sample_credentials, signed_request, 1)]
            ++ [(1000001, revoked_db)])) as Hrev.
  { intros t db Hin Ht key Hk. cbn in Hin. apply elem_of_cons in Hin as [[= -> ->]|Hin]; [lia|].
    apply list_elem_of_singleton in Hin as [= -> ->]. discriminate Hk. }
  pose proof (@revocation_takes_effect toy_crypto 30 [(at_time 970000, Some sample_credentials, signed_request, 1)]
    (mkAuthEnv revoked_db 1000001 1000001 true) (mkCredentials (Some "tk") (cr_signature sample_credentials) (Some "n") 1000)
    signed_request 1 "tk" 970001 eq_refl eq_refl Hrev ltac:(vm_compute; discriminate)) as Hr.
  cbn zeta in Hr |- *. change (mkCredentials (Some "tk") (cr_signature sample_credentials) (Some "n") 1000)
    with sample_credentials in Hr.
  destruct (authenticate _ _ _ _ _ _) as [o st']. destruct Hr as [Hr _]. apply (Hr sample_key 0).
Defined.
