(* ===== verification/Broadcaster.v ===== *)
(** * Serving tier: the quote broadcaster

    src/serving/src/main/java/io/tapeline/serving/quotes/QuoteBroadcaster.java. Sets of
    listeners are objects: the map of symbols holds their identities, and a thread that
    has got one keeps it in a local variable ([reg]) while others change the map. What
    [ConcurrentHashMap] does atomically is one action; every subscription is a thread that
    runs [subscribe] and later [close], a listener is its subscription, and an execution
    is any schedule of the threads. [symbols] is a set, a list without repetition. *)

From S2P Require Import Prelude.

Local Open Scope Z_scope.

(** ** Actions *)

Inductive action :=
  | ComputeIfAbsent (s : string)      (* listenersBySymbol.computeIfAbsent *)
  | Add (s : string)                  (* the set's add *)
  | Increment                         (* subscriberCount.incrementAndGet *)
  | Get (s : string)                  (* close: listenersBySymbol.get *)
  | Remove (s : string)               (* the set's remove, if there is one *)
  | Prune (s : string)                (* computeIfPresent: an empty set is unmapped *)
  | Decrement.

Definition subscribe (symbols : list string) : list action :=
  concat (map (fun s => [ComputeIfAbsent s; Add s]) symbols) ++ [Increment].
Definition close (symbols : list string) : list action :=
  concat (map (fun s => [Get s; Remove s; Prune s]) symbols) ++ [Decrement].

Record subscriber := mkSubscriber { symbols : list string; reg : option nat; todo : list action }.
Definition new_subscriber (symbols : list string) : subscriber :=
  mkSubscriber symbols None (subscribe symbols ++ close symbols).

Record broadcaster := mkBroadcaster {
  listenersBySymbol : gmap string nat;   (* the identity of the set of a symbol *)
  sets : gmap nat (gset nat);            (* the members of a set *)
  next_id : nat;
  subscriberCount : Z }.
Definition new_broadcaster : broadcaster := mkBroadcaster ∅ ∅ 0 0.

Definition set_of (b : broadcaster) (id : nat) : gset nat := default ∅ (sets b !! id).
Definition put_set (b : broadcaster) (id : nat) (ls : gset nat) : broadcaster :=
  mkBroadcaster (listenersBySymbol b) (<[id := ls]> (sets b)) (next_id b) (subscriberCount b).
Definition with_count (b : broadcaster) (c : Z) : broadcaster :=
  mkBroadcaster (listenersBySymbol b) (sets b) (next_id b) c.

(** One action of the thread [l], with its local variable before and after. *)
Definition act (b : broadcaster) (l : nat) (r : option nat) (a : action) : broadcaster * option nat :=
  match a with
  | ComputeIfAbsent s =>
      match listenersBySymbol b !! s with
      | Some id => (b, Some id)
      | None => (mkBroadcaster (<[s := next_id b]> (listenersBySymbol b)) (<[next_id b := ∅]> (sets b))
                   (S (next_id b)) (subscriberCount b), Some (next_id b))
      end
  | Add s => (match r with Some id => put_set b id ({[l]} ∪ set_of b id) | None => b end, r)
  | Increment => (with_count b (subscriberCount b + 1), r)
  | Get s => (b, listenersBySymbol b !! s)
  | Remove s => (match r with Some id => put_set b id (set_of b id ∖ {[l]}) | None => b end, r)
  | Prune s =>
      (match r, listenersBySymbol b !! s with
       | Some _, Some id =>
           if decide (set_of b id = ∅)
           then mkBroadcaster (delete s (listenersBySymbol b)) (sets b) (next_id b) (subscriberCount b)
           else b
       | _, _ => b
       end, r)
  | Decrement => (with_count b (subscriberCount b - 1), r)
  end.

(** The members of the set that the map holds for a symbol: whom a publish finds that
    starts now. The actions of [publish] are in Fanout.v. *)
Definition receivers (b : broadcaster) (symbol : string) : gset nat :=
  match listenersBySymbol b !! symbol with Some id => set_of b id | None => ∅ end.
Definition symbolCount (b : broadcaster) : nat := size (listenersBySymbol b).

(** ** Executions *)

Record bstate := mkBstate { b_shared : broadcaster; b_threads : list subscriber }.
Definition bstart (subs : list (list string)) : bstate := mkBstate new_broadcaster (map new_subscriber subs).

(** The next action of a thread; a thread that is done does nothing. *)
Definition bstep (st : bstate) (l : nat) : bstate :=
  match b_threads st !! l with
  | Some t =>
      match todo t with
      | a :: rest =>
          let '(b, r) := act (b_shared st) l (reg t) a in
          mkBstate b (<[l := mkSubscriber (symbols t) r rest]> (b_threads st))
      | [] => st
      end
  | None => st
  end.
Definition brun (st : bstate) (schedule : list nat) : bstate := fold_left bstep schedule st.

(** A subscription whose [close] has returned; with [close] left to do it is open. *)
Definition is_closed (t : subscriber) : Prop := todo t = [].

(** ** The invariant *)

#[export] Instance action_eq_dec : EqDecision action.
Proof. solve_decision. Defined.

(** No other symbol is mapped to the set. *)
Definition only (b : broadcaster) (id : nat) (s : string) : Prop :=
  (id < next_id b)%nat /\ forall s', listenersBySymbol b !! s' = Some id -> s' = s.
Definition within (b : broadcaster) (l : nat) (ss : list string) : Prop := forall s, l ∈ receivers b s -> s ∈ ss.

(** Where a thread is, and which symbols it may be reached under. *)
Inductive thread_ok (b : broadcaster) (l : nat) (t : subscriber) : Prop :=
  | at_subscribe past rest :
      symbols t = past ++ rest -> todo t = subscribe rest ++ close (symbols t) -> within b l past -> thread_ok b l t
  | at_add past s rest id :
      symbols t = past ++ s :: rest -> todo t = Add s :: subscribe rest ++ close (symbols t) -> within b l past ->
      reg t = Some id -> only b id s -> thread_ok b l t
  | at_close past rest :
      symbols t = past ++ rest -> todo t = close rest -> within b l rest -> thread_ok b l t
  | at_remove past s rest :
      symbols t = past ++ s :: rest -> todo t = Remove s :: Prune s :: close rest -> within b l (s :: rest) ->
      (l ∈ receivers b s -> reg t = listenersBySymbol b !! s) -> (forall id, reg t = Some id -> only b id s) ->
      thread_ok b l t
  | at_prune past s rest :
      symbols t = past ++ s :: rest -> todo t = Prune s :: close rest -> within b l rest -> thread_ok b l t
  | at_end : todo t = [] -> within b l [] -> thread_ok b l t.

(** The thread will look at the set of [s] again, and holds one if it is about to. *)
Definition will_prune (t : subscriber) (s : string) : Prop :=
  Prune s ∈ todo t
  /\ match todo t with (Remove s' :: _) | (Prune s' :: _) => (s' = s -> reg t <> None) | _ => True end.

Definition counted (l : list action) : bool := bool_decide ((Increment ∉ l) /\ (Decrement ∈ l)).
Definition subscribed (t : subscriber) : bool := counted (todo t).
Definition open_count (ts : list subscriber) : nat := sum_list_with (fun t => if subscribed t then 1%nat else 0%nat) ts.

Record binv (st : bstate) : Prop := {
  i_ids : forall s id, listenersBySymbol (b_shared st) !! s = Some id -> only (b_shared st) id s;
  i_members : forall id l, l ∈ set_of (b_shared st) id -> (l < length (b_threads st))%nat;
  i_threads : forall l t, b_threads st !! l = Some t -> thread_ok (b_shared st) l t;
  i_kept : forall s id, listenersBySymbol (b_shared st) !! s = Some id ->
    set_of (b_shared st) id <> ∅ \/ (exists l t, b_threads st !! l = Some t /\ will_prune t s);
  i_count : subscriberCount (b_shared st) = Z.of_nat (open_count (b_threads st)) }.

(** ** Lemmas: one action *)

Lemma set_of_put b id ls id' : set_of (put_set b id ls) id' = if decide (id' = id) then ls else set_of b id'.
Proof.
  unfold set_of. cbn. destruct (decide (id' = id)) as [->|]; [by rewrite lookup_insert_eq|by rewrite lookup_insert_ne].
Qed.

Lemma receivers_put b id ls s : listenersBySymbol b !! s = Some id -> receivers (put_set b id ls) s = ls.
Proof. intros Hs. unfold receivers. cbn. by rewrite Hs, set_of_put, decide_True. Qed.

Lemma receivers_mapped b s l : l ∈ receivers b s -> exists id, listenersBySymbol b !! s = Some id /\ l ∈ set_of b id.
Proof. unfold receivers. destruct (listenersBySymbol b !! s) as [id|]; [by exists id|by intros ?%elem_of_empty]. Qed.

(** An action reaches no listener it did not reach before, but for the one that is added;
    and it maps a symbol to a new set or leaves it alone. *)
Lemma act_spec b l r a :
  (forall s id, listenersBySymbol b !! s = Some id -> (id < next_id b)%nat) ->
  let b' := (act b l r a).1 in
  (forall s l', l' ∈ receivers b' s ->
     listenersBySymbol b' !! s = listenersBySymbol b !! s
     /\ (l' ∈ receivers b s
         \/ (l' = l /\ exists s0 id, a = Add s0 /\ r = Some id /\ listenersBySymbol b !! s = Some id)))
  /\ (next_id b <= next_id b')%nat
  /\ (forall s id, listenersBySymbol b' !! s = Some id -> (id < next_id b')%nat
        /\ ((id < next_id b)%nat -> listenersBySymbol b !! s = Some id)).
Proof.
  intros Hid. destruct a as [s0|s0| |s0|s0|s0|]; cbn [act].
  - destruct (listenersBySymbol b !! s0) as [id0|] eqn:E0; cbn [fst]; [split; [by auto|split; [lia|by eauto]]|].
    cbn [listenersBySymbol next_id]. split; [|split; [lia|]].
    + intros s l' Hl. apply receivers_mapped in Hl as (id & Hs & Hin). cbn [listenersBySymbol] in *.
      apply lookup_insert_Some in Hs as [[<- <-]|[Hne Hs]].
      * unfold set_of in Hin. cbn in Hin. rewrite lookup_insert_eq in Hin. by apply elem_of_empty in Hin.
      * rewrite lookup_insert_ne by done. split; [done|]. left. unfold receivers. rewrite Hs.
        unfold set_of in Hin. cbn in Hin. rewrite lookup_insert_ne in Hin; [done|]. specialize (Hid s id Hs). lia.
    + intros s id Hs. apply lookup_insert_Some in Hs as [[<- <-]|[Hne Hs]]; [lia|]. specialize (Hid s id Hs). split; [lia|done].
  - destruct r as [id0|]; cbn [fst]; [|split; [by auto|split; [lia|by eauto]]]. split; [|split; [cbn; lia|by eauto]].
    intros s l' Hl. apply receivers_mapped in Hl as (id & Hs & Hin). cbn in Hs |- *. split; [done|].
    rewrite set_of_put in Hin. unfold receivers. rewrite Hs. destruct (decide (id = id0)) as [->|]; [|by left].
    apply elem_of_union in Hin as [->%elem_of_singleton|Hin]; [right|by left]. split; [done|]. by exists s0, id0.
  - cbn. split; [by auto|split; [lia|by eauto]].
  - cbn. split; [by auto|split; [lia|by eauto]].
  - destruct r as [id0|]; cbn [fst]; [|split; [by auto|split; [lia|by eauto]]]. split; [|split; [cbn; lia|by eauto]].
    intros s l' Hl. apply receivers_mapped in Hl as (id & Hs & Hin). cbn in Hs |- *. split; [done|]. left.
    rewrite set_of_put in Hin. unfold receivers. rewrite Hs. destruct (decide (id = id0)) as [->|]; [|done].
    by apply elem_of_difference in Hin as [].
  - assert (forall b1 : broadcaster, b1 = b \/ b1 = mkBroadcaster (delete s0 (listenersBySymbol b)) (sets b) (next_id b) (subscriberCount b) ->
      (forall s l', l' ∈ receivers b1 s -> listenersBySymbol b1 !! s = listenersBySymbol b !! s /\ l' ∈ receivers b s)
      /\ next_id b1 = next_id b /\ (forall s id, listenersBySymbol b1 !! s = Some id -> listenersBySymbol b !! s = Some id)) as Hd.
    { intros b1 [-> | ->]; [by auto|]. cbn. split; [|split; [done|]].
      - intros s l' Hl. apply receivers_mapped in Hl as (id & Hs & Hin). cbn in Hs. rewrite Hs.
        apply lookup_delete_Some in Hs as [_ Hs]. unfold receivers. by rewrite Hs.
      - intros s id Hs. by apply lookup_delete_Some in Hs as []. }
    destruct (Hd (match r, listenersBySymbol b !! s0 with
       | Some _, Some id => if decide (set_of b id = ∅)
           then mkBroadcaster (delete s0 (listenersBySymbol b)) (sets b) (next_id b) (subscriberCount b) else b
       | _, _ => b end)) as (H1 & H2 & H3).
    { destruct r, (listenersBySymbol b !! s0); auto. destruct (decide _); auto. }
    cbn [fst]. rewrite H2. split; [|split; [lia|]].
    + intros s l' Hl. destruct (H1 s l' Hl). auto.
    + intros s id Hs. specialize (H3 s id Hs). eauto.
  - cbn. split; [by auto|split; [lia|by eauto]].
Qed.

Lemma act_ids b l r a : (forall s id, listenersBySymbol b !! s = Some id -> only b id s) ->
  forall s id, listenersBySymbol (act b l r a).1 !! s = Some id -> only (act b l r a).1 id s.
Proof.
  intros Hid. destruct a as [s0|s0| |s0|s0|s0|]; cbn [act]; try (cbn; exact Hid).
  - destruct (listenersBySymbol b !! s0) as [id0|] eqn:E0; cbn [fst]; [exact Hid|]. intros s id Hs. cbn in Hs.
    unfold only. cbn. apply lookup_insert_Some in Hs as [[<- <-]|[Hne Hs]].
    + split; [lia|]. intros s' Hs'. apply lookup_insert_Some in Hs' as [[<- _]|[_ Hs']]; [done|].
      apply Hid in Hs' as [? _]. lia.
    + destruct (Hid s id Hs) as [Hlt Hu]. split; [lia|]. intros s' Hs'.
      apply lookup_insert_Some in Hs' as [[<- <-]|[_ Hs']]; [lia|by apply Hu].
  - destruct r; cbn; exact Hid.
  - destruct r; cbn; exact Hid.
  - cbn [fst]. destruct r as [id0|]; [|exact Hid]. destruct (listenersBySymbol b !! s0) as [id1|] eqn:E0; [|exact Hid].
    destruct (decide _); [|exact Hid]. intros s id Hs. cbn in Hs. apply lookup_delete_Some in Hs as [_ Hs].
    destruct (Hid s id Hs) as [Hlt Hu]. split; [done|]. cbn. intros s' [_ Hs']%lookup_delete_Some. by apply Hu.
Qed.

Lemma act_members b l r a id l' : l' ∈ set_of (act b l r a).1 id -> l' ∈ set_of b id \/ l' = l.
Proof.
  destruct a as [s0|s0| |s0|s0|s0|]; cbn [act]; try (cbn; by left).
  - destruct (listenersBySymbol b !! s0) as [id0|]; cbn [fst]; [by left|]. unfold set_of. cbn.
    destruct (decide (id = next_id b)) as [->|]; [rewrite lookup_insert_eq; by intros ?%elem_of_empty|].
    rewrite lookup_insert_ne by done. by left.
  - destruct r as [id0|]; cbn [fst]; [|by left]. rewrite set_of_put. destruct (decide (id = id0)) as [->|]; [|by left].
    intros [?%elem_of_singleton|?]%elem_of_union; auto.
  - destruct r as [id0|]; cbn [fst]; [|by left]. rewrite set_of_put. destruct (decide (id = id0)) as [->|]; [|by left].
    intros [? _]%elem_of_difference. by left.
  - cbn [fst]. destruct r, (listenersBySymbol b !! s0); try by left. destruct (decide _); by left.
Qed.

(** ** Lemmas: the threads *)

Lemma subscribe_cons s ss : subscribe (s :: ss) = ComputeIfAbsent s :: Add s :: subscribe ss.
Proof. reflexivity. Qed.
Lemma close_cons s ss : close (s :: ss) = Get s :: Remove s :: Prune s :: close ss.
Proof. reflexivity. Qed.
Lemma close_prune s ss : s ∈ ss -> Prune s ∈ close ss.
Proof.
  induction ss as [|x ss IH]; [by intros ?%elem_of_nil|]. rewrite close_cons, !elem_of_cons.
  intros [->|H]; [auto|]. do 3 right. by apply IH.
Qed.
Lemma close_decrement ss : Decrement ∈ close ss.
Proof. unfold close. apply elem_of_app. right. apply list_elem_of_here. Qed.
Lemma close_increment ss : Increment ∉ close ss.
Proof.
  induction ss as [|x ss IH]; [by intros ?%list_elem_of_singleton|]. rewrite close_cons, !elem_of_cons.
  intros [?|[?|[?|?]]]; done.
Qed.
Lemma subscribe_increment ss rest : Increment ∈ subscribe ss ++ rest.
Proof. apply elem_of_app. left. unfold subscribe. apply elem_of_app. right. apply list_elem_of_here. Qed.

Section step.
Context (b : broadcaster) (l : nat) (Hids : forall s id, listenersBySymbol b !! s = Some id -> only b id s).

Lemma act_after r a (b' := (act b l r a).1) :
  (forall s l', l' ∈ receivers b' s ->
     listenersBySymbol b' !! s = listenersBySymbol b !! s
     /\ (l' ∈ receivers b s
         \/ (l' = l /\ exists s0 id, a = Add s0 /\ r = Some id /\ listenersBySymbol b !! s = Some id)))
  /\ (forall id s, only b id s -> only b' id s).
Proof.
  destruct (act_spec b l r a) as (H1 & H2 & H3); [intros s id Hs; by apply Hids in Hs as []|].
  split; [exact H1|]. intros id s [Hlt Hu]. fold b' in H2, H3. split; [lia|]. intros s' Hs'. apply Hu. by apply H3.
Qed.

(** The other threads stay where they are. *)
Lemma thread_ok_other r a l' t : l' <> l -> thread_ok b l' t -> thread_ok (act b l r a).1 l' t.
Proof.
  intros Hne Hok. destruct (act_after r a) as [Hr Ho].
  assert (forall s, l' ∈ receivers (act b l r a).1 s -> l' ∈ receivers b s
            /\ listenersBySymbol (act b l r a).1 !! s = listenersBySymbol b !! s) as Hback.
  { intros s Hs. destruct (Hr s l' Hs) as (E & [H|[? _]]); done. }
  assert (forall ss, within b l' ss -> within (act b l r a).1 l' ss) as Hw
    by (intros ss Hss s Hs; apply Hss; by apply Hback).
  destruct Hok as [past rest ? ? ?|past s rest id ? ? ? ? ?|past rest ? ? ?|past s rest ? ? ? Hreg Hon|past s rest ? ? ?|? ?].
  - eapply at_subscribe; eauto.
  - eapply at_add; eauto.
  - eapply at_close; eauto.
  - eapply at_remove; eauto. intros Hs. destruct (Hback s Hs) as [Hs' ->]. by apply Hreg.
  - eapply at_prune; eauto.
  - apply at_end; auto.
Qed.

(** A thread moves to its next place. *)
Lemma thread_ok_own t a rest : thread_ok b l t -> todo t = a :: rest ->
  thread_ok (act b l (reg t) a).1 l (mkSubscriber (symbols t) (act b l (reg t) a).2 rest).
Proof.
  intros Hok Ha. destruct (act_after (reg t) a) as [Hr Ho]. set (b' := (act b l (reg t) a).1) in *.
  assert (forall ss, (forall s, a <> Add s) -> within b l ss -> within b' l ss) as Hw.
  { intros ss Hna Hss s Hs. apply Hss. destruct (Hr s l Hs) as (_ & [H|(_ & s0 & _ & H & _)]); [done|by destruct (Hna s0)]. }
  destruct Hok as [past ss E Et Hin|past s ss id E Et Hin Hid Hon|past ss E Et Hin|past s ss E Et Hin Hreg Hon|past s ss E Et Hin|Et Hin];
    rewrite Et in Ha.
  - destruct ss as [|s ss].
    + injection Ha as <- <-. apply (at_close _ _ _ [] (symbols t)); [done..|]. apply Hw; [done|].
      intros s Hs. rewrite E. apply elem_of_app. left. by apply Hin.
    + rewrite subscribe_cons in Ha. injection Ha as <- <-.
      assert (exists id, listenersBySymbol b' !! s = Some id /\ (act b l (reg t) (ComputeIfAbsent s)).2 = Some id) as (id & Hid & Hreg).
      { unfold b'. cbn [act]. destruct (listenersBySymbol b !! s) as [id|] eqn:Es; [by exists id|].
        exists (next_id b). split; [|done]. cbn. by rewrite lookup_insert_eq. }
      apply (at_add _ _ _ past s ss id); [done|done|by apply Hw|done|]. by apply act_ids.
  - injection Ha as <- <-. apply (at_subscribe _ _ _ (past ++ [s]) ss); [by rewrite <- app_assoc|done|].
    intros s' Hs'. apply elem_of_app. destruct (Hr s' l Hs') as (_ & [H|(_ & s0 & id0 & [= <-] & H1 & H2)]); [left; by apply Hin|].
    right. apply list_elem_of_singleton. apply Hon. congruence.
  - destruct ss as [|s ss].
    + injection Ha as <- <-. apply at_end; [done|]. by apply Hw.
    + rewrite close_cons in Ha. injection Ha as <- <-. apply (at_remove _ _ _ past s ss); [done|done|by apply Hw|done|].
      cbn [reg]. intros id Hid. apply Ho, Hids. exact Hid.
  - injection Ha as <- <-. apply (at_prune _ _ _ past s ss); [done|done|]. intros s' Hs'.
    destruct (Hr s' l Hs') as (Es & [H|(_ & s0 & id0 & [=] & _)]). pose proof (Hin s' H) as Hin'. apply elem_of_cons in Hin' as [->|?]; [|done].
    exfalso. specialize (Hreg H). apply receivers_mapped in H as (id & Hid & _). rewrite Hid in Hreg.
    apply receivers_mapped in Hs' as (id' & Hid' & Hl). rewrite Es, Hid in Hid'. injection Hid' as <-.
    unfold b' in Hl. cbn [act] in Hl. rewrite Hreg in Hl. cbn [fst] in Hl. rewrite set_of_put, decide_True in Hl by done.
    apply elem_of_difference in Hl as [_ Hl]. by apply Hl, elem_of_singleton.
  - injection Ha as <- <-. apply (at_close _ _ _ (past ++ [s]) ss); [by rewrite <- app_assoc|done|by apply Hw].
  - done.
Qed.

(** A thread that will look at a set again still will after another action. *)
Lemma will_prune_next t a rest s : thread_ok b l t -> todo t = a :: rest -> will_prune t s -> a <> Prune s ->
  listenersBySymbol b !! s <> None ->
  will_prune (mkSubscriber (symbols t) (act b l (reg t) a).2 rest) s.
Proof.
  intros Hok Ha [Hin Hhead] Hne Hmap. rewrite Ha in Hin, Hhead. split; cbn [todo reg].
  - apply elem_of_cons in Hin as [E|Hin]; [by destruct Hne|done].
  - destruct Hok as [past ss E Et _|past s0 ss id E Et _ _ _|past ss E Et _|past s0 ss E Et _ _ _|past s0 ss E Et _|Et _];
      rewrite Et in Ha.
    + destruct ss as [|s1 ss]; [|rewrite subscribe_cons in Ha]; injection Ha as <- <-; [|done].
      cbn [app]. by destruct (symbols t).
    + injection Ha as <- <-. by destruct ss; [|rewrite subscribe_cons].
    + destruct ss as [|s1 ss]; [|rewrite close_cons in Ha]; injection Ha as <- <-; [done|]. cbn [act snd]. by intros ->.
    + injection Ha as <- <-. exact Hhead.
    + injection Ha as <- <-. by destruct ss; [|rewrite close_cons].
    + done.
Qed.

(** Only [subscribe]'s last action and [close]'s last one change [subscribed]. *)
Lemma no_increment x : Forall (fun a => a <> Increment) x -> Increment ∉ x.
Proof. intros Hx Hin. by apply (proj1 (list.Forall_forall _ _) Hx _ Hin). Qed.
Lemma counted_increment x : Increment ∈ x -> counted x = false.
Proof. intros Hx. apply bool_decide_eq_false_2. by intros [? _]. Qed.
Lemma counted_close x ss : Increment ∉ x -> counted (x ++ close ss) = true.
Proof.
  intros Hx. apply bool_decide_eq_true_2. rewrite !elem_of_app. split; [|right; apply close_decrement].
  intros [?|?]; [done|by eapply close_increment].
Qed.

Lemma subscribed_next t a rest r' : thread_ok b l t -> todo t = a :: rest ->
  (if subscribed (mkSubscriber (symbols t) r' rest) then 1 else 0)
  = (if subscribed t then 1 else 0) + match a with Increment => 1 | Decrement => -1 | _ => 0 end.
Proof.
  intros Hok Ha. unfold subscribed. rewrite Ha. cbn [todo].
  assert (forall x ss, Increment ∉ x -> counted (x ++ close ss) = true) as Hout by (intros; by apply counted_close).
  assert (forall a ss, a <> Increment -> a <> Decrement ->
            counted ([a] ++ close ss) = true /\ Increment ∉ [a]) as Hone.
  { intros a0 ss H1 H2. assert (Increment ∉ [a0]) by (intros ?%list_elem_of_singleton; congruence). auto. }
  destruct Hok as [past ss E Et _|past s0 ss id E Et _ _ _|past ss E Et _|past s0 ss E Et _ _ _|past s0 ss E Et _|Et _];
    rewrite Et in Ha.
  - destruct ss as [|s1 ss].
    + injection Ha as <- <-. assert (counted (close (symbols t)) = true) as -> by (apply (Hout []), not_elem_of_nil).
      by rewrite counted_increment by apply list_elem_of_here.
    + rewrite subscribe_cons in Ha. injection Ha as <- <-. cbn [app].
      rewrite !counted_increment; [done| |]; rewrite !elem_of_cons; right; [right|]; apply subscribe_increment.
  - injection Ha as <- <-. rewrite !counted_increment; [done|rewrite elem_of_cons; right|]; apply subscribe_increment.
  - destruct ss as [|s1 ss].
    + injection Ha as <- <-. assert (counted [Decrement] = true) as -> by (apply (Hout [] []), not_elem_of_nil). done.
    + rewrite close_cons in Ha. injection Ha as <- <-.
      assert (counted (Remove s1 :: Prune s1 :: close ss) = true) as ->
        by (apply (Hout [Remove s1; Prune s1]); apply no_increment; by repeat constructor).
      assert (counted (Get s1 :: Remove s1 :: Prune s1 :: close ss) = true) as ->
        by (apply (Hout [Get s1; Remove s1; Prune s1]); apply no_increment; by repeat constructor). done.
  - injection Ha as <- <-.
    assert (counted (Prune s0 :: close ss) = true) as -> by (by apply Hone).
    assert (counted (Remove s0 :: Prune s0 :: close ss) = true) as ->
      by (apply (Hout [Remove s0; Prune s0]); apply no_increment; by repeat constructor). done.
  - injection Ha as <- <-.
    assert (counted (close ss) = true) as -> by (apply (Hout []), not_elem_of_nil).
    assert (counted (Prune s0 :: close ss) = true) as -> by (by apply Hone). done.
  - done.
Qed.
End step.

(** ** Lemmas: executions *)

(** A set stays as large, unless a thread removes itself; a set that a thread has looked at
    for pruning has members. *)
Lemma act_keeps b l r a s id :
  (forall s id, listenersBySymbol b !! s = Some id -> only b id s) ->
  listenersBySymbol (act b l r a).1 !! s = Some id ->
  (listenersBySymbol b !! s = Some id
   /\ (set_of b id ⊆ set_of (act b l r a).1 id \/ (exists s0, a = Remove s0 /\ r = Some id))
   /\ (a = Prune s -> r = None \/ set_of (act b l r a).1 id <> ∅))
  \/ a = ComputeIfAbsent s.
Proof.
  intros Hids. destruct a as [s0|s0| |s0|s0|s0|]; cbn [act]; try (cbn; left; split; [done|split; [by left|done]]).
  - destruct (listenersBySymbol b !! s0) as [id0|] eqn:E0; cbn [fst]; [left; split; [done|split; [by left|done]]|].
    intros Hs. cbn in Hs. apply lookup_insert_Some in Hs as [[-> <-]|[Hne Hs]]; [by right|]. left. split; [done|].
    split; [left|done]. apply Hids in Hs as [Hlt _]. unfold set_of. cbn. rewrite lookup_insert_ne; [done|lia].
  - destruct r as [id0|]; cbn; intros Hs; left; (split; [done|]); (split; [left|done]); [|done].
    rewrite set_of_put. destruct (decide (id = id0)) as [->|]; [|done]. apply union_subseteq_r.
  - destruct r as [id0|]; cbn; intros Hs; left; (split; [done|]); (split; [|done]); [|by left].
    rewrite set_of_put. destruct (decide (id = id0)) as [->|]; [right|by left]. by exists s0.
  - cbn [fst]. destruct r as [id0|]; [|intros Hs; left; split; [done|split; [by left|by left]]].
    destruct (listenersBySymbol b !! s0) as [id1|] eqn:E0.
    + destruct (decide (set_of b id1 = ∅)) as [Hemp|Hemp]; intros Hs; left.
      * cbn in Hs. apply lookup_delete_Some in Hs as [Hne Hs]. split; [done|]. split; [by left|]. by intros [= ->].
      * split; [done|]. split; [by left|]. intros [= ->]. right. rewrite E0 in Hs. by injection Hs as <-.
    + intros Hs. left. split; [done|]. split; [by left|]. intros [= ->]. congruence.
Qed.

Lemma bstep_inv st l : binv st -> binv (bstep st l).
Proof.
  intros Hinv. unfold bstep. destruct (b_threads st !! l) as [t|] eqn:Ht; [|done].
  destruct (todo t) as [|a rest] eqn:Ha; [done|].
  destruct Hinv as [Hids Hmem Hth Hkept Hcount]. pose proof (Hth l t Ht) as Hok.
  set (b := b_shared st) in *. destruct (act b l (reg t) a) as [b' r'] eqn:Eact.
  assert (b' = (act b l (reg t) a).1) as Eb by (by rewrite Eact). assert (r' = (act b l (reg t) a).2) as Er by (by rewrite Eact).
  assert (l < length (b_threads st))%nat as Hlt by (by eapply lookup_lt_Some).
  set (t' := mkSubscriber (symbols t) r' rest).
  split; cbn [b_shared b_threads].
  - rewrite Eb. by apply act_ids.
  - intros id l' Hl. rewrite length_insert. rewrite Eb in Hl.
    destruct (act_members b l (reg t) a id l' Hl) as [?| ->]; [by eapply Hmem|done].
  - intros l' t1 Hl'. apply list_lookup_insert_Some in Hl' as [(-> & <- & _)|[Hne Hl']].
    + unfold t'. rewrite Eb, Er. by apply thread_ok_own.
    + rewrite Eb. apply thread_ok_other; [done|done|by apply Hth].
  - intros s id Hs. rewrite Eb in Hs.
    assert (forall l1 t1, l1 <> l -> b_threads st !! l1 = Some t1 -> will_prune t1 s ->
              exists l2 t2, <[l := t']> (b_threads st) !! l2 = Some t2 /\ will_prune t2 s) as Hsome.
    { intros l1 t1 Hne Hl1 Hw. exists l1, t1. by rewrite list_lookup_insert_ne. }
    assert (will_prune t' s -> exists l2 t2, <[l := t']> (b_threads st) !! l2 = Some t2 /\ will_prune t2 s) as Hown.
    { intros Hw. exists l, t'. by rewrite list_lookup_insert_eq. }
    destruct (act_keeps b l (reg t) a s id Hids Hs) as [(Hold & Hset & Hprune)| ->].
    + destruct (decide (set_of (act b l (reg t) a).1 id = ∅)) as [Hemp|]; [right|left; by rewrite Eb].
      destruct Hset as [Hset|(s0 & -> & Hreg)].
      * destruct (Hkept s id Hold) as [Hne|(l1 & t1 & Hl1 & Hw)]; [destruct Hne; set_solver|].
        destruct (decide (l1 = l)) as [->|Hnl]; [|by eapply Hsome].
        assert (t1 = t) as -> by congruence. apply Hown. unfold t'. rewrite Er.
        apply (will_prune_next b l t a rest s Hok Ha Hw); [|by rewrite Hold].
        intros ->. destruct Hw as [_ Hw]. rewrite Ha in Hw. destruct (Hprune eq_refl) as [Hr|Hr]; [by apply Hw|done].
      * apply Hown. unfold t', will_prune. cbn [todo reg].
        destruct Hok as [past ss E Et _|past s1 ss id1 E Et _ _ _|past ss E Et _|past s1 ss E Et _ _ Hon|past s1 ss E Et _|Et _];
          rewrite Et in Ha; try discriminate Ha; [by destruct ss|by destruct ss|].
        injection Ha as -> <-. destruct (Hon id Hreg) as [_ Hu]. specialize (Hu s Hold) as ->.
        split; [apply list_elem_of_here|]. intros _. rewrite Er. cbn. congruence.
    + right. apply Hown. unfold t', will_prune. cbn [todo reg].
      destruct Hok as [past ss E Et _|past s1 ss id1 E Et _ _ _|past ss E Et _|past s1 ss E Et _ _ Hon|past s1 ss E Et _|Et _];
        rewrite Et in Ha; try discriminate Ha; [|by destruct ss].
      destruct ss as [|s1 ss]; [discriminate Ha|]. rewrite subscribe_cons in Ha. injection Ha as -> <-. split; [|done].
      apply elem_of_cons. right. apply elem_of_app. right. apply close_prune. rewrite E. apply elem_of_app. right. apply list_elem_of_here.
  - assert (subscriberCount b' = subscriberCount b + match a with Increment => 1 | Decrement => -1 | _ => 0 end) as ->.
    { rewrite Eb. destruct a; cbn [act]; try (cbn; lia); try (destruct (reg t); cbn; lia).
      - destruct (listenersBySymbol b !! s); cbn; lia.
      - destruct (reg t), (listenersBySymbol b !! s); cbn; try lia. destruct (decide _); cbn; lia. }
    rewrite Hcount. unfold open_count.
    pose proof (sum_with_insert (fun t => if subscribed t then 1%nat else 0%nat) (b_threads st) l t t' Ht) as Hsum.
    pose proof (subscribed_next b l t a rest r' Hok Ha) as Hone. fold t' in Hone. cbn beta in Hsum.
    destruct (subscribed t'), (subscribed t); lia.
Qed.

Lemma bstart_inv subs : binv (bstart subs).
Proof.
  assert (forall s, receivers new_broadcaster s = ∅) as Hr by (intros; unfold receivers; cbn; by rewrite lookup_empty).
  split; cbn [b_shared b_threads bstart].
  - intros s id Hs. cbn in Hs. by rewrite lookup_empty in Hs.
  - intros id l Hl. unfold set_of in Hl. cbn in Hl. rewrite lookup_empty in Hl. by apply elem_of_empty in Hl.
  - intros l t Ht. rewrite list_lookup_fmap in Ht. apply fmap_Some in Ht as (ss & _ & ->).
    apply (at_subscribe _ _ _ [] ss); [done..|]. intros s Hs. rewrite Hr in Hs. by apply elem_of_empty in Hs.
  - intros s id Hs. cbn in Hs. by rewrite lookup_empty in Hs.
  - unfold open_count. induction subs as [|ss subs IH]; [done|]. cbn [map sum_list_with]. rewrite <- IH || cbn in IH.
    unfold subscribed at 1. cbn [todo new_subscriber]. rewrite counted_increment by apply subscribe_increment. exact IH.
Qed.

Lemma brun_app st s1 s2 : brun st (s1 ++ s2) = brun (brun st s1) s2.
Proof. unfold brun. apply fold_left_app. Qed.
Lemma brun_inv schedule : forall st, binv st -> binv (brun st schedule).
Proof. induction schedule as [|l schedule IH]; intros st Hst; [done|]. apply IH. by apply bstep_inv. Qed.

(** Only the thread itself ends the delivery to it. *)
Lemma act_receivers b l' r a l s : (forall s id, listenersBySymbol b !! s = Some id -> only b id s) ->
  l ∈ receivers b s -> l' <> l \/ (forall s0, a <> Remove s0) -> l ∈ receivers (act b l' r a).1 s.
Proof.
  intros Hids Hl Hown. pose proof Hl as (id & Hs & Hin)%receivers_mapped. destruct a as [s0|s0| |s0|s0|s0|]; cbn [act]; try exact Hl.
  - destruct (listenersBySymbol b !! s0) as [id0|] eqn:E0; [exact Hl|]. unfold receivers. cbn.
    rewrite lookup_insert_ne, Hs by congruence. unfold set_of. cbn. destruct (Hids s id Hs) as [Hlt _].
    rewrite lookup_insert_ne by lia. exact Hin.
  - destruct r as [id0|]; [|exact Hl]. unfold receivers. cbn. rewrite Hs, set_of_put.
    destruct (decide (id = id0)) as [->|]; [|done]. by apply elem_of_union_r.
  - destruct r as [id0|]; [|exact Hl]. unfold receivers. cbn. rewrite Hs, set_of_put.
    destruct (decide (id = id0)) as [->|]; [|done]. apply elem_of_difference. split; [done|].
    intros ?%elem_of_singleton. destruct Hown as [Hown|Hown]; [congruence|by destruct (Hown s0)].
  - cbn [fst]. destruct r as [id0|]; [|exact Hl]. destruct (listenersBySymbol b !! s0) as [id1|] eqn:E0; [|exact Hl].
    destruct (decide (set_of b id1 = ∅)) as [Hemp|]; [|exact Hl]. unfold receivers. cbn.
    rewrite lookup_delete_ne, Hs; [exact Hin|]. intros ->. assert (id1 = id) as -> by congruence.
    rewrite Hemp in Hin. by apply elem_of_empty in Hin.
Qed.

Lemma bstep_other st l l' : l' <> l -> b_threads (bstep st l') !! l = b_threads st !! l.
Proof.
  intros Hne. unfold bstep. destruct (b_threads st !! l') as [t|]; [|done]. destruct (todo t) as [|a rest]; [done|].
  destruct (act _ _ _ _) as [b r]. cbn. by rewrite list_lookup_insert_ne.
Qed.

Lemma brun_others l s schedule : l ∉ schedule -> forall st, binv st ->
  b_threads (brun st schedule) !! l = b_threads st !! l
  /\ (l ∈ receivers (b_shared st) s -> l ∈ receivers (b_shared (brun st schedule)) s).
Proof.
  induction schedule as [|l' schedule IH]; intros Hl st Hinv; [done|]. apply not_elem_of_cons in Hl as [Hne Hl].
  destruct (IH Hl (bstep st l') (bstep_inv st l' Hinv)) as [H1 H2]. cbn [brun fold_left]. split.
  - etransitivity; [exact H1|]. by apply bstep_other.
  - intros Hr. apply H2. unfold bstep. destruct (b_threads st !! l') as [t|]; [|done]. destruct (todo t) as [|a rest]; [done|].
    pose proof (act_receivers (b_shared st) l' (reg t) a l s (i_ids _ Hinv) Hr (or_introl (not_eq_sym Hne))) as Ha.
    by destruct (act _ _ _ _) as [b r].
Qed.

Lemma bstep_own st l t a rest : b_threads st !! l = Some t -> todo t = a :: rest ->
  bstep st l = mkBstate (act (b_shared st) l (reg t) a).1
                 (<[l := mkSubscriber (symbols t) (act (b_shared st) l (reg t) a).2 rest]> (b_threads st)).
Proof. intros Ht Ha. unfold bstep. rewrite Ht, Ha. by destruct (act _ _ _ _). Qed.

(** A thread that subscribes without interruption. *)
Lemma subscribe_runs rest : forall st l t past,
  binv st -> b_threads st !! l = Some t -> todo t = subscribe rest ++ close (symbols t) ->
  (forall s, s ∈ past -> l ∈ receivers (b_shared st) s) ->
  forall s, s ∈ past ++ rest -> l ∈ receivers (b_shared (brun st (replicate (length (subscribe rest)) l))) s.
Proof.
  induction rest as [|s0 rest IH]; intros st l t past Hinv Ht Ha Hpast s Hs.
  - rewrite app_nil_r in Hs. cbn [subscribe map concat app length replicate brun fold_left].
    rewrite (bstep_own st l t Increment (close (symbols t)) Ht Ha). cbn [b_shared].
    by apply act_receivers; [apply (i_ids _ Hinv)|apply Hpast|right].
  - rewrite subscribe_cons in Ha |- *. cbn [length replicate]. cbn [app] in Ha.
    change (brun st (l :: l :: replicate (length (subscribe rest)) l))
      with (brun (bstep (bstep st l) l) (replicate (length (subscribe rest)) l)).
    set (b := b_shared st). assert (l < length (b_threads st))%nat as Hlt by (by eapply lookup_lt_Some).
    assert (exists id, listenersBySymbol (act b l (reg t) (ComputeIfAbsent s0)).1 !! s0 = Some id
              /\ (act b l (reg t) (ComputeIfAbsent s0)).2 = Some id) as (id & Hid & Hreg).
    { cbn [act]. destruct (listenersBySymbol b !! s0) as [id|] eqn:Es; [by exists id|].
      exists (next_id b). split; [|done]. cbn. by rewrite lookup_insert_eq. }
    pose proof (bstep_own st l t _ _ Ht Ha) as E1. fold b in E1. pose proof (bstep_inv st l Hinv) as Hinv1.
    set (t1 := mkSubscriber (symbols t) (act b l (reg t) (ComputeIfAbsent s0)).2 (Add s0 :: subscribe rest ++ close (symbols t))) in *.
    assert (b_threads (bstep st l) !! l = Some t1) as Ht1 by (rewrite E1; cbn; by rewrite list_lookup_insert_eq).
    pose proof (bstep_own (bstep st l) l t1 _ _ Ht1 eq_refl) as E2.
    assert (b_threads (bstep (bstep st l) l) !! l
            = Some (mkSubscriber (symbols t1) (act (b_shared (bstep st l)) l (reg t1) (Add s0)).2 (subscribe rest ++ close (symbols t)))) as Ht2.
    { rewrite E2. cbn [b_threads]. rewrite list_lookup_insert_eq; [done|]. by eapply lookup_lt_Some. }
    apply (IH _ l _ (past ++ [s0]) (bstep_inv _ l Hinv1) Ht2 eq_refl); [|by rewrite <- app_assoc].
    assert (b_shared (bstep st l) = (act b l (reg t) (ComputeIfAbsent s0)).1) as Eb1 by (by rewrite E1).
    rewrite E2. cbn [b_shared]. intros s' [Hs'|Hs'%list_elem_of_singleton]%elem_of_app.
    + apply act_receivers; [apply (i_ids _ Hinv1)| |by right]. rewrite Eb1.
      apply act_receivers; [apply (i_ids _ Hinv)|by apply Hpast|by right].
    + subst s'. rewrite <- Eb1 in Hid. cbn [act fst]. unfold t1 at 1. cbn [reg]. rewrite Hreg, (receivers_put _ _ _ _ Hid).
      by apply elem_of_union_l, elem_of_singleton.
Qed.

(** ** Properties *)

(** The members under every interleaving. Whatever threads subscribe and close, in
    whatever order their atomic actions run, a quote reaches a subscription only for its
    own symbols and never once it is closed; the gauge is the number of subscriptions
    that have returned and have not been closed; a subscription that is reached stays
    reached whatever the others do; and when all are closed no set is left in the map. *)
Theorem membership_interleavings (subs : list (list string)) (schedule : list nat) :
  let st := brun (bstart subs) schedule in
  let b := b_shared st in
  (forall l t s, b_threads st !! l = Some t -> l ∈ receivers b s -> s ∈ symbols t /\ ~ is_closed t)
  /\ subscriberCount b = Z.of_nat (open_count (b_threads st))
  /\ (forall l s more, l ∈ receivers b s -> l ∉ more -> l ∈ receivers (b_shared (brun st more)) s)
  /\ ((forall l t, b_threads st !! l = Some t -> is_closed t) -> listenersBySymbol b = ∅ /\ subscriberCount b = 0).
Proof.
  cbn zeta. pose proof (brun_inv schedule _ (bstart_inv subs)) as Hinv. set (st := brun _ _) in *. destruct Hinv as [Hids Hmem Hth Hkept Hcount] eqn:Einv.
  assert (forall l t s, b_threads st !! l = Some t -> l ∈ receivers (b_shared st) s -> s ∈ symbols t /\ ~ is_closed t) as Hown.
  { intros l t s Ht Hs. unfold is_closed.
    destruct (Hth l t Ht) as [past ss E Et Hw|past s1 ss id1 E Et Hw _ _|past ss E Et Hw|past s1 ss E Et Hw _ _|past s1 ss E Et Hw|Et Hw];
      specialize (Hw s Hs); [| | | | |by apply elem_of_nil in Hw]; (split; [rewrite E; apply elem_of_app; auto|rewrite Et]);
      [by destruct ss|done|by destruct ss|done|by right; apply elem_of_cons; right|done]. }
  split; [exact Hown|]. split; [exact Hcount|]. split.
  - intros l s more Hs Hl. by apply (brun_others l s more Hl st Hinv).
  - intros Hall. assert (listenersBySymbol (b_shared st) = ∅) as Hempty.
    { apply map_empty. intros s. destruct (listenersBySymbol (b_shared st) !! s) as [id|] eqn:Es; [|done]. exfalso.
      destruct (Hkept s id Es) as [Hne|(l & t & Ht & Hw & _)].
      - apply set_choose_L in Hne as (l & Hl). pose proof (Hmem id l Hl) as [t Ht]%lookup_lt_is_Some.
        apply (Hown l t s Ht); [|by eapply Hall]. unfold receivers. by rewrite Es.
      - rewrite (Hall l t Ht) in Hw. by apply elem_of_nil in Hw. }
    split; [done|]. rewrite Hcount. unfold open_count.
    assert (forall ts, (forall l t, ts !! l = Some t -> is_closed t) -> sum_list_with (fun t => if subscribed t then 1%nat else 0%nat) ts = 0%nat) as Hz;
      [|by rewrite (Hz _ Hall)].
    intros ts. induction ts as [|t ts IH]; intros Hc; [done|]. cbn [sum_list_with].
    rewrite IH by (intros l; apply (Hc (S l))). unfold subscribed. rewrite (Hc 0%nat t eq_refl).
    unfold counted. rewrite bool_decide_eq_false_2; [done|]. by intros [_ ?%elem_of_nil].
Qed.

(** C19. A subscription that is not interrupted is complete: if no other thread runs between
    the first and the last action of a [subscribe], the subscriber is reached for every
    one of its symbols, whatever ran before and whatever the others do after. *)
Theorem atomic_subscribe_reaches (subs : list (list string)) l ss pre post s :
  subs !! l = Some ss -> l ∉ pre -> l ∉ post -> s ∈ ss ->
  l ∈ receivers (b_shared (brun (bstart subs) (pre ++ replicate (length (subscribe ss)) l ++ post))) s.
Proof.
  intros Hl Hpre Hpost Hs. rewrite !brun_app. pose proof (bstart_inv subs) as H0.
  destruct (brun_others l s pre Hpre _ H0) as [Ht _]. pose proof (brun_inv pre _ H0) as H1.
  assert (b_threads (bstart subs) !! l = Some (new_subscriber ss)) as Hnew by (cbn; by rewrite list_lookup_fmap, Hl).
  rewrite Hnew in Ht. apply brun_others; [done|by apply brun_inv|].
  by apply (subscribe_runs ss _ l _ [] H1 Ht eq_refl); [intros ? ?%elem_of_nil|].
Qed.

Lemma atomic_subscribe_reaches_witness :
  1%nat ∈ receivers (b_shared (brun (bstart [["BTC-USD"]; ["BTC-USD"; "ETH-USD"]])
    ([0; 0; 0]%nat ++ replicate (length (subscribe ["BTC-USD"; "ETH-USD"])) 1%nat ++ [0; 0; 0; 0]%nat))) "BTC-USD".
Proof. apply atomic_subscribe_reaches; [reflexivity|..|apply list_elem_of_here];
  (apply (bool_decide_eq_true_1 (1%nat ∉ _)); reflexivity). Defined.

(** An interruption loses one: the last subscriber of a symbol closes between the two
    actions of another [subscribe], whose listener is added to a set that the map no
    longer holds. The subscription is open and counted, and no quote reaches it. *)
Theorem lost_subscription :
  let st := brun (bstart [["BTC-USD"]; ["BTC-USD"]]) [0; 0; 0; 1; 0; 0; 0; 0; 1; 1]%nat in
  todo <$> b_threads st !! 1%nat = Some (close ["BTC-USD"])
  /\ subscriberCount (b_shared st) = 1 /\ receivers (b_shared st) "BTC-USD" = ∅.
Proof. split; [vm_compute; reflexivity|]. split; vm_compute; reflexivity. Qed.
