(* ===== verification/Fanout.v ===== *)
(** * Serving tier: the publishers of the quote broadcaster

    [publish] of src/serving/src/main/java/io/tapeline/serving/quotes/QuoteBroadcaster.java
    beside the subscriptions of Broadcaster.v. It gets the set of its symbol from the map,
    looks whether it is empty, makes an iterator and hands the quote to one listener after
    the other, with no lock held, while subscriptions come and go. The iterator of a
    concurrent set is weakly consistent: it returns every element that was there when it
    was made and has not been removed, and may or may not return what was added or removed
    meanwhile. It returns an element once (a subscription is added to a set once). *)

From S2P Require Import Prelude.
From S2P Require Import Broadcaster.

Local Open Scope nat_scope.

(** ** Actions *)

(** Where a publisher is. Of an iterator: the set it walks, what has been in the set at
    some time since it was made, what has been in it all the time, and what it returned. *)
Inductive pphase :=
  | AtGet
  | AtCheck (id : nat)
  | AtIterator (id : nat)
  | Iterating (id : nat) (seen always returned : gset nat)
  | PReturned.
Record publisher := mkPublisher { p_symbol : string; p_at : pphase }.
Definition publish (symbol : string) : publisher := mkPublisher symbol AtGet.

(** One action of a publisher, and the listeners it calls; [next] is what the iterator
    returns, [None] its end. A listener that throws is caught, so whatever a listener does
    the loop goes on. *)
Definition publish_step (b : broadcaster) (p : publisher) (next : option nat) : option (pphase * list nat) :=
  match p_at p with
  | AtGet =>
      Some (match listenersBySymbol b !! p_symbol p with Some id => AtCheck id | None => PReturned end, [])
  | AtCheck id => Some (if decide (set_of b id = ∅) then PReturned else AtIterator id, [])
  | AtIterator id => Some (Iterating id (set_of b id) (set_of b id) ∅, [])
  | Iterating id seen always returned =>
      match next with
      | Some l =>
          if decide (l ∈ seen /\ l ∉ returned) then Some (Iterating id seen always ({[l]} ∪ returned), [l]) else None
      | None => if decide (always ⊆ returned) then Some (PReturned, []) else None
      end
  | PReturned => None
  end.

(** What an iterator may return follows the set. *)
Definition watch (b : broadcaster) (p : publisher) : publisher :=
  mkPublisher (p_symbol p)
    match p_at p with
    | Iterating id seen always returned => Iterating id (seen ∪ set_of b id) (always ∩ set_of b id) returned
    | ph => ph
    end.

(** ** Executions *)

(** Subscriptions, publishers, and who was called by which publisher, in order. *)
Record pstate := mkPstate { p_base : bstate; p_pubs : list publisher; p_log : list (nat * nat) }.
Definition pstart (subs : list (list string)) (quotes : list string) : pstate :=
  mkPstate (bstart subs) (map publish quotes) [].

(** The next action of a subscription, or of a publisher. *)
Inductive pmove := MThread (l : nat) | MPublish (i : nat) (next : option nat).

Definition pstep (st : pstate) (m : pmove) : option pstate :=
  match m with
  | MThread l =>
      let base := bstep (p_base st) l in
      Some (mkPstate base (map (watch (b_shared base)) (p_pubs st)) (p_log st))
  | MPublish i next =>
      p ← p_pubs st !! i;
      '(ph, called) ← publish_step (b_shared (p_base st)) p next;
      Some (mkPstate (p_base st) (<[i := mkPublisher (p_symbol p) ph]> (p_pubs st)) (p_log st ++ map (pair i) called))
  end.
Fixpoint prun (st : pstate) (ms : list pmove) : option pstate :=
  match ms with [] => Some st | m :: ms' => st' ← pstep st m; prun st' ms' end.

Definition moves_of (l : nat) (m : pmove) : Prop := m = MThread l.

(** ** The invariant *)

Definition walked (ph : pphase) : option nat :=
  match ph with AtCheck id | AtIterator id | Iterating id _ _ _ => Some id | _ => None end.
Definition may_return (ph : pphase) : gset nat := match ph with Iterating _ seen _ _ => seen | _ => ∅ end.

(** The symbol a subscription was opened for. *)
Definition opened_for (st : bstate) (l : nat) (s : string) : Prop :=
  exists t, b_threads st !! l = Some t /\ s ∈ symbols t.

(** Every set was made for one symbol, mapped or not, and its members were opened for it. *)
Record owned (owner : nat -> string) (st : bstate) : Prop := {
  o_map : forall s id, listenersBySymbol (b_shared st) !! s = Some id -> owner id = s;
  o_members : forall id l, l ∈ set_of (b_shared st) id -> id < next_id (b_shared st) /\ opened_for st l (owner id);
  o_adds : forall l t s rest, b_threads st !! l = Some t -> todo t = Add s :: rest ->
    exists id, reg t = Some id /\ id < next_id (b_shared st) /\ owner id = s /\ s ∈ symbols t }.

Definition pub_ok (owner : nat -> string) (st : bstate) (p : publisher) : Prop :=
  forall id, walked (p_at p) = Some id ->
    id < next_id (b_shared st) /\ owner id = p_symbol p
    /\ forall l, l ∈ may_return (p_at p) -> opened_for st l (p_symbol p).

(** What a publisher has called so far. *)
Definition called_ok (log : list (nat * nat)) (i : nat) (p : publisher) : Prop :=
  match p_at p with
  | PReturned => True
  | Iterating _ _ _ returned => forall l, (i, l) ∈ log <-> l ∈ returned
  | _ => forall l, (i, l) ∉ log
  end.

Record finv (st : pstate) : Prop := {
  f_base : binv (p_base st);
  f_owner : exists owner, owned owner (p_base st)
    /\ (forall i p, p_pubs st !! i = Some p -> pub_ok owner (p_base st) p);
  f_log : forall i l, (i, l) ∈ p_log st ->
    exists p, p_pubs st !! i = Some p /\ opened_for (p_base st) l (p_symbol p);
  f_called : forall i p, p_pubs st !! i = Some p -> called_ok (p_log st) i p;
  f_nodup : NoDup (p_log st) }.

(** ** Lemmas: the subscriptions *)

Lemma opened_step st l l' s : opened_for st l s -> opened_for (bstep st l') l s.
Proof.
  intros (t & Ht & Hs). destruct (decide (l' = l)) as [->|Hne].
  - unfold bstep. rewrite Ht. destruct (todo t) as [|a rest]; [by exists t|].
    destruct (act _ _ _ _) as [b r]. eexists. cbn. rewrite list_lookup_insert_eq by (by eapply lookup_lt_Some). done.
  - exists t. by rewrite bstep_other by done.
Qed.

(** The action before an [Add] is the [ComputeIfAbsent] of its symbol. *)
Lemma before_add b l t a s rest : thread_ok b l t -> todo t = a :: Add s :: rest ->
  a = ComputeIfAbsent s /\ s ∈ symbols t.
Proof.
  intros Hok Ha.
  destruct Hok as [past ss E Et _|past s0 ss id E Et _ _ _|past ss E Et _|past s0 ss E Et _ _ _|past s0 ss E Et _|Et _];
    rewrite Et in Ha.
  - destruct ss as [|s1 ss]; [injection Ha as _ Ha; by destruct (symbols t)|]. rewrite subscribe_cons in Ha.
    injection Ha as <- <- _. split; [done|]. rewrite E. apply elem_of_app. right. apply list_elem_of_here.
  - injection Ha as _ Ha. destruct ss as [|s1 ss]; [by destruct (symbols t)|by rewrite subscribe_cons in Ha].
  - destruct ss as [|s1 ss]; [done|by rewrite close_cons in Ha].
  - done.
  - injection Ha as _ Ha. destruct ss as [|s1 ss]; [done|by rewrite close_cons in Ha].
  - done.
Qed.

Lemma act_next_le b l r a : next_id b <= next_id (act b l r a).1.
Proof.
  destruct a as [s| | | | |s|]; cbn [act]; try (destruct r; cbn; lia); try (cbn; lia).
  - destruct (listenersBySymbol b !! s); cbn; lia.
  - destruct r, (listenersBySymbol b !! s); cbn; try lia. destruct (decide _); cbn; lia.
Qed.

(** The owners after an action: a new set is its symbol's. *)
Definition next_owner (owner : nat -> string) (b : broadcaster) (a : action) (id : nat) : string :=
  match a with
  | ComputeIfAbsent s => if decide (id = next_id b /\ listenersBySymbol b !! s = None) then s else owner id
  | _ => owner id
  end.
Lemma next_owner_old owner b a id : id < next_id b -> next_owner owner b a id = owner id.
Proof. intros Hlt. destruct a; try done. cbn. rewrite decide_False; [done|]. intros [-> _]. lia. Qed.

Lemma act_map owner b l r a s id :
  (forall s id, listenersBySymbol b !! s = Some id -> only b id s) ->
  (forall s id, listenersBySymbol b !! s = Some id -> owner id = s) ->
  listenersBySymbol (act b l r a).1 !! s = Some id -> next_owner owner b a id = s.
Proof.
  intros Hids Hmap Hs.
  destruct (act_spec b l r a) as (_ & _ & H3); [intros s1 id1 H1; by apply Hids in H1 as []|].
  destruct (H3 s id Hs) as [_ Hback]. destruct (decide (id < next_id b)) as [Hlt|Hge].
  - rewrite next_owner_old by done. by apply Hmap, Hback.
  - destruct a as [s0|s0| |s0|s0|s0|]; cbn [act] in Hs;
      try (exfalso; apply Hge; by apply (Hids s id)); try (destruct r; exfalso; apply Hge; by apply (Hids s id)).
    + destruct (listenersBySymbol b !! s0) as [id0|] eqn:E0; [exfalso; apply Hge; by apply (Hids s id)|].
      cbn in Hs. apply lookup_insert_Some in Hs as [[<- <-]|[_ Hs]]; [|exfalso; apply Hge; by apply (Hids s id)].
      cbn. by rewrite decide_True.
    + exfalso. apply Hge. destruct r as [r0|], (listenersBySymbol b !! s0) as [id0|];
        try by apply (Hids s id). cbn in Hs. destruct (decide _); [|by apply (Hids s id)].
      cbn in Hs. apply lookup_delete_Some in Hs as [_ Hs]. by apply (Hids s id).
Qed.

(** A set gets a member only by an [Add]. *)
Lemma act_adds b l r a id l' : l' ∈ set_of (act b l r a).1 id ->
  l' ∈ set_of b id \/ (l' = l /\ exists s, a = Add s /\ r = Some id).
Proof.
  intros Hl. destruct a as [s0|s0| |s0|s0|s0|]; cbn [act] in Hl; try (by left).
  - destruct (listenersBySymbol b !! s0) as [id0|]; [by left|]. unfold set_of in Hl. cbn in Hl.
    destruct (decide (id = next_id b)) as [->|]; [rewrite lookup_insert_eq in Hl; by apply elem_of_empty in Hl|].
    rewrite lookup_insert_ne in Hl by done. by left.
  - destruct r as [id0|]; [|by left]. cbn [fst] in Hl. rewrite set_of_put in Hl.
    destruct (decide (id = id0)) as [->|]; [|by left].
    apply elem_of_union in Hl as [->%elem_of_singleton|Hl]; [right|by left]. split; [done|by exists s0].
  - destruct r as [id0|]; [|by left]. cbn [fst] in Hl. rewrite set_of_put in Hl.
    destruct (decide (id = id0)) as [->|]; [|by left]. apply elem_of_difference in Hl as [Hl _]. by left.
  - left. destruct r as [r0|], (listenersBySymbol b !! s0) as [id0|]; try done. cbn in Hl.
    by destruct (decide _).
Qed.

(** A member of an existing set stays one until it removes itself. *)
Lemma act_stays b l r a id l' : id < next_id b -> l' ∈ set_of b id -> l' <> l -> l' ∈ set_of (act b l r a).1 id.
Proof.
  intros Hlt Hl Hne. destruct a as [s0|s0| |s0|s0|s0|]; cbn [act]; try exact Hl.
  - destruct (listenersBySymbol b !! s0) as [id0|]; [done|]. unfold set_of. cbn. rewrite lookup_insert_ne by lia. exact Hl.
  - destruct r as [id0|]; [|done]. cbn [fst]. rewrite set_of_put. destruct (decide (id = id0)) as [->|]; [|done].
    by apply elem_of_union_r.
  - destruct r as [id0|]; [|done]. cbn [fst]. rewrite set_of_put. destruct (decide (id = id0)) as [->|]; [|done].
    apply elem_of_difference. split; [done|]. by intros ?%elem_of_singleton.
  - destruct r as [r0|], (listenersBySymbol b !! s0) as [id0|]; try done. cbn. by destruct (decide _).
Qed.

(** What a step of a subscription does to the shared state. *)
Lemma bstep_cases st l :
  bstep st l = st \/ exists t a rest, b_threads st !! l = Some t /\ todo t = a :: rest
    /\ bstep st l = mkBstate (act (b_shared st) l (reg t) a).1
                     (<[l := mkSubscriber (symbols t) (act (b_shared st) l (reg t) a).2 rest]> (b_threads st)).
Proof.
  destruct (b_threads st !! l) as [t|] eqn:Ht; [|left; unfold bstep; by rewrite Ht].
  destruct (todo t) as [|a rest] eqn:Ha; [left; unfold bstep; by rewrite Ht, Ha|].
  right. exists t, a, rest. split; [done|]. split; [done|]. by apply bstep_own.
Qed.

Lemma bstep_next_le st l : next_id (b_shared st) <= next_id (b_shared (bstep st l)).
Proof. destruct (bstep_cases st l) as [->|(t & a & rest & _ & _ & ->)]; [done|]. apply act_next_le. Qed.

Lemma bstep_stays st l l' id :
  id < next_id (b_shared st) -> l' ∈ set_of (b_shared st) id -> l' <> l ->
  l' ∈ set_of (b_shared (bstep st l)) id.
Proof. intros. destruct (bstep_cases st l) as [->|(t & a & rest & _ & _ & ->)]; [done|]. by apply act_stays. Qed.

Lemma owned_step owner st l : binv st -> owned owner st ->
  exists owner', owned owner' (bstep st l)
    /\ forall id, id < next_id (b_shared st) -> owner' id = owner id.
Proof.
  intros Hinv Ho. destruct (bstep_cases st l) as [->|(t & a & rest & Ht & Ha & E)]; [by exists owner|].
  set (b := b_shared st) in *.
  assert (forall id, id < next_id b -> next_owner owner b a id = owner id) as Hold by (intros; by apply next_owner_old).
  exists (next_owner owner b a). split; [|done].
  assert (forall l1 s, opened_for st l1 s -> opened_for (bstep st l) l1 s) as Hop by (intros; by apply opened_step).
  pose proof (act_next_le b l (reg t) a) as Hle. assert (l < length (b_threads st)) as Hlt by (by eapply lookup_lt_Some).
  split; rewrite E in *; cbn [b_shared b_threads].
  - intros s id. apply act_map; [apply (i_ids _ Hinv)|apply (o_map _ _ Ho)].
  - intros id l' [Hl|(-> & s & -> & Hr)]%act_adds.
    + destruct (o_members _ _ Ho id l' Hl) as [Hid Hl']. fold b in Hid. rewrite Hold by done. split; [lia|by apply Hop].
    + destruct (o_adds _ _ Ho l t s rest Ht Ha) as (id' & Hr' & Hid & Hs & Hin). fold b in Hid.
      assert (id' = id) as -> by congruence. rewrite Hold, Hs by done. split; [lia|]. apply Hop. by exists t.
  - intros l' t' s rest' Hl' Ht'. apply list_lookup_insert_Some in Hl' as [(-> & <- & _)|[Hne Hl']].
    + cbn [todo reg symbols] in *. subst rest.
      destruct (before_add _ _ _ _ _ _ (i_threads _ Hinv l' t Ht) Ha) as [-> Hs]. cbn [act next_owner].
      destruct (listenersBySymbol b !! s) as [id|] eqn:Es; cbn [fst snd next_id].
      * exists id. destruct (i_ids _ Hinv s id Es) as [Hid _]. fold b in Hid. split_and!; [done|lia| |done].
        rewrite decide_False by (intros [_ ?]; done). by apply (o_map _ _ Ho).
      * exists (next_id b). split_and!; [done|lia| |done]. by rewrite decide_True.
    + destruct (o_adds _ _ Ho l' t' s rest' Hl' Ht') as (id & Hr & Hid & Hs & Hin). fold b in Hid.
      exists id. rewrite Hold by done. split_and!; [done|lia|done|done].
Qed.

(** ** Lemmas: the publishers *)

Lemma pub_ok_watch owner owner' st l p :
  owned owner' (bstep st l) -> (forall id, id < next_id (b_shared st) -> owner' id = owner id) ->
  pub_ok owner st p -> pub_ok owner' (bstep st l) (watch (b_shared (bstep st l)) p).
Proof.
  intros Ho Hsame Hp id Hid. assert (walked (p_at p) = Some id) as Hw by (by destruct p as [s []]).
  destruct (Hp id Hw) as (Hlt & Hs & Hseen). pose proof (bstep_next_le st l) as Hle. cbn [p_symbol watch].
  split; [lia|]. split; [by rewrite Hsame|]. intros l' Hl.
  destruct p as [s [|id'|id'|id' seen always ret|]]; cbn in Hl, Hw; try by apply elem_of_empty in Hl.
  injection Hw as ->. apply elem_of_union in Hl as [Hl|Hl].
  - apply opened_step. by apply Hseen.
  - cbn in Hs |- *. rewrite <- Hs, <- Hsame by done. by apply (o_members _ _ Ho).
Qed.

Lemma log_other (i j : nat) (called : list nat) l : (j, l) ∈ map (pair i) called -> j = i /\ l ∈ called.
Proof. intros (x & [= -> ->] & Hx)%list_elem_of_fmap. done. Qed.

(** A publisher's own step keeps its invariants. *)
Lemma publish_step_ok owner st i p next ph called log :
  binv st -> owned owner st -> pub_ok owner st p -> called_ok log i p ->
  publish_step (b_shared st) p next = Some (ph, called) ->
  pub_ok owner st (mkPublisher (p_symbol p) ph)
  /\ called_ok (log ++ map (pair i) called) i (mkPublisher (p_symbol p) ph)
  /\ (forall l, l ∈ called -> opened_for st l (p_symbol p) /\ ((i, l) ∉ log))
  /\ NoDup called.
Proof.
  intros Hinv Ho Hp Hc Hstep. unfold publish_step in Hstep. unfold called_ok in *.
  destruct p as [s [|id|id|id seen always ret|]]; cbn [p_at p_symbol] in *; [| | | |done].
  - injection Hstep as <- <-. cbn [map]. rewrite app_nil_r.
    destruct (listenersBySymbol (b_shared st) !! s) as [id|] eqn:Es; (split; [|split_and!; [done|by intros ? ?%elem_of_nil|constructor]]);
      [|by intros ? [=]]. intros id' [= <-]. destruct (i_ids _ Hinv s id Es) as [Hlt _].
    split_and!; [done|by apply (o_map _ _ Ho)|by intros ? ?%elem_of_empty].
  - injection Hstep as <- <-. cbn [map]. rewrite app_nil_r.
    destruct (decide _); (split; [|split_and!; [done|by intros ? ?%elem_of_nil|constructor]]); [by intros ? [=]|].
    intros id' [= <-]. by apply Hp.
  - injection Hstep as <- <-. cbn [map]. rewrite app_nil_r. destruct (Hp id eq_refl) as (Hlt & Hs & _).
    split; [|split_and!; [|by intros ? ?%elem_of_nil|constructor]].
    + intros id' [= <-]. split_and!; [done|done|]. intros l Hl. cbn in Hl, Hs |- *. rewrite <- Hs. by apply (o_members _ _ Ho).
    + intros l. split; [intros Hl; by destruct (Hc l)|by intros ?%elem_of_empty].
  - destruct (Hp id eq_refl) as (Hlt & Hs & Hseen). destruct next as [l|].
    + destruct (decide _) as [[Hin Hnew]|]; [|done]. injection Hstep as <- <-. split; [by apply Hp|].
      split; [|split; [|apply NoDup_singleton]].
      * intros l'. rewrite elem_of_app, elem_of_union, elem_of_singleton, <- Hc. cbn.
        rewrite list_elem_of_singleton. split; [intros [?|[= ->]]; auto|intros [->|?]; auto].
      * intros l' ->%list_elem_of_singleton. split; [by apply Hseen|]. by rewrite Hc.
    + destruct (decide _); [|done]. injection Hstep as <- <-. split; [by intros ? [=]|]. split_and!; [done|by intros ? ?%elem_of_nil|constructor].
Qed.

Lemma called_ok_other log i j called p : j <> i -> called_ok log j p -> called_ok (log ++ map (pair i) called) j p.
Proof.
  intros Hne. assert (forall l, (j, l) ∈ log ++ map (pair i) called <-> (j, l) ∈ log) as Hiff.
  { intros l. rewrite elem_of_app. split; [intros [?|[? _]%log_other]; done|auto]. }
  unfold called_ok. destruct (p_at p); try done; intros Hc l; [..|by rewrite Hiff]; by rewrite Hiff.
Qed.

Lemma pstep_inv st m st' : pstep st m = Some st' -> finv st -> finv st'.
Proof.
  intros Hstep [Hb (owner & Ho & Hp) Hlog Hcalled Hnd]. destruct m as [l|i next].
  - injection Hstep as <-. pose proof (bstep_inv (p_base st) l Hb) as Hb'.
    destruct (owned_step owner (p_base st) l Hb Ho) as (owner' & Ho' & Hsame). split; cbn [p_base p_pubs p_log].
    + done.
    + exists owner'. split; [done|]. intros i p Hi. rewrite list_lookup_fmap in Hi.
      apply fmap_Some in Hi as (p0 & Hi & ->). eapply pub_ok_watch; eauto.
    + intros i l' Hl. destruct (Hlog i l' Hl) as (p & Hi & Hop). exists (watch (b_shared (bstep (p_base st) l)) p).
      split; [by rewrite list_lookup_fmap, Hi|]. by apply opened_step.
    + intros i p Hi. rewrite list_lookup_fmap in Hi. apply fmap_Some in Hi as (p0 & Hi & ->).
      specialize (Hcalled i p0 Hi). by destruct p0 as [s []].
    + done.
  - cbn [pstep] in Hstep. destruct (p_pubs st !! i) as [p|] eqn:Hi; [|done]. cbn in Hstep.
    destruct (publish_step _ p next) as [[ph called]|] eqn:Es; [|done]. injection Hstep as <-.
    destruct (publish_step_ok owner (p_base st) i p next ph called (p_log st) Hb Ho (Hp i p Hi) (Hcalled i p Hi) Es)
      as (Hp' & Hc' & Hnew & Hndc).
    assert (i < length (p_pubs st)) as Hlt by (by eapply lookup_lt_Some).
    split; cbn [p_base p_pubs p_log].
    + done.
    + exists owner. split; [done|]. intros j q Hj. apply list_lookup_insert_Some in Hj as [(-> & <- & _)|[_ Hj]]; [done|].
      by apply (Hp j).
    + intros j l Hl. apply elem_of_app in Hl as [Hl|[-> Hl]%log_other].
      * destruct (Hlog j l Hl) as (q & Hj & Hop). destruct (decide (i = j)) as [<-|Hne].
        -- exists (mkPublisher (p_symbol p) ph). rewrite list_lookup_insert_eq by done. split; [done|].
           by assert (q = p) as -> by congruence.
        -- exists q. by rewrite list_lookup_insert_ne.
      * exists (mkPublisher (p_symbol p) ph). rewrite list_lookup_insert_eq by done. split; [done|]. by apply Hnew.
    + intros j q Hj. apply list_lookup_insert_Some in Hj as [(-> & <- & _)|[Hne Hj]]; [done|].
      apply called_ok_other; [done|by apply Hcalled].
    + apply list.NoDup_app. split; [done|]. split.
      * intros [j l] Hl [-> Hl']%log_other. by apply (Hnew l).
      * apply NoDup_fmap_2; [by intros ? ? [=]|done].
Qed.

Lemma prun_inv ms : forall st st', prun st ms = Some st' -> finv st -> finv st'.
Proof.
  induction ms as [|m ms IH]; intros st st' Hrun Hinv; [by injection Hrun as <-|]. cbn [prun] in Hrun.
  destruct (pstep st m) as [st1|] eqn:E; [|done]. cbn in Hrun. eapply IH; [done|]. by eapply pstep_inv.
Qed.

Lemma pstart_inv subs quotes : finv (pstart subs quotes).
Proof.
  pose proof (bstart_inv subs) as Hb. split; cbn [p_base p_pubs p_log pstart]; [done| | | |constructor].
  - exists (fun _ => ""). split; [split|].
    + intros s id Hs. cbn in Hs. by rewrite lookup_empty in Hs.
    + intros id l Hl. unfold set_of in Hl. cbn in Hl. rewrite lookup_empty in Hl. by apply elem_of_empty in Hl.
    + intros l t s rest Ht Ha. cbn in Ht. rewrite list_lookup_fmap in Ht. apply fmap_Some in Ht as (ss & _ & ->).
      cbn [todo new_subscriber] in Ha. destruct ss as [|s0 ss]; [done|by rewrite subscribe_cons in Ha].
    + intros i p Hi. rewrite list_lookup_fmap in Hi. apply fmap_Some in Hi as (s & _ & ->). by intros ? [=].
  - by intros i l ?%elem_of_nil.
  - intros i p Hi. rewrite list_lookup_fmap in Hi. apply fmap_Some in Hi as (s & _ & ->). by intros l ?%elem_of_nil.
Qed.

(** The subscriptions run as they would without publishers. *)
Definition threads_of (ms : list pmove) : list nat :=
  omap (fun m => match m with MThread l => Some l | MPublish _ _ => None end) ms.
Lemma prun_base ms : forall st st', prun st ms = Some st' -> p_base st' = brun (p_base st) (threads_of ms).
Proof.
  induction ms as [|m ms IH]; intros st st' Hrun; [by injection Hrun as <-|]. cbn [prun] in Hrun.
  destruct (pstep st m) as [st1|] eqn:E; [|done]. cbn in Hrun. rewrite (IH _ _ Hrun). destruct m as [l|i next].
  - by injection E as <-.
  - cbn in E. destruct (p_pubs st !! i); [|done]. cbn in E. destruct (publish_step _ _ _) as [[ph called]|]; [|done].
    by injection E as <-.
Qed.

(** ** Lemmas: a subscription that is over, and one that is there *)

(** A publisher that starts now will not find [l]. *)
Definition misses (st : pstate) (i l : nat) : Prop :=
  (exists t, b_threads (p_base st) !! l = Some t /\ is_closed t)
  /\ ((i, l) ∉ p_log st)
  /\ exists p, p_pubs st !! i = Some p /\ (l ∉ may_return (p_at p))
       /\ forall id, walked (p_at p) = Some id -> l ∉ set_of (b_shared (p_base st)) id.

Lemma closed_unmapped st l t s : binv st -> b_threads st !! l = Some t -> is_closed t -> l ∉ receivers (b_shared st) s.
Proof.
  intros Hinv Ht Hc Hl. unfold is_closed in Hc.
  destruct (i_threads _ Hinv l t Ht) as [past ss E Et Hw|past s1 ss id1 E Et Hw _ _|past ss E Et Hw|past s1 ss E Et Hw _ _|past s1 ss E Et Hw|Et Hw];
    rewrite Hc in Et; [by destruct ss|done|by destruct ss|done|done|]. by specialize (Hw s Hl) as ?%elem_of_nil.
Qed.

Lemma misses_step st m st' i l : finv st -> pstep st m = Some st' -> misses st i l -> misses st' i l.
Proof.
  intros Hinv Hstep ((t & Ht & Hc) & Hlog & p & Hi & Hret & Hset). pose proof (f_base _ Hinv) as Hb.
  destruct m as [l0|j next].
  - injection Hstep as <-. unfold misses. cbn [p_base p_log p_pubs].
    assert (b_threads (bstep (p_base st) l0) !! l = Some t) as Ht'.
    { destruct (decide (l0 = l)) as [->|]; [unfold bstep; by rewrite Ht, Hc|by rewrite bstep_other]. }
    assert (forall id, walked (p_at p) = Some id -> l ∉ set_of (b_shared (bstep (p_base st) l0)) id) as Hset'.
    { intros id Hid Hl. apply (Hset id Hid).
      destruct (bstep_cases (p_base st) l0) as [E|(t0 & a & rest & Ht0 & Ha & E)]; rewrite E in Hl; [done|].
      cbn [b_shared] in Hl. apply act_adds in Hl as [Hl|(-> & _)]; [done|]. unfold is_closed in Hc. congruence. }
    split; [by exists t|]. split; [done|]. exists (watch (b_shared (bstep (p_base st) l0)) p).
    split; [by rewrite list_lookup_fmap, Hi|]. destruct p as [s [|id|id|id seen always ret|]]; cbn in *;
      try by split. split; [|by intros id' [= <-]; apply Hset']. rewrite elem_of_union. intros [?|?]; [done|].
    by apply (Hset' id).
  - cbn [pstep] in Hstep. destruct (p_pubs st !! j) as [q|] eqn:Hj; [|done]. cbn in Hstep.
    destruct (publish_step _ q next) as [[ph called]|] eqn:Es; [|done]. injection Hstep as <-.
    unfold misses. cbn [p_base p_log p_pubs]. split; [by exists t|]. destruct (decide (j = i)) as [->|Hne].
    2: { split; [intros [?|[-> _]%log_other]%elem_of_app; done|]. exists p. by rewrite list_lookup_insert_ne. }
    assert (q = p) as -> by congruence. unfold publish_step in Es.
    assert (forall s, l ∉ receivers (b_shared (p_base st)) s) as Hno by (intros s; by eapply closed_unmapped).
    assert ((l ∉ called) /\ (l ∉ may_return ph)
            /\ forall id, walked ph = Some id -> l ∉ set_of (b_shared (p_base st)) id) as (Hcalled & Hret' & Hset').
    { destruct p as [s [|id|id|id seen always ret|]]; cbn [p_at p_symbol may_return walked] in *; [| | | |done].
      - injection Es as <- <-. specialize (Hno s). unfold receivers in Hno.
        destruct (listenersBySymbol _ !! s) as [id|]; cbn; (split; [by intros ?%elem_of_nil|]);
          (split; [by intros ?%elem_of_empty|]); [by intros id' [= <-]|done].
      - injection Es as <- <-. destruct (decide _); cbn; (split; [by intros ?%elem_of_nil|]);
          (split; [by intros ?%elem_of_empty|]); [done|by intros id' [= <-]; apply Hset].
      - injection Es as <- <-. cbn. split; [by intros ?%elem_of_nil|]. split; [by apply Hset|].
        by intros id' [= <-]; apply Hset.
      - destruct next as [l'|]; [|destruct (decide _); [|done]; injection Es as <- <-; cbn].
        + destruct (decide _) as [[Hin _]|]; [|done]. injection Es as <- <-. cbn.
          split; [intros ->%list_elem_of_singleton; done|done].
        + split; [by intros ?%elem_of_nil|]. split; [by intros ?%elem_of_empty|done]. }
    split; [intros [?|[_ ?]%log_other]%elem_of_app; done|]. eexists.
    split; [apply list_lookup_insert_eq; by eapply lookup_lt_Some|done].
Qed.

Lemma misses_run ms : forall st st' i l, finv st -> prun st ms = Some st' -> misses st i l -> misses st' i l.
Proof.
  induction ms as [|m ms IH]; intros st st' i l Hinv Hrun Hm; [by injection Hrun as <-|]. cbn [prun] in Hrun.
  destruct (pstep st m) as [st1|] eqn:E; [|done]. cbn in Hrun.
  eapply IH; [by eapply pstep_inv|done|]. by eapply misses_step.
Qed.

(** A publisher that has started with [l] in its set, which stays, will have called it. *)
Definition reaches (st : pstate) (i l : nat) : Prop :=
  exists p, p_pubs st !! i = Some p /\
    match p_at p with
    | AtGet => l ∈ receivers (b_shared (p_base st)) (p_symbol p)
    | AtCheck id | AtIterator id => l ∈ set_of (b_shared (p_base st)) id
    | Iterating id _ always _ => l ∈ set_of (b_shared (p_base st)) id /\ l ∈ always
    | PReturned => (i, l) ∈ p_log st
    end.

Lemma reaches_step st m st' i l :
  finv st -> pstep st m = Some st' -> m <> MThread l -> reaches st i l -> reaches st' i l.
Proof.
  intros Hinv Hstep Hm (p & Hi & Hat). pose proof (f_base _ Hinv) as Hb.
  destruct (f_owner _ Hinv) as (owner & _ & Hp). specialize (Hp i p Hi). pose proof (f_called _ Hinv i p Hi) as Hc.
  unfold reaches. destruct m as [l0|j next].
  - injection Hstep as <-. cbn [p_base p_log p_pubs].
    assert (forall id, id < next_id (b_shared (p_base st)) -> l ∈ set_of (b_shared (p_base st)) id ->
              l ∈ set_of (b_shared (bstep (p_base st) l0)) id) as Hstay
      by (intros id Hid Hl; apply bstep_stays; [done|done|congruence]).
    exists (watch (b_shared (bstep (p_base st) l0)) p). split; [by rewrite list_lookup_fmap, Hi|].
    destruct p as [s [|id|id|id seen always ret|]]; cbn [p_at p_symbol watch] in *.
    + apply (brun_others l s [l0] ltac:(intros ->%list_elem_of_singleton; done) _ Hb). exact Hat.
    + destruct (Hp id eq_refl) as [Hid _]. by apply Hstay.
    + destruct (Hp id eq_refl) as [Hid _]. by apply Hstay.
    + destruct (Hp id eq_refl) as [Hid _]. destruct Hat as [Hl Hall].
      split; [by apply Hstay|]. apply elem_of_intersection. split; [done|by apply Hstay].
    + exact Hat.
  - cbn [pstep] in Hstep. destruct (p_pubs st !! j) as [q|] eqn:Hj; [|done]. cbn in Hstep.
    destruct (publish_step _ q next) as [[ph called]|] eqn:Es; [|done]. injection Hstep as <-.
    cbn [p_base p_log p_pubs]. destruct (decide (j = i)) as [->|Hne].
    2: { exists p. rewrite list_lookup_insert_ne by done. split; [done|].
         destruct (p_at p); try done. apply elem_of_app. by left. }
    assert (q = p) as -> by congruence. exists (mkPublisher (p_symbol p) ph).
    split; [apply list_lookup_insert_eq; by eapply lookup_lt_Some|]. cbn [p_at p_symbol].
    unfold publish_step in Es. unfold called_ok in Hc.
    destruct p as [s [|id|id|id seen always ret|]]; cbn [p_at p_symbol] in *; [| | | |done].
    + injection Es as <- <-. apply receivers_mapped in Hat as (id & -> & Hl). exact Hl.
    + injection Es as <- <-. destruct (decide _) as [Hemp|]; [|exact Hat]. rewrite Hemp in Hat. by apply elem_of_empty in Hat.
    + by injection Es as <- <-.
    + destruct Hat as [Hl Hall]. destruct next as [l'|].
      * destruct (decide _); [|done]. by injection Es as <- <-.
      * destruct (decide _) as [Hsub|]; [|done]. injection Es as <- <-. apply elem_of_app. left.
        apply Hc. by apply Hsub.
Qed.

Lemma reaches_run ms : forall st st' i l,
  finv st -> prun st ms = Some st' -> MThread l ∉ ms -> reaches st i l -> reaches st' i l.
Proof.
  induction ms as [|m ms IH]; intros st st' i l Hinv Hrun Hm Hr; [by injection Hrun as <-|]. cbn [prun] in Hrun.
  apply not_elem_of_cons in Hm as [Hne Hm].
  destruct (pstep st m) as [st1|] eqn:E; [|done]. cbn in Hrun.
  eapply IH; [by eapply pstep_inv|done|done|]. by eapply reaches_step.
Qed.

(** ** Properties *)

(** C18. What holds under every interleaving of subscriptions and publishers. A publisher
    calls only listeners of subscriptions opened for its symbol, each at most once. It
    calls none whose [close] had returned when the publish began; one that closes while
    the publisher iterates may still be called ([called_after_close]). A listener that is
    in the set of the symbol when the publish begins, and whose subscription does nothing
    until the publish has returned, has been called, whoever else came and went. The
    gauge is the number of subscriptions that have returned and have not been closed, and
    when all are closed no set is left in the map. *)
Theorem publish_interleavings subs quotes moves st :
  prun (pstart subs quotes) moves = Some st ->
  let base := p_base st in
  (forall i l, (i, l) ∈ p_log st -> exists p, p_pubs st !! i = Some p /\ opened_for base l (p_symbol p))
  /\ NoDup (p_log st)
  /\ (forall i p l t more st', p_pubs st !! i = Some p -> p_at p = AtGet ->
        b_threads base !! l = Some t -> is_closed t -> prun st more = Some st' -> (i, l) ∉ p_log st')
  /\ (forall i p l more st' p', p_pubs st !! i = Some p -> p_at p = AtGet ->
        l ∈ receivers (b_shared base) (p_symbol p) -> MThread l ∉ more -> prun st more = Some st' ->
        p_pubs st' !! i = Some p' -> p_at p' = PReturned -> (i, l) ∈ p_log st')
  /\ subscriberCount (b_shared base) = Z.of_nat (open_count (b_threads base))
  /\ ((forall l t, b_threads base !! l = Some t -> is_closed t) ->
      listenersBySymbol (b_shared base) = ∅ /\ subscriberCount (b_shared base) = 0%Z).
Proof.
  intros Hrun base. pose proof (prun_inv moves _ _ Hrun (pstart_inv subs quotes)) as Hinv.
  destruct (membership_interleavings subs (threads_of moves)) as (_ & Hcount & _ & Hleak).
  rewrite <- (prun_base moves _ _ Hrun : _ = brun (bstart subs) _) in Hcount, Hleak. fold base in Hcount, Hleak.
  split; [exact (f_log _ Hinv)|]. split; [exact (f_nodup _ Hinv)|].
  split; [|split; [|split; [exact Hcount|exact Hleak]]].
  - intros i p l t more st' Hi Hat Ht Hc Hmore.
    enough (misses st' i l) as (_ & Hno & _) by done. eapply misses_run; [exact Hinv|exact Hmore|].
    split; [by exists t|]. pose proof (f_called _ Hinv i p Hi) as Hcalled. unfold called_ok in Hcalled.
    rewrite Hat in Hcalled. split; [done|]. exists p. rewrite Hat. by split; [|split; [intros ?%elem_of_empty|]].
  - intros i p l more st' p' Hi Hat Hl Hm Hmore Hi' Hret.
    assert (reaches st i l) as Hr by (exists p; by rewrite Hat).
    destruct (reaches_run more st st' i l Hinv Hmore Hm Hr) as (q & Hq & Hat').
    assert (q = p') as -> by congruence. by rewrite Hret in Hat'.
Qed.

(** A publish to two listeners, one of which closes while the publisher iterates. *)
Definition closing_moves : list pmove :=
  replicate 3 (MThread 0) ++ replicate 3 (MThread 1) ++ [MPublish 0 None; MPublish 0 None; MPublish 0 None]
  ++ replicate 4 (MThread 0) ++ [MPublish 0 (Some 1); MPublish 0 (Some 0); MPublish 0 None].
Definition two_subscriptions : list (list string) := [["BTC-USD"]; ["BTC-USD"]].

Lemma closing_runs : exists st, prun (pstart two_subscriptions ["BTC-USD"]) closing_moves = Some st /\ p_log st = [(0, 1); (0, 0)].
Proof.
  assert (p_log <$> (prun (pstart two_subscriptions ["BTC-USD"]) closing_moves) = Some [(0, 1); (0, 0)]) as Hlog by (vm_compute; reflexivity).
  apply fmap_Some in Hlog as (st & Hst & Hlog).
  exists st. split; [exact Hst|symmetry; exact Hlog].
Qed.

Lemma publish_interleavings_witness :
  exists st, prun (pstart two_subscriptions ["BTC-USD"]) closing_moves = Some st /\ p_log st = [(0, 1); (0, 0)]
    /\ subscriberCount (b_shared (p_base st)) = Z.of_nat (open_count (b_threads (p_base st))).
Proof.
  destruct closing_runs as (st & E & Hlog). exists st. split; [exact E|]. split; [exact Hlog|].
  destruct (publish_interleavings two_subscriptions ["BTC-USD"] closing_moves st E) as (_ & _ & _ & _ & Hc & _). exact Hc.
Defined.

(** A listener can be called after its [close] has returned: the publisher had made its
    iterator, and calls it though the set no longer holds it. *)
Theorem called_after_close :
  match prun (pstart [["BTC-USD"]] ["BTC-USD"])
          (replicate 3 (MThread 0) ++ replicate 3 (MPublish 0 None) ++ replicate 4 (MThread 0)) with
  | Some st =>
      todo <$> b_threads (p_base st) !! 0 = Some [] /\ p_log st = []
      /\ p_log <$> pstep st (MPublish 0 (Some 0)) = Some [(0, 0)]
  | None => False
  end.
Proof. vm_compute. repeat split. Qed.
