(* ===== verification/Codec.v ===== *)
(** * Stream tier: Avro records and the event types

    src/stream/src/main/scala/io/tapeline/stream/serde/Codec.scala, the .avsc files of the
    stream tier's own topics, and the mappers and the filter of functions/Mappers.scala for
    book deltas and quotes. A [GenericRecord] is its fields in order; a value is what the
    Avro library makes of a field of its type. [toString] of a value that is not text is
    the library's (an argument): no schema here gives a field that is read with [str]
    another type than string. *)

From S2P Require Import Prelude.
From S2P Require Import GoStrings.
From S2P Require Import GoStrconv.
From S2P Require Import GoJson.
From S2P Require Import Model.
From S2P Require Import Schemas.
From S2P Require Import TreeMap.
From S2P Require Import OrderBook.
From S2P Require Import Aggregates.
From S2P Require Import Divergence.

Local Open Scope Z_scope.

#[local] Set Warnings "-register-all".

(** ** Records *)

Inductive datum :=
  | DNull
  | DString (s : string)
  | DDouble (x : float64)
  | DLong (z : Z)
  | DInt (z : Z)
  | DBool (b : bool)
  | DArray (l : list datum)
  | DRecord (fs : list (string * datum)).

Abbreviation GenericRecord := (list (string * datum)).

Definition record_get (r : GenericRecord) (field : string) : datum :=
  match List.find (fun kv => String.eqb kv.1 field) r with Some kv => kv.2 | None => DNull end.

(** [Number.doubleValue], [longValue] and [intValue]: a double is truncated and clamped, a
    long keeps its low bits. *)
Definition clamp (lo hi z : Z) : Z := Z.max lo (Z.min hi z).
Definition f64_to_integral (lo hi : Z) (x : float64) : Z :=
  match x with
  | S754_infinity s => if s then lo else hi
  | _ => clamp lo hi (f64_trunc x)
  end.
Definition doubleValue (d : datum) : option float64 :=
  match d with DDouble x => Some x | DLong z | DInt z => Some (f64_of_Z z) | _ => None end.
Definition longValue (d : datum) : option Z :=
  match d with
  | DDouble x => Some (f64_to_integral (- two63) MaxInt64 x) | DLong z | DInt z => Some z | _ => None
  end.
Definition intValue (d : datum) : option Z :=
  match d with
  | DDouble x => Some (f64_to_integral (- two31) (two31 - 1) x) | DLong z => Some (wrap32 z) | DInt z => Some z
  | _ => None
  end.

Definition IllegalArgumentException (msg : string) : error := EMsg msg.

(** ** Decoding *)

Section codec.
Context (toString : datum -> string).

Definition text (d : datum) : string :=
  match d with DNull => "" | DString s => s | _ => toString d end.
Definition str (r : GenericRecord) (field : string) : string := text (record_get r field).

(** A field that is [null] has a default, one that [value] does not read is an error. *)
Definition typed {A} (default : A) (value : datum -> option A) (what : string) (r : GenericRecord) (field : string) : res A :=
  match record_get r field with
  | DNull => Ok default
  | d => of_option (IllegalArgumentException ("field " +:+ field +:+ " is not " +:+ what)) (value d)
  end.
Definition dbl : GenericRecord -> string -> res float64 := typed f64_zero doubleValue "numeric".
Definition lng : GenericRecord -> string -> res Z := typed 0 longValue "numeric".
Definition int : GenericRecord -> string -> res Z := typed 0 intValue "numeric".
Definition bool : GenericRecord -> string -> res bool :=
  typed false (fun d => match d with DBool b => Some b | _ => None end) "boolean".

Definition record_level (d : datum) : res OrderBook.Level :=
  match d with
  | DRecord lvl => p ← dbl lvl "price"; s ← dbl lvl "size"; Ok (OrderBook.mkLevel p s)
  | _ => Err (IllegalArgumentException "level is not a record")
  end.
Definition record_levels (r : GenericRecord) (field : string) : res (list OrderBook.Level) :=
  match record_get r field with
  | DNull => Ok []
  | DArray l => map_res record_level l
  | _ => Err (IllegalArgumentException ("field " +:+ field +:+ " is not an array"))
  end.

Definition toTrade (r : GenericRecord) : res Aggregates.Trade :=
  price ← dbl r "price"; size ← dbl r "size";
  event ← lng r "event_time_us"; ingest ← lng r "ingest_time_us"; sequence ← lng r "sequence";
  Ok (Aggregates.mkTrade (str r "venue") (str r "symbol") (str r "trade_id") price size (str r "side")
        event ingest sequence).

Definition toBookDelta (r : GenericRecord) : res OrderBook.BookDelta :=
  snapshot ← bool r "is_snapshot"; bids ← record_levels r "bids"; asks ← record_levels r "asks";
  event ← lng r "event_time_us"; ingest ← lng r "ingest_time_us"; sequence ← lng r "sequence";
  Ok (fromLevels (str r "venue") (str r "symbol") snapshot bids asks event ingest sequence).

(** [Codec.toQuote]: the derived columns are not read. *)
Definition record_quote (r : GenericRecord) : res Quote :=
  bid ← dbl r "bid_price"; bid_size ← dbl r "bid_size"; ask ← dbl r "ask_price"; ask_size ← dbl r "ask_size";
  imb ← dbl r "imbalance"; event ← lng r "event_time_us"; emitted ← lng r "emit_time_us";
  Ok (mkQuote (str r "venue") (str r "symbol") bid bid_size ask ask_size imb event emitted).

Record ChainTransfer := mkChainTransfer {
  c_chain : string; c_token : string; c_symbol : string; c_fromAddr : string; c_toAddr : string;
  c_amountRaw : string; c_decimals : Z; c_blockNumber : Z; c_logIndex : Z; c_txHash : string;
  c_eventTimeUs : Z; c_ingestTimeUs : Z }.
Definition toChainTransfer (r : GenericRecord) : res ChainTransfer :=
  decimals ← int r "decimals"; block ← lng r "block_number"; log ← int r "log_index";
  event ← lng r "event_time_us"; ingest ← lng r "ingest_time_us";
  Ok (mkChainTransfer (str r "chain") (str r "token") (str r "symbol") (str r "from_addr") (str r "to_addr")
        (str r "amount_raw") decimals block log (str r "tx_hash") event ingest).
End codec.

(** ** Encoding *)

Definition nan_to_zero (x : float64) : float64 := if is_nan x then f64_zero else x.

Definition fromQuote (q : Quote) : GenericRecord :=
  [("venue", DString (q_venue q)); ("symbol", DString (q_symbol q));
   ("bid_price", DDouble (bidPrice q)); ("bid_size", DDouble (bidSize q));
   ("ask_price", DDouble (askPrice q)); ("ask_size", DDouble (askSize q));
   ("mid", DDouble (quote_mid q)); ("spread_bps", DDouble (nan_to_zero (spreadBps q)));
   ("imbalance", DDouble (q_imbalance q));
   ("event_time_us", DLong (q_eventTimeUs q)); ("emit_time_us", DLong (q_emitTimeUs q))].

Definition fromDivergence (d : DivergenceEvent) : GenericRecord :=
  [("symbol", DString (d_symbol d)); ("venue_a", DString (d_venueA d)); ("venue_b", DString (d_venueB d));
   ("price_a", DDouble (d_priceA d)); ("price_b", DDouble (d_priceB d));
   ("divergence_bps", DDouble (d_divergenceBps d)); ("zscore", DDouble (d_zscore d));
   ("window_start_us", DLong (d_windowStartUs d)); ("event_time_us", DLong (d_eventTimeUs d))].

Definition fromWindowBar (b : WindowBar) : GenericRecord :=
  [("venue", DString (w_venue b)); ("symbol", DString (w_symbol b));
   ("window_start_us", DLong (w_windowStartUs b)); ("window_end_us", DLong (w_windowEndUs b));
   ("open", DDouble (w_open b)); ("high", DDouble (w_high b)); ("low", DDouble (w_low b));
   ("close", DDouble (w_close b)); ("volume", DDouble (w_volume b));
   ("vwap", DDouble (nan_to_zero (w_vwap b))); ("trade_count", DLong (w_tradeCount b))].

(** ** Mappers *)

Definition valid_delta (d : OrderBook.BookDelta) : Datatypes.bool :=
  (0 <? bd_eventTimeUs d) && negb (String.eqb (bd_symbol d) "")
  && (negb (length (delta_bids d) =? 0)%nat || negb (length (delta_asks d) =? 0)%nat).
Definition delta_timestamp_ms (d : OrderBook.BookDelta) : Z := Z.quot (bd_eventTimeUs d) 1000.
Definition quote_timestamp_ms (q : Quote) : Z := Z.quot (q_eventTimeUs q) 1000.

(** What the book job makes of a record: [ToBookDeltaMapper], then [ValidBookDeltaFilter]. *)
Definition decode_delta (toString : datum -> string) (r : GenericRecord) : res (option OrderBook.BookDelta) :=
  d ← toBookDelta toString r; Ok (if valid_delta d then Some d else None).

(** ** The schemas of the stream tier's topics *)

Definition QuoteSchema : string := dq
"{
  'type': 'record',
  'name': 'Quote',
  'namespace': 'io.tapeline.md',
  'doc': 'Top of book plus derived microstructure statistics, emitted by the book job.',
  'fields': [
    { 'name': 'venue', 'type': 'string' },
    { 'name': 'symbol', 'type': 'string' },
    { 'name': 'bid_price', 'type': 'double' },
    { 'name': 'bid_size', 'type': 'double' },
    { 'name': 'ask_price', 'type': 'double' },
    { 'name': 'ask_size', 'type': 'double' },
    { 'name': 'mid', 'type': 'double' },
    { 'name': 'spread_bps', 'type': 'double' },
    { 'name': 'imbalance', 'type': 'double', 'doc': '(bidQty - askQty) / (bidQty + askQty) over the top levels' },
    { 'name': 'event_time_us', 'type': 'long' },
    { 'name': 'emit_time_us', 'type': 'long' }
  ]
}
".

Definition DivergenceSchema : string := dq
"{
  'type': 'record',
  'name': 'DivergenceEvent',
  'namespace': 'io.tapeline.md',
  'doc': 'A cross-exchange price divergence that cleared both the absolute and the statistical threshold.',
  'fields': [
    { 'name': 'symbol', 'type': 'string' },
    { 'name': 'venue_a', 'type': 'string' },
    { 'name': 'venue_b', 'type': 'string' },
    { 'name': 'price_a', 'type': 'double' },
    { 'name': 'price_b', 'type': 'double' },
    { 'name': 'divergence_bps', 'type': 'double' },
    { 'name': 'zscore', 'type': 'double', 'doc': 'Against the rolling baseline for this venue pair, excluding this observation' },
    { 'name': 'window_start_us', 'type': 'long' },
    { 'name': 'event_time_us', 'type': 'long' }
  ]
}
".

Definition WindowBarSchema : string := dq
"{
  'type': 'record',
  'name': 'WindowBar',
  'namespace': 'io.tapeline.md',
  'doc': 'A completed tumbling window of trade activity for one venue and symbol.',
  'fields': [
    { 'name': 'venue', 'type': 'string' },
    { 'name': 'symbol', 'type': 'string' },
    { 'name': 'window_start_us', 'type': 'long' },
    { 'name': 'window_end_us', 'type': 'long' },
    { 'name': 'open', 'type': 'double' },
    { 'name': 'high', 'type': 'double' },
    { 'name': 'low', 'type': 'double' },
    { 'name': 'close', 'type': 'double' },
    { 'name': 'volume', 'type': 'double' },
    { 'name': 'vwap', 'type': 'double' },
    { 'name': 'trade_count', 'type': 'long' }
  ]
}
".

(** A value is of a type. [fuel] bounds the nesting, as for [fits]. *)
Fixpoint datum_fits (defs : list (string * avro_type)) (fuel : nat) (t : avro_type) (d : datum) : Datatypes.bool :=
  match fuel with
  | O => false
  | S f =>
      match d, t with
      | DString _, TName n => String.eqb n "string"
      | DDouble _, TName n => String.eqb n "double"
      | DLong _, TName n => String.eqb n "long"
      | DInt _, TName n => String.eqb n "int"
      | DBool _, TName n => String.eqb n "boolean"
      | DArray l, TArray t => forallb (datum_fits defs f t) l
      | DRecord _, TName n =>
          match List.find (fun d => String.eqb d.1 n) defs with
          | Some (_, t) => datum_fits defs f t d
          | None => false
          end
      | DRecord ds, TRecord _ fs =>
          (length ds =? length fs)%nat
          && forallb (fun p => String.eqb p.1.1 p.2.1.1 && datum_fits defs f p.2.1.2 p.1.2) (zip ds fs)
      | _, _ => false
      end
  end.
Definition record_fits (schema : string) (r : GenericRecord) : Datatypes.bool :=
  match read_schema schema with
  | Some t => datum_fits (declared 8 t) 8 t (DRecord r)
  | None => false
  end.

(** ** What the Go tier writes

    The struct of a payload, by its tags: the record an Avro library writes and a reader
    with the same schema gets back. *)
Definition tags_of (g : go_type) : list string := match g with GoStruct fs => map fst fs | _ => [] end.
Definition level_record (l : Model.Level) : datum :=
  DRecord (zip (tags_of Level_tags) [DDouble (lvl_Price l); DDouble (lvl_Size l)]).
Definition payload_record (p : payload) : option GenericRecord :=
  match p with
  | PTrade (Some t) =>
      Some (zip (tags_of Trade_tags)
              [DString (tr_Venue t); DString (tr_Symbol t); DString (tr_TradeID t); DDouble (tr_Price t);
               DDouble (tr_Size t); DString (tr_Side t); DLong (tr_EventTimeUS t); DLong (tr_IngestTimeUS t);
               DLong (tr_Sequence t)])
  | PBook (Some b) =>
      Some (zip (tags_of BookDelta_tags)
              [DString (bd_Venue b); DString (bd_Symbol b); DBool (bd_IsSnapshot b);
               DArray (map level_record (bd_Bids b)); DArray (map level_record (bd_Asks b));
               DLong (bd_EventTimeUS b); DLong (bd_IngestTimeUS b); DLong (bd_Sequence b)])
  | PChain (Some c) =>
      Some (zip (tags_of ChainTransfer_tags)
              [DString (ct_Chain c); DString (ct_Token c); DString (ct_Symbol c); DString (ct_FromAddr c);
               DString (ct_ToAddr c); DString (ct_AmountRaw c); DInt (ct_Decimals c); DLong (ct_BlockNumber c);
               DInt (ct_LogIndex c); DString (ct_TxHash c); DLong (ct_EventTimeUS c); DLong (ct_IngestTimeUS c)])
  | _ => None
  end.
Definition level_of (l : Model.Level) : OrderBook.Level := OrderBook.mkLevel (lvl_Price l) (lvl_Size l).

(** The same event in the types of the stream tier. *)
Inductive stream_event :=
  | STrade (t : Aggregates.Trade)
  | SDelta (d : OrderBook.BookDelta)
  | SChain (c : ChainTransfer).
Definition stream_event_of (p : payload) : option stream_event :=
  match p with
  | PTrade (Some t) =>
      Some (STrade (Aggregates.mkTrade (tr_Venue t) (tr_Symbol t) (tr_TradeID t) (tr_Price t) (tr_Size t) (tr_Side t)
                      (tr_EventTimeUS t) (tr_IngestTimeUS t) (tr_Sequence t)))
  | PBook (Some b) =>
      Some (SDelta (fromLevels (bd_Venue b) (bd_Symbol b) (bd_IsSnapshot b) (map level_of (bd_Bids b))
                      (map level_of (bd_Asks b)) (bd_EventTimeUS b) (bd_IngestTimeUS b) (bd_Sequence b)))
  | PChain (Some c) =>
      Some (SChain (mkChainTransfer (ct_Chain c) (ct_Token c) (ct_Symbol c) (ct_FromAddr c) (ct_ToAddr c)
                      (ct_AmountRaw c) (ct_Decimals c) (ct_BlockNumber c) (ct_LogIndex c) (ct_TxHash c)
                      (ct_EventTimeUS c) (ct_IngestTimeUS c)))
  | _ => None
  end.
(** The mapper of the topic of the payload's kind. *)
Definition decode_event (toString : datum -> string) (p : payload) (r : GenericRecord) : res stream_event :=
  match p with
  | PTrade _ => STrade <$> toTrade toString r
  | PBook _ => SDelta <$> toBookDelta toString r
  | _ => SChain <$> toChainTransfer toString r
  end.
Definition schema_text (p : payload) : string :=
  match p with PTrade _ => TradeV1 | PBook _ => BookDeltaV1 | _ => ChainTransferV1 end.

(** ** Lemmas *)

Lemma record_levels_of (r : GenericRecord) field (ls : list Model.Level) :
  record_get r field = DArray (map level_record ls) -> record_levels r field = Ok (map level_of ls).
Proof.
  intros E. unfold record_levels. rewrite E. clear E. induction ls as [|l ls IH]; [done|].
  cbn [map map_res]. by rewrite IH.
Qed.

Definition level_type : avro_type := TRecord "Level" [("price", TName "double", None); ("size", TName "double", None)].

Lemma level_fits defs fuel l : datum_fits defs (S (S fuel)) level_type (level_record l) = true.
Proof. reflexivity. Qed.

(** The arrays of a delta: the first declares the type of a level, the second names it. *)
Lemma levels_fit fuel defs t ls : (forall l, datum_fits defs fuel t (level_record l) = true) ->
  datum_fits defs (S fuel) (TArray t) (DArray (map level_record ls)) = true.
Proof. intros Hl. cbn. apply forallb_forall. intros d (l & <- & _)%in_map_iff. apply Hl. Qed.

Lemma record_fits_fields defs fuel name (ds : GenericRecord) fs :
  datum_fits defs (S fuel) (TRecord name fs) (DRecord ds)
  = (length ds =? length fs)%nat
    && forallb (fun p => String.eqb p.1.1 p.2.1.1 && datum_fits defs fuel p.2.1.2 p.1.2) (zip ds fs).
Proof. reflexivity. Qed.

(** ** Properties *)

(** C12. What the Go tier writes is what the stream tier reads: the record of every payload
    fits the schema of its kind, and the mapper of its topic makes of it the same event,
    field for field and level for level. *)
Theorem go_events_decode toString p r :
  payload_record p = Some r ->
  record_fits (schema_text p) r = true /\ Ok <$> stream_event_of p = Some (decode_event toString p r).
Proof.
  destruct p as [|[t|]|[b|]|[c|]]; try done; intros [= <-].
  - split; vm_compute; reflexivity.
  - split.
    + assert (exists t, read_schema BookDeltaV1 = Some t /\ t = TRecord "BookDelta"
        [("venue", TName "string", None); ("symbol", TName "string", None); ("is_snapshot", TName "boolean", None);
         ("bids", TArray level_type, None); ("asks", TArray (TName "Level"), None); ("event_time_us", TName "long", None);
         ("ingest_time_us", TName "long", None); ("sequence", TName "long", None)]) as (t & Ht & ->)
        by (eexists; split; vm_compute; reflexivity).
      unfold record_fits. cbn [schema_text]. rewrite Ht, record_fits_fields. cbn [length zip zip_with forallb fst snd tags_of BookDelta_tags map].
      rewrite !levels_fit by reflexivity. reflexivity.
    + cbn [decode_event stream_event_of fmap option_fmap option_map]. match goal with |- context [toBookDelta _ ?r0] => set (r := r0) end. unfold toBookDelta.
      rewrite (record_levels_of r "bids" (bd_Bids b) eq_refl), (record_levels_of r "asks" (bd_Asks b) eq_refl). reflexivity.
  - split; vm_compute; reflexivity.
Qed.

Definition sample_trade : Model.Trade :=
  Model.mkTrade "kraken" "ETH-USD" "7" (f64_of_Z 3) (f64_of_Z 2) "BUY" 1000 1001 (-1).
Lemma go_events_decode_witness : exists r, payload_record (PTrade (Some sample_trade)) = Some r
  /\ record_fits TradeV1 r = true
  /\ decode_event (fun _ => "?") (PTrade (Some sample_trade)) r
    = Ok (STrade (Aggregates.mkTrade "kraken" "ETH-USD" "7" (f64_of_Z 3) (f64_of_Z 2) "BUY" 1000 1001 (-1))).
Proof.
  eexists. split; [reflexivity|].
  destruct (go_events_decode (fun _ => "?") (PTrade (Some sample_trade)) _ eq_refl) as [Hf Hd].
  split; [exact Hf|]. apply (inj Some) in Hd. symmetry. exact Hd.
Defined.

(** What the stream tier writes fits the schemas of its topics, whatever the values; a
    quote it reads back is the quote it wrote. *)
Theorem written_records_fit :
  (forall q, record_fits QuoteSchema (fromQuote q) = true)
  /\ (forall d, record_fits DivergenceSchema (fromDivergence d) = true)
  /\ (forall b, record_fits WindowBarSchema (fromWindowBar b) = true)
  /\ forall toString q, record_quote toString (fromQuote q) = Ok q.
Proof. repeat split; intros; try (vm_compute; reflexivity). by destruct q. Qed.

(** A snapshot without levels empties a book, but the book job drops it: the book of the
    key stays as it was. *)
Theorem empty_snapshot_dropped venue symbol event ingest sequence b :
  let d := fromLevels venue symbol true [] [] event ingest sequence in
  valid_delta d = false /\ book_isEmpty (apply b d) = true.
Proof. unfold valid_delta, delta_bids, delta_asks, levels. cbn. by rewrite andb_false_r. Qed.
