(* ===== verification/StreamConfig.v ===== *)
(** * Stream tier: configuration and the entry point

    src/stream/src/main/scala/io/tapeline/stream/config/StreamConfig.scala and
    TapelineJob.scala. The environment is a function; the parsing of doubles by the JDK is
    an argument. *)

From S2P Require Import Prelude.
From S2P Require Import GoStrings.
From S2P Require Import GoStrconv.
From S2P Require Import GoFmt.
From S2P Require Import TreeMap.
From S2P Require Import OrderBook.
From S2P Require Import BookFunction.
From S2P Require Import Divergence.

Local Open Scope Z_scope.

Record StreamConfig := mkStreamConfig {
  kafkaBrokers : string; schemaRegistryUrl : string; groupIdPrefix : string; transactionalIdPrefix : string;
  topicTrades : string; topicBook : string; topicChain : string; topicQuotes : string;
  topicDivergence : string; topicBars : string;
  checkpointIntervalMs : Z; checkpointTimeoutMs : Z; minPauseBetweenCheckpointsMs : Z;
  maxOutOfOrdernessMs : Z; idlenessMs : Z; windowSeconds : Z; bookMaxDepth : Z; imbalanceDepth : Z;
  quoteEmitIntervalMs : Z; parallelism : Z;
  icebergWarehouse : string; icebergCatalog : string; icebergDatabase : string;
  divergence : Config; backfillStartUs : Z; backfillEndUs : Z }.

Definition groupId (c : StreamConfig) (job : string) : string := groupIdPrefix c +:+ "." +:+ job.
Definition transactionalId (c : StreamConfig) (job : string) : string := transactionalIdPrefix c +:+ "." +:+ job.
Definition isBackfill (c : StreamConfig) : bool := (0 <? backfillStartUs c) && (backfillStartUs c <? backfillEndUs c).

Definition nonEmpty (s : string) : bool := negb (String.eqb s "").

(** The first requirement that does not hold is the exception. *)
Definition validated (c : StreamConfig) : res StreamConfig :=
  _ ← require (nonEmpty (kafkaBrokers c)) "TAPELINE_KAFKA_BROKERS must be set";
  _ ← require (nonEmpty (schemaRegistryUrl c)) "TAPELINE_SCHEMA_REGISTRY_URL must be set";
  _ ← require (nonEmpty (transactionalIdPrefix c)) "TAPELINE_TXN_ID_PREFIX must be set";
  _ ← require (0 <? windowSeconds c) "window seconds must be positive";
  _ ← require (0 <? bookMaxDepth c) "book depth must be positive";
  _ ← require (imbalanceDepth c <=? bookMaxDepth c) "imbalance depth exceeds retained book depth";
  _ ← require (0 <? parallelism c) "parallelism must be positive";
  _ ← require (checkpointIntervalMs c <? checkpointTimeoutMs c) "checkpoint timeout must exceed the interval";
  _ ← require ((backfillEndUs c =? 0) || (backfillStartUs c <? backfillEndUs c)) "backfill end must be after start";
  Ok c.

(** ** The environment *)

Section environment.
Context (sys_env : string -> option string) (toDoubleOption : string -> option float64).

(** A variable that is set and not empty. *)
Definition setting (key : string) : option string :=
  match sys_env key with Some v => if nonEmpty v then Some v else None | None => None end.
Definition env (key default_ : string) : string := default default_ (setting key).
Definition not_a_number (key v : string) : error := EMsg (key +:+ "=" +:+ v +:+ " is not a number").

(** [toLongOption] reads what [strconv.ParseInt] does in base 10: a sign and digits in range. *)
Definition envLong (key : string) (default_ : Z) : res Z :=
  match setting key with
  | None => Ok default_
  | Some v => match ParseInt v 10 with inl z => Ok z | inr _ => Err (not_a_number key v) end
  end.
Definition envInt (key : string) (default_ : Z) : res Z := z ← envLong key default_; Ok (wrap32 z).
Definition envDouble (key : string) (default_ : float64) : res float64 :=
  match setting key with
  | None => Ok default_
  | Some v => of_option (not_a_number key v) (toDoubleOption v)
  end.

Definition fromEnv : res StreamConfig :=
  interval ← envLong "TAPELINE_CHECKPOINT_INTERVAL_MS" 30000;
  timeout ← envLong "TAPELINE_CHECKPOINT_TIMEOUT_MS" 120000;
  pause ← envLong "TAPELINE_CHECKPOINT_MIN_PAUSE_MS" 5000;
  ooo ← envLong "TAPELINE_MAX_OUT_OF_ORDERNESS_MS" 5000;
  idle ← envLong "TAPELINE_IDLENESS_MS" 60000;
  window ← envInt "TAPELINE_WINDOW_SECONDS" 1;
  depth ← envInt "TAPELINE_BOOK_MAX_DEPTH" 50;
  imb ← envInt "TAPELINE_IMBALANCE_DEPTH" 5;
  emit_ms ← envLong "TAPELINE_QUOTE_EMIT_INTERVAL_MS" 100;
  par ← envInt "TAPELINE_PARALLELISM" 2;
  bps ← envDouble "TAPELINE_DIVERGENCE_MIN_BPS" (f64_of_Z 5);
  z ← envDouble "TAPELINE_DIVERGENCE_MIN_ZSCORE" (f64_of_Z 3);
  baseline ← envInt "TAPELINE_DIVERGENCE_BASELINE_WINDOW" 600;
  observations ← envInt "TAPELINE_DIVERGENCE_MIN_OBSERVATIONS" 30;
  age ← envLong "TAPELINE_DIVERGENCE_MAX_QUOTE_AGE_US" 5000000;
  start ← envLong "TAPELINE_BACKFILL_START_US" 0;
  end_ ← envLong "TAPELINE_BACKFILL_END_US" 0;
  validated (mkStreamConfig
    (env "TAPELINE_KAFKA_BROKERS" "localhost:9092") (env "TAPELINE_SCHEMA_REGISTRY_URL" "http://localhost:8081")
    (env "TAPELINE_GROUP_ID_PREFIX" "tapeline") (env "TAPELINE_TXN_ID_PREFIX" "tapeline-txn")
    (env "TAPELINE_TOPIC_TRADES" "md.trades.v1") (env "TAPELINE_TOPIC_BOOK" "md.book.v1")
    (env "TAPELINE_TOPIC_CHAIN" "md.chain.v1") (env "TAPELINE_TOPIC_QUOTES" "md.quotes.v1")
    (env "TAPELINE_TOPIC_DIVERGENCE" "md.divergence.v1") (env "TAPELINE_TOPIC_BARS" "md.bars.v1")
    interval timeout pause ooo idle window depth imb emit_ms par
    (env "TAPELINE_ICEBERG_WAREHOUSE" "s3://tapeline-lakehouse/warehouse") (env "TAPELINE_ICEBERG_CATALOG" "tapeline")
    (env "TAPELINE_ICEBERG_DATABASE" "market_data")
    (mkConfig bps z baseline observations age) start end_).
End environment.

(** ** The entry point *)

Inductive job := Book | Trades | DivergenceDetector | LakehouseWriter | Backfill | Monolith.
Definition job_name (j : job) : string :=
  match j with
  | Book => "book" | Trades => "trades" | DivergenceDetector => "divergence" | LakehouseWriter => "lakehouse"
  | Backfill => "backfill" | Monolith => "monolith"
  end.
Definition jobs : list job := [Book; Trades; DivergenceDetector; LakehouseWriter; Backfill; Monolith].

(** What [main] does: an exit code, an exception, or the job that runs. *)
Inductive main_outcome := Exit (code : Z) | Throws (e : error) | Runs (j : job) (c : StreamConfig).
Definition main (args : list string) (cfg : res StreamConfig) : main_outcome :=
  match args with
  | [] => Exit 2
  | a :: _ =>
      match cfg with
      | Ok c =>
          match List.find (fun j => String.eqb (job_name j) a) jobs with
          | Some Backfill => if isBackfill c then Runs Backfill c else Throws (EMsg "backfill needs a range")
          | Some j => Runs j c
          | None => Exit 2
          end
      | Err e => Throws e
      | Panic => Throws (EMsg "panic")
      end
  end.

(** ** Theorems *)

Lemma require_Ok {A} b msg (m : res A) x : (_ ← require b msg; m) = Ok x <-> b = true /\ m = Ok x.
Proof. destruct b; cbn; [tauto|]. split; [done|]. by intros []. Qed.

(** [validated] rejects exactly what breaks one of its requirements, and changes nothing. *)
Theorem validated_exact c c' :
  validated c = Ok c' <->
  c' = c /\ kafkaBrokers c <> "" /\ schemaRegistryUrl c <> "" /\ transactionalIdPrefix c <> "" /\ 0 < windowSeconds c
  /\ 0 < bookMaxDepth c /\ imbalanceDepth c <= bookMaxDepth c /\ 0 < parallelism c
  /\ checkpointIntervalMs c < checkpointTimeoutMs c /\ (backfillEndUs c = 0 \/ backfillStartUs c < backfillEndUs c).
Proof.
  unfold validated. rewrite !require_Ok. unfold nonEmpty.
  rewrite !negb_true_iff, !String.eqb_neq, !Z.ltb_lt, Z.leb_le, orb_true_iff, Z.eqb_eq, Z.ltb_lt.
  split; [intros (? & ? & ? & ? & ? & ? & ? & ? & ? & [= <-]); tauto|]. intros (-> & ?). tauto.
Qed.

(** No two jobs share a name, a consumer group or a transactional id, whatever the prefix. *)
Theorem jobs_do_not_fence c j j' :
  (job_name j = job_name j' -> j = j') /\ (groupId c (job_name j) = groupId c (job_name j') -> j = j')
  /\ (transactionalId c (job_name j) = transactionalId c (job_name j') -> j = j').
Proof.
  assert (job_name j = job_name j' -> j = j') as Hn by (by destruct j, j').
  assert (forall p, p +:+ "." +:+ job_name j = p +:+ "." +:+ job_name j' -> j = j') as Ha.
  { intros p E. apply Hn. induction p as [|a p IH]; cbn in E; injection E as E; [done|by apply IH]. }
  split; [done|]. split; apply Ha.
Qed.

(** The first argument alone decides what runs; a backfill runs only over a range. *)
Theorem main_runs args cfg : match main args cfg with
  | Runs j c => cfg = Ok c /\ (exists rest, args = job_name j :: rest) /\ (j = Backfill -> 0 < backfillStartUs c < backfillEndUs c)
  | Exit code => code = 2 /\ (args = [] \/ exists a rest, args = a :: rest /\ forall j, a <> job_name j)
  | Throws _ => True
  end.
Proof.
  unfold main. destruct args as [|a rest]; [by auto|]. destruct cfg as [c|e|]; [|done..].
  destruct (List.find _ jobs) as [j|] eqn:E.
  - apply find_some in E as [_ <-%String.eqb_eq].
    assert (exists r, job_name j :: rest = job_name j :: r) as Hr by (by exists rest).
    destruct j; try (split; [done|]; split; [done|]; discriminate). destruct (isBackfill c) eqn:Eb; [|done].
    split; [done|]. split; [done|]. intros _. unfold isBackfill in Eb. lia.
  - split; [done|]. right. exists a, rest. split; [done|]. intros j ->.
    pose proof (find_none _ _ E j ltac:(destruct j; cbn; tauto)) as Hf. cbn in Hf. by rewrite String.eqb_refl in Hf.
Qed.

(** With the settings that pass, a positive imbalance depth and an interval, the operator
    accepts every sequence of deltas. *)
Theorem validated_accepts_deltas c c' (ds : list (BookDelta * Z)) :
  validated c = Ok c' -> 0 < imbalanceDepth c -> quoteEmitIntervalMs c <> 0 ->
  exists o, op_run (bookMaxDepth c) (imbalanceDepth c) (quoteEmitIntervalMs c) (map (fun dn => InDelta dn.1 dn.2) ds) = Ok (o, []).
Proof.
  intros (_ & _ & _ & _ & _ & Hd & _)%validated_exact Hi He. induction ds as [|[d now] ds IH] using rev_ind; [by eexists|].
  destruct IH as (o & Ho). rewrite map_app. cbn [map fst snd]. rewrite op_run_snoc, Ho. cbn [mbind res_bind].
  pose proof (run_inv _ _ _ Hd Hi _ _ _ Ho) as Hinv.
  destruct (delta_step _ _ _ Hd _ _ _ d now He Hinv) as (o' & -> & _). by eexists.
Qed.
Definition nothing_set (_ : string) : option string := None.
Definition no_doubles (_ : string) : option float64 := None.
Lemma validated_accepts_deltas_witness : exists c o, fromEnv nothing_set no_doubles = Ok c
  /\ op_run (bookMaxDepth c) (imbalanceDepth c) (quoteEmitIntervalMs c) [InDelta (delta true [level 100 1] [level 101 1] 1) 1] = Ok (o, []).
Proof.
  assert (exists c, fromEnv nothing_set no_doubles = Ok c /\ 0 < imbalanceDepth c /\ quoteEmitIntervalMs c <> 0
    /\ validated c = Ok c) as (c & E & Hi & He & Hv).
  { eexists. split; [vm_compute; reflexivity|]. cbn. split; [lia|]. split; [lia|]. vm_compute. reflexivity. }
  destruct (validated_accepts_deltas c c [(delta true [level 100 1] [level 101 1] 1, 1)] Hv Hi He) as (o & Ho).
  exists c, o. split; [exact E|exact Ho].
Defined.

(** Two settings that stop the book job pass: an interval of zero fails the first delta, an
    imbalance depth of zero the first quote. And an integer setting keeps its low 32 bits. *)
Definition set_to (key value : string) (k : string) : option string := if String.eqb k key then Some value else None.
Theorem unchecked_settings :
  (exists c, fromEnv (set_to "TAPELINE_QUOTE_EMIT_INTERVAL_MS" "0") no_doubles = Ok c
     /\ processElement (bookMaxDepth c) (quoteEmitIntervalMs c) (delta true [level 100 1] [level 101 1] 1) 1 new_operator
        = Err (EMsg "/ by zero"))
  /\ (exists c, fromEnv (set_to "TAPELINE_IMBALANCE_DEPTH" "0") no_doubles = Ok c
     /\ is_ok (op_run (bookMaxDepth c) (imbalanceDepth c) (quoteEmitIntervalMs c)
          [InDelta (delta true [level 100 1] [level 101 1] 1) 1; InTimer "coinbase|BTC-USD" 100 101 7]) = false)
  /\ exists c, fromEnv (set_to "TAPELINE_PARALLELISM" "4294967297") no_doubles = Ok c /\ parallelism c = 1.
Proof.
  split; [|split]; eexists; (split; [vm_compute; reflexivity|]); vm_compute; reflexivity.
Qed.

(** Settings of the runs in the files of the jobs: a backfill from the first second. *)
Definition sample_cfg (end_ : Z) : StreamConfig :=
  mkStreamConfig "kafka:9092" "http://registry" "tapeline" "tapeline-txn" "md.trades.v1" "md.book.v1" "md.chain.v1"
    "md.quotes.v1" "md.divergence.v1" "md.bars.v1" 30000 120000 5000 5000 60000 1 50 5 100 2
    "s3://warehouse" "tapeline" "market_data" small_config 1000000 end_.
