(* ===== verification/Lakehouse.v ===== *)
(** * Stream tier: the lakehouse and the backfill

    src/stream/src/main/scala/io/tapeline/stream: lakehouse/Lakehouse.scala (the rows of the
    trades table) and jobs/BackfillJob.scala over the bars of Aggregates.v. The table is its
    rows in the order a scan returns them, which is any order. *)

From S2P Require Import Prelude.
From S2P Require Import GoStrings.
From S2P Require Import GoStrconv.
From S2P Require Import TreeMap.
From S2P Require Import OrderBook.
From S2P Require Import Aggregates.
From S2P Require Import Codec.

Local Open Scope Z_scope.

(** ** Rows *)

(** A timestamp is its milliseconds since the epoch. *)
Inductive cell := CString (s : string) | CDouble (x : float64) | CLong (z : Z) | CTimestamp (ms : Z).
Abbreviation Row := (list (string * cell)).
Definition getField (r : Row) (name : string) : option cell := snd <$> List.find (fun c => String.eqb c.1 name) r.

Definition TradesTable : string := "trades".

(** The columns of the table, in the order of the DDL, and the names of [tradeRowType]. *)
Definition trade_columns : list string :=
  ["venue"; "symbol"; "trade_id"; "price"; "size"; "side"; "event_time_us"; "ingest_time_us"; "sequence"; "event_time"].

(** [TradeToRowMapper]. *)
Definition row_of_trade (t : Trade) : Row :=
  [("venue", CString (t_venue t)); ("symbol", CString (t_symbol t)); ("trade_id", CString (t_tradeId t));
   ("price", CDouble (t_price t)); ("size", CDouble (t_size t)); ("side", CString (t_side t));
   ("event_time_us", CLong (t_eventTimeUs t)); ("ingest_time_us", CLong (t_ingestTimeUs t));
   ("sequence", CLong (t_sequence t)); ("event_time", CTimestamp (Z.quot (t_eventTimeUs t) 1000))].

(** [RowToTradeMapper]: a column that is missing has a default. The columns that are read
    as text are text in the table. *)
Definition row_str (r : Row) (name : string) : string := match getField r name with Some (CString s) => s | _ => "" end.
Definition row_dbl (r : Row) (name : string) : float64 :=
  match getField r name with Some (CDouble x) => x | Some (CLong z) => f64_of_Z z | _ => f64_zero end.
Definition row_lng (r : Row) (name : string) : Z :=
  match getField r name with
  | Some (CLong z) => z | Some (CDouble x) => f64_to_integral (- two63) MaxInt64 x | _ => 0
  end.
Definition trade_of_row (r : Row) : Trade :=
  mkTrade (row_str r "venue") (row_str r "symbol") (row_str r "trade_id") (row_dbl r "price") (row_dbl r "size")
    (row_str r "side") (row_lng r "event_time_us") (row_lng r "ingest_time_us") (row_lng r "sequence").

(** ** The backfill *)

(** The columns and the rows the query selects. *)
Definition selected (start end_ : Z) (table : list Row) : list Row :=
  map (List.filter (fun c => negb (String.eqb c.1 "event_time")))
    (List.filter (fun r => (start <=? row_lng r "event_time_us") && (row_lng r "event_time_us" <? end_)) table).
Definition backfill_trades (start end_ : Z) (table : list Row) : list Trade := map trade_of_row (selected start end_ table).
Definition backfill_bars (windowSeconds start end_ : Z) (table : list Row) : gmap (string * Z) WindowBar :=
  bars windowSeconds (backfill_trades start end_ table).

(** ** Lemmas *)

Definition in_range (start end_ : Z) (t : Trade) : Datatypes.bool := (start <=? t_eventTimeUs t) && (t_eventTimeUs t <? end_).

Lemma backfill_trades_of start end_ ts :
  backfill_trades start end_ (map row_of_trade ts) = List.filter (in_range start end_) ts.
Proof.
  unfold backfill_trades, selected. induction ts as [|t ts IH]; [done|].
  cbn [map List.filter]. change (row_lng (row_of_trade t) "event_time_us") with (t_eventTimeUs t).
  unfold in_range at 1. destruct (_ && _); [|exact IH]. cbn [map]. rewrite <- IH. f_equal. by destruct t.
Qed.

Lemma filter_perm {A} (f : A -> Datatypes.bool) l l' : l ≡ₚ l' -> List.filter f l ≡ₚ List.filter f l'.
Proof.
  induction 1 as [|x l l' _ IH|x y l|l1 l2 l3 _ IH1 _ IH2]; cbn; [done|destruct (f x); by rewrite ?IH| |by rewrite IH1].
  destruct (f x), (f y); try done. apply Permutation_swap.
Qed.

Lemma perm_map_inv {A B} (f : A -> B) (g : B -> A) l m : (forall a, g (f a) = a) -> m ≡ₚ map f l ->
  exists l', m = map f l' /\ l' ≡ₚ l.
Proof.
  intros Hg Hp. assert (forall x, x ∈ m -> exists a, x = f a) as Him.
  { intros x Hx. rewrite Hp in Hx. apply list_elem_of_fmap in Hx as (a & -> & _). by exists a. }
  exists (map g m). split.
  - clear Hp. induction m as [|x m IH]; [done|]. cbn. destruct (Him x (list_elem_of_here _ _)) as (a & ->).
    rewrite Hg, <- IH; [done|]. intros y Hy. apply Him, elem_of_cons. by right.
  - rewrite Hp, map_map. erewrite map_ext; [by rewrite map_id|]. intros a. apply Hg.
Qed.

(** The trades of a window lie within its bounds. *)
Lemma window_trade windowSeconds k t : 0 < windowSeconds -> valid_trade t = true -> window_of windowSeconds t = k ->
  k.2 * 1000 <= t_eventTimeUs t < (k.2 + window_size windowSeconds) * 1000.
Proof.
  intros Hs Hv <-. unfold valid_trade in Hv. rewrite !andb_true_iff, Z.ltb_lt in Hv. destruct Hv as [[[Hpos _] _] _].
  cbn [window_of snd]. unfold window_start, timestamp_ms, window_size. rewrite Z.quot_div_nonneg by lia.
  pose proof (Z.div_mod (t_eventTimeUs t) 1000 ltac:(lia)). pose proof (Z.mod_pos_bound (t_eventTimeUs t) 1000 ltac:(lia)).
  pose proof (Z.mod_pos_bound (t_eventTimeUs t / 1000) (windowSeconds * 1000) ltac:(lia)). lia.
Qed.

Lemma in_window_range windowSeconds start end_ k ts : 0 < windowSeconds ->
  start <= k.2 * 1000 -> (k.2 + window_size windowSeconds) * 1000 <= end_ ->
  in_window windowSeconds k (List.filter (in_range start end_) ts) = in_window windowSeconds k ts.
Proof.
  intros Hs Ha Hb. unfold in_window. induction ts as [|t ts IH]; [done|]. cbn [List.filter]. rewrite (filter_cons _ t ts).
  destruct (decide (valid_trade t = true /\ window_of windowSeconds t = k)) as [[Hv Hk]|Hn].
  - pose proof (window_trade windowSeconds k t Hs Hv Hk). unfold in_range at 1.
    rewrite (proj2 (Z.leb_le _ _)), (proj2 (Z.ltb_lt _ _)) by lia. cbn [andb].
    rewrite filter_cons, decide_True by done. by rewrite IH.
  - destruct (in_range start end_ t); [|done]. by rewrite filter_cons, decide_False.
Qed.

(** ** Properties *)

(** The Kappa loop closes. A trade that is written to the lakehouse is read back as it
    was, and a backfill over the rows of the table, in whatever order a scan returns them,
    gives every window that lies within its range the bar the live job gave it: the same
    venue, symbol, bounds, open, high, low, close and count, over the same trades, if no
    two of them have one event time and two prices. *)
Theorem backfill_same_bars windowSeconds start end_ (live : list Trade) (table : list Row) k :
  0 < windowSeconds -> table ≡ₚ map row_of_trade live ->
  start <= k.2 * 1000 -> (k.2 + window_size windowSeconds) * 1000 <= end_ ->
  unambiguous (in_window windowSeconds k live) ->
  backfill_trades start end_ table ≡ₚ List.filter (in_range start end_) live
  /\ match bars windowSeconds live !! k, backfill_bars windowSeconds start end_ table !! k with
     | Some b, Some b' => same_bar b b' /\ w_tradeCount b = Z.of_nat (length (in_window windowSeconds k live))
     | None, None => in_window windowSeconds k live = []
     | _, _ => False
     end.
Proof.
  intros Hs Htable Ha Hb Hu.
  destruct (perm_map_inv row_of_trade trade_of_row live table) as (replayed & -> & Hp); [by intros []|done|].
  assert (List.filter (in_range start end_) replayed ≡ₚ List.filter (in_range start end_) live) as Hf by (by apply filter_perm).
  unfold backfill_bars. rewrite backfill_trades_of. split; [done|].
  assert (in_window windowSeconds k live ≡ₚ in_window windowSeconds k (List.filter (in_range start end_) replayed)) as Hk.
  { rewrite in_window_range by done. symmetry. by apply in_window_perm. }
  pose proof (same_window_bars windowSeconds live _ k Hk Hu) as Hbars.
  destruct (bars windowSeconds live !! k), (bars windowSeconds _ !! k); try done. tauto.
Qed.

Lemma backfill_same_bars_witness :
  exists b b', bars 1 sample_trades !! ("coinbase|BTC-USD", 0) = Some b
  /\ backfill_bars 1 0 2000000 (map row_of_trade (rev sample_trades)) !! ("coinbase|BTC-USD", 0) = Some b' /\ same_bar b b'.
Proof.
  assert (unambiguous (in_window 1 ("coinbase|BTC-USD", 0) sample_trades)) as Hu.
  { intros t t' Ht Ht'. apply sample_unambiguous; [by apply list_elem_of_filter in Ht as [_ ?]|by apply list_elem_of_filter in Ht' as [_ ?]]. }
  destruct (backfill_same_bars 1 0 2000000 sample_trades (map row_of_trade (rev sample_trades)) ("coinbase|BTC-USD", 0)
    ltac:(lia) ltac:(rewrite <- Permutation_rev; reflexivity) ltac:(cbn; lia) ltac:(cbn; unfold window_size; lia) Hu) as [_ H].
  assert (is_Some (bars 1 sample_trades !! ("coinbase|BTC-USD", 0))) as Hb by (eexists; vm_compute; reflexivity).
  destruct (bars 1 sample_trades !! _) as [b|]; [|destruct Hb; discriminate].
  destruct (backfill_bars 1 0 2000000 _ !! _) as [b'|]; [|destruct H]. exists b, b'. tauto.
Defined.

(** The table has the columns of its row type, in its order. *)
Theorem rows_fit_table t : map fst (row_of_trade t) = trade_columns.
Proof. reflexivity. Qed.

(** The range is not aligned to windows: a window it cuts gets a bar of a part of its trades,
    published for the same key and bounds as the live one. *)
Theorem cut_window_differs :
  exists b b', bars 1 sample_trades !! ("coinbase|BTC-USD", 0) = Some b
  /\ backfill_bars 1 4000 2000000 (map row_of_trade sample_trades) !! ("coinbase|BTC-USD", 0) = Some b'
  /\ w_windowStartUs b = w_windowStartUs b' /\ w_tradeCount b = 3 /\ w_tradeCount b' = 2.
Proof. do 2 eexists. split; [vm_compute; reflexivity|]. split; [vm_compute; reflexivity|]. repeat split. Qed.
