(* ===== verification/Quotes.v ===== *)
(** * Serving tier: quotes from Kafka to the cache

    src/serving/src/main/java/io/tapeline/serving: quotes/QuoteSnapshot.java,
    quotes/QuoteCache.java and package avro (ConfluentAvroReader.java,
    SchemaRegistryClient.java). Redis is its hashes with their deadlines and answers at
    the time of its own clock; Jackson is the class [JsonCodec] and the order in which
    Redis lists a hash the class [HashOrder]. An exception is [Err], [null] is [None]. *)

From S2P Require Import Prelude.
From S2P Require Import GoStrings.
From S2P Require Import GoStrconv.
From S2P Require Import Encode.
From S2P Require Import TreeMap.
From S2P Require Import OrderBook.
From S2P Require Import Codec.

Local Open Scope Z_scope.

(** ** QuoteSnapshot *)

Record QuoteSnapshot := mkSnapshot {
  s_venue : string; s_symbol : string; s_bidPrice : float64; s_bidSize : float64; s_askPrice : float64;
  s_askSize : float64; s_mid : float64; s_spreadBps : float64; s_imbalance : float64;
  s_eventTimeUs : Z; s_emitTimeUs : Z }.

(** [str], [dbl] and [lng]: what is not a number is zero. *)
Definition dbl_or_zero (r : GenericRecord) (field : string) : float64 := default f64_zero (doubleValue (record_get r field)).
Definition lng_or_zero (r : GenericRecord) (field : string) : Z := default 0 (longValue (record_get r field)).
Definition fromAvro (toString : datum -> string) (r : GenericRecord) : QuoteSnapshot :=
  mkSnapshot (str toString r "venue") (str toString r "symbol") (dbl_or_zero r "bid_price") (dbl_or_zero r "bid_size")
    (dbl_or_zero r "ask_price") (dbl_or_zero r "ask_size") (dbl_or_zero r "mid") (dbl_or_zero r "spread_bps")
    (dbl_or_zero r "imbalance") (lng_or_zero r "event_time_us") (lng_or_zero r "emit_time_us").

Definition ageUs (q : QuoteSnapshot) (nowUs : Z) : Z := wrap64 (nowUs - s_eventTimeUs q).
Definition snapshot_valid (q : QuoteSnapshot) : Datatypes.bool :=
  f64_lt f64_zero (s_bidPrice q) && f64_lt f64_zero (s_askPrice q) && f64_le (s_bidPrice q) (s_askPrice q).

(** ** The registry client and the reader *)

Section avro.
Context {schema : Type} (parse : string -> res schema).
Context (decode : schema -> schema -> list byte -> res GenericRecord).   (* writer, reader, payload *)

Abbreviation schema_cache := (gmap Z schema).

(** [response] is the text the registry answers with, [Ok None] an answer without one. *)
Definition fetch_schema (schemaId : Z) (response : res (option string)) : res schema :=
  text ← response;
  match text with
  | Some t => parse t
  | None => Err (EMsg "schema registry returned no schema")
  end.
(** [byId]: what [computeIfAbsent] computes is kept unless it throws. *)
Definition byId (cache : schema_cache) (schemaId : Z) (response : res (option string)) : res schema * schema_cache :=
  match cache !! schemaId with
  | Some s => (Ok s, cache)
  | None =>
      match fetch_schema schemaId response with
      | Ok s => (Ok s, <[schemaId := s]> cache)
      | r => (r, cache)
      end
  end.
Definition preload (cache : schema_cache) (schemaId : Z) (s : schema) : schema_cache := <[schemaId := s]> cache.

Definition MAGIC_BYTE : byte := Byte.x00.
Definition HEADER_LENGTH : nat := 5.

(** [ByteBuffer.wrap(framed, 1, 4).getInt()]. *)
Definition getInt (b1 b2 b3 b4 : byte) : Z := wrap32 (Uint32 b1 b2 b3 b4).

Definition read (cache : schema_cache) (framed : option (list byte)) (readerSchema : schema)
    (response : res (option string)) : res GenericRecord * schema_cache :=
  match framed with
  | Some (m :: b1 :: b2 :: b3 :: b4 :: payload) =>
      if Byte.eqb m MAGIC_BYTE then
        match byId cache (getInt b1 b2 b3 b4) response with
        | (Ok writerSchema, cache) => (decode writerSchema readerSchema payload, cache)
        | (Err e, cache) => (Err e, cache)
        | (Panic, cache) => (Panic, cache)
        end
      else (Err (IllegalArgumentException "not Confluent-framed"), cache)
  | _ => (Err (IllegalArgumentException "payload is shorter than the Confluent wire header"), cache)
  end.

Definition schemaIdOf (framed : option (list byte)) : Z :=
  match framed with
  | Some (m :: b1 :: b2 :: b3 :: b4 :: _) => if Byte.eqb m MAGIC_BYTE then getInt b1 b2 b3 b4 else -1
  | _ => -1
  end.
End avro.

(** ** Redis *)

Record hash := mkHash { h_fields : gmap string string; h_expires : option Z }.
Abbreviation redis := (gmap string hash).

(** A key is gone when the clock has passed its deadline. *)
Definition live (r : redis) (key : string) (now : Z) : option hash :=
  h ← r !! key;
  match h_expires h with
  | Some deadline => if now <=? deadline then Some h else None
  | None => Some h
  end.
Definition hset (key field value : string) (now : Z) (r : redis) : redis :=
  let h := default (mkHash ∅ None) (live r key now) in
  <[key := mkHash (<[field := value]> (h_fields h)) (h_expires h)]> r.
Definition expire (key : string) (ttl now : Z) (r : redis) : redis :=
  match live r key now with
  | Some h => <[key := mkHash (h_fields h) (Some (now + ttl))]> r
  | None => delete key r
  end.
Definition hget (r : redis) (key field : string) (now : Z) : option string := h ← live r key now; h_fields h !! field.

(** What becomes of a command: Redis may have run it although the client sees an error. *)
Record fate := mkFate { applied : Datatypes.bool; replied : Datatypes.bool }.
Definition done_well : fate := mkFate true true.
Definition command (f : fate) (op : redis -> redis) (r : redis) : res unit * redis :=
  (if replied f then Ok tt else Err (EMsg "redis"), if applied f then op r else r).

(** ** QuoteCache *)

Class JsonCodec := {
  writeValueAsString : QuoteSnapshot -> option string;
  readValue : string -> option QuoteSnapshot }.
(** A snapshot that is written is read back. *)
Class LawfulJson (J : JsonCodec) : Prop := read_written q t : writeValueAsString q = Some t -> readValue t = Some q.
(** The values of a hash as [HGETALL] lists them. *)
Class HashOrder := { values : gmap string string -> list string; values_perm m : values m ≡ₚ (map_to_list m).*2 }.

Definition QUOTE_PREFIX : string := "tapeline:quote:".
Definition quote_key (symbol : string) : string := QUOTE_PREFIX +:+ symbol.
Definition TTL : Z := 5 * 60 * 1000.

Section cache.
Context `{J : JsonCodec, O : HashOrder}.

(** [put]: the write at [t_write], the deadline at [t_expire]. What Jackson cannot write
    is logged. *)
Definition put (q : QuoteSnapshot) (t_write t_expire : Z) (f_write f_expire : fate) (r : redis) : res unit * redis :=
  match writeValueAsString q with
  | None => (Ok tt, r)
  | Some text =>
      match command f_write (hset (quote_key (s_symbol q)) (s_venue q) text t_write) r with
      | (Ok _, r1) => command f_expire (expire (quote_key (s_symbol q)) TTL t_expire) r1
      | failed => failed
      end
  end.

Definition parse_cached (raw : option string) : option QuoteSnapshot := raw ≫= readValue.

Definition latest (r : redis) (symbol venue : string) (now : Z) : option QuoteSnapshot :=
  parse_cached (hget r (quote_key symbol) venue now).

Definition latestForSymbol (r : redis) (symbol : string) (now : Z) : list QuoteSnapshot :=
  match live r (quote_key symbol) now with
  | Some h => omap (fun v => parse_cached (Some v)) (values (h_fields h))
  | None => []
  end.

(** [Stream.max]: of two quotes of the same time, the first. *)
Definition later (a b : QuoteSnapshot) : QuoteSnapshot := if s_eventTimeUs b <=? s_eventTimeUs a then a else b.
Definition freshest (l : list QuoteSnapshot) : option QuoteSnapshot :=
  match l with [] => None | q :: l' => Some (fold_left later l' q) end.
Definition best (r : redis) (symbol : string) (now : Z) : option QuoteSnapshot :=
  freshest (List.filter snapshot_valid (latestForSymbol r symbol now)).
End cache.

(** ** Histories *)

Section history.
Context `{J : JsonCodec, O : HashOrder}.

(** Puts that go well, each within one millisecond. *)
Abbreviation history := (list (Z * QuoteSnapshot)).
Definition put_at (r : redis) (p : Z * QuoteSnapshot) : redis := (put p.2 p.1 p.1 done_well done_well r).2.
Definition put_all (hist : history) : redis := fold_left put_at hist ∅.

(** The answer to [latest], from the newest put back: the first of the venue, unless the
    symbol was not put for longer than the TTL in between. *)
Fixpoint served (symbol venue : string) (now : Z) (newest_first : history) : option QuoteSnapshot :=
  match newest_first with
  | [] => None
  | (t, q) :: older =>
      if String.eqb (s_symbol q) symbol then
        if now <=? t + TTL then if String.eqb (s_venue q) venue then Some q else served symbol venue t older else None
      else served symbol venue now older
  end.

Definition writable (hist : history) : Prop := Forall (fun p => is_Some (writeValueAsString p.2)) hist.

(** ** Lemmas *)

Lemma quote_key_inj a b : quote_key a = quote_key b -> a = b.
Proof. unfold quote_key, QUOTE_PREFIX. by intros [=]. Qed.

Lemma live_insert_ne r key key' h now : key' <> key -> live (<[key := h]> r) key' now = live r key' now.
Proof. intros Hne. unfold live. by rewrite lookup_insert_ne. Qed.

Lemma live_hset_same r key field value now :
  live (hset key field value now r) key now
  = Some (mkHash (<[field := value]> (h_fields (default (mkHash ∅ None) (live r key now))))
            (h_expires (default (mkHash ∅ None) (live r key now)))).
Proof.
  unfold live at 1, hset. rewrite lookup_insert_eq. cbn [mbind option_bind h_expires].
  destruct (live r key now) as [h|] eqn:E; [|reflexivity]. cbn [default id]. unfold live in E.
  destruct (r !! key) as [h'|]; [|discriminate]. cbn [mbind option_bind] in E.
  destruct (h_expires h') as [d|] eqn:Ed; [|by injection E as <-; rewrite Ed].
  destruct (now <=? d) eqn:El; [|discriminate]. injection E as <-. by rewrite Ed, El.
Qed.

Lemma put_live r q t text key now : writeValueAsString q = Some text ->
  live (put_at r (t, q)) key now
  = if decide (key = quote_key (s_symbol q))
    then if now <=? t + TTL
         then Some (mkHash (<[s_venue q := text]> (h_fields (default (mkHash ∅ None) (live r key t)))) (Some (t + TTL)))
         else None
    else live r key now.
Proof.
  intros Hw. unfold put_at, put. cbn [fst snd]. rewrite Hw. unfold command. cbn [replied applied done_well snd].
  unfold expire. rewrite live_hset_same. destruct (decide _) as [->|Hne].
  - unfold live at 1. rewrite lookup_insert_eq. cbn [mbind option_bind h_expires h_fields]. by destruct (now <=? t + TTL).
  - rewrite live_insert_ne by done. unfold hset. by rewrite live_insert_ne.
Qed.

Lemma put_all_snoc hist p : put_all (hist ++ [p]) = put_at (put_all hist) p.
Proof. unfold put_all. by rewrite fold_left_app. Qed.

(** Whatever a hash holds was written by a put of its symbol. *)
Lemma live_fields `{!LawfulJson J} hist symbol venue now : writable hist ->
  (h ← live (put_all hist) (quote_key symbol) now; h_fields h !! venue) ≫= readValue
  = served symbol venue now (rev hist).
Proof.
  revert now. induction hist as [|[t q] hist IH] using rev_ind; intros now Hw.
  { unfold put_all, live. cbn [fold_left rev served]. by rewrite lookup_empty. }
  apply Forall_app in Hw as [Hw [[text Ht] _]%Forall_cons]. cbn [snd] in Ht.
  rewrite put_all_snoc, rev_app_distr. cbn [rev app served]. rewrite (put_live _ q t text) by done.
  destruct (String.eqb_spec (s_symbol q) symbol) as [<-|Hne].
  - rewrite decide_True by done. destruct (now <=? t + TTL); [|done]. cbn [mbind option_bind h_fields].
    destruct (String.eqb_spec (s_venue q) venue) as [<-|Hv].
    + rewrite lookup_insert_eq. cbn. by apply read_written.
    + rewrite lookup_insert_ne by done. rewrite <- IH by done.
      by destruct (live (put_all hist) (quote_key (s_symbol q)) t); [|cbn; rewrite lookup_empty].
  - rewrite decide_False; [by apply IH|]. intros E%quote_key_inj. by destruct Hne.
Qed.

(** [latestForSymbol] lists what [latest] answers for the venues. *)
Lemma latestForSymbol_in r symbol now q :
  q ∈ latestForSymbol r symbol now <-> exists venue, latest r symbol venue now = Some q.
Proof.
  unfold latestForSymbol, latest, hget. destruct (live r (quote_key symbol) now) as [h|].
  - cbn [mbind option_bind]. rewrite list_elem_of_omap. split.
    + intros (v & Hv & Hp). rewrite values_perm in Hv. apply list_elem_of_fmap in Hv as ([k v'] & -> & Hkv).
      apply elem_of_map_to_list in Hkv. exists k. cbn in Hp |- *. by rewrite Hkv.
    + intros (k & Hk). destruct (h_fields h !! k) as [v|] eqn:E; [|done]. exists v. split; [|done].
      rewrite values_perm. apply list_elem_of_fmap. exists (k, v). split; [done|]. by apply elem_of_map_to_list.
  - split; [by intros ?%elem_of_nil|]. by intros (? & ?).
Qed.

Lemma freshest_spec l :
  match freshest l with
  | Some q => q ∈ l /\ forall q', q' ∈ l -> s_eventTimeUs q' <= s_eventTimeUs q
  | None => l = []
  end.
Proof.
  destruct l as [|q l]; [done|]. cbn [freshest]. revert q. induction l as [|p l IH]; intros q.
  { cbn [fold_left]. split; [apply list_elem_of_here|]. intros q' ->%list_elem_of_singleton. lia. }
  cbn [fold_left]. specialize (IH (later q p)) as [Hin Hmax]. unfold later in *.
  destruct (Z.leb_spec (s_eventTimeUs p) (s_eventTimeUs q)); (split;
    [apply elem_of_cons in Hin; rewrite !elem_of_cons; tauto|]); intros q'; rewrite !elem_of_cons; intros [->|[->|Hq]];
    try (apply Hmax; rewrite elem_of_cons; tauto).
  - transitivity (s_eventTimeUs q); [done|]. apply Hmax, list_elem_of_here.
  - transitivity (s_eventTimeUs p); [lia|]. apply Hmax, list_elem_of_here.
Qed.

(** ** Properties *)

(** C9. The cache is the history of its puts: whatever quotes were put for whatever symbols and
    venues, [latest] answers with the last one of the symbol and venue as long as the symbol,
    of any venue, is put again within the TTL, and with nothing once it was not. *)
Theorem cache_is_history `{!LawfulJson J} hist symbol venue now :
  writable hist -> latest (put_all hist) symbol venue now = served symbol venue now (rev hist).
Proof. apply live_fields. Qed.

(** [best] is the freshest valid quote: it is what [latest] answers for some venue, it is
    valid, and no valid quote of another venue has a later event time; there is none only
    if no venue has a valid quote. *)
Lemma best_spec r symbol now :
  match best r symbol now with
  | Some q => (exists venue, latest r symbol venue now = Some q) /\ snapshot_valid q = true
      /\ forall venue q', latest r symbol venue now = Some q' -> snapshot_valid q' = true -> s_eventTimeUs q' <= s_eventTimeUs q
  | None => forall venue q', latest r symbol venue now = Some q' -> snapshot_valid q' = false
  end.
Proof.
  assert (forall q, q ∈ List.filter snapshot_valid (latestForSymbol r symbol now)
    <-> (exists venue, latest r symbol venue now = Some q) /\ snapshot_valid q = true) as Hin.
  { intros q. rewrite list_elem_of_In, filter_In, <- list_elem_of_In, latestForSymbol_in. done. }
  unfold best. pose proof (freshest_spec (List.filter snapshot_valid (latestForSymbol r symbol now))) as Hf.
  destruct (freshest _) as [q|].
  - destruct Hf as [Hq Hmax]. apply Hin in Hq as [Hq Hv]. split; [done|]. split; [done|].
    intros venue q' Hq' Hv'. apply Hmax, Hin. eauto.
  - intros venue q' Hq'. apply not_true_iff_false. intros Hv. rewrite Hf in Hin.
    by apply (elem_of_nil q'), Hin; eauto.
Qed.
End history.

(** ** Across the tiers *)

(** The reader takes apart exactly the frames the Go tier puts together: it decodes the
    payload of what [SplitHeader] accepts with the schema of the id, and rejects the rest
    without a request to the registry. A schema that was fetched once is not fetched again. *)
Theorem reader_agrees_with_SplitHeader {schema : Type} (parse : string -> res schema) decode cache b reader response :
  match SplitHeader b with
  | Ok (id, payload) =>
      schemaIdOf (Some b) = wrap32 id
      /\ match byId parse cache (wrap32 id) response with
         | (Ok writer, cache') =>
             read parse decode cache (Some b) reader response = (decode writer reader payload, cache')
             /\ forall later, byId parse cache' (wrap32 id) later = (Ok writer, cache')
         | (_, cache') => exists e, read parse decode cache (Some b) reader response = (e, cache') /\ is_ok e = false /\ cache' = cache
         end
  | _ => schemaIdOf (Some b) = -1
         /\ exists e, read parse decode cache (Some b) reader response = (Err e, cache)
  end.
Proof.
  unfold SplitHeader, read, schemaIdOf.
  do 5 (destruct b as [|? b]; [split; [done|by eexists]|]). cbn [length]. change MagicByte with MAGIC_BYTE.
  destruct (Byte.eqb _ _); cbn -[wrap32 Uint32 byId]; [|split; [done|by eexists]].
  unfold getInt. split; [done|]. set (id := wrap32 _). unfold byId. destruct (cache !! id) as [w|] eqn:E.
  - split; [done|]. intros ?. by rewrite E.
  - destruct (fetch_schema parse id response) as [w|e|]; [|by eexists|by eexists].
    split; [done|]. intros ?. by rewrite lookup_insert_eq.
Qed.

(** What the serving tier reads of a quote the stream tier wrote: every field as it was,
    the derived ones as they were computed, and the same judgement of its validity. *)
Theorem quote_across_tiers toString q :
  fromAvro toString (fromQuote q)
  = mkSnapshot (q_venue q) (q_symbol q) (bidPrice q) (bidSize q) (askPrice q) (askSize q) (quote_mid q)
      (nan_to_zero (spreadBps q)) (q_imbalance q) (q_eventTimeUs q) (q_emitTimeUs q)
  /\ snapshot_valid (fromAvro toString (fromQuote q)) = isValid q.
Proof. split; reflexivity. Qed.

(** ** Samples *)

#[export] Instance float64_eq_dec : EqDecision float64.
Proof. unfold float64. solve_decision. Defined.
#[export] Instance snapshot_eq_dec : EqDecision QuoteSnapshot.
Proof. solve_decision. Defined.

Definition sample_quote (venue symbol : string) (bid ask t : Z) : QuoteSnapshot :=
  mkSnapshot venue symbol (f64_of_Z bid) (f64_of_Z 1) (f64_of_Z ask) (f64_of_Z 1) f64_zero f64_zero f64_zero t t.
Definition quote_a : QuoteSnapshot := sample_quote "kraken" "BTC-USD" 100 101 1000.
Definition quote_b : QuoteSnapshot := sample_quote "binance" "BTC-USD" 102 101 3000.
Definition quote_c : QuoteSnapshot := sample_quote "coinbase" "ETH-USD" 10 11 2000.

(** A codec that knows three quotes, and the order of the map. *)
#[export] Instance toy_json : JsonCodec := {|
  writeValueAsString q :=
    if decide (q = quote_a) then Some "a" else if decide (q = quote_b) then Some "b"
    else if decide (q = quote_c) then Some "c" else None;
  readValue t :=
    if String.eqb t "a" then Some quote_a else if String.eqb t "b" then Some quote_b
    else if String.eqb t "c" then Some quote_c else None |}.
#[export] Instance toy_json_lawful : LawfulJson toy_json.
Proof.
  intros q t. cbn [writeValueAsString readValue toy_json].
  destruct (decide (q = quote_a)) as [->|]; [by intros [= <-]|].
  destruct (decide (q = quote_b)) as [->|]; [by intros [= <-]|].
  by destruct (decide (q = quote_c)) as [->|]; [intros [= <-]|].
Qed.
#[export] Instance map_order : HashOrder := {| values m := (map_to_list m).*2; values_perm _ := Permutation_refl _ |}.

Definition sample_puts : list (Z * QuoteSnapshot) := [(0, quote_a); (60000, quote_c); (200000, quote_b)].
Lemma sample_writable : writable sample_puts.
Proof. repeat constructor; cbn [snd]; eexists; vm_compute; reflexivity. Qed.

Lemma cache_is_history_witness :
  latest (put_all sample_puts) "BTC-USD" "kraken" 500000 = Some quote_a
  /\ latest (put_all sample_puts) "ETH-USD" "coinbase" 500000 = None.
Proof.
  split; (etransitivity; [apply (cache_is_history sample_puts), sample_writable|]);
    vm_compute; reflexivity.
Defined.

(** The deadline is of the symbol: a venue that fell silent is served for as long as
    another venue quotes the symbol. *)
Definition silent_venue (n : nat) : list (Z * QuoteSnapshot) :=
  (0, quote_a) :: map (fun i => (Z.of_nat (S i) * TTL, quote_b)) (seq 0 n).
Lemma silent_venue_rev n : forall now, Z.of_nat n * TTL <= now <= Z.of_nat n * TTL + TTL ->
  served "BTC-USD" "kraken" now (rev (silent_venue n)) = Some quote_a.
Proof.
  unfold silent_venue. induction n as [|n IH]; intros now Hnow.
  - cbn [seq map rev app served]. change (String.eqb (s_symbol quote_a) "BTC-USD") with true. cbv iota.
    destruct (Z.leb_spec now (0 + TTL)); [reflexivity|lia].
  - rewrite seq_S, map_app. cbn [map plus]. rewrite app_comm_cons, rev_app_distr. cbn [rev app served].
    change (String.eqb (s_symbol quote_b) "BTC-USD") with true. change (String.eqb (s_venue quote_b) "kraken") with false.
    cbv iota. match goal with |- context [now <=? ?y] => destruct (Z.leb_spec now y); [|lia] end. apply IH. unfold TTL. lia.
Qed.
Theorem silent_venue_served n :
  latest (put_all (silent_venue n)) "BTC-USD" "kraken" (Z.of_nat n * TTL) = Some quote_a.
Proof.
  assert (writable (silent_venue n)) as Hw.
  { constructor; [eexists; vm_compute; reflexivity|]. apply List.Forall_map, List.Forall_forall. intros i _.
    eexists. vm_compute. reflexivity. }
  unfold latest, hget, parse_cached. rewrite live_fields by done. apply silent_venue_rev. unfold TTL. lia.
Qed.

(** The write and the deadline are two commands: a quote that is written to a hash in its
    last millisecond is gone, although both commands succeeded. *)
Theorem expiry_race :
  let r := put_all [(0, quote_a)] in
  exists r', put quote_b TTL (TTL + 1) done_well done_well r = (Ok tt, r')
  /\ latest r' "BTC-USD" "binance" (TTL + 1) = None.
Proof. eexists. split; vm_compute; reflexivity. Qed.
