(* ===== verification/Serving.v ===== *)
(** * Serving tier: the consumer, the gRPC service and the REST gateway

    src/serving/src/main/java/io/tapeline/serving: quotes/QuoteConsumer.java,
    grpc/MarketDataService.java, olap/WindowQueryService.java and
    web/MarketDataController.java. Kafka hands the records of a partition to one consumer
    thread; the threads share the cache and the listeners, so both are run here as threads
    of atomic actions under any schedule ([crun], [lrun]), next to the handlers as the
    functions they are ([handle], [accept]). The OLAP store is an argument. *)

From S2P Require Import Prelude.
From S2P Require Import GoStrings.
From S2P Require Import GoStrconv.
From S2P Require Import Aggregates.
From S2P Require Import Signing.
From S2P Require Import Codec.
From S2P Require Import Quotes.

Local Open Scope Z_scope.

(** ** Unary calls *)

Inductive status := INVALID_ARGUMENT | NOT_FOUND | RESOURCE_EXHAUSTED | INTERNAL.
Definition status_error (s : status) (description : string) : error :=
  EWrap (match s with
         | INVALID_ARGUMENT => "INVALID_ARGUMENT" | NOT_FOUND => "NOT_FOUND"
         | RESOURCE_EXHAUSTED => "RESOURCE_EXHAUSTED" | INTERNAL => "INTERNAL"
         end) (EMsg description).

(** The message of the API; [vwap_1m] is never set. *)
Record ProtoQuote := mkProtoQuote {
  p_venue : string; p_symbol : string; p_bidPrice : float64; p_bidSize : float64; p_askPrice : float64;
  p_askSize : float64; p_mid : float64; p_spreadBps : float64; p_vwap1m : float64; p_imbalance : float64;
  p_eventTimeUs : Z; p_emitTimeUs : Z }.
Definition toProto (s : QuoteSnapshot) : ProtoQuote :=
  mkProtoQuote (s_venue s) (s_symbol s) (s_bidPrice s) (s_bidSize s) (s_askPrice s) (s_askSize s) (s_mid s)
    (s_spreadBps s) f64_zero (s_imbalance s) (s_eventTimeUs s) (s_emitTimeUs s).

Section unary.
Context `{J : JsonCodec, O : HashOrder}.

(** The quote an unqualified or a qualified request asks for. *)
Definition find_quote (r : redis) (symbol venue : string) (now : Z) : option QuoteSnapshot :=
  if isBlank venue then best r symbol now else latest r symbol venue now.

Definition getQuote (r : redis) (symbol venue : string) (now : Z) : res ProtoQuote :=
  if isBlank symbol then Err (status_error INVALID_ARGUMENT "symbol is required")
  else match find_quote r symbol venue now with
       | Some q => Ok (toProto q)
       | None => Err (status_error NOT_FOUND ("no quote for " +:+ symbol))
       end.

(** The REST gateway: a status and a body. *)
Definition rest_quote (r : redis) (symbol : string) (venue : option string) (now : Z) : Z * (QuoteSnapshot + string) :=
  match find_quote r symbol (default "" venue) now with
  | Some q => (200, inl q)
  | None => (404, inr ("no quote for " +:+ symbol))
  end.
Definition rest_byVenue (r : redis) (symbol : string) (now : Z) : Z * list QuoteSnapshot :=
  match latestForSymbol r symbol now with [] => (404, []) | quotes => (200, quotes) end.
End unary.

(** ** Window queries *)

Definition DEFAULT_LIMIT : Z := 1000.
Definition MAX_LIMIT : Z := 50000.

(** A protobuf uint32 is an [int] in Java. *)
Definition java_int (u : Z) : Z := wrap32 u.
Definition query_limit (limit : Z) : Z := if java_int limit =? 0 then DEFAULT_LIMIT else Z.min (java_int limit) MAX_LIMIT.

Definition withinOlapRetention (retentionDays startUs nowMs : Z) : Datatypes.bool :=
  wrap64 (wrap64 (nowMs - retentionDays * 86400000) * 1000) <=? startUs.

(** [olap symbol start end venue limit] is the answer of the store. *)
Definition window_query (olap : string -> Z -> Z -> string -> Z -> res (list WindowBar)) (retentionDays : Z)
    (symbol venue : string) (startUs endUs limit nowMs : Z) : res (list WindowBar) :=
  if withinOlapRetention retentionDays startUs nowMs
  then olap symbol startUs endUs venue (query_limit limit)
  else Err (EMsg "range predates the OLAP retention window").

Definition queryWindows (olap : string -> Z -> Z -> string -> Z -> res (list WindowBar)) (retentionDays : Z)
    (symbol venue : string) (startUs endUs limit nowMs : Z) : res (list WindowBar) :=
  if isBlank symbol then Err (status_error INVALID_ARGUMENT "symbol is required")
  else if endUs <=? startUs then Err (status_error INVALID_ARGUMENT "end_us must be after start_us")
  else match window_query olap retentionDays symbol venue startUs endUs limit nowMs with
       | Ok bars => Ok bars
       | _ => Err (status_error INTERNAL "query failed")
       end.

(** ** The consumer *)

(** What a record decodes to, and what becomes of the two commands of its put. *)
Record ccounters := mkCCounters { consumed : Z; failed : Z }.

Section consumer.
Context `{J : JsonCodec}.

(** [handle]: the cache, the broadcasts, the counters. *)
Definition handle (decoded : res QuoteSnapshot) (t_write t_expire : Z) (f_write f_expire : fate)
    (st : redis * list QuoteSnapshot * ccounters) : redis * list QuoteSnapshot * ccounters :=
  let '(r, out, c) := st in
  match decoded with
  | Ok q =>
      match put q t_write t_expire f_write f_expire r with
      | (Ok _, r) => (r, out ++ [q], mkCCounters (consumed c + 1) (failed c))
      | (_, r) => (r, out, mkCCounters (consumed c) (failed c + 1))
      end
  | _ => (r, out, mkCCounters (consumed c) (failed c + 1))
  end.
End consumer.

(** ** Quote streams *)

Definition MAX_SYMBOLS_PER_STREAM : nat := 64.
Definition DEFAULT_UPDATES_HZ : Z := 10.
Definition MAX_UPDATES_HZ : Z := 100.

(** [LinkedHashSet]: the first of equal elements stays. *)
Fixpoint linked_set (seen l : list string) : list string :=
  match l with
  | [] => []
  | x :: l' => if bool_decide (x ∈ seen) then linked_set seen l' else x :: linked_set (x :: seen) l'
  end.

Definition updates_hz (max_updates_hz : Z) : Z :=
  if java_int max_updates_hz =? 0 then DEFAULT_UPDATES_HZ else Z.min (java_int max_updates_hz) MAX_UPDATES_HZ.
Definition min_interval_us (max_updates_hz : Z) : Z := Z.quot 1000000 (updates_hz max_updates_hz).

Definition matchesVenue (q : QuoteSnapshot) (venues : list string) : Datatypes.bool :=
  bool_decide (venues = []) || bool_decide (s_venue q ∈ venues).

(** What a call has: the throttle, what was sent and how many updates were dropped. *)
Record call := mkCall { lastSentUs : Z; sent : list QuoteSnapshot; dropped : Z }.
Definition new_call : call := mkCall 0 [] 0.
Definition send (c : call) (q : QuoteSnapshot) : call := mkCall (lastSentUs c) (sent c ++ [q]) (dropped c).

(** The listener, when nothing else runs. *)
Definition accept (venues : list string) (minIntervalUs : Z) (isReady : Datatypes.bool) (c : call) (q : QuoteSnapshot) : call :=
  if negb (matchesVenue q venues) then c
  else if negb isReady then mkCall (lastSentUs c) (sent c) (dropped c + 1)
  else let now := s_emitTimeUs q in
       if wrap64 (now - lastSentUs c) <? minIntervalUs then c
       else mkCall now (sent c ++ [q]) (dropped c).

(** The checks of [streamQuotes]: the symbols, the venues and the interval of the stream. *)
Definition stream_request (symbols venues : list string) (max_updates_hz : Z) : res (list string * list string * Z) :=
  let symbols := linked_set [] symbols in
  if (length symbols =? 0)%nat then Err (status_error INVALID_ARGUMENT "at least one symbol is required")
  else if (MAX_SYMBOLS_PER_STREAM <? length symbols)%nat
  then Err (status_error RESOURCE_EXHAUSTED "at most 64 symbols per stream")
  else Ok (symbols, linked_set [] venues, min_interval_us max_updates_hz).

(** The snapshot a stream opens with; [ready n] is the answer of the n-th [isReady]. *)
Fixpoint send_ready (ready : nat -> Datatypes.bool) (qs : list QuoteSnapshot) (c : call) : call :=
  match qs with
  | [] => c
  | q :: qs' => send_ready (fun n => ready (S n)) qs' (if ready O then send c q else c)
  end.
Definition opening `{JsonCodec, HashOrder} (r : redis) (symbols venues : list string) (now : Z) (ready : nat -> Datatypes.bool) : call :=
  send_ready ready
    (List.filter (fun q => matchesVenue q venues) (concat (map (fun s => latestForSymbol r s now) symbols))) new_call.

(** ** Consumer threads *)

Section threads.
Context `{J : JsonCodec}.

(** [handle] as atomic actions: the two commands of the put, the broadcast, a counter. *)
Inductive caction := Write (q : QuoteSnapshot) | Expire (q : QuoteSnapshot) | Publish (q : QuoteSnapshot) | Count | Fail.
Definition handling (decoded : res QuoteSnapshot) : list caction :=
  match decoded with
  | Ok q => match writeValueAsString q with Some _ => [Write q; Expire q] | None => [] end ++ [Publish q; Count]
  | _ => [Fail]
  end.

(** A thread with what its records decode to, how many it has taken, and what is left of
    the last one; a broadcast is the thread and the number of the record. *)
Record cthread := mkThread { records : list (res QuoteSnapshot); taken : nat; ctodo : list caction }.
Record cstate := mkCState {
  c_redis : redis; c_published : list (nat * nat); c_counters : ccounters; c_threads : list cthread }.

Definition cact (i : nat) (now : Z) (f : fate) (st : cstate) (t : cthread) (a : caction) (rest : list caction) : cstate :=
  let next r out c todo := mkCState r out c (<[i := mkThread (records t) (taken t) todo]> (c_threads st)) in
  let of_command cmd := match cmd with
                        | (Ok _, r) => next r (c_published st) (c_counters st) rest
                        | (_, r) => next r (c_published st) (c_counters st) [Fail]
                        end in
  match a with
  | Write q => of_command (command f (hset (quote_key (s_symbol q)) (s_venue q) (default "" (writeValueAsString q)) now) (c_redis st))
  | Expire q => of_command (command f (expire (quote_key (s_symbol q)) TTL now) (c_redis st))
  | Publish q => next (c_redis st) (c_published st ++ [(i, pred (taken t))]) (c_counters st) rest
  | Count => next (c_redis st) (c_published st) (mkCCounters (consumed (c_counters st) + 1) (failed (c_counters st))) rest
  | Fail => next (c_redis st) (c_published st) (mkCCounters (consumed (c_counters st)) (failed (c_counters st) + 1)) rest
  end.

Record cevent := mkCEvent { ce_thread : nat; ce_now : Z; ce_fate : fate }.
Definition cstep (st : cstate) (e : cevent) : cstate :=
  match c_threads st !! ce_thread e with
  | None => st
  | Some t =>
      match ctodo t with
      | a :: rest => cact (ce_thread e) (ce_now e) (ce_fate e) st t a rest
      | [] =>
          match records t !! taken t with
          | None => st
          | Some d => mkCState (c_redis st) (c_published st) (c_counters st)
                        (<[ce_thread e := mkThread (records t) (S (taken t)) (handling d)]> (c_threads st))
          end
      end
  end.
Definition crun (st : cstate) (schedule : list cevent) : cstate := fold_left cstep schedule st.
Definition cstart (r : redis) (partitions : list (list (res QuoteSnapshot))) : cstate :=
  mkCState r [] (mkCCounters 0 0) (map (fun rs => mkThread rs 0 []) partitions).

(** The quote a thread's record decodes to. *)
Definition quote_at (partitions : list (list (res QuoteSnapshot))) (i k : nat) : option QuoteSnapshot :=
  rs ← partitions !! i; d ← rs !! k; match d with Ok q => Some q | _ => None end.

(** The topic is keyed by symbol: the quotes of a symbol are in one partition. *)
Definition keyed_by_symbol (partitions : list (list (res QuoteSnapshot))) : Prop :=
  forall i j k l q q', quote_at partitions i k = Some q -> quote_at partitions j l = Some q' ->
    s_symbol q = s_symbol q' -> i = j.
Definition all_writable (partitions : list (list (res QuoteSnapshot))) : Prop :=
  forall i k q, quote_at partitions i k = Some q -> is_Some (writeValueAsString q).
(** A command that is answered was run. *)
Definition honest (f : fate) : Prop := replied f = true -> applied f = true.

(** ** Lemmas: the threads *)

(** What the store has in a field, alive or not. *)
Definition stored_field (r : redis) (q : QuoteSnapshot) : option string :=
  h ← r !! quote_key (s_symbol q); h_fields h !! s_venue q.

Lemma stored_hset r q q' text now : s_symbol q = s_symbol q' ->
  stored_field (hset (quote_key (s_symbol q)) (s_venue q) text now r) q' = Some text /\ s_venue q = s_venue q'
  \/ s_venue q <> s_venue q'
     /\ forall v, stored_field (hset (quote_key (s_symbol q)) (s_venue q) text now r) q' = Some v -> stored_field r q' = Some v.
Proof.
  intros Hs. unfold stored_field, hset. rewrite <- Hs, lookup_insert_eq. cbn [mbind option_bind h_fields].
  destruct (decide (s_venue q = s_venue q')) as [Hv|Hv].
  - left. by rewrite Hv, lookup_insert_eq.
  - right. split; [done|]. intros v. rewrite lookup_insert_ne by done. unfold live.
    destruct (r !! quote_key (s_symbol q)) as [h|]; [|by cbn; rewrite lookup_empty]. cbn [mbind option_bind].
    destruct (h_expires h) as [d|]; [|done]. destruct (now <=? d); [done|]. cbn. by rewrite lookup_empty.
Qed.

Lemma stored_hset_other r key field text now q : key <> quote_key (s_symbol q) ->
  stored_field (hset key field text now r) q = stored_field r q.
Proof. intros Hne. unfold stored_field, hset. by rewrite lookup_insert_ne. Qed.

Lemma stored_expire r key ttl now q v : stored_field (expire key ttl now r) q = Some v -> stored_field r q = Some v.
Proof.
  unfold stored_field, expire, live. destruct (decide (key = quote_key (s_symbol q))) as [->|Hne].
  - destruct (r !! quote_key (s_symbol q)) as [h|] eqn:E; cbn [mbind option_bind]; [|by rewrite lookup_delete_eq].
    destruct (h_expires h) as [d|]; [destruct (now <=? d)|]; rewrite ?lookup_insert_eq, ?lookup_delete_eq; done.
  - destruct (h ← r !! key; _) as [h|]; [by rewrite lookup_insert_ne|by rewrite lookup_delete_ne].
Qed.

Lemma latest_stored r q symbol venue now : symbol = s_symbol q -> venue = s_venue q ->
  forall q', latest r symbol venue now = Some q' -> exists v, stored_field r q = Some v /\ readValue v = Some q'.
Proof.
  intros -> -> q'. unfold latest, hget, parse_cached, stored_field, live.
  destruct (r !! quote_key (s_symbol q)) as [h|]; [|done]. cbn [mbind option_bind].
  destruct (h_expires h) as [d|]; [destruct (now <=? d); [|done]|]; cbn [mbind option_bind];
    (destruct (h_fields h !! s_venue q) as [v|]; [|done]); intros Hq; by exists v.
Qed.
(** *** The invariant *)

Section invariant.
Context (partitions : list (list (res QuoteSnapshot))) (Hkey : keyed_by_symbol partitions) (Hwr : all_writable partitions).

(** The field of a quote has nothing but the quote. *)
Definition fresh (r : redis) (q : QuoteSnapshot) : Prop := forall v, stored_field r q = Some v -> writeValueAsString q = Some v.

(** Where a thread is in its last record. *)
Definition current (i : nat) (t : cthread) (q : QuoteSnapshot) : Prop :=
  taken t <> O /\ quote_at partitions i (pred (taken t)) = Some q.
Inductive phase (r : redis) (i : nat) (t : cthread) : Prop :=
  | ph_other : ctodo t = [] \/ ctodo t = [Count] \/ ctodo t = [Fail] -> phase r i t
  | ph_write q : ctodo t = [Write q; Expire q; Publish q; Count] -> current i t q -> phase r i t
  | ph_expire q : ctodo t = [Expire q; Publish q; Count] -> current i t q -> fresh r q -> phase r i t
  | ph_publish q : ctodo t = [Publish q; Count] -> current i t q -> fresh r q -> phase r i t.

(** A field of a broadcast quote has that quote or a later one of its partition. *)
Definition superseded (r : redis) (i k : nat) (q : QuoteSnapshot) : Prop :=
  forall v, stored_field r q = Some v -> exists j q', (k <= j)%nat /\ quote_at partitions i j = Some q'
    /\ s_symbol q' = s_symbol q /\ s_venue q' = s_venue q /\ writeValueAsString q' = Some v.
Record cinv (st : cstate) : Prop := {
  ci_threads : forall i t, c_threads st !! i = Some t -> partitions !! i = Some (records t) /\ phase (c_redis st) i t;
  ci_published : forall i k, (i, k) ∈ c_published st -> exists q t,
    quote_at partitions i k = Some q /\ c_threads st !! i = Some t /\ (k < taken t)%nat /\ superseded (c_redis st) i k q }.

(** A step of the store keeps every field, drops it, or writes the quote [w]. *)
Definition changes (r r' : redis) (w : option QuoteSnapshot) : Prop :=
  forall q v, stored_field r' q = Some v -> stored_field r q = Some v
    \/ exists q0, w = Some q0 /\ s_symbol q0 = s_symbol q /\ s_venue q0 = s_venue q /\ writeValueAsString q0 = Some v.

Lemma changes_refl r w : changes r r w.
Proof. intros q v. by left. Qed.
Lemma changes_expire r key ttl now w : changes r (expire key ttl now r) w.
Proof. intros q v Hv. left. by eapply stored_expire. Qed.
Lemma changes_write r q text now : writeValueAsString q = Some text ->
  changes r (hset (quote_key (s_symbol q)) (s_venue q) text now r) (Some q)
  /\ fresh (hset (quote_key (s_symbol q)) (s_venue q) text now r) q.
Proof.
  intros Hw. split.
  - intros q' v Hv. destruct (decide (s_symbol q = s_symbol q')) as [Hs|Hs].
    + destruct (stored_hset r q q' text now Hs) as [[E Hven]|[_ Hk]]; [|left; by apply Hk].
      right. exists q. split; [done|]. split; [done|]. split; [done|]. congruence.
    + left. rewrite stored_hset_other in Hv; [done|]. by intros ?%quote_key_inj.
  - intros v Hv. destruct (stored_hset r q q text now eq_refl) as [[E _]|[[] _]]; [congruence|done].
Qed.

Lemma fresh_changes r r' q : fresh r q -> changes r r' (Some q) -> fresh r' q.
Proof. intros Hf Hc v Hv. destruct (Hc q v Hv) as [Hv'|(q0 & [= <-] & _ & _ & ?)]; [by apply Hf|done]. Qed.

Lemma cinv_next st i t t' r' out c w :
  cinv st -> c_threads st !! i = Some t -> changes (c_redis st) r' w ->
  (forall q0, w = Some q0 -> quote_at partitions i (pred (taken t)) = Some q0) ->
  records t' = records t -> (taken t <= taken t')%nat -> phase r' i t' ->
  (out = c_published st \/ out = c_published st ++ [(i, pred (taken t))] /\ exists q, current i t q /\ fresh r' q) ->
  cinv (mkCState r' out c (<[i := t']> (c_threads st))).
Proof.
  intros [Hth Hpub] Ht Hch Hw Hrec Htaken Hph Hout. pose proof (lookup_lt_Some _ _ _ Ht) as Hlt.
  assert (forall a k q u, (k < taken u)%nat -> quote_at partitions a k = Some q -> c_threads st !! a = Some u ->
    superseded (c_redis st) a k q -> superseded r' a k q) as Hsup.
  { intros a k q u Hk Hq Hu Hs v Hv. destruct (Hch q v Hv) as [Hv'|(q0 & E & Esym & Even & Etext)]; [by apply Hs|].
    specialize (Hw q0 E). assert (a = i) as -> by (by eapply Hkey).
    exists (pred (taken t)), q0. rewrite Ht in Hu. injection Hu as <-. split; [lia|]. done. }
  split; cbn [c_threads c_redis c_published].
  - intros a u Hu. apply list_lookup_insert_Some in Hu as [(<- & <- & _)|[Hne Hu]].
    { rewrite Hrec. split; [by apply Hth|done]. }
    destruct (Hth a u Hu) as [Hp Hphase]. split; [done|].
    assert (forall q, current a u q -> fresh (c_redis st) q -> fresh r' q) as Hfresh.
    { intros q [_ Hq] Hf v Hv. destruct (Hch q v Hv) as [Hv'|(q0 & E & Esym & _)]; [by apply Hf|].
      specialize (Hw q0 E). destruct Hne. by eapply (Hkey i a). }
    destruct Hphase as [|q E Hc|q E Hc Hf|q E Hc Hf];
      [by apply ph_other|by eapply ph_write|eapply ph_expire; eauto|eapply ph_publish; eauto].
  - assert (forall a k, (a, k) ∈ c_published st -> exists q u, quote_at partitions a k = Some q
      /\ <[i := t']> (c_threads st) !! a = Some u /\ (k < taken u)%nat /\ superseded r' a k q) as Hold.
    { intros a k Hin. destruct (Hpub a k Hin) as (q & u & Hq & Hu & Hk & Hs). exists q.
      destruct (decide (a = i)) as [->|Hne].
      - exists t'. rewrite list_lookup_insert_eq by done. rewrite Ht in Hu. injection Hu as <-.
        split; [done|]. split; [done|]. split; [lia|]. by eapply Hsup.
      - exists u. rewrite list_lookup_insert_ne by done. do 3 (split; [done|]). by eapply Hsup. }
    destruct Hout as [->|[-> (q & [Hnz Hq] & Hf)]]; [exact Hold|]. intros a k [Hin|[= -> ->]%list_elem_of_singleton]%elem_of_app.
    + by apply Hold.
    + exists q, t'. rewrite list_lookup_insert_eq by done. split; [done|]. split; [done|]. split; [lia|].
      intros v Hv. exists (pred (taken t)), q. do 4 (split; [done|]). by apply Hf.
Qed.

Lemma take_phase r i t d : partitions !! i = Some (records t) -> records t !! taken t = Some d ->
  phase r i (mkThread (records t) (S (taken t)) (handling d)).
Proof.
  intros Hp Hd. destruct d as [q|e|]; [|by apply ph_other; auto..].
  assert (quote_at partitions i (taken t) = Some q) as Hq by (unfold quote_at; rewrite Hp; cbn; by rewrite Hd).
  destruct (Hwr i (taken t) q Hq) as [text Ht]. apply ph_write with q; [|by split].
  cbn [ctodo handling]. by rewrite Ht.
Qed.

Lemma cstep_inv st e : cinv st -> honest (ce_fate e) -> cinv (cstep st e).
Proof.
  intros Hinv Hf. unfold cstep. destruct (c_threads st !! ce_thread e) as [t|] eqn:Ht; [|done].
  destruct (ci_threads _ Hinv _ t Ht) as [Hp Hph]. set (i := ce_thread e) in *. set (f := ce_fate e) in *.
  destruct (ctodo t) as [|a rest] eqn:Ea.
  { destruct (records t !! taken t) as [d|] eqn:Hd; [|done].
    apply (cinv_next st i t _ _ _ _ None Hinv Ht); auto using changes_refl; [done|cbn; lia|by apply take_phase]. }
  destruct Hph as [[E|[E|E]]|q E Hc|q E Hc Hfr|q E Hc Hfr]; rewrite Ea in E; try discriminate E; injection E as -> ->; cbn [cact].
  - apply (cinv_next st i t _ _ _ _ None Hinv Ht); auto using changes_refl; [done|by apply ph_other; auto].
  - apply (cinv_next st i t _ _ _ _ None Hinv Ht); auto using changes_refl; [done|by apply ph_other; auto].
  - destruct Hc as [Hnz Hq]. destruct (Hwr i _ q Hq) as [text Htext]. rewrite Htext. cbn [default id].
    destruct (changes_write (c_redis st) q text (ce_now e) Htext) as [Hch Hfresh].
    unfold command. destruct (replied f) eqn:Er; [rewrite (Hf Er)|destruct (applied f)].
    + apply (cinv_next st i t _ _ _ _ (Some q) Hinv Ht); auto; [by intros ? [= <-]|]. by eapply ph_expire.
    + apply (cinv_next st i t _ _ _ _ (Some q) Hinv Ht); auto; [by intros ? [= <-]|]. by apply ph_other; auto.
    + apply (cinv_next st i t _ _ _ _ None Hinv Ht); auto using changes_refl; [done|]. by apply ph_other; auto.
  - pose proof (changes_expire (c_redis st) (quote_key (s_symbol q)) TTL (ce_now e)) as Hch. destruct Hc as [Hnz Hq].
    unfold command. destruct (replied f) eqn:Er; [rewrite (Hf Er)|destruct (applied f)].
    + apply (cinv_next st i t _ _ _ _ None Hinv Ht); auto; [done|]. eapply ph_publish; [reflexivity|by split|].
      by eapply fresh_changes.
    + apply (cinv_next st i t _ _ _ _ None Hinv Ht); auto; [done|]. by apply ph_other; auto.
    + apply (cinv_next st i t _ _ _ _ None Hinv Ht); auto using changes_refl; [done|]. by apply ph_other; auto.
  - apply (cinv_next st i t _ _ _ _ None Hinv Ht); auto using changes_refl; [done|by apply ph_other; auto|].
    right. split; [done|]. by exists q.
Qed.

Lemma cstart_inv r : cinv (cstart r partitions).
Proof.
  split; cbn [cstart c_threads c_redis c_published]; [|by intros i k ?%elem_of_nil]. intros i t Ht.
  rewrite list_lookup_fmap in Ht. destruct (partitions !! i) as [rs|]; [|done]. injection Ht as <-.
  split; [done|]. by apply ph_other; auto.
Qed.

Lemma crun_inv schedule : Forall (fun e => honest (ce_fate e)) schedule -> forall st, cinv st -> cinv (crun st schedule).
Proof.
  induction 1 as [|e schedule He _ IH]; intros st Hst; [done|]. by apply IH, cstep_inv.
Qed.
End invariant.
End threads.

(** ** Properties *)

(** Read your writes. Whatever the threads do and in whatever order, whichever commands
    Redis loses, refuses or answers too late: once a quote has been broadcast, [latest]
    never answers with an older one of its symbol and venue, but with that quote, with a
    later one of its partition, or with nothing. *)
Theorem read_your_writes `{J : JsonCodec, !LawfulJson J} r partitions schedule i k q now q' :
  keyed_by_symbol partitions -> all_writable partitions -> Forall (fun e => honest (ce_fate e)) schedule ->
  let st := crun (cstart r partitions) schedule in
  (i, k) ∈ c_published st -> quote_at partitions i k = Some q ->
  latest (c_redis st) (s_symbol q) (s_venue q) now = Some q' ->
  exists j, (k <= j)%nat /\ quote_at partitions i j = Some q' /\ s_symbol q' = s_symbol q /\ s_venue q' = s_venue q.
Proof.
  intros Hkey Hwr Hhon st Hpub Hq Hl.
  destruct (ci_published _ _ (crun_inv partitions Hkey Hwr schedule Hhon _ (cstart_inv partitions r)) i k Hpub)
    as (q0 & t & Hq0 & _ & _ & Hs). assert (q0 = q) as -> by congruence.
  destruct (latest_stored (c_redis st) q _ _ now eq_refl eq_refl q' Hl) as (v & Hv & Hread).
  destruct (Hs v Hv) as (j & q1 & Hj & Hq1 & Hsym & Hven & Hw). apply read_written in Hw.
  assert (q1 = q') as -> by congruence. by exists j.
Qed.

Definition sample_partitions : list (list (res QuoteSnapshot)) :=
  [[Ok quote_a; Err (EMsg "poison"); Ok quote_b]; [Ok quote_c]].
Lemma sample_quotes i k q : quote_at sample_partitions i k = Some q ->
  (i = 0%nat /\ (q = quote_a \/ q = quote_b)) \/ (i = 1%nat /\ q = quote_c).
Proof.
  unfold quote_at, sample_partitions. destruct i as [|[|i]]; cbn [lookup list_lookup mbind option_bind]; [..|done].
  - destruct k as [|[|[|k]]]; cbn [lookup list_lookup mbind option_bind]; [intros [= <-]|done|intros [= <-]|done]; auto.
  - destruct k as [|k]; cbn [lookup list_lookup mbind option_bind]; [intros [= <-]|done]; auto.
Qed.
Definition at_ms (i : nat) (now : Z) : cevent := mkCEvent i now done_well.
Definition sample_schedule : list cevent :=
  [at_ms 0 1; at_ms 1 1; at_ms 0 2; at_ms 1 2; at_ms 0 3; at_ms 0 4; at_ms 1 4; at_ms 1 5; at_ms 0 5;
   at_ms 0 6; at_ms 0 6; at_ms 0 7; at_ms 0 8].

Lemma read_your_writes_witness :
  let st := crun (cstart ∅ sample_partitions) sample_schedule in
  c_published st = [(0, 0); (1, 0)]%nat /\ c_counters st = mkCCounters 1 1
  /\ exists j, (0 <= j)%nat /\ quote_at sample_partitions 0 j = Some quote_a /\ s_symbol quote_a = s_symbol quote_a
       /\ s_venue quote_a = s_venue quote_a.
Proof.
  cbn zeta. split; [vm_compute; reflexivity|]. split; [vm_compute; reflexivity|].
  apply (read_your_writes ∅ sample_partitions sample_schedule 0 0 quote_a 1000 quote_a).
  - intros i j k l q q' Hq Hq' Hs. apply sample_quotes in Hq as [[-> Hq]|[-> ->]], Hq' as [[-> Hq']|[-> ->]]; try reflexivity;
      exfalso; [destruct Hq as [->| ->]|destruct Hq' as [->| ->]]; vm_compute in Hs; discriminate Hs.
  - intros i k q Hq. apply sample_quotes in Hq as [[_ [->| ->]]|[_ ->]]; eexists; vm_compute; reflexivity.
  - repeat constructor.
  - vm_compute. apply list_elem_of_here.
  - reflexivity.
  - vm_compute. reflexivity.
Defined.

(** What becomes of one record: one that does not decode, or whose put fails, is counted as
    failed and not broadcast; otherwise it is broadcast and counted as consumed, and when
    both commands ran at [t] it is what [latest] answers until the TTL is over, as is
    every quote of another symbol or venue. *)
Theorem handle_outcome `{J : JsonCodec, !LawfulJson J} decoded t f_write f_expire r out c :
  let '(r', out', c') := handle decoded t t f_write f_expire (r, out, c) in
  match decoded with
  | Ok q =>
      if match writeValueAsString q with Some _ => replied f_write && replied f_expire | None => true end
      then out' = out ++ [q] /\ c' = mkCCounters (consumed c + 1) (failed c)
      else out' = out /\ c' = mkCCounters (consumed c) (failed c + 1)
  | _ => r' = r /\ out' = out /\ c' = mkCCounters (consumed c) (failed c + 1)
  end
  /\ match decoded with
     | Ok q =>
         f_write = done_well -> f_expire = done_well -> is_Some (writeValueAsString q) ->
         forall symbol venue now, t <= now <= t + TTL ->
           (symbol = s_symbol q -> venue = s_venue q -> latest r' symbol venue now = Some q)
           /\ (symbol <> s_symbol q -> latest r' symbol venue now = latest r symbol venue now)
           /\ (symbol = s_symbol q -> venue <> s_venue q -> latest r' symbol venue now = latest r symbol venue t)
     | _ => True
     end.
Proof.
  unfold handle. destruct decoded as [q|e|]; [|by auto..].
  destruct (writeValueAsString q) as [text|] eqn:Hw.
  2:{ unfold put. rewrite Hw. split; [done|]. intros _ _ [? [=]]. }
  destruct (put q t t f_write f_expire r) as [o r'] eqn:Ep.
  assert (match o with Ok _ => true | _ => false end = replied f_write && replied f_expire) as Ho.
  { unfold put in Ep. rewrite Hw in Ep. unfold command in Ep. destruct (replied f_write); cbn [andb].
    - destruct (replied f_expire); by injection Ep as <- _.
    - by injection Ep as <- _. }
  destruct o as [[]|e|]; rewrite <- Ho; (split; [done|]); intros -> -> _ symbol venue now Hnow;
    try (by cbn in Ho). assert (r' = put_at r (t, q)) as -> by (unfold put_at; cbn [fst snd]; by rewrite Ep).
  unfold latest, hget, parse_cached. rewrite (put_live r q t text _ now Hw). split; [|split].
  - intros -> ->. rewrite decide_True by done. destruct (Z.leb_spec now (t + TTL)); [|lia]. cbn.
    rewrite lookup_insert_eq. cbn. by apply read_written.
  - intros Hne. rewrite decide_False; [done|]. by intros ?%quote_key_inj.
  - intros -> Hne. rewrite decide_True by done. destruct (Z.leb_spec now (t + TTL)); [|lia]. cbn.
    rewrite lookup_insert_ne by done. by destruct (live r _ t); [|cbn; rewrite lookup_empty].
Qed.

(** A thread that runs alone does what the handler does. *)
Theorem thread_runs_handle `{J : JsonCodec} r d t0 t_write t_expire t1 f_write f_expire :
  let st := crun (cstart r [[d]]) [at_ms 0 t0; mkCEvent 0 t_write f_write; mkCEvent 0 t_expire f_expire; at_ms 0 t1; at_ms 0 t1] in
  (c_redis st, omap (fun ik => quote_at [[d]] ik.1 ik.2) (c_published st), c_counters st)
  = handle d t_write t_expire f_write f_expire (r, [], mkCCounters 0 0).
Proof.
  destruct d as [q|e|]; [|reflexivity..]. unfold handle, put.
  cbn [crun fold_left cstep cstart c_threads map ce_thread at_ms lookup list_lookup ctodo records taken handling].
  destruct (writeValueAsString q) as [text|] eqn:Hw; [|reflexivity].
  destruct f_write as [aw []], f_expire as [ae []]; cbn -[hset expire]; rewrite ?Hw; reflexivity.
Qed.

(** ** Listeners

    The listener of one stream, run by several consumer threads at once: a thread has the
    quotes it will publish, the broadcaster calls the listener with each. *)

Inductive lphase :=
  | Idle
  | Throttle (q : QuoteSnapshot)                      (* about to read [lastSentUs] *)
  | Swap (q : QuoteSnapshot) (previous : Z)           (* about to compare and set it *)
  | Sending (q : QuoteSnapshot).                      (* in [call.onNext] *)
Record lthread := mkLThread { quotes : list QuoteSnapshot; at_ : lphase }.
(** [won] is the order in which the throttle let quotes through. *)
Record lstate := mkLState { l_call : call; won : list QuoteSnapshot; l_threads : list lthread }.

Section listener.
Context (venues : list string) (minIntervalUs : Z).

Definition lact (isReady : Datatypes.bool) (c : call) (w : list QuoteSnapshot) (t : lthread) : call * list QuoteSnapshot * lthread :=
  match at_ t with
  | Idle =>
      match quotes t with
      | [] => (c, w, t)
      | q :: qs =>
          if negb (matchesVenue q venues) then (c, w, mkLThread qs Idle)
          else if negb isReady then (mkCall (lastSentUs c) (sent c) (dropped c + 1), w, mkLThread qs Idle)
          else (c, w, mkLThread qs (Throttle q))
      end
  | Throttle q =>
      if wrap64 (s_emitTimeUs q - lastSentUs c) <? minIntervalUs then (c, w, mkLThread (quotes t) Idle)
      else (c, w, mkLThread (quotes t) (Swap q (lastSentUs c)))
  | Swap q previous =>
      if lastSentUs c =? previous
      then (mkCall (s_emitTimeUs q) (sent c) (dropped c), w ++ [q], mkLThread (quotes t) (Sending q))
      else (c, w, mkLThread (quotes t) Idle)
  | Sending q => (send c q, w, mkLThread (quotes t) Idle)
  end.
Definition lstep (st : lstate) (e : nat * Datatypes.bool) : lstate :=
  match l_threads st !! e.1 with
  | None => st
  | Some t => let '(c, w, t') := lact e.2 (l_call st) (won st) t in mkLState c w (<[e.1 := t']> (l_threads st))
  end.
Definition lrun (st : lstate) (schedule : list (nat * Datatypes.bool)) : lstate := fold_left lstep schedule st.
Definition lstart (threads : list (list QuoteSnapshot)) : lstate :=
  mkLState new_call [] (map (fun qs => mkLThread qs Idle) threads).

(** Quotes that are let through are spaced: each is emitted at least an interval after the
    one before it, the first after [from]. *)
Fixpoint spaced (from : Z) (l : list QuoteSnapshot) : Prop :=
  match l with [] => True | q :: l' => from + minIntervalUs <= s_emitTimeUs q /\ spaced (s_emitTimeUs q) l' end.

Definition in_flight (t : lthread) : list QuoteSnapshot := match at_ t with Sending q => [q] | _ => [] end.

(** *** The invariant *)

Section invariant.
Context (published : list (list QuoteSnapshot)).
Context (Hemit : forall qs q, qs ∈ published -> q ∈ qs -> 0 <= s_emitTimeUs q < two63).

(** A quote the listener may send. *)
Definition wanted (q : QuoteSnapshot) : Prop := (exists qs, qs ∈ published /\ q ∈ qs) /\ matchesVenue q venues = true.
Definition lphase_ok (p : lphase) : Prop :=
  match p with
  | Idle => True
  | Throttle q => wanted q
  | Swap q previous => wanted q /\ previous + minIntervalUs <= s_emitTimeUs q
  | Sending q => wanted q
  end.
Definition last_emit (l : list QuoteSnapshot) : Z := List.last (map s_emitTimeUs l) 0.

Record linv (st : lstate) : Prop := {
  li_last : lastSentUs (l_call st) = last_emit (won st);
  li_spaced : spaced 0 (won st);
  li_sent : won st ≡ₚ sent (l_call st) ++ concat (map in_flight (l_threads st));
  li_threads : forall i t, l_threads st !! i = Some t ->
    (exists past, published !! i = Some (past ++ quotes t)) /\ lphase_ok (at_ t);
  li_won : forall q, q ∈ won st -> wanted q }.

Lemma last_emit_snoc l q : last_emit (l ++ [q]) = s_emitTimeUs q.
Proof. unfold last_emit. rewrite map_app. cbn [map]. apply List.last_last. Qed.

Lemma spaced_snoc l q : forall from, spaced from (l ++ [q])
  <-> spaced from l /\ List.last (map s_emitTimeUs l) from + minIntervalUs <= s_emitTimeUs q.
Proof.
  induction l as [|p l IH]; intros from; cbn [app spaced map]; [cbn; tauto|]. rewrite IH, last_default_cons.
  tauto.
Qed.

Lemma in_flight_insert (ts : list lthread) t t' : forall i, ts !! i = Some t ->
  concat (map in_flight (<[i := t']> ts)) ++ in_flight t ≡ₚ concat (map in_flight ts) ++ in_flight t'.
Proof.
  induction ts as [|u ts IH]; intros i Hi; [done|]. destruct i as [|i].
  - injection Hi as <-. cbn. rewrite (Permutation_app_comm (in_flight t')), (Permutation_app_comm (in_flight u)).
    rewrite <- !app_assoc. apply Permutation_app_head, Permutation_app_comm.
  - cbn in Hi |- *. rewrite <- !app_assoc. by apply Permutation_app_head, IH.
Qed.

Lemma last_emit_range l : (forall q, q ∈ l -> wanted q) -> 0 <= last_emit l < two63.
Proof.
  intros Hl. destruct l as [|q l _] using rev_ind; [unfold last_emit, two63; cbn; lia|].
  rewrite last_emit_snoc. destruct (Hl q) as [(qs & H1 & H2) _]; [apply elem_of_app; right; apply list_elem_of_here|].
  by eapply Hemit.
Qed.

Lemma linv_next st i t t' c w :
  linv st -> l_threads st !! i = Some t -> lastSentUs c = last_emit w -> spaced 0 w ->
  (w ++ in_flight t ++ sent (l_call st) ≡ₚ won st ++ in_flight t' ++ sent c) ->
  (exists past, published !! i = Some (past ++ quotes t')) -> lphase_ok (at_ t') -> (forall q, q ∈ w -> wanted q) ->
  linv (mkLState c w (<[i := t']> (l_threads st))).
Proof.
  intros [Hl Hsp Hse Hth Hw] Ht Hlast Hspaced Hperm Hpast Hph Hwant. split; cbn [l_call won l_threads]; try done.
  - pose proof (in_flight_insert (l_threads st) t t' i Ht) as Hi. revert Hi Hse Hperm.
    generalize (concat (map in_flight (<[i:=t']> (l_threads st)))) (concat (map in_flight (l_threads st))).
    generalize (in_flight t) (in_flight t') (sent (l_call st)) (sent c). intros B B' S S' C' C Hi Hse Hperm.
    apply (Permutation_app_inv_r (B ++ S)). rewrite Hperm, Hse, <- (app_assoc S' C'), (app_assoc C' B), Hi.
    rewrite (Permutation_app_comm S'), (Permutation_app_comm (C ++ B')), <- !app_assoc. reflexivity.
  - intros a u Hu. apply list_lookup_insert_Some in Hu as [(<- & <- & _)|[Hne Hu]]; [done|by apply Hth].
Qed.

Lemma lstep_inv st e : linv st -> linv (lstep st e).
Proof.
  intros Hinv. unfold lstep. destruct (l_threads st !! e.1) as [t|] eqn:Ht; [|done].
  pose proof Hinv as [Hl Hsp Hse Hth Hw]. destruct (Hth _ t Ht) as [(past & Hpub) Hph].
  assert (forall p, in_flight t = [] -> (exists past, published !! e.1 = Some (past ++ quotes p)) -> in_flight p = [] ->
    lphase_ok (at_ p) -> linv (mkLState (l_call st) (won st) (<[e.1 := p]> (l_threads st)))) as Hquiet.
  { intros p Ef Hp Ep Hok. apply (linv_next st e.1 t); auto. by rewrite Ef, Ep. }
  unfold lact, in_flight in *. destruct (at_ t) as [|q|q previous|q] eqn:Ea.
  - destruct (quotes t) as [|q qs] eqn:Eq; [by apply Hquiet; [|exists past; rewrite Eq|rewrite Ea|rewrite Ea]|].
    assert (published !! e.1 = Some ((past ++ [q]) ++ qs)) as Hpub' by (by rewrite <- app_assoc).
    destruct (matchesVenue q venues) eqn:Em; cbn [negb]; [|apply Hquiet; eauto; by cbn].
    destruct e.2; cbn [negb]; [apply Hquiet; eauto|].
    + cbn. split; [|done]. exists ((past ++ [q]) ++ qs). split; [by eapply list_elem_of_lookup_2|].
      rewrite !elem_of_app. left. right. apply list_elem_of_here.
    + by apply (linv_next st e.1 t); unfold in_flight; rewrite ?Ea; eauto.
  - destruct (Z.ltb_spec (wrap64 (s_emitTimeUs q - lastSentUs (l_call st))) minIntervalUs) as [_|Hge]; [by apply Hquiet; eauto|].
    apply Hquiet; eauto. cbn. split; [done|].
    pose proof (last_emit_range (won st) Hw) as Hr. destruct Hph as [(qs & H1 & H2) _]. pose proof (Hemit qs q H1 H2).
    rewrite Hl in Hge |- *. rewrite wrap64_id in Hge by (unfold int64, two63 in *; lia). lia.
  - destruct (Z.eqb_spec (lastSentUs (l_call st)) previous) as [<-|]; [|by apply Hquiet; eauto].
    destruct Hph as [Hwant Hsp']. apply (linv_next st e.1 t); unfold in_flight; rewrite ?Ea; cbn [lastSentUs sent quotes at_ app]; eauto.
    + by rewrite last_emit_snoc.
    + apply spaced_snoc. split; [done|]. by rewrite Hl in Hsp'.
    + by rewrite <- app_assoc.
    + intros q' [Hq'|Hq']%elem_of_app; [by apply Hw|]. by apply list_elem_of_singleton in Hq' as ->.
  - apply (linv_next st e.1 t); unfold in_flight; rewrite ?Ea; cbn [send lastSentUs sent quotes at_ app]; eauto; [|done].
    apply Permutation_app_head. by rewrite Permutation_app_comm.
Qed.

Lemma lstart_inv : linv (lstart published).
Proof.
  split; cbn [lstart l_call won l_threads new_call lastSentUs sent]; try done.
  - cbn [app]. clear Hemit. induction published as [|qs l IH]; [done|]. cbn. by rewrite <- IH.
  - intros i t Ht. rewrite list_lookup_fmap in Ht. destruct (published !! i) as [qs|]; [|done].
    injection Ht as <-. split; [|done]. by exists [].
  - by intros q ?%elem_of_nil.
Qed.

Lemma lrun_inv schedule : forall st, linv st -> linv (lrun st schedule).
Proof. induction schedule as [|e schedule IH]; intros st Hst; [done|]. by apply IH, lstep_inv. Qed.

Lemma spaced_lookup l : forall from, 0 <= minIntervalUs -> spaced from l -> forall j q, l !! j = Some q ->
  from + (Z.of_nat j + 1) * minIntervalUs <= s_emitTimeUs q.
Proof.
  induction l as [|p l IH]; intros from H0 Hs j q Hq; [done|]. destruct Hs as [Hp Hl]. destruct j as [|j]; [injection Hq as <-; lia|].
  specialize (IH (s_emitTimeUs p) H0 Hl j q Hq). lia.
Qed.

Lemma spaced_between l : forall from, 0 <= minIntervalUs -> spaced from l -> forall i j p q, (i < j)%nat ->
  l !! i = Some p -> l !! j = Some q -> s_emitTimeUs p + (Z.of_nat j - Z.of_nat i) * minIntervalUs <= s_emitTimeUs q.
Proof.
  induction l as [|x l IH]; intros from H0 Hs i j p q Hij Hp Hq; [done|]. destruct Hs as [Hx Hl]. destruct j as [|j]; [lia|].
  destruct i as [|i]; [|specialize (IH _ H0 Hl i j p q ltac:(lia) Hp Hq); lia].
  injection Hp as <-. pose proof (spaced_lookup l _ H0 Hl j q Hq). lia.
Qed.
End invariant.
End listener.

(** *** Properties *)

Lemma min_interval_bounds hz : 0 <= hz < two31 -> 10000 <= min_interval_us hz <= 1000000.
Proof.
  intros Hhz. unfold min_interval_us, updates_hz, java_int. rewrite wrap32_id by lia.
  assert (1 <= (if hz =? 0 then DEFAULT_UPDATES_HZ else Z.min hz MAX_UPDATES_HZ) <= 100) as H
    by (unfold DEFAULT_UPDATES_HZ, MAX_UPDATES_HZ; destruct (Z.eqb_spec hz 0); lia).
  rewrite Z.quot_div_nonneg by lia. generalize dependent (if hz =? 0 then DEFAULT_UPDATES_HZ else Z.min hz MAX_UPDATES_HZ).
  intros n Hn. split; [apply Z.div_le_lower_bound; lia|apply Z.div_le_upper_bound; lia].
Qed.

(** C8. The rate of a stream. However many consumer threads run its listener and however their
    actions interleave, the quotes that pass the throttle are spaced by emit time: any
    two of them by the interval for each step between them, so that no stretch of emit
    time has more than [max_updates_hz] per second, and the interval is between ten
    milliseconds and a second. What is sent are those, each once, and each was published
    by a thread and is of a venue the client asked for. *)
Theorem stream_rate max_updates_hz venues published schedule :
  0 <= max_updates_hz < two31 ->
  (forall qs q, qs ∈ published -> q ∈ qs -> 0 <= s_emitTimeUs q < two63) ->
  let interval := min_interval_us max_updates_hz in
  let st := lrun venues interval (lstart published) schedule in
  10000 <= interval <= 1000000
  /\ (forall i j p q, (i < j)%nat -> won st !! i = Some p -> won st !! j = Some q ->
        (Z.of_nat j - Z.of_nat i) * interval <= s_emitTimeUs q - s_emitTimeUs p)
  /\ won st ≡ₚ sent (l_call st) ++ concat (map in_flight (l_threads st))
  /\ (forall q, q ∈ sent (l_call st) -> matchesVenue q venues = true /\ exists qs, qs ∈ published /\ q ∈ qs).
Proof.
  intros Hhz Hemit interval st. pose proof (min_interval_bounds max_updates_hz Hhz) as Hb. fold interval in Hb.
  pose proof (lrun_inv venues interval published Hemit schedule _ (lstart_inv venues interval published)) as [_ Hsp Hse _ Hw].
  fold st in Hsp, Hse, Hw. split; [done|]. split; [|split; [done|]].
  - intros i j p q Hij Hp Hq. pose proof (spaced_between interval (won st) 0 ltac:(lia) Hsp i j p q Hij Hp Hq). lia.
  - intros q Hq. destruct (Hw q) as [Hpub Hm]; [|by split]. rewrite Hse. apply elem_of_app. by left.
Qed.

Definition ticks (venue symbol : string) (ts : list Z) : list QuoteSnapshot := map (fun t => sample_quote venue symbol 100 101 t) ts.
Definition two_partitions : list (list QuoteSnapshot) :=
  [ticks "kraken" "BTC-USD" [100000; 210000]; ticks "kraken" "ETH-USD" [310000]].

Lemma stream_rate_witness :
  map s_emitTimeUs (won (lrun [] (min_interval_us 10) (lstart two_partitions)
    (map (fun i => (i, true)) [0; 0; 0; 0; 0; 0; 0; 1; 1; 1; 1]%nat))) = [100000; 210000; 310000]
  /\ 10000 <= min_interval_us 10.
Proof.
  split; [vm_compute; reflexivity|].
  refine (proj1 (proj1 (stream_rate 10 [] two_partitions [] _ _))); [unfold two31; lia|].
  intros qs q Hqs Hq. unfold two_partitions in Hqs. rewrite !elem_of_cons in Hqs.
  destruct Hqs as [->|[->|Hn]]; [..|by apply elem_of_nil in Hn]; unfold ticks in Hq; cbn [map] in Hq;
    rewrite !elem_of_cons in Hq; unfold two63; decompose [or] Hq; subst; cbn [s_emitTimeUs sample_quote]; try lia;
    match goal with H : _ ∈ [] |- _ => by apply elem_of_nil in H end.
Defined.

(** The throttle is one for all symbols and venues of the stream: when the quotes of two
    symbols come at the same rate as the throttle lets through, which is the default on
    both sides, and one a little after the other, the second is never sent. *)
Definition round (interval delay : Z) (i : nat) : list QuoteSnapshot :=
  ticks "kraken" "BTC-USD" [Z.of_nat (S i) * interval] ++ ticks "kraken" "ETH-USD" [Z.of_nat (S i) * interval + delay].
Lemma round_run interval delay i c : 0 <= delay < interval -> (Z.of_nat i + 2) * interval < two63 ->
  lastSentUs c = Z.of_nat i * interval ->
  fold_left (accept [] interval true) (round interval delay i) c
  = mkCall (Z.of_nat (S i) * interval) (sent c ++ ticks "kraken" "BTC-USD" [Z.of_nat (S i) * interval]) (dropped c).
Proof.
  intros Hd Hn Hl. assert (0 <= Z.of_nat i * interval) as Hpos by (apply Z.mul_nonneg_nonneg; lia).
  unfold round, ticks. cbn [map app fold_left]. unfold accept at 2.
  change (matchesVenue (sample_quote _ _ _ _ _) []) with true. cbn [negb s_emitTimeUs sample_quote]. rewrite Hl.
  rewrite wrap64_id by (unfold int64, two63 in *; lia). rewrite (proj2 (Z.ltb_ge _ _)) by lia.
  unfold accept. change (matchesVenue (sample_quote _ _ _ _ _) []) with true.
  cbn [negb s_emitTimeUs sample_quote lastSentUs sent]. rewrite wrap64_id by (unfold int64, two63 in *; lia).
  by rewrite (proj2 (Z.ltb_lt _ _)) by lia.
Qed.
Lemma rounds_run interval delay n : 0 <= delay < interval -> (Z.of_nat n + 1) * interval < two63 ->
  fold_left (accept [] interval true) (concat (map (round interval delay) (seq 0 n))) new_call
  = mkCall (Z.of_nat n * interval) (ticks "kraken" "BTC-USD" (map (fun i => Z.of_nat (S i) * interval) (seq 0 n))) 0.
Proof.
  intros Hd. induction n as [|n IH]; intros Hn; [reflexivity|].
  rewrite seq_S, !map_app, concat_app, fold_left_app, IH by lia. cbn [map concat plus]. rewrite app_nil_r.
  rewrite round_run; [|done|lia|done]. cbn [sent dropped]. unfold ticks. by rewrite map_app.
Qed.
Theorem second_symbol_starved interval delay n : 0 <= delay < interval -> (Z.of_nat n + 1) * interval < two63 ->
  Forall (fun q => s_symbol q = "BTC-USD")
    (sent (fold_left (accept [] interval true) (concat (map (round interval delay) (seq 0 n))) new_call)).
Proof.
  intros Hd Hn. rewrite rounds_run by done. cbn [sent]. unfold ticks.
  apply List.Forall_map, List.Forall_forall. done.
Qed.
Lemma second_symbol_starved_witness :
  Forall (fun q => s_symbol q = "BTC-USD")
    (sent (fold_left (accept [] (min_interval_us 0) true) (concat (map (round 100000 3000) (seq 0 50))) new_call)).
Proof. apply (second_symbol_starved 100000 3000 50); unfold two63; lia. Defined.

(** A rate above 2^31 is a negative [int]: the interval is not positive, and every quote that
    is not older than the last one passes. *)
Theorem huge_rate_unthrottled hz venues c q :
  two31 <= hz < two32 -> 0 <= lastSentUs c <= s_emitTimeUs q -> s_emitTimeUs q < two63 -> matchesVenue q venues = true ->
  min_interval_us hz <= 0
  /\ accept venues (min_interval_us hz) true c q = mkCall (s_emitTimeUs q) (sent c ++ [q]) (dropped c).
Proof.
  intros Hhz Hl He Hm.
  assert (java_int hz = hz - two32) as Hj by (unfold java_int, wrap32, two31, two32 in *; Z.to_euclidean_division_equations; lia).
  assert (min_interval_us hz <= 0) as Hi.
  { unfold min_interval_us, updates_hz. rewrite Hj. unfold two31, two32, MAX_UPDATES_HZ in *.
    destruct (Z.eqb_spec (hz - 4294967296) 0); [lia|]. rewrite Z.min_l by lia. Z.to_euclidean_division_equations. nia. }
  split; [done|]. unfold accept. rewrite Hm. cbn [negb].
  rewrite wrap64_id by (unfold int64, two63 in *; lia).
  destruct (Z.ltb_spec (s_emitTimeUs q - lastSentUs c) (min_interval_us hz)); [lia|done].
Qed.
Lemma huge_rate_unthrottled_witness :
  sent (accept [] (min_interval_us 4294967295) true (mkCall 1000 [quote_a] 0) quote_a) = [quote_a; quote_a].
Proof.
  refine (f_equal sent (proj2 (huge_rate_unthrottled 4294967295 [] (mkCall 1000 [quote_a] 0) quote_a _ _ _ _)));
    [unfold two31, two32; lia|cbn; lia|cbn; unfold two63; lia|reflexivity].
Defined.

(** Between the throttle and [onNext] nothing is held: two threads are in [onNext] of one
    call at once, which gRPC does not allow, and the client gets the later quote first. *)
Theorem concurrent_sends :
  let run := lrun [] (min_interval_us 10) (lstart two_partitions) in
  let both := map (fun i => (i, true)) [0; 0; 0; 1; 1; 1]%nat in
  map in_flight (l_threads (run both)) = [ticks "kraken" "BTC-USD" [100000]; ticks "kraken" "ETH-USD" [310000]]
  /\ map s_emitTimeUs (sent (l_call (run (both ++ [(1%nat, true); (0%nat, true)])))) = [310000; 100000].
Proof. split; vm_compute; reflexivity. Qed.

(** ** Requests *)

(** What a client is answered. A quote is what the cache has for the venue or the freshest
    valid one; a symbol is required, and a quote that is not there is reported. The REST
    gateway answers with the same quote. *)
Theorem getQuote_answers `{J : JsonCodec, O : HashOrder} r symbol venue now :
  (isBlank symbol = true -> exists msg, getQuote r symbol venue now = Err (status_error INVALID_ARGUMENT msg))
  /\ (isBlank symbol = false -> match getQuote r symbol venue now with
      | Ok p => exists q, p = toProto q /\ rest_quote r symbol (Some venue) now = (200, inl q)
          /\ (if isBlank venue then snapshot_valid q = true /\ (exists v, latest r symbol v now = Some q)
                /\ forall v q', latest r symbol v now = Some q' -> snapshot_valid q' = true -> s_eventTimeUs q' <= s_eventTimeUs q
              else latest r symbol venue now = Some q)
      | Err e => e = status_error NOT_FOUND ("no quote for " +:+ symbol)
          /\ fst (rest_quote r symbol (Some venue) now) = 404
      | Panic => False
      end).
Proof.
  unfold getQuote, rest_quote, find_quote. cbn [default id]. split; intros ->; [by eexists|].
  destruct (isBlank venue).
  - pose proof (best_spec r symbol now) as Hb. destruct (best r symbol now) as [q|]; [|done].
    exists q. do 2 (split; [done|]). tauto.
  - destruct (latest r symbol venue now) as [q|] eqn:E; [|done]. exists q. done.
Qed.
Lemma getQuote_answers_witness : exists p, getQuote (put_all sample_puts) "BTC-USD" "" 300000 = Ok p
  /\ fst (rest_quote (put_all sample_puts) "BTC-USD" (Some "") 300000) = 200.
Proof.
  assert (is_ok (getQuote (put_all sample_puts) "BTC-USD" "" 300000) = true) as Hok by (vm_compute; reflexivity).
  pose proof (proj2 (getQuote_answers (put_all sample_puts) "BTC-USD" "" 300000) eq_refl) as H.
  destruct (getQuote (put_all sample_puts) "BTC-USD" "" 300000) as [p| |]; [|discriminate Hok..].
  exists p. split; [reflexivity|]. destruct H as (q & _ & -> & _). reflexivity.
Defined.

(** A window query reaches the store only if the range begins within the retention, with a
    limit between one and the maximum for every limit below 2^31; the caller is told that
    a range is too old as an internal error, not as one it could act on. *)
Theorem queryWindows_answers olap days symbol venue startUs endUs limit nowMs :
  isBlank symbol = false -> startUs < endUs -> 0 <= limit < two31 ->
  1 <= query_limit limit <= MAX_LIMIT
  /\ queryWindows olap days symbol venue startUs endUs limit nowMs
    = if withinOlapRetention days startUs nowMs
      then match olap symbol startUs endUs venue (query_limit limit) with
           | Ok bars => Ok bars
           | _ => Err (status_error INTERNAL "query failed")
           end
      else Err (status_error INTERNAL "query failed").
Proof.
  intros Hs Ht Hl. split.
  - unfold query_limit, java_int, MAX_LIMIT, DEFAULT_LIMIT. rewrite wrap32_id by lia. destruct (Z.eqb_spec limit 0); lia.
  - unfold queryWindows, window_query. rewrite Hs, (proj2 (Z.leb_gt _ _)) by done.
    by destruct (withinOlapRetention days startUs nowMs).
Qed.
Lemma queryWindows_answers_witness :
  queryWindows (fun _ _ _ _ _ => Ok []) 7 "BTC-USD" "" 0 1 0 1700000000000 = Err (status_error INTERNAL "query failed").
Proof.
  refine (eq_trans (proj2 (queryWindows_answers (fun _ _ _ _ _ => Ok []) 7 "BTC-USD" "" 0 1 0 1700000000000 _ _ _)) _);
    [reflexivity|lia|unfold two31; lia|vm_compute; reflexivity].
Defined.

(** From 2^31 the limit of a query is negative too. *)
Theorem huge_limit_negative : query_limit 4294967295 = -1.
Proof. reflexivity. Qed.

Lemma linked_set_spec l : forall seen, NoDup (linked_set seen l)
  /\ forall x, x ∈ linked_set seen l <-> x ∈ l /\ x ∉ seen.
Proof.
  induction l as [|y l IH]; intros seen; cbn [linked_set].
  { split; [constructor|]. intros x. rewrite elem_of_nil. tauto. }
  destruct (bool_decide (y ∈ seen)) eqn:E.
  - apply bool_decide_eq_true in E. destruct (IH seen) as [Hn Hin]. split; [done|]. intros x. rewrite Hin, elem_of_cons.
    split; [tauto|]. intros [[->|?] ?]; [done|tauto].
  - apply bool_decide_eq_false in E. destruct (IH (y :: seen)) as [Hn Hin]. split.
    + constructor; [|done]. rewrite Hin, elem_of_cons. tauto.
    + intros x. rewrite elem_of_cons, Hin, !elem_of_cons. destruct (decide (x = y)) as [->|]; tauto.
Qed.

Lemma send_ready_spec qs : forall ready c,
  lastSentUs (send_ready ready qs c) = lastSentUs c /\ dropped (send_ready ready qs c) = dropped c
  /\ (forall q, q ∈ sent (send_ready ready qs c) -> q ∈ sent c \/ q ∈ qs)
  /\ ((forall n, ready n = true) -> sent (send_ready ready qs c) = sent c ++ qs).
Proof.
  induction qs as [|p qs IH]; intros ready c; cbn [send_ready].
  { split; [done|]. split; [done|]. split; [by left|]. by rewrite app_nil_r. }
  destruct (IH (fun n => ready (S n)) (if ready O then send c p else c)) as (H1 & H2 & H3 & H4). rewrite H1, H2. split; [by destruct (ready O)|].
  split; [by destruct (ready O)|]. split.
  - intros q Hq. destruct (H3 q Hq) as [Hs|Hs]; [|right; apply elem_of_cons; by right].
    destruct (ready O); [|by left]. cbn [send sent] in Hs. apply elem_of_app in Hs as [|Hs%list_elem_of_singleton]; [by left|].
    subst. right. apply list_elem_of_here.
  - intros Hr. rewrite H4 by (intros n; apply Hr). rewrite Hr. cbn [send sent]. by rewrite <- app_assoc.
Qed.

(** A stream that is accepted has between one and 64 symbols, each once: those of the
    request. It opens with what the cache lists for them and the venues of the request,
    as far as the client is ready, and that does not count for the throttle. *)
Theorem stream_opens `{J : JsonCodec, O : HashOrder} r symbols venues hz now ready :
  match stream_request symbols venues hz with
  | Ok (ss, vs, interval) =>
      NoDup ss /\ (1 <= length ss <= MAX_SYMBOLS_PER_STREAM)%nat /\ (forall s, s ∈ ss <-> s ∈ symbols)
      /\ interval = min_interval_us hz
      /\ let c := opening r ss vs now ready in
         lastSentUs c = 0 /\ dropped c = 0
         /\ (forall q, q ∈ sent c -> (exists s, s ∈ symbols /\ q ∈ latestForSymbol r s now) /\ (venues = [] \/ s_venue q ∈ venues))
         /\ ((forall n, ready n = true) -> forall s q, s ∈ symbols -> q ∈ latestForSymbol r s now ->
              venues = [] \/ s_venue q ∈ venues -> q ∈ sent c)
  | Err e => (symbols = [] /\ exists msg, e = status_error INVALID_ARGUMENT msg)
      \/ (MAX_SYMBOLS_PER_STREAM < length (linked_set [] symbols))%nat /\ exists msg, e = status_error RESOURCE_EXHAUSTED msg
  | Panic => False
  end.
Proof.
  unfold stream_request. destruct (linked_set_spec symbols []) as [Hnd Hin]. destruct (linked_set_spec venues []) as [_ Hvin].
  destruct (Nat.eqb_spec (length (linked_set [] symbols)) 0) as [H0|H0].
  { left. split; [|by eexists]. destruct symbols as [|s l]; [done|]. apply nil_length_inv in H0. rewrite H0 in Hin.
    destruct (not_elem_of_nil s). apply Hin. split; [apply list_elem_of_here|]. by intros ?%elem_of_nil. }
  destruct (Nat.ltb_spec MAX_SYMBOLS_PER_STREAM (length (linked_set [] symbols))); [right; split; [done|by eexists]|].
  assert (forall s, s ∈ linked_set [] symbols <-> s ∈ symbols) as Hsym.
  { intros s. rewrite Hin. pose proof (not_elem_of_nil s). tauto. }
  split; [done|]. split; [lia|]. split; [done|]. split; [done|]. cbn zeta.
  assert (forall q, matchesVenue q (linked_set [] venues) = true <-> venues = [] \/ s_venue q ∈ venues) as Hm.
  { intros q. unfold matchesVenue. rewrite orb_true_iff, !bool_decide_eq_true, Hvin.
    pose proof (not_elem_of_nil (s_venue q)). destruct venues as [|v vs]; [cbn; tauto|]. cbn [linked_set].
    rewrite bool_decide_eq_false_2 by apply not_elem_of_nil. intuition discriminate. }
  unfold opening. set (qs := List.filter _ _).
  assert (forall q, q ∈ qs <-> (exists s, s ∈ symbols /\ q ∈ latestForSymbol r s now) /\ (venues = [] \/ s_venue q ∈ venues)) as Hqs.
  { intros q. unfold qs. rewrite list_elem_of_In, filter_In, Hm, in_concat.
    split; intros [H1 H2]; (split; [|exact H2]).
    - destruct H1 as (l & Hl & Hq). apply in_map_iff in Hl as (s & <- & Hs). exists s.
      by rewrite <- Hsym, !list_elem_of_In.
    - destruct H1 as (s & Hs & Hq). exists (latestForSymbol r s now).
      split; [|by apply list_elem_of_In]. apply (in_map (fun s => latestForSymbol r s now)), list_elem_of_In. by apply Hsym. }
  clearbody qs. pose proof (send_ready_spec qs ready new_call) as (H1 & H2 & H3 & H4). cbn [new_call lastSentUs dropped sent] in *.
  split; [done|]. split; [done|]. split.
  - intros q Hq. apply Hqs. destruct (H3 q Hq) as [Hn|]; [by apply elem_of_nil in Hn|done].
  - intros Hr s q Hs Hq Hv. rewrite (H4 Hr). cbn [app]. apply Hqs. eauto.
Qed.
