(* ===== verification/EndToEnd.v ===== *)
(** * From the Go tier's events to the quotes the API serves

    The book job (src/stream/src/main/scala/io/tapeline/stream/jobs/BookJob.scala) as the
    composition of its steps, between the deltas of the Go tier (Model.v, Codec.v) and the
    cache of the serving tier (Quotes.v), over the operator of BookFunction.v. *)

From S2P Require Import Prelude.
From S2P Require Import GoStrings.
From S2P Require Import GoStrconv.
From S2P Require Import Model.
From S2P Require Import TreeMap.
From S2P Require Import OrderBook.
From S2P Require Import BookFunction.
From S2P Require Import Codec.
From S2P Require Import Quotes.

Local Open Scope Z_scope.

(** ** The book job *)

(** What reaches the job: the records of the deltas the Go tier published, and the timers
    Flink fires, in the order of processing. *)
Inductive feed_item :=
  | FRecord (g : Model.BookDelta) (now : Z)
  | FTimer (key : string) (ts now wall : Z).

Section job.
Context (toString : datum -> string).

(** The map and the filter in front of the operator. *)
Definition job_input (i : feed_item) : option op_input :=
  match i with
  | FRecord g now =>
      r ← payload_record (PBook (Some g));
      match decode_delta toString r with Ok (Some d) => Some (InDelta d now) | _ => None end
  | FTimer key ts now wall => Some (InTimer key ts now wall)
  end.
Definition book_job (maxDepth imbalanceDepth emitIntervalMs : Z) (feed : list feed_item)
    : res (operator * list (string * Quote)) :=
  op_run maxDepth imbalanceDepth emitIntervalMs (omap job_input feed).

(** The deltas of a key that the Go tier published, and those of them the filter keeps:
    it drops a delta with no level at all, an empty snapshot too, one without a positive
    event time and one without a symbol. *)
Definition delta_of_go (g : Model.BookDelta) : OrderBook.BookDelta :=
  fromLevels (bd_Venue g) (bd_Symbol g) (bd_IsSnapshot g) (map level_of (bd_Bids g)) (map level_of (bd_Asks g))
    (bd_EventTimeUS g) (bd_IngestTimeUS g) (bd_Sequence g).
Definition kept (g : Model.BookDelta) : Datatypes.bool := valid_delta (delta_of_go g).
Definition published_deltas (key : string) (feed : list feed_item) : list Model.BookDelta :=
  omap (fun i => match i with
                 | FRecord g _ => if String.eqb (keyOf (delta_of_go g)) key then Some g else None
                 | FTimer _ _ _ _ => None
                 end) feed.
Definition kept_deltas (key : string) (feed : list feed_item) : list Model.BookDelta :=
  List.filter kept (published_deltas key feed).

(** ** Lemmas *)

Lemma job_input_record g now :
  job_input (FRecord g now) = if valid_delta (delta_of_go g) then Some (InDelta (delta_of_go g) now) else None.
Proof.
  cbn [job_input payload_record mbind option_bind]. unfold decode_delta.
  match goal with |- context [toBookDelta _ ?r] =>
    assert (toBookDelta toString r = Ok (delta_of_go g)) as -> end; [|cbn; by destruct (valid_delta _)].
  match goal with |- toBookDelta _ ?r = _ => set (rec := r) end. unfold toBookDelta.
  rewrite (record_levels_of rec "bids" (bd_Bids g) eq_refl), (record_levels_of rec "asks" (bd_Asks g) eq_refl).
  reflexivity.
Qed.

Lemma deltas_of_job key feed : deltas_of key (omap job_input feed) = map delta_of_go (kept_deltas key feed).
Proof.
  unfold kept_deltas, published_deltas, deltas_of. induction feed as [|i feed IH]; [done|].
  change (i :: feed) with ([i] ++ feed). rewrite !omap_app, List.filter_app, map_app, IH. f_equal. clear IH.
  destruct i as [g now|]; [|done].
  pose proof (job_input_record g now) as Hj. cbn [omap list_omap]. rewrite Hj. unfold kept.
  destruct (valid_delta (delta_of_go g)) eqn:Hv; cbn [omap list_omap].
  - destruct (String.eqb _ key); [|done]. cbn [List.filter]. by rewrite Hv.
  - destruct (String.eqb _ key); [|done]. cbn [List.filter]. by rewrite Hv.
Qed.

(** Where the filter dropped nothing the deltas kept are all that were published. *)
Lemma nothing_dropped key feed :
  forallb kept (published_deltas key feed) = true -> kept_deltas key feed = published_deltas key feed.
Proof.
  unfold kept_deltas. induction (published_deltas key feed) as [|g gs IH]; [done|]. cbn.
  intros [Hg Hgs]%andb_true_iff. by rewrite Hg, IH.
Qed.

Lemma omap_app_inv {A B} (f : A -> option B) l : forall a b, omap f l = a ++ b ->
  exists l1 l2, l = l1 ++ l2 /\ omap f l1 = a /\ omap f l2 = b.
Proof.
  induction l as [|x l IH]; intros a b E.
  { exists [], []. symmetry in E. by apply app_eq_nil in E as [-> ->]. }
  destruct a as [|y a]; [by exists [], (x :: l)|]. cbn in E. destruct (f x) as [z|] eqn:Ex.
  - injection E as -> E. destruct (IH a b E) as (l1 & l2 & -> & <- & <-). exists (x :: l1), l2. cbn. by rewrite Ex.
  - destruct (IH (y :: a) b E) as (l1 & l2 & -> & E1 & <-). exists (x :: l1), l2. cbn. by rewrite Ex.
Qed.

Lemma served_in symbol venue hist : forall now s, served symbol venue now hist = Some s ->
  (exists t, (t, s) ∈ hist) /\ s_symbol s = symbol /\ s_venue s = venue.
Proof.
  induction hist as [|[t q] hist IH]; intros now s; [done|]. cbn [served].
  assert (forall now, served symbol venue now hist = Some s ->
    (exists t', (t', s) ∈ (t, q) :: hist) /\ s_symbol s = symbol /\ s_venue s = venue) as Hold.
  { intros now' H. apply IH in H as [(t' & Ht') H]. split; [|done]. exists t'. apply elem_of_cons. by right. }
  destruct (String.eqb_spec (s_symbol q) symbol) as [<-|]; [|by apply Hold]. destruct (now <=? t + TTL); [|done].
  destruct (String.eqb_spec (s_venue q) venue) as [<-|]; [|by apply Hold]. intros [= <-]. split; [|done].
  exists t. apply list_elem_of_here.
Qed.

(** At some moment of the run the quote was the top of the book of its key, valid and not
    crossed: of the book the operator keeps, and of the full book of the deltas of the key
    that the filter kept while the removals since the last snapshot fit the spare depth. *)
Definition top_of_book (maxDepth imbalanceDepth : Z) (feed : list feed_item) (key : string) (q : Quote) : Prop :=
  exists pre post b, feed = pre ++ post /\ scala_split key "|" = [q_venue q; q_symbol q]
    /\ isValid q = true /\ f64_lt (bidPrice q) (askPrice q) = true
    /\ let ds := map delta_of_go (kept_deltas key pre) in
       trimmed_book maxDepth ds = Ok b
       /\ toQuote b (q_venue q) (q_symbol q) (q_emitTimeUs q) imbalanceDepth = Ok (Some q)
       /\ (imbalanceDepth + Z.max (Z.of_nat (erased delta_bids ds)) (Z.of_nat (erased delta_asks ds)) <= maxDepth ->
           toQuote (full_book ds) (q_venue q) (q_symbol q) (q_emitTimeUs q) imbalanceDepth = Ok (Some q)).

Lemma job_quotes maxDepth imbalanceDepth emitIntervalMs feed o outs key q :
  0 < maxDepth -> 0 < imbalanceDepth ->
  book_job maxDepth imbalanceDepth emitIntervalMs feed = Ok (o, outs) -> (key, q) ∈ outs ->
  top_of_book maxDepth imbalanceDepth feed key q.
Proof.
  intros Hd Hi Hrun Hq. destruct (run_inv maxDepth imbalanceDepth emitIntervalMs Hd Hi _ _ _ Hrun) as [_ Hquotes _ _].
  destruct (Hquotes key q Hq) as (ins1 & ins2 & b & Hins & Hb & Hcr & Hv & Hk & Hto).
  apply omap_app_inv in Hins as (pre & post & -> & <- & <-). rewrite deltas_of_job in Hb.
  exists pre, post, b. split; [done|]. split; [done|]. split; [done|]. split.
  { unfold isValid in Hv. apply andb_true_iff in Hv as [_ Hle]. apply f64_le_lt; [exact Hle|]. by eapply quote_prices. }
  split; [done|]. split; [done|]. intros Hroom. rewrite <- Hto. symmetry.
  rewrite <- (Z2Nat.id imbalanceDepth) by lia. apply (trimmed_top maxDepth _ b (Z.to_nat imbalanceDepth) Hd Hb); lia.
Qed.
End job.

(** ** Properties *)

(** C6. Every quote the API serves is the top of a book of the Go tier's events. Whatever deltas
    were published, however they and the timers interleave, and in whatever order and how
    often the quotes the operator collected were put: if [latest] answers for a symbol
    and venue, then at some moment of the run the answer was the quote of the book of
    those of that symbol's and venue's deltas that the job's filter keeps, valid and not
    crossed; of the full book of these while the removals since the last snapshot fit the
    spare depth; and of the full book of all deltas published if the filter dropped none
    of them. A dropped one can matter: [dropped_snapshot_served]. *)
Theorem served_quote_is_top_of_book `{J : JsonCodec, !LawfulJson J} toString maxDepth imbalanceDepth emitIntervalMs
    feed o outs hist symbol venue now s :
  0 < maxDepth -> 0 < imbalanceDepth ->
  book_job toString maxDepth imbalanceDepth emitIntervalMs feed = Ok (o, outs) ->
  writable hist ->
  (forall t s, (t, s) ∈ hist -> exists key q, (key, q) ∈ outs /\ s = fromAvro toString (fromQuote q)) ->
  latest (put_all hist) symbol venue now = Some s ->
  exists key pre post b q,
    feed = pre ++ post /\ scala_split key "|" = [venue; symbol] /\ s = fromAvro toString (fromQuote q)
    /\ snapshot_valid s = true /\ f64_lt (s_bidPrice s) (s_askPrice s) = true
    /\ let ds := map delta_of_go (kept_deltas key pre) in
       trimmed_book maxDepth ds = Ok b
       /\ toQuote b venue symbol (s_emitTimeUs s) imbalanceDepth = Ok (Some q)
       /\ (imbalanceDepth + Z.max (Z.of_nat (erased delta_bids ds)) (Z.of_nat (erased delta_asks ds)) <= maxDepth ->
           let book := full_book (map delta_of_go (published_deltas key pre)) in
           toQuote (full_book ds) venue symbol (s_emitTimeUs s) imbalanceDepth = Ok (Some q)
           /\ (forallb kept (published_deltas key pre) = true ->
               toQuote book venue symbol (s_emitTimeUs s) imbalanceDepth = Ok (Some q))).
Proof.
  intros Hd Hi Hrun Hw Hhist Hl. unfold latest, hget, parse_cached in Hl. rewrite live_fields in Hl by done.
  apply served_in in Hl as [(t & Hin) [Hsym Hven]]. rewrite list_elem_of_In, <- in_rev, <- list_elem_of_In in Hin.
  destruct (Hhist t s Hin) as (key & q & Hq & ->). cbn in Hsym, Hven.
  destruct (job_quotes toString _ _ _ _ _ _ key q Hd Hi Hrun Hq) as (pre & post & b & Hf & Hk & Hv & Hlt & Hb & Hq' & Hfull).
  rewrite Hsym, Hven in *. exists key, pre, post, b, q. do 7 (split; [done|]). intros Hroom.
  specialize (Hfull Hroom). split; [done|]. intros Hkept. by rewrite <- (nothing_dropped key pre Hkept).
Qed.

(** ** A run *)

Definition go_delta (snapshot : Datatypes.bool) (bids asks : list (Z * Z)) (sequence : Z) : Model.BookDelta :=
  let side := map (fun ps => Model.mkLevel (f64_of_Z ps.1) (f64_of_Z ps.2)) in
  Model.mkBookDelta "coinbase" "BTC-USD" snapshot (side bids) (side asks) (1000 * sequence) (1000 * sequence) sequence.
Definition sample_feed : list feed_item :=
  [FRecord (go_delta true [(100, 1); (99, 2)] [(101, 1)] 1) 1; FRecord (go_delta false [] [] 2) 1;
   FRecord (go_delta false [(100, 3)] [] 3) 2; FTimer "coinbase|BTC-USD" 100 101 1000].
Definition no_text (_ : datum) : string := "?".
Definition sample_job : res (operator * list (string * Quote)) := book_job no_text 50 5 100 sample_feed.
Definition sample_snapshot : QuoteSnapshot :=
  match sample_job with
  | Ok (_, (_, q) :: _) => fromAvro no_text (fromQuote q)
  | _ => quote_a
  end.

(** A codec that knows the one quote of the run. *)
Definition one_quote_json : JsonCodec := {|
  writeValueAsString q := if decide (q = sample_snapshot) then Some "q" else None;
  readValue t := if String.eqb t "q" then Some sample_snapshot else None |}.
Lemma one_quote_lawful : LawfulJson one_quote_json.
Proof. intros q t. cbn [writeValueAsString readValue one_quote_json]. by destruct (decide _) as [->|]; [intros [= <-]|]. Qed.

Lemma served_quote_is_top_of_book_witness :
  exists s, latest (J := one_quote_json) (put_all (J := one_quote_json) [(5, sample_snapshot)]) "BTC-USD" "coinbase" 1000 = Some s
  /\ s_bidSize s = f64_of_Z 3 /\ f64_lt (s_bidPrice s) (s_askPrice s) = true.
Proof.
  assert (match sample_job with Ok (_, [(_, q)]) => sample_snapshot = fromAvro no_text (fromQuote q) | _ => False end) as Hj
    by (vm_compute; reflexivity).
  destruct sample_job as [[o outs]|e|] eqn:E; [|destruct Hj..]. unfold sample_job in E. destruct outs as [|[key q] [|? ?]]; [destruct Hj| |destruct Hj].
  assert (latest (J := one_quote_json) (put_all (J := one_quote_json) [(5, sample_snapshot)]) "BTC-USD" "coinbase" 1000
    = Some sample_snapshot) as Hl by (vm_compute; reflexivity).
  assert (writable (J := one_quote_json) [(5, sample_snapshot)]) as Hw.
  { constructor; [|constructor]. exists "q". vm_compute. reflexivity. }
  assert (s_bidSize sample_snapshot = f64_of_Z 3) as Hs by (vm_compute; reflexivity).
  assert (forall t s, (t, s) ∈ [(5, sample_snapshot)] -> exists k q', (k, q') ∈ [(key, q)] /\ s = fromAvro no_text (fromQuote q')) as Hh.
  { clear Hl Hw Hs E. revert Hj. generalize sample_snapshot. intros s0 Hj t s [= -> ->]%list_elem_of_singleton.
    exists key, q. split; [apply list_elem_of_here|exact Hj]. }
  exists sample_snapshot. split; [exact Hl|]. split; [exact Hs|].
  destruct (@served_quote_is_top_of_book one_quote_json one_quote_lawful no_text 50 5 100 sample_feed o [(key, q)]
    [(5, sample_snapshot)] "BTC-USD" "coinbase" 1000 sample_snapshot ltac:(lia) ltac:(lia) E Hw Hh Hl)
    as (? & ? & ? & ? & ? & _ & _ & _ & _ & Hlt & _).
  exact Hlt.
Defined.

(** The exclusion is needed. After a snapshot 100/103 a venue sends an empty snapshot, which
    empties its book, and a bid of 101. The filter drops the empty snapshot, so the job
    collects the quote 101/103, while the book of the three deltas has no ask and no
    quote. *)
Definition emptied_feed : list feed_item :=
  [FRecord (go_delta true [(100, 1)] [(103, 1)] 1) 1; FRecord (go_delta true [] [] 2) 1;
   FRecord (go_delta false [(101, 1)] [] 3) 2; FTimer "coinbase|BTC-USD" 100 101 1000].

Theorem dropped_snapshot_served :
  match book_job no_text 50 5 100 emptied_feed with
  | Ok (_, [(key, q)]) =>
      key = "coinbase|BTC-USD" /\ bidPrice q = f64_of_Z 101 /\ askPrice q = f64_of_Z 103
      /\ length (published_deltas key emptied_feed) = 3%nat /\ length (kept_deltas key emptied_feed) = 2%nat
      /\ toQuote (full_book (map delta_of_go (published_deltas key emptied_feed))) "coinbase" "BTC-USD"
          (q_emitTimeUs q) 5 = Ok None
  | _ => False
  end.
Proof. vm_compute. repeat split. Qed.
