(* ===== verification/EventTime.v ===== *)
(** * Stream tier: event time

    What the jobs of src/stream rely on when they window a stream by event time: elements
    arrive between watermarks, an element whose window the watermark has passed is late and
    dropped, a window fires once, when the watermark passes its last millisecond. The class
    [EventTimeWindows] is Flink's window operator for an aggregate, [LawfulWindows] what its
    documentation says of it, [pane_operator] an operator that keeps the law. [bounded_by]
    is what the documentation says of watermarks of bounded out-of-orderness, and
    [emitted] a generator of such watermarks. *)

From S2P Require Import Prelude.
From S2P Require Import GoStrings.
From S2P Require Import GoStrconv.

Local Open Scope Z_scope.

(** ** Elements and watermarks *)

Inductive item (T : Type) := Element (t : T) | Watermark (w : Z).
Arguments Element {T} t.
Arguments Watermark {T} w.

Definition elements {T} (s : list (item T)) : list T :=
  omap (fun i => match i with Element t => Some t | Watermark _ => None end) s.

(** An operator that makes at most one element of an element lets watermarks through. *)
Definition through {T U} (f : T -> option U) (s : list (item T)) : list (item U) :=
  omap (fun i => match i with Element t => Element <$> f t | Watermark w => Some (Watermark w) end) s.

Definition MinWatermark : Z := - two63.

(** ** Windows of a key *)

Section panes.
Context {T : Type} (assign : T -> string * Z) (size_ms : Z).

(** [TimeWindow.maxTimestamp] of a window that starts at its second component. *)
Definition last_ms (k : string * Z) : Z := k.2 + size_ms - 1.

(** The watermark and the elements that were not late, in the order of arrival. *)
Definition arrive (a : Z * list T) (i : item T) : Z * list T :=
  match i with
  | Element t => if last_ms (assign t) <=? a.1 then a else (a.1, a.2 ++ [t])
  | Watermark w => (Z.max a.1 w, a.2)
  end.
Definition arrived (s : list (item T)) : Z * list T := fold_left arrive s (MinWatermark, []).
Definition watermark (s : list (item T)) : Z := (arrived s).1.
Definition on_time (s : list (item T)) : list T := (arrived s).2.
Definition pane (k : string * Z) (s : list (item T)) : list T := filter (fun t => assign t = k) (on_time s).
End panes.

(** The results of a window operator, in the order in which windows fire. *)
Class EventTimeWindows := {
  fire : forall {T A}, (T -> string * Z) -> Z -> A -> (A -> T -> A) -> list (item T) -> list ((string * Z) * A);
}.

Class LawfulWindows (W : EventTimeWindows) : Prop := {
  fires_once : forall {T A} assign size_ms (create : A) add (s : list (item T)),
    NoDup (map fst (fire assign size_ms create add s));
  fires_panes : forall {T A} assign size_ms (create : A) add (s : list (item T)) k a,
    (k, a) ∈ fire assign size_ms create add s <->
    last_ms size_ms k <= watermark assign size_ms s
    /\ pane assign size_ms k s <> [] /\ a = fold_left add (pane assign size_ms k s) create;
}.

(** ** Watermarks of bounded out-of-orderness *)

Section bounded.
Context {T : Type} (timestamp : T -> Z) (bound : Z).

(** A watermark is at least the bound and a millisecond behind an element that came before
    it; the one after the last element of a bounded source is the end of time. *)
Definition bounded_by (s : list (item T)) : Prop :=
  forall pre w post, s = pre ++ Watermark w :: post ->
    elements post = [] \/ w <= MinWatermark \/ exists t, t ∈ elements pre /\ w <= timestamp t - bound - 1.

(** No element is further than the bound behind one that came before it. *)
Definition delayed_by (l : list T) : Prop :=
  forall pre t post, l = pre ++ t :: post -> forall x, x ∈ pre -> timestamp x <= timestamp t + bound.

(** The generator: [None] is a periodic emission, which follows the largest timestamp. *)
Fixpoint emitted_from (largest : option Z) (l : list (option T)) : list (item T) :=
  match l with
  | [] => []
  | Some t :: l' =>
      Element t :: emitted_from (Some (match largest with Some m => Z.max m (timestamp t) | None => timestamp t end)) l'
  | None :: l' =>
      Watermark (match largest with Some m => m - bound - 1 | None => MinWatermark end) :: emitted_from largest l'
  end.
Definition emitted (l : list (option T)) : list (item T) := emitted_from None l.
End bounded.

(** A bounded source ends with the last watermark. *)
Definition ended {T} (s : list (item T)) : list (item T) := s ++ [Watermark MaxInt64].

(** ** An operator *)

Record pane_state (A : Type) := mkPanes {
  ps_watermark : Z; ps_panes : gmap (string * Z) A; ps_fired : list ((string * Z) * A) }.
Arguments mkPanes {A} _ _ _.
Arguments ps_watermark {A} _.
Arguments ps_panes {A} _.
Arguments ps_fired {A} _.

Section operator.
Context {T A : Type} (assign : T -> string * Z) (size_ms : Z) (create : A) (add : A -> T -> A).

Definition pane_step (o : pane_state A) (i : item T) : pane_state A :=
  match i with
  | Element t =>
      if last_ms size_ms (assign t) <=? ps_watermark o then o
      else mkPanes (ps_watermark o)
             (<[assign t := add (default create (ps_panes o !! assign t)) t]> (ps_panes o)) (ps_fired o)
  | Watermark w =>
      if w <=? ps_watermark o then o
      else mkPanes w (filter (fun kv => ~ last_ms size_ms kv.1 <= w) (ps_panes o))
             (ps_fired o ++ map_to_list (filter (fun kv => last_ms size_ms kv.1 <= w) (ps_panes o)))
  end.
Definition pane_run (s : list (item T)) : pane_state A := fold_left pane_step s (mkPanes MinWatermark ∅ []).
End operator.

#[export] Instance pane_operator : EventTimeWindows := {|
  fire T A assign size_ms create add s := ps_fired (pane_run assign size_ms create add s) |}.

(** ** Lemmas: items *)

Lemma elements_app {T} (s s' : list (item T)) : elements (s ++ s') = elements s ++ elements s'.
Proof. apply omap_app. Qed.

Lemma through_app {T U} (f : T -> option U) s s' : through f (s ++ s') = through f s ++ through f s'.
Proof. apply omap_app. Qed.

Lemma elements_through {T U} (f : T -> option U) s : elements (through f s) = omap f (elements s).
Proof.
  induction s as [|i s IH]; [done|]. change (i :: s) with ([i] ++ s).
  rewrite through_app, !elements_app, omap_app, IH. f_equal. destruct i as [t|w]; [|done]. cbn. by destruct (f t).
Qed.

Section lemmas.
Context {T : Type} (assign : T -> string * Z) (size_ms : Z).
Implicit Types (s : list (item T)).

Lemma arrived_snoc s i : arrived assign size_ms (s ++ [i]) = arrive assign size_ms (arrived assign size_ms s) i.
Proof. unfold arrived. by rewrite fold_left_app. Qed.

Lemma watermark_snoc s i : watermark assign size_ms (s ++ [i]) =
  match i with Element _ => watermark assign size_ms s | Watermark w => Z.max (watermark assign size_ms s) w end.
Proof. unfold watermark. rewrite arrived_snoc. destruct i as [t|w]; [|done]. cbn. by destruct (_ <=? _). Qed.

Lemma on_time_snoc s i : on_time assign size_ms (s ++ [i]) =
  match i with
  | Element t =>
      if last_ms size_ms (assign t) <=? watermark assign size_ms s then on_time assign size_ms s
      else on_time assign size_ms s ++ [t]
  | Watermark _ => on_time assign size_ms s
  end.
Proof. unfold on_time, watermark. rewrite arrived_snoc. destruct i as [t|w]; [|done]. cbn. by destruct (_ <=? _). Qed.

Lemma pane_snoc k s t : ~ last_ms size_ms (assign t) <= watermark assign size_ms s ->
  pane assign size_ms k (s ++ [Element t]) = pane assign size_ms k s ++ (if decide (assign t = k) then [t] else []).
Proof.
  intros Hw. unfold pane. rewrite on_time_snoc. destruct (Z.leb_spec (last_ms size_ms (assign t)) (watermark assign size_ms s)); [lia|].
  rewrite filter_app, filter_cons. by destruct (decide _).
Qed.

Lemma pane_late k s t : last_ms size_ms (assign t) <= watermark assign size_ms s ->
  pane assign size_ms k (s ++ [Element t]) = pane assign size_ms k s.
Proof. intros Hw. unfold pane. rewrite on_time_snoc. by rewrite (proj2 (Z.leb_le _ _) Hw). Qed.

Lemma pane_watermark k s w : pane assign size_ms k (s ++ [Watermark w]) = pane assign size_ms k s.
Proof. unfold pane. by rewrite on_time_snoc. Qed.

(** The watermark is one of those that arrived. *)
Lemma watermark_in s : watermark assign size_ms s = MinWatermark \/ Watermark (watermark assign size_ms s) ∈ s.
Proof.
  induction s as [|i s IH] using rev_ind; [by left|]. rewrite watermark_snoc.
  assert (forall x, Watermark x ∈ s -> Watermark x ∈ s ++ [i]) as Hin by (intros x Hx; apply elem_of_app; by left).
  destruct i as [t|w]; [destruct IH; auto|]. destruct (Z.max_spec (watermark assign size_ms s) w) as [[_ ->]|[_ ->]].
  - right. apply elem_of_app. right. by apply list_elem_of_singleton.
  - destruct IH; auto.
Qed.
End lemmas.

(** ** Lemmas: the operator *)

Section operator_lemmas.
Context {T A : Type} (assign : T -> string * Z) (size_ms : Z) (create : A) (add : A -> T -> A).

Definition folded (k : string * Z) (s : list (item T)) : A := fold_left add (pane assign size_ms k s) create.

Record panes_of (s : list (item T)) (o : pane_state A) : Prop := {
  of_watermark : ps_watermark o = watermark assign size_ms s;
  of_panes : forall k a, ps_panes o !! k = Some a <->
    ~ last_ms size_ms k <= ps_watermark o /\ pane assign size_ms k s <> [] /\ a = folded k s;
  of_once : NoDup (map fst (ps_fired o));
  of_fired : forall k a, (k, a) ∈ ps_fired o <->
    last_ms size_ms k <= ps_watermark o /\ pane assign size_ms k s <> [] /\ a = folded k s }.

Lemma panes_of_element s o t : panes_of s o -> panes_of (s ++ [Element t]) (pane_step assign size_ms create add o (Element t)).
Proof.
  intros [Hw Hp Ho Hf]. cbn [pane_step]. destruct (Z.leb_spec (last_ms size_ms (assign t)) (ps_watermark o)) as [Hl|Hl].
  - rewrite Hw in Hl. split; unfold folded; [by rewrite watermark_snoc| |done|]; intros; rewrite pane_late by done; auto.
  - assert (~ last_ms size_ms (assign t) <= watermark assign size_ms s) as Hn by lia.
    split; cbn [ps_watermark ps_panes ps_fired]; unfold folded; [by rewrite watermark_snoc| |done|]; intros k a; rewrite pane_snoc by done.
    + destruct (decide (assign t = k)) as [<-|Hk]; [|rewrite lookup_insert_ne, app_nil_r by done; apply Hp].
      rewrite lookup_insert_eq, fold_left_app. cbn [fold_left].
      assert (default create (ps_panes o !! assign t) = fold_left add (pane assign size_ms (assign t) s) create) as ->.
      { destruct (ps_panes o !! assign t) as [a'|] eqn:E; [by apply Hp in E as (_ & _ & ->)|].
        destruct (pane assign size_ms (assign t) s) as [|x l] eqn:El; [done|].
        assert (ps_panes o !! assign t = Some (folded (assign t) s)) as E' by (apply Hp; rewrite El; split; [lia|done]).
        by rewrite E in E'. }
      split; [intros [= <-]; split; [lia|]; split; [by destruct (pane assign size_ms (assign t) s)|done]|by intros (_ & _ & ->)].
    + destruct (decide (assign t = k)) as [<-|Hk]; [|rewrite app_nil_r; apply Hf].
      split; [intros H%Hf; lia|intros [? _]; lia].
Qed.

Lemma panes_of_watermark s o w : panes_of s o -> panes_of (s ++ [Watermark w]) (pane_step assign size_ms create add o (Watermark w)).
Proof.
  intros [Hw Hp Ho Hf]. cbn [pane_step]. destruct (Z.leb_spec w (ps_watermark o)) as [Hl|Hl].
  - split; unfold folded; [rewrite watermark_snoc; lia| |done|]; intros; rewrite pane_watermark; auto.
  - split; cbn [ps_watermark ps_panes ps_fired]; unfold folded.
    + rewrite watermark_snoc. lia.
    + intros k a. rewrite pane_watermark, map_lookup_filter_Some, Hp. cbn [fst]. split; [tauto|].
      intros (Hk & Hl'). split; [|done]. split; [lia|done].
    + rewrite map_app. apply NoDup_app. split; [done|]. split; [|apply NoDup_fst_map_to_list].
      intros k ([k' a] & -> & Hka)%list_elem_of_fmap ([k'' a'] & E & Hka')%list_elem_of_fmap. cbn in E. subst.
      apply elem_of_map_to_list, map_lookup_filter_Some in Hka' as [[Hn _]%Hp _]. apply Hf in Hka. lia.
    + intros k a. rewrite pane_watermark, elem_of_app, elem_of_map_to_list, map_lookup_filter_Some, Hf, Hp. cbn [fst].
      destruct (Z.le_gt_cases (last_ms size_ms k) (ps_watermark o)); intuition lia.
Qed.

Lemma panes_of_run s : panes_of s (pane_run assign size_ms create add s).
Proof.
  induction s as [|i s IH] using rev_ind.
  - split; cbn; [done| |constructor|]; intros k a; [rewrite lookup_empty|rewrite elem_of_nil]; by split; [|intros (_ & ? & _)].
  - unfold pane_run. rewrite fold_left_app. destruct i; [by apply panes_of_element|by apply panes_of_watermark].
Qed.
End operator_lemmas.

#[export] Instance pane_operator_lawful : LawfulWindows pane_operator.
Proof.
  split; intros T A assign size_ms create add s.
  - apply (of_once assign size_ms create add _ _ (panes_of_run assign size_ms create add s)).
  - intros k a. pose proof (panes_of_run assign size_ms create add s) as H. cbn [fire pane_operator].
    rewrite (of_fired _ _ _ _ _ _ H), (of_watermark _ _ _ _ _ _ H). reflexivity.
Qed.

(** ** Lemmas: lateness *)

Section late.
Context {T : Type} (assign : T -> string * Z) (size_ms : Z) (timestamp : T -> Z) (bound : Z).

(** With a bound that holds nothing is late. *)
Lemma nothing_late s :
  (forall t, t ∈ elements s -> timestamp t <= last_ms size_ms (assign t) /\ MinWatermark < timestamp t) ->
  bounded_by timestamp bound s -> delayed_by timestamp bound (elements s) ->
  on_time assign size_ms s = elements s.
Proof.
  induction s as [|i s IH] using rev_ind; [done|]. rewrite elements_app. intros Hts Hb Hd.
  assert (forall pre w post, s = pre ++ Watermark w :: post ->
    (elements post = [] /\ elements [i] = []) \/ w <= MinWatermark \/ exists t, t ∈ elements pre /\ w <= timestamp t - bound - 1) as Hb'.
  { intros pre w post ->. specialize (Hb pre w (post ++ [i])). rewrite <- app_assoc in Hb. specialize (Hb eq_refl).
    rewrite elements_app in Hb. destruct Hb as [Hb|Hb]; [left; by apply app_eq_nil in Hb|by right]. }
  assert (on_time assign size_ms s = elements s) as E.
  { apply IH.
    - intros t Ht. apply Hts, elem_of_app. by left.
    - intros pre w post Es. destruct (Hb' pre w post Es) as [[? _]|?]; auto.
    - intros pre t post El. apply (Hd pre t (post ++ elements [i])). by rewrite El, <- app_assoc. }
  rewrite on_time_snoc, E. destruct i as [t|w]; [|symmetry; apply app_nil_r].
  destruct (Z.leb_spec (last_ms size_ms (assign t)) (watermark assign size_ms s)) as [Hl|Hl]; [|done]. exfalso.
  destruct (Hts t) as [Ht Hmin]; [apply elem_of_app; right; apply list_elem_of_here|].
  destruct (watermark_in assign size_ms s) as [Hw|Hw]; [lia|].
  apply list_elem_of_split in Hw as (pre & post & Es). destruct (Hb' _ _ _ Es) as [[_ Hi]|[Hw|(x & Hx & Hw)]]; [done|lia|].
  assert (timestamp x <= timestamp t + bound); [|lia].
  apply (Hd (elements s) t []); [done|]. rewrite Es, elements_app. apply elem_of_app. by left.
Qed.

(** Timestamps within the bound of each other are delayed by no more. *)
Lemma delayed_within lo l : (forall t, t ∈ l -> lo <= timestamp t <= lo + bound) -> delayed_by timestamp bound l.
Proof.
  intros Hl pre t post -> x Hx. pose proof (Hl x ltac:(apply elem_of_app; by left)).
  pose proof (Hl t ltac:(apply elem_of_app; right; apply list_elem_of_here)). lia.
Qed.

(** The generator keeps its promise, also for a source that ends. *)
Lemma emitted_from_inv (l : list (option T)) : forall (largest : option Z) pre w post,
  emitted_from timestamp bound largest l = pre ++ Watermark w :: post ->
  w <= MinWatermark \/ (exists t, t ∈ elements pre /\ w <= timestamp t - bound - 1)
  \/ exists m, largest = Some m /\ w <= m - bound - 1.
Proof.
  induction l as [|[t|] l IH]; intros largest pre w post E; cbn [emitted_from] in E.
  - by destruct pre.
  - destruct pre as [|i pre]; [done|]. injection E as <- E. apply IH in E as [H|[(x & Hx & Hw)|(m & [= <-] & Hw)]]; [by left| |].
    + right; left. exists x. split; [|done]. change (x ∈ t :: elements pre). apply elem_of_cons. by right.
    + destruct largest as [m|]; [|right; left; exists t; split; [apply list_elem_of_here|done]].
      destruct (Z.max_spec m (timestamp t)) as [[_ Em]|[_ Em]]; rewrite Em in Hw.
      * right; left. exists t. split; [apply list_elem_of_here|done].
      * right; right. by exists m.
  - destruct pre as [|i pre].
    + injection E as <- _. destruct largest as [m|]; [right; right; exists m; split; [done|lia]|left; lia].
    + injection E as <- E. by apply IH in E.
Qed.

Lemma emitted_bounded l : bounded_by timestamp bound (emitted timestamp bound l).
Proof.
  intros pre w post E. apply emitted_from_inv in E as [H|[H|(m & H & _)]]; [right; by left|right; by right|discriminate].
Qed.

Lemma ended_bounded s : bounded_by timestamp bound s -> bounded_by timestamp bound (ended s).
Proof.
  intros Hb pre w post E. unfold ended in E. destruct post as [|i post] using rev_ind; [by left|]. clear IHpost.
  rewrite app_comm_cons, app_assoc in E. apply app_inj_tail in E as [E <-].
  destruct (Hb pre w post E) as [Hp|H]; [left|by right]. by rewrite elements_app, Hp.
Qed.

(** A check of the delays. *)
Fixpoint delays_ok (l : list T) : bool :=
  match l with
  | [] => true
  | x :: l' => forallb (fun t => timestamp x <=? timestamp t + bound) l' && delays_ok l'
  end.
Lemma delays_ok_spec l : delays_ok l = true -> delayed_by timestamp bound l.
Proof.
  induction l as [|x l IH]; intros H pre t post E y Hy; [by destruct pre|].
  cbn in H. apply andb_true_iff in H as [Hx Hl]. rewrite forallb_forall in Hx.
  destruct pre as [|p pre]; [by apply elem_of_nil in Hy|]. injection E as <- ->.
  apply elem_of_cons in Hy as [->|Hy]; [|by apply (IH Hl pre t post)].
  apply Z.leb_le, Hx, in_or_app. right. by left.
Qed.

(** Once the watermark has passed a window no later element is in it. *)
Lemma closed_pane s s' k w : last_ms size_ms k <= w ->
  pane assign size_ms k (s ++ Watermark w :: s') = pane assign size_ms k s.
Proof.
  intros Hk. induction s' as [|i s' IH] using rev_ind; [apply pane_watermark|].
  rewrite app_comm_cons, app_assoc. destruct i as [t|w']; [|by rewrite pane_watermark].
  destruct (decide (last_ms size_ms (assign t) <= watermark assign size_ms (s ++ Watermark w :: s'))) as [Hl|Hl];
    [by rewrite pane_late|]. rewrite pane_snoc, IH by done.
  assert (w <= watermark assign size_ms (s ++ Watermark w :: s')) as Hw.
  { clear. induction s' as [|j s' IH] using rev_ind; [rewrite watermark_snoc; lia|].
    rewrite app_comm_cons, app_assoc, watermark_snoc. destruct j; lia. }
  destruct (decide (assign t = k)) as [<-|_]; [lia|apply app_nil_r].
Qed.

(** Every watermark of an ended source has arrived. *)
Lemma ended_watermark s k : last_ms size_ms k <= MaxInt64 -> last_ms size_ms k <= watermark assign size_ms (ended s).
Proof. intros Hk. unfold ended. rewrite watermark_snoc. lia. Qed.
End late.
