(* ===== verification/Jobs.v ===== *)
(** * Stream tier: the jobs

    src/stream/src/main/scala/io/tapeline/stream/jobs: TradesJob.scala, LakehouseJob.scala,
    BackfillJob.scala, DivergenceJob.scala and MonolithicJob.scala (BookJob.scala is
    [book_job] of EndToEnd.v). A job is a function of what its source yields and of the
    watermarks between, over the operators of the other files and the window operator of
    EventTime.v; its result is what reaches the sink. *)

From S2P Require Import Prelude.
From S2P Require Import GoStrings.
From S2P Require Import GoStrconv.
From S2P Require Import Model.
From S2P Require Import TreeMap.
From S2P Require Import OrderBook.
From S2P Require Import BookFunction.
From S2P Require Import Aggregates.
From S2P Require Import Divergence.
From S2P Require Import Codec.
From S2P Require Import StreamConfig.
From S2P Require Import Lakehouse.
From S2P Require Import Quotes.
From S2P Require Import EndToEnd.
From S2P Require Import EventTime.

Local Open Scope Z_scope.

Section jobs.
Context {W : EventTimeWindows} (toString : datum -> string).

(** ** Trades to bars *)

(** [ValidTradeFilter] on a stream. *)
Definition drop_invalid : list (item Trade) -> list (item Trade) :=
  through (fun t => if valid_trade t then Some t else None).

(** [TradesJob.decode]. The watermarks are those of the strategy at its end. *)
Definition to_trade (i : item GenericRecord) : res (item Trade) :=
  match i with Element r => Element <$> toTrade toString r | Watermark w => Ok (Watermark w) end.
Definition decode (source : list (item GenericRecord)) : res (list (item Trade)) :=
  drop_invalid <$> map_res to_trade source.

(** [TradesJob.aggregate], [TradesJob.build]. *)
Definition aggregate (windowSeconds : Z) (trades : list (item Trade)) : list WindowBar :=
  omap (fun ka => process windowSeconds ka.1.1 ka.1.2 ka.2)
    (fire (window_of windowSeconds) (window_size windowSeconds) empty add trades).
Definition trades_job (cfg : StreamConfig) (source : list (item GenericRecord)) : res (list WindowBar) :=
  aggregate (windowSeconds cfg) <$> decode source.

(** ** The lakehouse *)

(** [LakehouseJob.run]: the rows it inserts. *)
Definition lakehouse_job (source : list (item GenericRecord)) : res (list Row) :=
  (fun trades => map row_of_trade (elements trades)) <$> decode source.

(** ** The backfill *)

Definition ReplayOutOfOrdernessMs : Z := 24 * 60 * 60 * 1000.

(** The query, row by row. *)
Definition backfill_query (start end_ : Z) (r : Row) : option Row :=
  if (start <=? row_lng r "event_time_us") && (row_lng r "event_time_us" <? end_)
  then Some (List.filter (fun c => negb (String.eqb c.1 "event_time")) r) else None.

(** The trades in front of the operators that [BackfillJob.build] shares with the live job. *)
Definition replayed (cfg : StreamConfig) (scan : list (item Row)) : list (item Trade) :=
  drop_invalid (through (fun r => Some (trade_of_row r))
    (through (backfill_query (backfillStartUs cfg) (backfillEndUs cfg)) scan)).
Definition backfill_build (cfg : StreamConfig) (scan : list (item Row)) : list WindowBar :=
  aggregate (windowSeconds cfg) (replayed cfg scan).
Definition backfill_job (cfg : StreamConfig) (scan : list (item Row)) : res (list WindowBar) :=
  _ ← require (isBackfill cfg) "backfill needs TAPELINE_BACKFILL_START_US and TAPELINE_BACKFILL_END_US";
  Ok (backfill_build cfg scan).

(** ** Alerts *)

(** [DivergenceJob.build]: quotes read from their topic. *)
Definition divergence_job (cfg : StreamConfig) (source : list GenericRecord) : res (list DivergenceEvent) :=
  quotes ← map_res (record_quote toString) source;
  '(_, events) ← div_run (divergence cfg) quotes; Ok events.

(** [MonolithicJob.run]: quotes, bars and the alerts of the quotes in memory. *)
Definition monolithic_job (cfg : StreamConfig) (book : list feed_item) (trades : list (item GenericRecord))
    : res (list Quote * list WindowBar * list DivergenceEvent) :=
  '(_, quotes) ← book_job toString (bookMaxDepth cfg) (imbalanceDepth cfg) (quoteEmitIntervalMs cfg) book;
  bars ← trades_job cfg trades;
  '(_, events) ← div_run (divergence cfg) (map snd quotes);
  Ok (map snd quotes, bars, events).
End jobs.

(** ** The trades the Go tier publishes *)

Definition trade_of_go (g : Model.Trade) : Trade :=
  mkTrade (tr_Venue g) (tr_Symbol g) (tr_TradeID g) (tr_Price g) (tr_Size g) (tr_Side g)
    (tr_EventTimeUS g) (tr_IngestTimeUS g) (tr_Sequence g).
Definition go_records : list (item Model.Trade) -> list (item GenericRecord) :=
  through (fun g => payload_record (PTrade (Some g))).
Definition go_trades (s : list (item Model.Trade)) : list (item Trade) :=
  drop_invalid (through (fun g => Some (trade_of_go g)) s).

(** ** Lemmas *)

Lemma toTrade_go toString g r : payload_record (PTrade (Some g)) = Some r -> toTrade toString r = Ok (trade_of_go g).
Proof. intros [= <-]. reflexivity. Qed.

Lemma decode_go toString (s : list (item Model.Trade)) : decode toString (go_records s) = Ok (go_trades s).
Proof.
  unfold decode, go_trades, go_records. assert (map_res (to_trade toString) (through (fun g => payload_record (PTrade (Some g))) s)
    = Ok (through (fun g => Some (trade_of_go g)) s)) as ->; [|done].
  induction s as [|i s IH]; [done|]. change (i :: s) with ([i] ++ s). rewrite !through_app, map_res_app, IH. by destruct i.
Qed.

Lemma elements_go (s : list (item Model.Trade)) :
  elements (go_trades s) = List.filter valid_trade (map trade_of_go (elements s)).
Proof.
  unfold go_trades, drop_invalid. rewrite !elements_through. induction (elements s) as [|g l IH]; [done|].
  cbn. destruct (valid_trade (trade_of_go g)); by rewrite <- IH.
Qed.

Lemma omap_filter_map {A B} (f : A -> option B) (p : A -> Datatypes.bool) (g : A -> B) l :
  (forall x, f x = if p x then Some (g x) else None) -> omap f l = map g (List.filter p l).
Proof. intros Hf. induction l as [|x l IH]; [done|]. cbn. rewrite Hf. destruct (p x); cbn; by rewrite <- IH. Qed.

Lemma elements_replayed cfg scan : elements (replayed cfg scan) =
  List.filter valid_trade (backfill_trades (backfillStartUs cfg) (backfillEndUs cfg) (elements scan)).
Proof.
  unfold replayed, drop_invalid. rewrite !elements_through. unfold backfill_trades, selected.
  rewrite (omap_filter_map (backfill_query _ _) _ _ (elements scan) (fun r => eq_refl)).
  rewrite (omap_filter_map _ (fun _ => true) trade_of_row _ (fun r => eq_refl)).
  rewrite (omap_filter_map _ valid_trade id _ (fun r => eq_refl)), map_id. f_equal. f_equal.
  generalize (map (List.filter (fun c : string * cell => negb (String.eqb c.1 "event_time")))
    (List.filter (fun r => (backfillStartUs cfg <=? row_lng r "event_time_us")
       && (row_lng r "event_time_us" <? backfillEndUs cfg)) (elements scan))) as l.
  induction l as [|x l IH]; [done|]. cbn [List.filter]. by rewrite IH.
Qed.

(** Filtering invalid trades changes no window. *)
Lemma in_window_valid ws k ts : in_window ws k (List.filter valid_trade ts) = in_window ws k ts.
Proof.
  unfold in_window. induction ts as [|t ts IH]; [done|]. cbn [List.filter]. rewrite (filter_cons _ t ts).
  destruct (valid_trade t) eqn:Hv; [|by rewrite decide_False by (by intros [? _])].
  by rewrite filter_cons, Hv, IH.
Qed.

Lemma bars_valid ws ts : bars ws (List.filter valid_trade ts) = bars ws ts.
Proof.
  unfold bars. f_equal. apply map_eq. intros k. by rewrite !accumulate_lookup, in_window_valid.
Qed.

Lemma filter_ext_in {A} (P Q : A -> Prop) `{!forall x, Decision (P x), !forall x, Decision (Q x)} (l : list A) :
  (forall x, x ∈ l -> P x <-> Q x) -> filter P l = filter Q l.
Proof.
  induction l as [|x l IH]; intros Hpq; [done|]. rewrite !filter_cons, IH by (intros y Hy; apply Hpq, elem_of_cons; by right).
  pose proof (Hpq x (list_elem_of_here _ _)). destruct (decide (P x)), (decide (Q x)); tauto.
Qed.

Lemma omap_sublist_fst {K A B} (f : K -> A -> option B) (l : list (K * A)) :
  NoDup (map fst l) -> NoDup (map fst (omap (fun ka => pair ka.1 <$> f ka.1 ka.2) l)).
Proof.
  induction l as [|[k a] l IH]; [done|]. cbn. intros [Hk Hl]%NoDup_cons. destruct (f k a) as [b0|]; cbn; [|by apply IH].
  apply NoDup_cons. split; [|by apply IH]. intros ([k' b] & E & ([k'' a'] & Hin & Hf)%list_elem_of_omap)%list_elem_of_fmap.
  cbn in E, Hf. destruct (f k'' a'); [|done]. injection Hf as <- _. apply Hk. rewrite E. apply list_elem_of_fmap. by exists (k'', a').
Qed.

Section exact.
Context {W : EventTimeWindows} `{!LawfulWindows W} (ws : Z).

(** When nothing was late the job has emitted exactly the bars of the windows the watermark
    has passed, each of them once. *)
Lemma aggregate_bars (s : list (item Trade)) :
  (forall t, t ∈ elements s -> valid_trade t = true) ->
  on_time (window_of ws) (window_size ws) s = elements s ->
  aggregate ws s ≡ₚ map snd (map_to_list
    (filter (fun kb => last_ms (window_size ws) kb.1 <= watermark (window_of ws) (window_size ws) s) (bars ws (elements s)))).
Proof.
  intros Hv Ho. unfold aggregate. set (fs := fire _ _ _ _ _).
  set (l := omap (fun ka => pair ka.1 <$> process ws ka.1.1 ka.1.2 ka.2) fs).
  assert (omap (fun ka => process ws ka.1.1 ka.1.2 ka.2) fs = map snd l) as ->.
  { unfold l. clear. induction fs as [|ka fs IH]; [done|]. cbn. rewrite IH. by destruct (process _ _ _ _). }
  apply Permutation_map. assert (NoDup (map fst l)) as Hn.
  { unfold l. apply (omap_sublist_fst (fun k a => process ws k.1 k.2 a)). apply fires_once. }
  apply NoDup_Permutation; [by apply NoDup_fmap_1 in Hn|apply NoDup_map_to_list|].
  intros [k b]. rewrite elem_of_map_to_list, map_lookup_filter_Some. unfold bars. rewrite map_lookup_imap, accumulate_lookup. cbn [fst].
  assert (pane (window_of ws) (window_size ws) k s = in_window ws k (elements s)) as Hp.
  { unfold pane, in_window. rewrite Ho. apply filter_ext_in. intros t Ht. specialize (Hv t Ht). tauto. }
  unfold l. rewrite list_elem_of_omap. split.
  - intros ([k' a] & Hin & E). cbn in E. destruct (process _ _ _ _) as [b'|] eqn:Eb; [|done]. injection E as <- <-.
    apply fires_panes in Hin as (Hl & Hne & ->). rewrite Hp in Hne, Eb. split; [|done].
    destruct (in_window ws k' (elements s)); [done|]. exact Eb.
  - intros [Hb Hl]. destruct (in_window ws k (elements s)) as [|x y] eqn:E; [done|]. cbn [mbind option_bind] in Hb.
    exists (k, fold (x :: y)). cbn [fst snd]. rewrite Hb. split; [|done]. apply fires_panes. rewrite Hp. done.
Qed.
End exact.

(** ** Lemmas: the jobs *)

Lemma window_last ws t : 0 < ws -> valid_trade t = true ->
  timestamp_ms t <= last_ms (window_size ws) (window_of ws t) < timestamp_ms t + window_size ws
  /\ 0 <= timestamp_ms t.
Proof.
  intros Hs Hv. unfold valid_trade in Hv. rewrite !andb_true_iff, Z.ltb_lt in Hv. destruct Hv as [[[Hpos _] _] _].
  unfold last_ms, window_of, window_start, window_size, timestamp_ms. cbn [snd]. rewrite Z.quot_div_nonneg by lia.
  pose proof (Z.mod_pos_bound (t_eventTimeUs t / 1000) (ws * 1000) ltac:(lia)).
  assert (0 <= t_eventTimeUs t / 1000) by (apply Z.div_pos; lia). lia.
Qed.

Lemma trades_on_time ws bound (s : list (item Trade)) : 0 < ws ->
  (forall t, t ∈ elements s -> valid_trade t = true) ->
  bounded_by timestamp_ms bound s -> delayed_by timestamp_ms bound (elements s) ->
  on_time (window_of ws) (window_size ws) s = elements s.
Proof.
  intros Hs Hv Hb Hd. apply (nothing_late _ _ timestamp_ms bound); [|done|done].
  intros t Ht. pose proof (window_last ws t Hs (Hv t Ht)). unfold MinWatermark, two63. lia.
Qed.

Lemma valid_go (s : list (item Model.Trade)) t : t ∈ elements (go_trades s) -> valid_trade t = true.
Proof. rewrite elements_go, list_elem_of_In. by intros [_ H]%filter_In. Qed.

(** The time of a replayed trade is in the range. *)
Lemma getField_projected (r : Row) name : name <> "event_time" ->
  getField (List.filter (fun c => negb (String.eqb c.1 "event_time")) r) name = getField r name.
Proof.
  intros Hn. unfold getField. induction r as [|[n c] r IH]; [done|]. cbn [List.filter List.find fst].
  destruct (String.eqb n "event_time") eqn:E; cbn [negb List.find fst].
  - apply String.eqb_eq in E as ->. rewrite (proj2 (String.eqb_neq _ _)) by congruence. exact IH.
  - destruct (String.eqb n name); [done|]. exact IH.
Qed.

Lemma replayed_range cfg scan t : t ∈ elements (replayed cfg scan) ->
  valid_trade t = true /\ backfillStartUs cfg <= t_eventTimeUs t < backfillEndUs cfg.
Proof.
  rewrite elements_replayed, list_elem_of_In. intros [Ht Hv]%filter_In. split; [done|].
  unfold backfill_trades, selected in Ht. rewrite map_map in Ht. apply in_map_iff in Ht as (r & <- & [_ Hr]%filter_In).
  cbn [trade_of_row t_eventTimeUs]. unfold row_lng at 1 2. rewrite getField_projected by done. fold (row_lng r "event_time_us"). lia.
Qed.

Lemma replayed_ended cfg scan : replayed cfg (ended scan) = ended (replayed cfg scan).
Proof. unfold replayed, drop_invalid, ended. by rewrite !through_app. Qed.
Lemma elements_ended {T} (s : list (item T)) : elements (ended s) = elements s.
Proof. unfold ended. rewrite elements_app. apply app_nil_r. Qed.

(** ** Properties *)

(** The live job. If no trade is further than the configured bound behind one that came
    before it, the job has emitted exactly the bars of the windows its watermark has passed,
    each of them once: those of the trades the Go tier published, late or not. *)
Theorem live_bars_exact {W : EventTimeWindows} `{!LawfulWindows W} toString cfg (source : list (item Model.Trade)) :
  let ws := windowSeconds cfg in
  0 < ws ->
  bounded_by timestamp_ms (maxOutOfOrdernessMs cfg) (go_trades source) ->
  delayed_by timestamp_ms (maxOutOfOrdernessMs cfg) (elements (go_trades source)) ->
  exists live, trades_job toString cfg (go_records source) = Ok live
    /\ live ≡ₚ map snd (map_to_list
         (filter (fun kb => last_ms (window_size ws) kb.1 <= watermark (window_of ws) (window_size ws) (go_trades source))
            (bars ws (map trade_of_go (elements source))))).
Proof.
  cbn zeta. intros Hs Hb Hd. unfold trades_job. rewrite decode_go. eexists. split; [done|].
  rewrite aggregate_bars, elements_go, bars_valid; [done|apply valid_go|].
  apply (trades_on_time _ (maxOutOfOrdernessMs cfg)); [done|apply valid_go|done|done].
Qed.

(** A backfill of at most a day is complete: whatever the rows and the order in which they
    are scanned, it emits the bars of all the trades in its range, each of them once. *)
Theorem day_backfill_complete {W : EventTimeWindows} `{!LawfulWindows W} cfg (scan : list (item Row)) :
  let ws := windowSeconds cfg in
  0 < ws < two31 -> isBackfill cfg = true -> backfillEndUs cfg < two63 ->
  backfillEndUs cfg - backfillStartUs cfg <= 86400000000 ->
  bounded_by timestamp_ms ReplayOutOfOrdernessMs (replayed cfg (ended scan)) ->
  exists out, backfill_job cfg (ended scan) = Ok out
    /\ out ≡ₚ map snd (map_to_list (backfill_bars ws (backfillStartUs cfg) (backfillEndUs cfg) (elements scan))).
Proof.
  cbn zeta. intros Hs Hrange He Hday Hb. unfold backfill_job. rewrite Hrange. eexists. split; [done|].
  unfold isBackfill in Hrange. unfold backfill_build. rewrite replayed_ended in *.
  assert (forall t, t ∈ elements (ended (replayed cfg scan)) ->
    valid_trade t = true /\ backfillStartUs cfg <= t_eventTimeUs t < backfillEndUs cfg) as Ht
    by (intros t; rewrite elements_ended; apply replayed_range).
  rewrite aggregate_bars; [|intros t ?; by apply Ht|].
  - rewrite elements_ended, elements_replayed, bars_valid. unfold backfill_bars. rewrite map_filter_id; [done|].
    intros k b Hk. apply ended_watermark. unfold bars in Hk. rewrite map_lookup_imap, accumulate_lookup in Hk.
    destruct (in_window _ k _) as [|t l] eqn:E; [done|]. assert (t ∈ in_window (windowSeconds cfg) k
      (List.filter valid_trade (backfill_trades (backfillStartUs cfg) (backfillEndUs cfg) (elements scan)))) as Hin
      by (rewrite in_window_valid, E; apply list_elem_of_here).
    apply list_elem_of_filter in Hin as [[Hv <-] Hin]. rewrite <- elements_replayed in Hin. apply replayed_range in Hin as [_ Hin].
    pose proof (window_last _ t (proj1 Hs) Hv) as [[_ Hl] _]. unfold timestamp_ms, window_size in *.
    rewrite Z.quot_div_nonneg in Hl by lia. cbn [fst] in *. unfold MaxInt64, two31, two63 in *.
    Z.to_euclidean_division_equations. lia.
  - apply (trades_on_time _ ReplayOutOfOrdernessMs); [lia|intros t ?; by apply Ht|done|].
    apply (delayed_within _ _ (Z.quot (backfillStartUs cfg) 1000)). intros t [_ Hr]%Ht. unfold timestamp_ms.
    rewrite !Z.quot_div_nonneg by lia. unfold ReplayOutOfOrdernessMs in *. Z.to_euclidean_division_equations. lia.
Qed.

(** C21. The Kappa loop closes. Take the trades the Go tier published as the live job reads
    them and, in any other order, as the lakehouse job reads them, and a backfill of at most
    a day that scans the lakehouse's rows in any order. If no trade came to the live job
    later than its bound, then the live job has emitted exactly the bars of the windows its
    watermark has passed and the backfill those of all trades in its range, each once; and
    for every window inside the range both are over the same trades, and the bars agree in
    venue, symbol, bounds, open, high, low, close and count, if no two trades of the window
    have one event time and two prices. Volume and VWAP are not among the fields that
    agree: each job's are the sums of the same sizes and notionals in the order in which it
    read them, so they may differ by rounding ([Aggregates.sum_order_visible]). *)
Theorem kappa_loop {W : EventTimeWindows} `{!LawfulWindows W} toString cfg (source archived : list (item Model.Trade))
    (table : list Row) (scan : list (item Row)) :
  let ws := windowSeconds cfg in
  let published := map trade_of_go (elements source) in
  let replay := backfill_trades (backfillStartUs cfg) (backfillEndUs cfg) (elements scan) in
  0 < ws < two31 -> isBackfill cfg = true -> backfillEndUs cfg < two63 ->
  backfillEndUs cfg - backfillStartUs cfg <= 86400000000 ->
  bounded_by timestamp_ms (maxOutOfOrdernessMs cfg) (go_trades source) ->
  delayed_by timestamp_ms (maxOutOfOrdernessMs cfg) (elements (go_trades source)) ->
  elements archived ≡ₚ elements source -> lakehouse_job toString (go_records archived) = Ok table ->
  elements scan ≡ₚ table -> bounded_by timestamp_ms ReplayOutOfOrdernessMs (replayed cfg (ended scan)) ->
  exists live backfilled,
    trades_job toString cfg (go_records source) = Ok live /\ backfill_job cfg (ended scan) = Ok backfilled
    /\ live ≡ₚ map snd (map_to_list
         (filter (fun kb => last_ms (window_size ws) kb.1 <= watermark (window_of ws) (window_size ws) (go_trades source))
            (bars ws published)))
    /\ backfilled ≡ₚ map snd (map_to_list (bars ws replay))
    /\ forall k, backfillStartUs cfg <= k.2 * 1000 -> (k.2 + window_size ws) * 1000 <= backfillEndUs cfg ->
         unambiguous (in_window ws k published) ->
         match bars ws published !! k, bars ws replay !! k with
         | Some b, Some b' =>
             same_bar b b' /\ w_tradeCount b = Z.of_nat (length (in_window ws k published))
             /\ in_window ws k replay ≡ₚ in_window ws k published
             /\ sums_of (in_window ws k published) b /\ sums_of (in_window ws k replay) b'
         | None, None => in_window ws k published = []
         | _, _ => False
         end.
Proof.
  cbn zeta. intros Hs Hr He Hday Hb Hd Harch Htable Hscan Hbr.
  destruct (live_bars_exact toString cfg source (proj1 Hs) Hb Hd) as (live & El & Hlive).
  destruct (day_backfill_complete cfg scan Hs Hr He Hday Hbr) as (out & Eo & Hout).
  exists live, out. do 4 (split; [done|]). intros k Ha Hz Hu.
  unfold lakehouse_job in Htable. rewrite decode_go in Htable. injection Htable as <-.
  rewrite elements_go in Hscan.
  destruct (perm_map_inv row_of_trade trade_of_row _ _ (fun t => ltac:(by destruct t)) Hscan) as (l & El' & Hl).
  assert (in_window (windowSeconds cfg) k (map trade_of_go (elements source))
    ≡ₚ in_window (windowSeconds cfg) k (backfill_trades (backfillStartUs cfg) (backfillEndUs cfg) (elements scan))) as Hk.
  { rewrite El', backfill_trades_of, in_window_range by (done || lia).
    rewrite (in_window_perm _ k l _ Hl), in_window_valid. apply in_window_perm. by rewrite Harch. }
  pose proof (same_window_bars (windowSeconds cfg) _ _ k Hk Hu) as Hbars.
  destruct (bars (windowSeconds cfg) (map _ _) !! k) eqn:Eb, (bars (windowSeconds cfg) (backfill_trades _ _ _) !! k) eqn:Eb'; try done.
  destruct Hbars as (Hsame & Hcount & _). do 2 (split; [done|]). split; [by symmetry|]. split; by apply bars_sums.
Qed.

(** The job split and the job fused raise the same alerts: quotes that pass through their
    topic are the quotes in memory. *)
Theorem split_is_fused {W : EventTimeWindows} toString cfg book trades quotes bars_out events :
  monolithic_job toString cfg book trades = Ok (quotes, bars_out, events) ->
  divergence_job toString cfg (map fromQuote quotes) = Ok events
  /\ trades_job toString cfg trades = Ok bars_out
  /\ exists o, book_job toString (bookMaxDepth cfg) (imbalanceDepth cfg) (quoteEmitIntervalMs cfg) book = Ok o
       /\ quotes = map snd o.2.
Proof.
  unfold monolithic_job, divergence_job. intros ([o outs] & Eo & H)%bind_Ok.
  apply bind_Ok in H as (bs & Eb & H). apply bind_Ok in H as ([d evs] & Ed & [= <- <- <-]).
  assert (map_res (record_quote toString) (map fromQuote (map snd outs)) = Ok (map snd outs)) as ->.
  { clear. induction (map snd outs) as [|q l IH]; [done|]. cbn [map map_res].
    assert (record_quote toString (fromQuote q) = Ok q) as -> by (by destruct q). by rewrite IH. }
  cbn [mbind res_bind]. rewrite Ed. split; [done|]. split; [done|]. by exists (o, outs).
Qed.

(** A trade dated into the future closes windows for everybody: whatever comes after the
    watermark it causes, the windows that watermark has passed stay as they were. *)
Theorem future_trade_closes_windows ws (s s' : list (item Trade)) (future : Trade) bound k :
  let w := timestamp_ms future - bound - 1 in
  last_ms (window_size ws) k <= w ->
  pane (window_of ws) (window_size ws) k (s ++ Element future :: Watermark w :: s')
  = pane (window_of ws) (window_size ws) k (s ++ [Element future]).
Proof. cbn zeta. intros Hk. rewrite (cons_middle _ s), app_assoc. by apply closed_pane. Qed.

(** ** Runs *)

Definition go_trade (symbol : string) (price time_ms : Z) : Model.Trade :=
  Model.mkTrade "coinbase" symbol "1" (f64_of_Z price) (f64_of_Z 1) "BUY" (time_ms * 1000) (time_ms * 1000) 1.
Definition go_timestamp_ms (g : Model.Trade) : Z := timestamp_ms (trade_of_go g).

(** The live job's stream, with its bound of five seconds. *)
Definition sample_source : list (item Model.Trade) :=
  emitted go_timestamp_ms 5000
    [Some (go_trade "BTC-USD" 150 1005); Some (go_trade "BTC-USD" 100 1001); None;
     Some (go_trade "BTC-USD" 200 2500); Some (go_trade "BTC-USD" 175 7200); None].
Definition row_of_go (g : Model.Trade) : Row := row_of_trade (trade_of_go g).
Definition replay_scan (l : list (option Model.Trade)) : list (item Row) :=
  through (fun g => Some (row_of_go g)) (emitted go_timestamp_ms ReplayOutOfOrdernessMs l).
Definition sample_scan : list (item Row) := replay_scan (map Some (rev (elements sample_source))).

Definition bar_times (o : res (list WindowBar)) : list (Z * Z) :=
  match o with Ok l => map (fun b => (w_windowStartUs b, w_tradeCount b)) l | _ => [] end.

Lemma kappa_loop_witness :
  exists live backfilled b b',
    trades_job no_text (sample_cfg 3000000) (go_records sample_source) = Ok live
    /\ backfill_job (sample_cfg 3000000) (ended sample_scan) = Ok backfilled
    /\ bars 1 (map trade_of_go (elements sample_source)) !! ("coinbase|BTC-USD", 1000) = Some b
    /\ bars 1 (backfill_trades 1000000 3000000 (elements sample_scan)) !! ("coinbase|BTC-USD", 1000) = Some b'
    /\ same_bar b b' /\ w_tradeCount b = 2.
Proof.
  assert (unambiguous (in_window 1 ("coinbase|BTC-USD", 1000) (map trade_of_go (elements sample_source)))) as Hu.
  { intros t t' [_ Ht]%list_elem_of_filter [_ Ht']%list_elem_of_filter E. revert Ht Ht' E.
    change (map trade_of_go (elements sample_source)) with (map trade_of_go
      [go_trade "BTC-USD" 150 1005; go_trade "BTC-USD" 100 1001; go_trade "BTC-USD" 200 2500; go_trade "BTC-USD" 175 7200]).
    cbn [map]. rewrite !elem_of_cons, !elem_of_nil.
    intros [->|[->|[->|[->|[]]]]] [->|[->|[->|[->|[]]]]] E;
      match goal with |- ?p = ?p => reflexivity | _ => vm_compute in E; discriminate E end. }
  destruct (kappa_loop no_text (sample_cfg 3000000) sample_source sample_source
    (map row_of_go (elements sample_source)) sample_scan) as (live & back & El & Eb & _ & _ & H).
  - cbn. unfold two31. lia.
  - reflexivity.
  - cbn. unfold two63. lia.
  - cbn. unfold ReplayOutOfOrdernessMs. lia.
  - change (bounded_by timestamp_ms 5000 (emitted timestamp_ms 5000
      (map (fmap trade_of_go) [Some (go_trade "BTC-USD" 150 1005); Some (go_trade "BTC-USD" 100 1001); None;
        Some (go_trade "BTC-USD" 200 2500); Some (go_trade "BTC-USD" 175 7200); None]))). apply emitted_bounded.
  - apply delays_ok_spec. vm_compute. reflexivity.
  - reflexivity.
  - vm_compute. reflexivity.
  - assert (elements sample_scan = rev (map row_of_go (elements sample_source))) as -> by (vm_compute; reflexivity).
    symmetry. apply Permutation_rev.
  - rewrite replayed_ended. apply ended_bounded.
    assert (replayed (sample_cfg 3000000) sample_scan = emitted timestamp_ms ReplayOutOfOrdernessMs
      (map Some (elements (replayed (sample_cfg 3000000) sample_scan)))) as -> by (vm_compute; reflexivity). apply emitted_bounded.
  - specialize (H ("coinbase|BTC-USD", 1000) ltac:(cbn; lia) ltac:(cbn; unfold window_size; lia) Hu).
    assert (length (in_window 1 ("coinbase|BTC-USD", 1000) (map trade_of_go (elements sample_source))) = 2%nat) as Hl
      by (vm_compute; reflexivity).
    change (windowSeconds (sample_cfg 3000000)) with 1 in H.
    change (backfillStartUs (sample_cfg 3000000)) with 1000000 in H. change (backfillEndUs (sample_cfg 3000000)) with 3000000 in H.
    rewrite Hl in H.
    destruct (bars 1 (map _ _) !! _) as [b|]; [|destruct (bars 1 (backfill_trades _ _ _) !! _); [destruct H|rewrite H in Hl; discriminate]].
    destruct (bars 1 (backfill_trades _ _ _) !! _) as [b'|]; [|destruct H]. exists live, back, b, b'. tauto.
Defined.

(** A longer range is not complete: when the scan reads more than a day of one symbol before
    another, the watermark has passed the windows of the other, whose trades are dropped as
    late and whose bars are missing. *)
Theorem long_backfill_drops :
  let cfg := sample_cfg 200000000000 in
  let scan := replay_scan [Some (go_trade "BTC-USD" 100 1001); Some (go_trade "BTC-USD" 101 100000000); None;
                           Some (go_trade "ETH-USD" 5 2500)] in
  bounded_by timestamp_ms ReplayOutOfOrdernessMs (replayed cfg (ended scan))
  /\ (exists out, backfill_job cfg (ended scan) = Ok out /\ map w_symbol out = ["BTC-USD"; "BTC-USD"])
  /\ w_symbol <$> (backfill_bars 1 (backfillStartUs cfg) (backfillEndUs cfg) (elements scan) !! ("coinbase|ETH-USD", 2000))
     = Some "ETH-USD".
Proof.
  cbn zeta. split; [|split; [eexists; split|]; vm_compute; reflexivity].
  rewrite replayed_ended. apply ended_bounded.
  match goal with |- bounded_by _ _ ?s => assert (s = emitted timestamp_ms ReplayOutOfOrdernessMs
    (map (fmap trade_of_go) [Some (go_trade "BTC-USD" 100 1001); Some (go_trade "BTC-USD" 101 100000000); None;
                           Some (go_trade "ETH-USD" 5 2500)])) as -> by (vm_compute; reflexivity) end.
  apply emitted_bounded.
Qed.

(** A trade later than the live bound is in the lakehouse and in no live bar, so the two
    jobs give different bars. *)
Theorem late_trade_differs :
  let l := [Some (go_trade "BTC-USD" 100 1001); Some (go_trade "BTC-USD" 101 9000); None; Some (go_trade "BTC-USD" 99 1500)] in
  bar_times (trades_job no_text (sample_cfg 2000000) (go_records (ended (emitted go_timestamp_ms 5000 l))))
    = [(1000000, 1); (9000000, 1)]
  /\ bar_times (backfill_job (sample_cfg 2000000) (ended (replay_scan l))) = [(1000000, 2)].
Proof. split; vm_compute; reflexivity. Qed.

(** A time of zero does not hold the watermark back, which follows the largest. *)
Theorem zero_time_harmless bound t1 t2 :
  0 < t1 -> t1 < t2 ->
  emitted (fun t => t) bound [Some t1; Some 0; None; Some t2; None]
  = [Element t1; Element 0; Watermark (t1 - bound - 1); Element t2; Watermark (t2 - bound - 1)].
Proof. intros H1 H2. cbn. by rewrite !Z.max_l, Z.max_r by lia. Qed.

(** The jobs do not know a record they have read before: a trade that the Go tier publishes
    again after a failed write is in its bar twice. *)
Theorem republished_trade_counted_twice :
  let g := go_trade "BTC-USD" 100 1001 in
  bar_times (trades_job no_text (sample_cfg 0) (go_records (ended [Element g]))) = [(1000000, 1)]
  /\ bar_times (trades_job no_text (sample_cfg 0) (go_records (ended [Element g; Element g]))) = [(1000000, 2)].
Proof. split; vm_compute; reflexivity. Qed.
