(* ===== verification/Transport.v ===== *)
(** * Between the tiers: sinks, record headers and partitions

    src/stream/src/main/scala/io/tapeline/stream/pipeline: Connectors.scala (the sinks and
    [AvroKeyedSerializer]) and FlinkEnv.scala, and of the serving tier
    tracing/Tracing.java, which reads the headers that internal/sink/kafka.go of the Go tier
    writes (Sink.v). Confluent's serializer, the partitioner of the Kafka client (a function
    of the key) and the propagator of OpenTelemetry are arguments. *)

From S2P Require Import Prelude.
From S2P Require Import GoStrings.
From S2P Require Import GoStrconv.
From S2P Require Import Encode.
From S2P Require Import Tracing.
From S2P Require Import Sink.
From S2P Require Import Registry.
From S2P Require Import TreeMap.
From S2P Require Import OrderBook.
From S2P Require Import BookFunction.
From S2P Require Import Signing.
From S2P Require Import Aggregates.
From S2P Require Import Divergence.
From S2P Require Import Codec.
From S2P Require Import StreamConfig.
From S2P Require Import Quotes.
From S2P Require Import Serving.

Local Open Scope Z_scope.

(** ** Sinks *)

(** [Connectors.subjectFor]. *)
Definition subjectFor (topic : string) : string := topic +:+ "-value".

(** A sink, exactly once, and the timeout of its transactions. *)
Record KafkaSink := mkSink {
  sk_brokers : string; sk_topic : string; sk_subject : string; sk_schema : string; sk_registry : string;
  sk_transactionalIdPrefix : string; sk_transactionTimeoutMs : Z }.
Definition avroSink (cfg : StreamConfig) (topic prefix schema : string) : KafkaSink :=
  mkSink (kafkaBrokers cfg) topic (subjectFor topic) schema (schemaRegistryUrl cfg) prefix 600000.

(** The sinks of the jobs; the lakehouse job writes to its table. *)
Definition book_sink (cfg : StreamConfig) : KafkaSink :=
  avroSink cfg (topicQuotes cfg) (transactionalId cfg "book") QuoteSchema.
Definition trades_sink (cfg : StreamConfig) : KafkaSink :=
  avroSink cfg (topicBars cfg) (transactionalId cfg "trades") WindowBarSchema.
Definition divergence_sink (cfg : StreamConfig) : KafkaSink :=
  avroSink cfg (topicDivergence cfg) (transactionalId cfg "divergence") DivergenceSchema.
Definition backfill_sink (cfg : StreamConfig) : KafkaSink :=
  avroSink cfg (topicBars cfg) (transactionalId cfg "backfill") WindowBarSchema.
Definition monolith_sinks (cfg : StreamConfig) : list KafkaSink :=
  [avroSink cfg (topicQuotes cfg) (transactionalId cfg "monolith-quotes") QuoteSchema;
   avroSink cfg (topicBars cfg) (transactionalId cfg "monolith-bars") WindowBarSchema;
   avroSink cfg (topicDivergence cfg) (transactionalId cfg "monolith-divergence") DivergenceSchema].
Definition job_sinks (cfg : StreamConfig) (j : job) : list KafkaSink :=
  match j with
  | Book => [book_sink cfg] | Trades => [trades_sink cfg] | DivergenceDetector => [divergence_sink cfg]
  | LakehouseWriter => [] | Backfill => [backfill_sink cfg] | Monolith => monolith_sinks cfg
  end.

(** ** Sources *)

Inductive offsets := Earliest | CommittedOrEarliest.
Record KafkaSource := mkSource {
  so_brokers : string; so_topic : string; so_group : string; so_offsets : offsets; so_registry : string }.
Definition avroSource (cfg : StreamConfig) (topic group : string) (startFromEarliest : Datatypes.bool) : KafkaSource :=
  mkSource (kafkaBrokers cfg) topic group (if startFromEarliest then Earliest else CommittedOrEarliest) (schemaRegistryUrl cfg).
Definition book_source (cfg : StreamConfig) : KafkaSource := avroSource cfg (topicBook cfg) (groupId cfg "book") false.
Definition trades_source (cfg : StreamConfig) (group : string) : KafkaSource := avroSource cfg (topicTrades cfg) group false.
Definition divergence_source (cfg : StreamConfig) : KafkaSource :=
  avroSource cfg (topicQuotes cfg) (groupId cfg "divergence") false.
(** The monolith builds the book job's source. *)
Definition job_sources (cfg : StreamConfig) (j : job) : list KafkaSource :=
  match j with
  | Book => [book_source cfg] | Trades => [trades_source cfg (groupId cfg "trades")]
  | DivergenceDetector => [divergence_source cfg] | LakehouseWriter => [trades_source cfg (groupId cfg "lakehouse")]
  | Backfill => [] | Monolith => [book_source cfg; trades_source cfg (groupId cfg "monolith")]
  end.

(** [FlinkEnv.create]. *)
Record FlinkEnv := mkFlinkEnv {
  fe_parallelism : Z; fe_checkpointIntervalMs : Z; fe_checkpointTimeoutMs : Z; fe_minPauseMs : Z;
  fe_maxConcurrent : Z; fe_tolerableFailures : Z }.
Definition flink_env (cfg : StreamConfig) : FlinkEnv :=
  mkFlinkEnv (parallelism cfg) (checkpointIntervalMs cfg) (checkpointTimeoutMs cfg) (minPauseBetweenCheckpointsMs cfg) 1 3.

(** ** Records *)

Record ProducerRecord := mkProducerRecord {
  pr_topic : string; pr_partition : option Z; pr_timestamp : Z; pr_key : string; pr_value : list byte;
  pr_headers : list (string * string) }.

(** [AvroKeyedSerializer]; [inner] is Confluent's serializer. *)
Section serializer.
Context {T : Type} (topic : string) (keyOf : T -> string) (toRecord : T -> GenericRecord) (eventTimeUsOf : T -> Z).
Context (inner : GenericRecord -> list byte).

Definition serialize (element : T) : ProducerRecord :=
  mkProducerRecord topic None (Z.quot (eventTimeUsOf element) 1000) (keyOf element) (inner (toRecord element)) [].
End serializer.

(** What the book job's sink writes for a quote. *)
Definition quote_to_record (cfg : StreamConfig) (inner : GenericRecord -> list byte) : Quote -> ProducerRecord :=
  serialize (topicQuotes cfg) q_symbol fromQuote q_eventTimeUs inner.

(** ** Headers *)

(** [KAFKA_GETTER]; the record may be null. *)
Definition getter_keys (headers : list (string * string)) : list string := map fst headers.
Definition lastHeader (headers : list (string * string)) (key : string) : option string :=
  snd <$> List.find (fun h => String.eqb h.1 key) (rev headers).
Definition getter_get (headers : option (list (string * string))) (key : string) : option string :=
  hs ← headers; lastHeader hs key.

(** A propagator takes what the getter yields; it leaves the context as it is when there is
    no [traceparent]. *)
Class Propagator := {
  trace_context : Type;
  propagate : trace_context -> list string -> (string -> option string) -> trace_context;
}.
Class LawfulPropagator (P : Propagator) : Prop :=
  no_traceparent : forall c keys get, get "traceparent" = None -> propagate c keys get = c.

(** [Tracing.openTelemetry]: off without a collector. *)
Definition SERVICE_NAME : string := "tapeline-serving".
Inductive OpenTelemetry := OtelNoop | OtelSdkTo (service endpoint : string) (sampleRatio : float64).
Definition openTelemetry (endpoint : string) (sampleRatio : float64) : OpenTelemetry :=
  if isBlank endpoint then OtelNoop else OtelSdkTo SERVICE_NAME ("http://" +:+ endpoint) sampleRatio.

(** [Tracing.extract]. *)
Definition extract `{Propagator} (current : trace_context) (headers : list (string * string)) : trace_context :=
  propagate current (getter_keys headers) (getter_get (Some headers)).

(** ** Partitions *)

Section partitions.
Context (partition_of : string -> nat) (partitions : nat).

(** The log of every partition: the records whose key it has, in the order of production. *)
Definition logs (records : list ProducerRecord) : list (list ProducerRecord) :=
  map (fun i => List.filter (fun r => (partition_of (pr_key r) =? i)%nat) records) (seq 0 partitions).
(** What the consumer's threads read; [read] is the reader of Quotes.v and its mapper. *)
Definition consumed_quotes (read : list byte -> res QuoteSnapshot) (records : list ProducerRecord)
    : list (list (res QuoteSnapshot)) :=
  map (map (fun r => read (pr_value r))) (logs records).
End partitions.

(** ** Lemmas *)

Lemma find_key_nodup {V} (l : list (string * V)) k v :
  NoDup (map fst l) -> (k, v) ∈ l -> List.find (fun h => String.eqb h.1 k) l = Some (k, v).
Proof.
  induction l as [|[k' v'] l IH]; [by intros _ ?%elem_of_nil|]. cbn [map List.find fst]. intros [Hk Hl]%NoDup_cons [E|Hin]%elem_of_cons.
  - injection E as -> ->. by rewrite String.eqb_refl.
  - destruct (String.eqb_spec k' k) as [->|]; [|by apply IH]. destruct Hk. apply list_elem_of_fmap. by exists (k, v).
Qed.

Lemma find_key_none {V} (l : list (string * V)) k :
  ~ k ∈ map fst l -> List.find (fun h => String.eqb h.1 k) l = None.
Proof.
  induction l as [|[k' v'] l IH]; [done|]. cbn [map List.find fst]. intros Hk.
  destruct (String.eqb_spec k' k) as [->|]; [destruct Hk; apply list_elem_of_here|]. apply IH. intros H. apply Hk, elem_of_cons. by right.
Qed.

(** The last header of a carrier. *)
Lemma lastHeader_carrier (hs : list (string * string)) (t : gmap string string) k :
  lastHeader (hs ++ map_to_list t) k = match t !! k with Some v => Some v | None => lastHeader hs k end.
Proof.
  unfold lastHeader. rewrite rev_app_distr. assert (forall l l' : list (string * string),
    List.find (fun h => String.eqb h.1 k) (l ++ l') = match List.find (fun h => String.eqb h.1 k) l with
      Some x => Some x | None => List.find (fun h => String.eqb h.1 k) l' end) as Happ.
  { intros l l'. induction l as [|x l IH]; [done|]. cbn. by destruct (String.eqb x.1 k). }
  rewrite Happ. destruct (t !! k) as [v|] eqn:E.
  - rewrite (find_key_nodup _ k v); [done| |].
    + rewrite map_rev, <- Permutation_rev. apply NoDup_fst_map_to_list.
    + rewrite <- Permutation_rev. by apply elem_of_map_to_list.
  - rewrite find_key_none; [done|]. rewrite map_rev, <- Permutation_rev. intros ([k' v] & -> & Hin)%list_elem_of_fmap.
    apply elem_of_map_to_list in Hin. cbn in E. congruence.
Qed.

Lemma filter_order {A} (f : A -> Datatypes.bool) (l : list A) : forall j k x y, (j <= k)%nat ->
  List.filter f l !! j = Some x -> List.filter f l !! k = Some y ->
  exists pre post, l = pre ++ x :: post /\ y ∈ x :: post.
Proof.
  induction l as [|a l IH]; intros j k x y Hjk Hx Hy; [done|].
  assert (forall j k, (j <= k)%nat -> List.filter f l !! j = Some x -> List.filter f l !! k = Some y ->
    exists pre post, a :: l = pre ++ x :: post /\ y ∈ x :: post) as Hl.
  { intros j' k' H Hx' Hy'. destruct (IH j' k' x y H Hx' Hy') as (pre & post & -> & Hin). by exists (a :: pre), post. }
  cbn [List.filter] in Hx, Hy. destruct (f a); [|by eapply Hl].
  destruct j as [|j].
  - injection Hx as ->. exists [], l. split; [done|]. destruct k as [|k]; [injection Hy as ->; apply list_elem_of_here|].
    apply elem_of_cons. right. cbn in Hy. apply list_elem_of_lookup_2 in Hy. rewrite list_elem_of_In in *.
    by apply filter_In in Hy as [? _].
  - destruct k as [|k]; [lia|]. apply (Hl j k); [lia|done|done].
Qed.

(** ** The quote topic *)

Section quote_topic.
Context (toString : datum -> string) (cfg : StreamConfig) (partition_of : string -> nat) (partitions : nat).
Context (inner : GenericRecord -> list byte) (read : list byte -> res QuoteSnapshot).

(** What the reader makes of a record that the sink wrote. *)
Definition snapshot_of (q : Quote) : QuoteSnapshot := fromAvro toString (fromQuote q).
Definition reads_back (qs : list Quote) : Prop := forall q, q ∈ qs -> read (inner (fromQuote q)) = Ok (snapshot_of q).

Definition quote_topic (qs : list Quote) : list (list (res QuoteSnapshot)) :=
  consumed_quotes partition_of partitions read (map (quote_to_record cfg inner) qs).

Context (qs : list Quote) (Hread : reads_back qs).

Lemma quote_topic_at i k s : quote_at (quote_topic qs) i k = Some s ->
  exists q, List.filter (fun q => (partition_of (q_symbol q) =? i)%nat) qs !! k = Some q /\ s = snapshot_of q.
Proof.
  unfold quote_at, quote_topic, consumed_quotes, logs. rewrite map_map. intros H.
  destruct (map _ (seq 0 partitions) !! i) as [rs|] eqn:E; [|done]. cbn [mbind option_bind] in H.
  rewrite list_lookup_fmap in E. destruct (seq 0 partitions !! i) as [i'|] eqn:Ei; [|done]. injection E as <-.
  apply lookup_seq in Ei as [-> _]. rewrite list_lookup_fmap in H.
  assert (List.filter (fun r => (partition_of (pr_key r) =? 0 + i)%nat) (map (quote_to_record cfg inner) qs)
    = map (quote_to_record cfg inner) (List.filter (fun q => (partition_of (q_symbol q) =? i)%nat) qs)) as Hf.
  { clear. induction qs as [|q l IH]; [done|]. cbn [map List.filter]. change (pr_key (quote_to_record cfg inner q)) with (q_symbol q).
    cbn [Nat.add] in *. by destruct (_ =? _)%nat; cbn [map]; rewrite IH. }
  rewrite Hf, list_lookup_fmap in H. destruct (List.filter _ qs !! k) as [q|] eqn:Eq; [|done]. exists q. split; [done|].
  apply list_elem_of_lookup_2, list_elem_of_In, filter_In in Eq as [Eq%list_elem_of_In _].
  cbn [fmap option_fmap option_map mbind option_bind] in H. change (pr_value (quote_to_record cfg inner q)) with (inner (fromQuote q)) in H.
  rewrite (Hread q Eq) in H. by injection H as <-.
Qed.

(** The records of a symbol are in one partition. *)
Lemma quote_topic_keyed : keyed_by_symbol (quote_topic qs).
Proof.
  assert (forall i k s, quote_at (quote_topic qs) i k = Some s -> partition_of (s_symbol s) = i) as H.
  { intros i k s (q & Hq & ->)%quote_topic_at. apply list_elem_of_lookup_2, list_elem_of_In, filter_In in Hq as [_ Hq].
    by apply Nat.eqb_eq in Hq. }
  intros i j k l s s' H1%H H2%H E. congruence.
Qed.
End quote_topic.

(** ** Properties *)

(** Read your writes, from the sink to the API. Whatever quotes the book job writes in
    whatever order, keyed by symbol, however many partitions and consumer threads there are
    and however the threads interleave, whichever commands Redis loses, refuses or answers
    too late: once a quote has been broadcast, [latest] never answers with one of its symbol
    and venue that the job wrote before it, but with that quote, with one the job wrote
    after it, or with nothing. *)
Theorem topic_read_your_writes `{J : JsonCodec, !LawfulJson J} toString cfg partition_of partitions inner read
    (qs : list Quote) r schedule i k s now s' :
  reads_back toString inner read qs ->
  (forall q, q ∈ qs -> is_Some (writeValueAsString (snapshot_of toString q))) ->
  Forall (fun e => honest (ce_fate e)) schedule ->
  let topic := quote_topic cfg partition_of partitions inner read qs in
  let st := crun (cstart r topic) schedule in
  (i, k) ∈ c_published st -> quote_at topic i k = Some s ->
  latest (c_redis st) (s_symbol s) (s_venue s) now = Some s' ->
  exists pre q post q', qs = pre ++ q :: post /\ s = snapshot_of toString q
    /\ q' ∈ q :: post /\ s' = snapshot_of toString q' /\ q_symbol q' = q_symbol q /\ q_venue q' = q_venue q.
Proof.
  intros Hread Hw Hhon topic st Hpub Hs Hl.
  assert (all_writable topic) as Hwr.
  { intros i' k' x (q & Hq & ->)%(quote_topic_at toString cfg partition_of partitions inner read qs Hread).
    apply Hw. apply list_elem_of_lookup_2, list_elem_of_In, filter_In in Hq as [Hq _]. by apply list_elem_of_In. }
  pose proof (quote_topic_keyed toString cfg partition_of partitions inner read qs Hread) as Hkey.
  destruct (read_your_writes r topic schedule i k s now s' Hkey Hwr Hhon Hpub Hs Hl) as (j & Hkj & Hj & Hsym & Hven).
  apply (quote_topic_at toString cfg partition_of partitions inner read qs Hread) in Hs as (q & Hq & ->), Hj as (q' & Hq' & ->).
  destruct (filter_order _ _ _ _ _ _ Hkj Hq Hq') as (pre & post & E & Hin). by exists pre, q, post, q'.
Qed.

(** The subjects of the two tiers are the same. *)
Theorem subjects_agree topic : subjectFor topic = SubjectForTopic topic.
Proof. reflexivity. Qed.

(** What the Go tier's carrier sends the Java getter reads: for every header of a traced
    message the value the propagator injected, and for an untraced one no trace. *)
Theorem carrier_read_back m key :
  getter_get (Some (kafka_headers m)) key =
  match m_Trace m with
  | Some t => match t !! key with Some v => Some v | None => getter_get (Some (kafka_headers (mkMessage (m_Topic m) (m_Key m)
                (m_Value m) (m_TimeUS m) (m_Venue m) (m_Kind m) None))) key end
  | None => if String.eqb "kind" key then Some (m_Kind m) else if String.eqb "venue" key then Some (m_Venue m) else None
  end.
Proof.
  unfold getter_get, kafka_headers. cbn [mbind option_bind m_Trace m_Venue m_Kind]. destruct (m_Trace m) as [t|].
  - rewrite lastHeader_carrier. destruct (t !! key); [done|]. by rewrite app_nil_r.
  - unfold lastHeader. cbn [app rev List.find fst]. by destruct (String.eqb "kind" key), (String.eqb "venue" key).
Qed.

(** No record of the stream tier continues a trace: it has no headers, so the serving tier
    starts a root for every quote, whatever the Go tier traced. *)
Theorem stream_records_untraced {P : Propagator} `{!LawfulPropagator P} {T} topic (keyOf : T -> string) toRecord time inner
    (element : T) current :
  extract current (pr_headers (serialize topic keyOf toRecord time inner element)) = current.
Proof. apply no_traceparent. reflexivity. Qed.

Lemma app_inj_prefix (p a b : string) : p +:+ a = p +:+ b -> a = b.
Proof. induction p as [|c p IH]; cbn; [done|]. intros E. injection E as E. by apply IH. Qed.

(** No two sinks, of one job or of two, have the same transactional id prefix. *)
Theorem sinks_do_not_fence cfg j j' s s' : s ∈ job_sinks cfg j -> s' ∈ job_sinks cfg j' ->
  sk_transactionalIdPrefix s = sk_transactionalIdPrefix s' -> j = j' /\ s = s'.
Proof.
  destruct j, j'; cbn [job_sinks]; unfold monolith_sinks; rewrite ?elem_of_cons, ?elem_of_nil; intros; destruct_or?; subst; try done;
    unfold book_sink, trades_sink, divergence_sink, backfill_sink, avroSink, transactionalId in *;
    cbn [sk_transactionalIdPrefix] in *; match goal with H : _ = _ |- _ => by apply app_inj_prefix in H end.
Qed.

(** No two jobs have a consumer group in common, but for the monolith, which reads the book
    topic in the group of the book job and starts where that job committed. *)
Theorem groups_of_jobs cfg j j' s s' : s ∈ job_sources cfg j -> s' ∈ job_sources cfg j' ->
  so_group s = so_group s' ->
  s = s' /\ (j = j' \/ s = book_source cfg /\ (j = Book \/ j = Monolith) /\ (j' = Book \/ j' = Monolith))
  /\ so_offsets s = CommittedOrEarliest.
Proof.
  destruct j, j'; cbn [job_sources]; rewrite ?elem_of_cons, ?elem_of_nil; intros; destruct_or?; subst; try done;
    unfold book_source, trades_source, divergence_source, avroSource, groupId in *; cbn [so_group so_offsets] in *;
    try match goal with H : _ = _ |- _ => by apply app_inj_prefix in H end; auto 10.
Qed.

(** A transaction stays open across a checkpoint, but settings pass with an interval that
    is longer than the transactions of the sinks live. *)
Theorem interval_outlives_transaction :
  exists sys_env cfg, fromEnv sys_env no_doubles = Ok cfg
    /\ forall j s, s ∈ job_sinks cfg j -> sk_transactionTimeoutMs s < fe_checkpointIntervalMs (flink_env cfg).
Proof.
  exists (fun k => if String.eqb k "TAPELINE_CHECKPOINT_INTERVAL_MS" then Some "900000"
                   else if String.eqb k "TAPELINE_CHECKPOINT_TIMEOUT_MS" then Some "1000000" else None).
  eexists. split; [vm_compute; reflexivity|]. intros j s Hs.
  assert (sk_transactionTimeoutMs s = 600000) as ->; [|reflexivity].
  destruct j; cbn [job_sinks] in Hs; unfold monolith_sinks in Hs; rewrite ?elem_of_cons, ?elem_of_nil in Hs; destruct_or?; by subst.
Qed.
