(* ===== verification/Served.v ===== *)
(** * From the exchange's deltas to the answer of the API

    The tiers composed with their concurrency: the book job of EndToEnd.v, the partitioned
    topic of Transport.v, the consumer threads of Serving.v and the cache of Quotes.v. *)

From S2P Require Import Prelude.
From S2P Require Import GoStrings.
From S2P Require Import GoStrconv.
From S2P Require Import Model.
From S2P Require Import TreeMap.
From S2P Require Import OrderBook.
From S2P Require Import BookFunction.
From S2P Require Import Codec.
From S2P Require Import StreamConfig.
From S2P Require Import Quotes.
From S2P Require Import Serving.
From S2P Require Import EndToEnd.
From S2P Require Import Transport.

Local Open Scope Z_scope.

(** ** Properties *)

(** C7. Read your writes across the tiers. Let the book job run over any deltas of the Go
    tier, write its quotes keyed by symbol to a topic of any number of partitions, and let
    consumer threads, one per partition, interleave in any way while Redis loses, refuses
    or answers late. Once a quote has been broadcast, [latest] answers for its symbol and
    venue with that quote, with one the job wrote after it, or with nothing, and never with
    one the job wrote before it; and what it answers was the top of the book of that symbol
    and venue (of its deltas that the job's filter keeps) at a moment of the job's run,
    valid and not crossed. *)
Theorem api_read_your_writes `{J : JsonCodec, !LawfulJson J} toString cfg partition_of partitions inner read
    feed o outs schedule i k s now s' :
  0 < bookMaxDepth cfg -> 0 < imbalanceDepth cfg ->
  book_job toString (bookMaxDepth cfg) (imbalanceDepth cfg) (quoteEmitIntervalMs cfg) feed = Ok (o, outs) ->
  let written := map snd outs in
  reads_back toString inner read written ->
  (forall q, q ∈ written -> is_Some (writeValueAsString (snapshot_of toString q))) ->
  Forall (fun e => honest (ce_fate e)) schedule ->
  let topic := quote_topic cfg partition_of partitions inner read written in
  let st := crun (cstart ∅ topic) schedule in
  (i, k) ∈ c_published st -> quote_at topic i k = Some s ->
  latest (c_redis st) (s_symbol s) (s_venue s) now = Some s' ->
  exists before q after q' key,
    written = before ++ q :: after /\ s = snapshot_of toString q
    /\ q' ∈ q :: after /\ s' = snapshot_of toString q' /\ q_symbol q' = q_symbol q /\ q_venue q' = q_venue q
    /\ top_of_book (bookMaxDepth cfg) (imbalanceDepth cfg) feed key q'.
Proof.
  intros Hd Hi Hrun written Hread Hw Hhon topic st Hpub Hs Hl.
  destruct (topic_read_your_writes toString cfg partition_of partitions inner read written ∅ schedule i k s now s'
    Hread Hw Hhon Hpub Hs Hl) as (before & q & after & q' & E & -> & Hin & -> & Hsym & Hven).
  assert (q' ∈ written) as Hq by (rewrite E; apply elem_of_app; by right).
  apply list_elem_of_fmap in Hq as ([key q1] & Eq & Hout). cbn in Eq. subst q1.
  exists before, q, after, q', key. do 6 (split; [done|]). by eapply job_quotes.
Qed.

(** ** A run *)

(** The run of EndToEnd.v goes on with a second quote of the same key. *)
Definition two_quote_feed : list feed_item :=
  sample_feed ++ [FRecord (go_delta false [(100, 4)] [] 4) 150; FTimer "coinbase|BTC-USD" 200 201 2000].
Definition two_quotes : res (operator * list (string * Quote)) := book_job no_text 50 5 100 two_quote_feed.
Definition two_written : list Quote := match two_quotes with Ok (_, outs) => map snd outs | _ => [] end.
Definition quote_no (n : nat) : QuoteSnapshot :=
  match two_written !! n with Some q => snapshot_of no_text q | None => quote_a end.

(** Codecs that know two quotes. *)
Definition pair_json (a b : QuoteSnapshot) : JsonCodec := {|
  writeValueAsString q := if decide (q = a) then Some "a" else if decide (q = b) then Some "b" else None;
  readValue t := if String.eqb t "a" then Some a else if String.eqb t "b" then Some b else None |}.
Lemma pair_lawful a b : LawfulJson (pair_json a b).
Proof.
  intros q t. cbn [writeValueAsString readValue pair_json].
  destruct (decide (q = a)) as [->|_]; [by intros [= <-]|]. by destruct (decide (q = b)) as [->|_]; [intros [= <-]|].
Qed.
Definition two_inner (r : GenericRecord) : list Byte.byte :=
  match record_get r "event_time_us" with DLong 3000 => [] | _ => [Byte.x00] end.
Definition two_read (b : list Byte.byte) : res QuoteSnapshot :=
  match b with [] => Ok (quote_no 0) | _ => Ok (quote_no 1) end.
Definition two_topic : list (list (res QuoteSnapshot)) :=
  quote_topic (sample_cfg 0) String.length 12 two_inner two_read two_written.
#[local] Instance two_json : JsonCodec := pair_json (quote_no 0) (quote_no 1).
Definition two_state : cstate := crun (cstart ∅ two_topic) (map (fun n => at_ms 7 (Z.of_nat n)) (seq 1 10)).

Lemma api_read_your_writes_witness :
  (7, 0)%nat ∈ c_published two_state
  /\ latest (c_redis two_state) (s_symbol (quote_no 0)) (s_venue (quote_no 0)) 50 = Some (quote_no 1)
  /\ exists before q after q' key, two_written = before ++ q :: after /\ quote_no 0 = snapshot_of no_text q
       /\ q' ∈ q :: after /\ quote_no 1 = snapshot_of no_text q' /\ top_of_book 50 5 two_quote_feed key q'.
Proof.
  assert ((7, 0)%nat ∈ c_published two_state) as Hp by (vm_compute; apply list_elem_of_here).
  assert (latest (c_redis two_state) (s_symbol (quote_no 0)) (s_venue (quote_no 0)) 50 = Some (quote_no 1)) as Hl
    by (vm_compute; reflexivity).
  split; [exact Hp|]. split; [exact Hl|]. clear Hp Hl.
  assert (exists o outs, two_quotes = Ok (o, outs) /\ map snd outs = two_written) as (o & outs & E & Ew).
  { assert (is_ok two_quotes = true) as H by (vm_compute; reflexivity). unfold two_written.
    destruct two_quotes as [[o outs]| |]; [|discriminate H..]. exists o, outs. split; reflexivity. }
  assert (forall q, q ∈ two_written -> two_read (two_inner (fromQuote q)) = Ok (snapshot_of no_text q)) as Hr.
  { assert (forallb (fun q => match two_read (two_inner (fromQuote q)) with
                              | Ok s => bool_decide (s = snapshot_of no_text q) | _ => false end) two_written = true) as H
      by (vm_compute; reflexivity).
    rewrite forallb_forall in H. intros q Hq%list_elem_of_In. specialize (H q Hq).
    destruct (two_read _) as [s| |]; [|discriminate H..]. apply bool_decide_eq_true in H. rewrite H. reflexivity. }
  assert (forall q, q ∈ two_written -> is_Some (writeValueAsString (snapshot_of no_text q))) as Hw.
  { assert (forallb (fun q => bool_decide (is_Some (writeValueAsString (snapshot_of no_text q)))) two_written = true) as H
      by (vm_compute; reflexivity).
    rewrite forallb_forall in H. intros q Hq%list_elem_of_In. exact (proj1 (bool_decide_eq_true _) (H q Hq)). }
  pose proof (@api_read_your_writes two_json (pair_lawful _ _) no_text (sample_cfg 0) String.length 12 two_inner two_read
    two_quote_feed o outs (map (fun n => at_ms 7 (Z.of_nat n)) (seq 1 10)) 7 0 (quote_no 0) 50 (quote_no 1)
    ltac:(reflexivity) ltac:(reflexivity) E) as H.
  cbn zeta in H. rewrite Ew in H. specialize (H Hr Hw ltac:(repeat constructor)). clear E Ew Hr Hw.
  unshelve epose proof (H _ _ _) as (x & q & y & q' & key & H1 & H2 & H3 & H4 & _ & _ & H5).
  1: vm_compute; apply list_elem_of_here. 1-2: vm_compute; reflexivity.
  exists x, q, y, q', key. repeat (split; [assumption|]). assumption.
Defined.
