(* ===== verification/GrpcServer.v ===== *)
(** * Serving tier: the lifecycle of the gRPC server

    src/serving/src/main/java/io/tapeline/serving/grpc/GrpcServerRunner.java. A call of the
    gRPC library is an action; what the library answers is an argument. Spring calls
    [start] on a component that is not running and [stop] on one that is. *)

From S2P Require Import Prelude.
From S2P Require Import GoStrings.
From S2P Require Import GoStrconv.

Local Open Scope Z_scope.

(** ** The runner *)

Record settings := mkSettings { g_port : Z; g_reflection : bool; g_graceSeconds : Z }.

(** [server], with the port it is bound to, and [running]. *)
Record runner := mkRunner { r_server : option Z; r_running : bool }.
Definition new_runner : runner := mkRunner None false.

Inductive action := Start (reflection : bool) | Shutdown | Await (seconds : Z) | ShutdownNow | Interrupt.

(** [start]; the answer is the port the server is bound to, or an [IOException]. *)
Definition start (c : settings) (bound : option Z) (r : runner) : res unit * runner * list action :=
  match bound with
  | Some p => (Ok tt, mkRunner (Some p) true, [Start (g_reflection c)])
  | None => (Err (EMsg ("could not start the gRPC server on port " +:+ FormatInt (g_port c))), r, [])
  end.

(** What [awaitTermination] does. *)
Inductive drained := Drained | TimedOut | Interrupted.
Definition stop (c : settings) (answer : drained) (r : runner) : runner * list action :=
  match r_server r with
  | None => (r, [])
  | Some p =>
      (mkRunner (Some p) false,
       [Shutdown; Await (g_graceSeconds c)]
       ++ match answer with Drained => [] | TimedOut => [ShutdownNow] | Interrupted => [Interrupt; ShutdownNow] end)
  end.

Definition isRunning (r : runner) : bool := r_running r.
Definition getPhase : Z := two31 - 1 - 100.
Definition port (c : settings) (r : runner) : Z := default (g_port c) (r_server r).

(** ** Under Spring *)

Inductive lifecycle := LStart (bound : option Z) | LStop (answer : drained).
Definition lifecycle_step (c : settings) (s : runner * list action) (e : lifecycle) : runner * list action :=
  let '(r, done) := s in
  match e with
  | LStart bound => if isRunning r then s else let '(_, r', acts) := start c bound r in (r', done ++ acts)
  | LStop answer => if isRunning r then let '(r', acts) := stop c answer r in (r', done ++ acts) else s
  end.
Definition lifecycle_run (c : settings) (es : list lifecycle) : runner * list action :=
  fold_left (lifecycle_step c) es (new_runner, []).

(** ** Properties *)

Definition is_start (a : action) : bool := match a with Start _ => true | _ => false end.
Definition is_shutdown (a : action) : bool := match a with Shutdown => true | _ => false end.
Definition count_of (p : action -> bool) (l : list action) : nat := length (List.filter p l).

Lemma count_of_app p l l' : count_of p (l ++ l') = (count_of p l + count_of p l')%nat.
Proof. unfold count_of. by rewrite List.filter_app, length_app. Qed.

(** However often Spring starts and stops the runner and whatever the library answers: one
    server listens while the runner is running and none otherwise, so no server is started
    over another and none is left behind; a failed start changes nothing. *)
Theorem one_server c es :
  let '(r, done) := lifecycle_run c es in
  count_of is_start done = (count_of is_shutdown done + if isRunning r then 1 else 0)%nat
  /\ (isRunning r = true -> is_Some (r_server r)).
Proof.
  unfold lifecycle_run. induction es as [|e es IH] using rev_ind; [done|]. rewrite fold_left_app. cbn [fold_left].
  destruct (fold_left _ es _) as [[sv run] done]. destruct IH as [IH Hs]. unfold isRunning in *. cbn [r_running r_server] in *.
  destruct e as [[p|]|answer]; cbn [lifecycle_step isRunning r_running]; destruct run; cbn [start stop r_server r_running];
    rewrite ?app_nil_r; try done.
  - rewrite !count_of_app, IH. cbn. split; [lia|by intros _].
  - destruct sv as [p|]; [|by destruct (Hs eq_refl)]. cbn [stop r_server].
    rewrite !count_of_app, IH.
    split; [destruct answer; cbn; lia|done].
Qed.

(** A stop ends the server: it drains within the grace period or is forced, and an
    interrupt is passed on. *)
Theorem stop_ends_server c answer r p : r_server r = Some p ->
  let '(r', acts) := stop c answer r in
  isRunning r' = false /\ (exists rest, acts = Shutdown :: Await (g_graceSeconds c) :: rest)
  /\ (answer = Drained \/ last acts = Some ShutdownNow) /\ (Interrupt ∈ acts <-> answer = Interrupted).
Proof.
  intros Hp. unfold stop. rewrite Hp. split; [done|]. split; [by eexists|]. split; [destruct answer; by auto|].
  destruct answer; cbn [app]; rewrite ?elem_of_cons, elem_of_nil; split; try done; intros; destruct_or?; try done. by auto.
Qed.

(** The runner stays in the lifecycle of a failed start as if it had not been called. *)
Theorem failed_start c r : start c None r
  = (Err (EMsg ("could not start the gRPC server on port " +:+ FormatInt (g_port c))), r, []).
Proof. reflexivity. Qed.
